(** * type-builder: slot allocation, group order, payload codec and POSICAO snapshot

    A shallow embedding of the serialization core of the flow editor:

    - [supabaseColumnMapping.ts]  slot names [M1..M50] / [T1..T50], the
      normalizer and the post-deletion shift;
    - [useGroupOrder.ts]          the canonical group order;
    - [workflowStore.ts]          [applyNormalizationToNodes];
    - [posicaoEncoding.ts]        the POSICAO v2 snapshot;
    - [FetchFlowsModal.tsx]       [parseColumnValue], [parseTColumn];
    - the flow editor page        [buildSupabaseValueForBubble],
                                  [handleChangeBubbleColumn].

    Modelling conventions.

    - A JavaScript string is a [string] of 8-bit characters standing for
      ASCII text: [trim] removes TAB, LF, VT, FF, CR and SPACE, and
      [toUpperCase] maps [a-z]; characters above 127 are opaque.
    - Canvas coordinates are rationals ([Q]); [Math.round] is
      [floor (x + 1/2)].
    - Step counters and slot indexes are [nat]; the numeric payload
      fields (seconds, hours, minutes) are [Z], and [Number] is modelled
      on optionally signed decimal digit strings (other spellings read as
      NaN).
    - A JavaScript [Map]/[Set] that is iterated is an insertion-ordered
      list; one that is only looked up is a [gmap]/[gset].
    - [uuidv4()] draws from an identifier supply threaded as a counter. *)

From Stdlib Require Import String Ascii List ZArith QArith Qround Lia Lqa.
From Stdlib Require Import Sorted.
From Stdlib Require Import DecimalString DecimalNat DecimalZ.
From stdpp Require Import gmap strings list fin_maps.

Import ListNotations.
Local Open Scope string_scope.
Local Open Scope list_scope.

(* ================================================================== *)
(** * Part I — definitions                                             *)
(* ================================================================== *)

(** ** JavaScript string primitives *)

Module Js.

Definition isWhiteSpace (c : ascii) : bool :=
  let n := nat_of_ascii c in
  (Nat.eqb n 9 || Nat.eqb n 10 || Nat.eqb n 11 || Nat.eqb n 12
   || Nat.eqb n 13 || Nat.eqb n 32)%bool.

Definition isDigit (c : ascii) : bool :=
  let n := nat_of_ascii c in (Nat.leb 48 n && Nat.leb n 57)%bool.

Definition digitValue (c : ascii) : nat := nat_of_ascii c - 48.

Definition upperChar (c : ascii) : ascii :=
  let n := nat_of_ascii c in
  if (Nat.leb 97 n && Nat.leb n 122)%bool then ascii_of_nat (n - 32) else c.

(** [s.length === 0] *)
Definition isEmpty (s : string) : bool :=
  match s with EmptyString => true | String _ _ => false end.

(** [s || d] on strings: the empty string is falsy. *)
Definition orElse (s d : string) : string := if isEmpty s then d else s.

(** JavaScript truthiness of an optional string:
    [undefined] and [""] are falsy. *)
Definition truthy (o : option string) : option string :=
  match o with
  | Some s => if isEmpty s then None else Some s
  | None => None
  end.

Fixpoint trimStart (s : string) : string :=
  match s with
  | String c s' => if isWhiteSpace c then trimStart s' else s
  | EmptyString => EmptyString
  end.

Fixpoint allWhiteSpace (s : string) : bool :=
  match s with
  | String c s' => (isWhiteSpace c && allWhiteSpace s')%bool
  | EmptyString => true
  end.

Fixpoint trimEnd (s : string) : string :=
  match s with
  | String c s' => if allWhiteSpace s then EmptyString else String c (trimEnd s')
  | EmptyString => EmptyString
  end.

Definition trim (s : string) : string := trimEnd (trimStart s).

Fixpoint toUpperCase (s : string) : string :=
  match s with
  | String c s' => String (upperChar c) (toUpperCase s')
  | EmptyString => EmptyString
  end.

Definition startsWith (p s : string) : bool := String.prefix p s.

(** [s.slice(n)] for [0 <= n]. *)
Fixpoint slice (n : nat) (s : string) : string :=
  match n, s with
  | O, _ => s
  | S n', String _ s' => slice n' s'
  | S _, EmptyString => EmptyString
  end.

(** [s.substring(0, n)] for [0 <= n]. *)
Fixpoint take (n : nat) (s : string) : string :=
  match n, s with
  | O, _ => EmptyString
  | S n', String c s' => String c (take n' s')
  | S _, EmptyString => EmptyString
  end.

(** [s.split(sep)] for a one-character separator; never empty. *)
Fixpoint split (sep : ascii) (s : string) : list string :=
  match s with
  | EmptyString => [EmptyString]
  | String c s' =>
      if Ascii.eqb c sep then EmptyString :: split sep s'
      else match split sep s' with
           | h :: t => String c h :: t
           | [] => [String c EmptyString]
           end
  end.

(** [parts.join(sep)] *)
Definition join (sep : string) (parts : list string) : string :=
  String.concat sep parts.

(** [s.replace(/;/g, ",")] and the like. *)
Fixpoint replaceAll (from to : ascii) (s : string) : string :=
  match s with
  | String c s' =>
      String (if Ascii.eqb c from then to else c) (replaceAll from to s')
  | EmptyString => EmptyString
  end.

(** [s.indexOf(p)]; [None] is [-1]. *)
Fixpoint indexOf (p s : string) : option nat :=
  if String.prefix p s then Some 0
  else match s with
       | String _ s' => option_map S (indexOf p s')
       | EmptyString => None
       end.

(** [s.lastIndexOf(p)]; [None] is [-1]. *)
Fixpoint lastIndexOf (p s : string) : option nat :=
  match s with
  | String _ s' =>
      match lastIndexOf p s' with
      | Some i => Some (S i)
      | None => if String.prefix p s then Some 0 else None
      end
  | EmptyString => if String.prefix p s then Some 0 else None
  end.

Fixpoint allDigits (s : string) : bool :=
  match s with
  | String c s' => (isDigit c && allDigits s')%bool
  | EmptyString => true
  end.

Fixpoint digitsValueFrom (acc : nat) (s : string) : nat :=
  match s with
  | String c s' => digitsValueFrom (10 * acc + digitValue c) s'
  | EmptyString => acc
  end.

(** Value of a string of decimal digits. *)
Definition digitsValue (s : string) : nat := digitsValueFrom 0 s.

(** [String(n)] for a natural number. *)
Definition natToString (n : nat) : string :=
  NilEmpty.string_of_uint (Nat.to_uint n).

(** [String(z)] for an integer. *)
Definition intToString (z : Z) : string :=
  match z with
  | Zneg p => String "-" (natToString (Pos.to_nat p))
  | _ => natToString (Z.to_nat z)
  end.

(** [Number(s)] on optionally signed digit strings; [None] is NaN.
    White space around the literal is ignored and the empty literal
    reads as zero, as in ECMAScript's StringToNumber. *)
Definition Number (s : string) : option Z :=
  match trim s with
  | EmptyString => Some 0%Z
  | String c r =>
      if Ascii.eqb c "-" then
        if (negb (isEmpty r) && allDigits r)%bool
        then Some (- Z.of_nat (digitsValue r))%Z else None
      else if Ascii.eqb c "+" then
        if (negb (isEmpty r) && allDigits r)%bool
        then Some (Z.of_nat (digitsValue r)) else None
      else if allDigits (String c r)
        then Some (Z.of_nat (digitsValue (String c r))) else None
  end.

(** [s.padStart(2, "0")] *)
Definition padStart2 (s : string) : string :=
  match String.length s with
  | 0 => "00"
  | 1 => String "0" s
  | _ => s
  end.

End Js.

(** ** Insertion-ordered maps and sets

    A JavaScript [Map] keeps its keys in insertion order; [set] on a key
    already present replaces the value in place, and [delete] removes the
    entry.  A [Set] built from an array keeps the first occurrence. *)

Module OMap.

Fixpoint set {V} (k : string) (v : V) (m : list (string * V)) : list (string * V) :=
  match m with
  | [] => [(k, v)]
  | (k', v') :: m' =>
      if decide (k' = k) then (k', v) :: m' else (k', v') :: set k v m'
  end.

Fixpoint get {V} (k : string) (m : list (string * V)) : option V :=
  match m with
  | [] => None
  | (k', v') :: m' => if decide (k' = k) then Some v' else get k m'
  end.

Fixpoint delete {V} (k : string) (m : list (string * V)) : list (string * V) :=
  match m with
  | [] => []
  | (k', v') :: m' =>
      if decide (k' = k) then m' else (k', v') :: delete k m'
  end.

(** [new Set(ids)] as the list of its elements in iteration order. *)
Fixpoint setOfList (ids : list string) (seen : list string) : list string :=
  match ids with
  | [] => seen
  | i :: ids' =>
      if decide (i ∈ seen) then setOfList ids' seen
      else setOfList ids' (seen ++ [i])
  end.

End OMap.

(** ** Data model ([types/workflow]) *)

Inductive NodeType :=
| Nstart | Nmessage | Nmessage_utm | Nmessage_time
| Nphoto | Nphoto_caption | Nphoto_caption_time
| Nvideo | Nvideo_caption | Nvideo_caption_time
| Naudio | Ntime | Nlead_respond | Nhook | Ndelete_hook
| Nlink_pix | Ndeliverable | Nreminder | Nnote.

#[global] Instance NodeType_eq_dec : EqDecision NodeType.
Proof. solve_decision. Defined.

(** ['add' | 'delete'] *)
Inductive Action := ActAdd | ActDelete.

#[global] Instance Action_eq_dec : EqDecision Action.
Proof. solve_decision. Defined.

Module TimeMessageRule.
Record t := mk {
  id : string;
  startTime : string;
  endTime : string;
  content : string
}.
End TimeMessageRule.

Module TimeMediaRule.
Record t := mk {
  id : string;
  startTime : string;
  endTime : string;
  mediaUrl : string;
  caption : option string
}.
End TimeMediaRule.

Module NoteData.
Record t := mk {
  title : option string;
  html : option string;
  textPreview : option string;
  fontSize : option Q;
  textColor : option string;
  bgColor : option string;
  heightMode : option string
}.
End NoteData.

Module NodeData.
Record t := mk {
  label : string;
  supabaseRowId : option Z;
  supabaseColumn : option string;
  content : option string;
  utm : option string;
  caption : option string;
  mediaUrl : option string;
  timeMin : option Z;
  timeMax : option Z;
  hookFlowId : option string;
  hookHours : option Z;
  hookMinutes : option Z;
  timeMessageRules : option (list TimeMessageRule.t);
  timeMediaRules : option (list TimeMediaRule.t);
  deliverableAction : option Action;
  deliverableFlowId : option string;
  reminderAction : option Action;
  reminderFlowId : option string;
  reminderHours : option Z;
  reminderMinutes : option Z;
  hookAction : option Action;
  note : option NoteData.t
}.

(** [{ label, supabaseColumn }] with every other field absent. *)
Definition init (l : string) (col : option string) : t :=
  mk l None col None None None None None None None None None None None
     None None None None None None None None.

(** [{ ...d, supabaseColumn: c }] *)
Definition withColumn (d : t) (c : option string) : t :=
  mk (label d) (supabaseRowId d) c (content d) (utm d) (caption d)
     (mediaUrl d) (timeMin d) (timeMax d) (hookFlowId d) (hookHours d)
     (hookMinutes d) (timeMessageRules d) (timeMediaRules d)
     (deliverableAction d) (deliverableFlowId d) (reminderAction d)
     (reminderFlowId d) (reminderHours d) (reminderMinutes d)
     (hookAction d) (note d).
End NodeData.

Module BubbleData.
Record t := mk {
  id : string;
  type : NodeType;
  data : NodeData.t
}.

(** [{ ...b, data: { ...b.data, supabaseColumn: c } }] *)
Definition withColumn (b : t) (c : string) : t :=
  mk (id b) (type b) (NodeData.withColumn (data b) (Some c)).
End BubbleData.

Inductive FlowNodeType := group | start | note.

#[global] Instance FlowNodeType_eq_dec : EqDecision FlowNodeType.
Proof. solve_decision. Defined.

Module Position.
Record t := mk { x : Q; y : Q }.
End Position.

Module FlowNode.
Record t := mk {
  id : string;
  type : FlowNodeType;
  position : Position.t;
  width : option Q;
  height : option Q;
  label : string;                          (* data.label *)
  bubbles : option (list BubbleData.t);    (* data.bubbles *)
  note : option NoteData.t                 (* data.note *)
}.

(** [n.data.bubbles || []] *)
Definition bubblesOrEmpty (n : t) : list BubbleData.t :=
  match bubbles n with Some bs => bs | None => [] end.

(** [{ ...n, data: { ...n.data, bubbles: bs } }] *)
Definition withBubbles (n : t) (bs : list BubbleData.t) : t :=
  mk (id n) (type n) (position n) (width n) (height n) (label n)
     (Some bs) (note n).
End FlowNode.

Module FlowEdge.
Record t := mk {
  id : string;
  source : string;
  target : string
}.
End FlowEdge.

Definition NODE_PREFIXES (ty : NodeType) : string :=
  match ty with
  | Nstart => "INICIO"
  | Nmessage => "MSG-"
  | Nmessage_utm => "MSG-UTM-"
  | Nmessage_time => "MSG-TEMPO-"
  | Nphoto => "FT-"
  | Nphoto_caption => "FT-C-"
  | Nphoto_caption_time => "FT-C-T-"
  | Nvideo => "VD-"
  | Nvideo_caption => "VD-C-"
  | Nvideo_caption_time => "VD-C-T-"
  | Naudio => "AU-"
  | Ntime => "T-"
  | Nlead_respond => "LD"
  | Nhook => "GANCHO-"
  | Ndelete_hook => "APAGAR-GANCHO-"
  | Nlink_pix => "LK-PIX"
  | Ndeliverable => ""
  | Nreminder => ""
  | Nnote => ""
  end.

(** The labels are display text; the accented letters of the source are
    written without their accents here. *)
Definition NODE_LABELS (ty : NodeType) : string :=
  match ty with
  | Nstart => "Inicio"
  | Nmessage => "Mensagem"
  | Nmessage_utm => "Mensagem + UTM"
  | Nmessage_time => "Mensagem + Tempo"
  | Nphoto => "Foto"
  | Nphoto_caption => "Foto + Caption"
  | Nphoto_caption_time => "Foto + Caption Tempo"
  | Nvideo => "Video"
  | Nvideo_caption => "Video + Caption"
  | Nvideo_caption_time => "Video + Caption Tempo"
  | Naudio => "Audio"
  | Ntime => "Tempo"
  | Nlead_respond => "Lead Responde"
  | Nhook => "Gancho"
  | Ndelete_hook => "Apagar Gancho"
  | Nlink_pix => "Link / Pix"
  | Ndeliverable => "Entregavel"
  | Nreminder => "Relembrar"
  | Nnote => "Bloco de Notas"
  end.

(** ** Slot names and the normalizer ([supabaseColumnMapping.ts]) *)

Inductive ColumnKind := M | T.

#[global] Instance ColumnKind_eq_dec : EqDecision ColumnKind.
Proof. solve_decision. Defined.

Definition COLUMN_LIMIT : nat := 50.

Definition isTimeBubble (ty : NodeType) : bool := bool_decide (ty = Ntime).

Definition isVisualOnlyBubble (ty : NodeType) : bool := bool_decide (ty = Nnote).

Definition getColumnKindForBubble (ty : NodeType) : ColumnKind :=
  if isTimeBubble ty then T else M.

Definition kindLetter (k : ColumnKind) : ascii :=
  match k with M => "M"%char | T => "T"%char end.

Definition buildColumn (kind : ColumnKind) (index : nat) : string :=
  String (kindLetter kind) (Js.natToString index).

(** [col.trim().toUpperCase().match(/^([MT])(\d{1,2})$/)], then the range
    check on [Number(m[2])]. *)
Definition parseColumn (col : string) : option (ColumnKind * nat) :=
  match Js.toUpperCase (Js.trim col) with
  | String c ds =>
      let kind :=
        if Ascii.eqb c "M" then Some M
        else if Ascii.eqb c "T" then Some T else None in
      match kind with
      | Some k =>
          if (Js.allDigits ds
              && (Nat.leb 1 (String.length ds) && Nat.leb (String.length ds) 2))%bool
          then
            let index := Js.digitsValue ds in
            if (Nat.ltb index 1 || Nat.ltb COLUMN_LIMIT index)%bool then None
            else Some (k, index)
          else None
      | None => None
      end
  | EmptyString => None
  end.

(** The slot a stored column value stands for, as every reader of
    [supabaseColumn] computes it:
    [col ? parseColumn(col) : null] then [buildColumn(kind, index)]. *)
Definition normalizedColumn (col : option string) : option string :=
  match Js.truthy col with
  | Some c =>
      match parseColumn c with
      | Some (k, i) => Some (buildColumn k i)
      | None => None
      end
  | None => None
  end.

(** [bubble.data.supabaseColumn?.trim().toUpperCase()], then
    [current ? parseColumn(current) : null] and [buildColumn]: the slot
    the normalizer and the duplicate detector read off a bubble. *)
Definition currentNormalized (bubble : BubbleData.t) : option string :=
  normalizedColumn
    (option_map (fun c => Js.toUpperCase (Js.trim c))
                (NodeData.supabaseColumn (BubbleData.data bubble))).

Definition getUsedColumns (bubbles : list BubbleData.t) (kind : ColumnKind)
  : gset string :=
  fold_left
    (fun used b =>
       if decide (getColumnKindForBubble (BubbleData.type b) = kind) then
         match Js.truthy (NodeData.supabaseColumn (BubbleData.data b)) with
         | Some col =>
             match parseColumn col with
             | Some (k, i) =>
                 if decide (k = kind) then {[ buildColumn kind i ]} ∪ used
                 else used
             | None => used
             end
         | None => used
         end
       else used)
    bubbles ∅.

Definition suggestNextAvailableColumn (bubbles : list BubbleData.t)
    (kind : ColumnKind) : option string :=
  let used := getUsedColumns bubbles kind in
  List.find (fun col => negb (bool_decide (col ∈ used)))
            (List.map (buildColumn kind) (seq 1 COLUMN_LIMIT)).

Definition getAllBubblesFromFlowNodes (nodes : list FlowNode.t)
  : list BubbleData.t :=
  flat_map
    (fun n =>
       if decide (FlowNode.type n = group) then FlowNode.bubblesOrEmpty n
       else [])
    nodes.

(** The [Map<string, string[]>] of [detectDuplicateColumns]: slot name to
    the ids of the bubbles stored under it, in first-seen order. *)
Definition columnIndex (bubbles : list BubbleData.t)
  : list (string * list string) :=
  fold_left
    (fun map b =>
       match currentNormalized b with
       | Some normalized =>
           let arr := match OMap.get normalized map with
                      | Some a => a | None => [] end in
           OMap.set normalized (arr ++ [BubbleData.id b]) map
       | None => map
       end)
    bubbles [].

Definition detectDuplicateColumns (bubbles : list BubbleData.t)
  : list (string * list string) :=
  List.filter (fun '(_, ids) => Nat.ltb 1 (List.length ids))
              (columnIndex bubbles).

(** The shift after a deletion: every stored column of the deleted kind
    with a larger index moves down by one. *)
Definition reorganizeColumnsAfterDeletion (nodes : list FlowNode.t)
    (deletedColumn : string) : option (gmap string string) :=
  match parseColumn deletedColumn with
  | None => None
  | Some (deletedKind, deletedIndex) =>
      let allBubbles := getAllBubblesFromFlowNodes nodes in
      let updates :=
        fold_left
          (fun (updates : gmap string string) bubble =>
             match Js.truthy (NodeData.supabaseColumn (BubbleData.data bubble)) with
             | Some currentColumn =>
                 match parseColumn currentColumn with
                 | Some (k, i) =>
                     if (bool_decide (k = deletedKind) && Nat.ltb deletedIndex i)%bool
                     then <[ BubbleData.id bubble := buildColumn deletedKind (i - 1) ]> updates
                     else updates
                 | None => updates
                 end
             | None => updates
             end)
          allBubbles ∅ in
      if Nat.ltb 0 (size updates) then Some updates else None
  end.

(** The bubbles of one group that take a slot, with their slot kind. *)
Definition slottedBubbles (node : FlowNode.t)
  : list (BubbleData.t * ColumnKind) :=
  flat_map
    (fun bubble =>
       if isVisualOnlyBubble (BubbleData.type bubble) then []
       else [(bubble, getColumnKindForBubble (BubbleData.type bubble))])
    (FlowNode.bubblesOrEmpty node).

(** First loop of [normalizeColumnsWithGroupOrder]: the groups named by
    [groupOrder], each removed from [nodeMap] once processed. *)
Fixpoint collectInOrder (groupOrder : list string)
    (nodeMap : list (string * FlowNode.t))
    (acc : list (BubbleData.t * ColumnKind))
  : list (BubbleData.t * ColumnKind) * list (string * FlowNode.t) :=
  match groupOrder with
  | [] => (acc, nodeMap)
  | groupId :: rest =>
      match OMap.get groupId nodeMap with
      | Some node =>
          if decide (FlowNode.type node = group) then
            collectInOrder rest (OMap.delete groupId nodeMap)
                           (acc ++ slottedBubbles node)
          else collectInOrder rest nodeMap acc
      | None => collectInOrder rest nodeMap acc
      end
  end.

(** Second loop: the groups left in [nodeMap], in insertion order. *)
Definition collectRemaining (nodeMap : list (string * FlowNode.t))
  : list (BubbleData.t * ColumnKind) :=
  flat_map
    (fun '(_, node) =>
       if decide (FlowNode.type node = group) then slottedBubbles node else [])
    nodeMap.

Definition allBubblesInOrder (nodes : list FlowNode.t) (groupOrder : list string)
  : list (BubbleData.t * ColumnKind) :=
  let nodeMap :=
    fold_left (fun m node => OMap.set (FlowNode.id node) node m) nodes [] in
  let '(acc, rest) := collectInOrder groupOrder nodeMap [] in
  acc ++ collectRemaining rest.

(** State of the counting loop. *)
Record Counters := mkCounters {
  mCounter : nat;
  tCounter : nat;
  updates : gmap string string
}.

Definition assignStep (st : Counters) (item : BubbleData.t * ColumnKind)
  : Counters :=
  let '(bubble, kind) := item in
  let '(m, t, nextColumn) :=
    match kind with
    | M => (mCounter st + 1, tCounter st, buildColumn M (mCounter st + 1))
    | T => (mCounter st, tCounter st + 1, buildColumn T (tCounter st + 1))
    end in
  if decide (currentNormalized bubble = Some nextColumn)
  then mkCounters m t (updates st)
  else mkCounters m t (<[ BubbleData.id bubble := nextColumn ]> (updates st)).

Definition assignAll (items : list (BubbleData.t * ColumnKind)) : Counters :=
  fold_left assignStep items (mkCounters 0 0 ∅).

Definition normalizeColumnsWithGroupOrder (nodes : list FlowNode.t)
    (groupOrder : list string) : option (gmap string string) :=
  let updates := updates (assignAll (allBubblesInOrder nodes groupOrder)) in
  if Nat.ltb 0 (size updates) then Some updates else None.

(** [normalizeAllColumns]: the same counting, the groups taken in array
    order. *)
Definition normalizeAllColumns (nodes : list FlowNode.t)
  : option (gmap string string) :=
  let allBubblesInOrder :=
    flat_map (fun node => if decide (FlowNode.type node = group)
                          then slottedBubbles node else [])
             nodes in
  let updates := updates (assignAll allBubblesInOrder) in
  if Nat.ltb 0 (size updates) then Some updates else None.

(** ** Canonical group order ([useGroupOrder.ts]) *)

Record GroupOrderInfo := mkGroupOrderInfo {
  groupId : string;
  orderTag : string;
  orderIndex : nat
}.

(** [Array.prototype.sort] with a comparator: a stable sort, here by
    insertion; [x] goes before the first [y] with [cmp x y <= 0]. *)
Fixpoint insertBy {A} (cmp : A -> A -> Q) (x : A) (l : list A) : list A :=
  match l with
  | [] => [x]
  | y :: l' => if Qle_bool (cmp x y) 0 then x :: l else y :: insertBy cmp x l'
  end.

Definition sortBy {A} (cmp : A -> A -> Q) (l : list A) : list A :=
  fold_right (insertBy cmp) [] l.

Definition origin : Position.t := Position.mk 0 0.

(** [nodePositions.get(a) || { x: 0, y: 0 }] *)
Definition positionOr (nodePositions : gmap string Position.t) (a : string)
  : Position.t :=
  match nodePositions !! a with Some p => p | None => origin end.

(** The comparator shared by [sortByPosition] and [sortByCanvasPosition]. *)
Definition comparePosition (nodePositions : gmap string Position.t)
    (a b : string) : Q :=
  let posA := positionOr nodePositions a in
  let posB := positionOr nodePositions b in
  if negb (Qeq_bool (Position.x posA) (Position.x posB))
  then Position.x posA - Position.x posB
  else Position.y posA - Position.y posB.

Definition buildAdjacencyMap (edges : list FlowEdge.t)
  : gmap string (list string) :=
  fold_left
    (fun (adj : gmap string (list string)) edge =>
       let existing := match adj !! FlowEdge.source edge with
                       | Some ts => ts | None => [] end in
       <[ FlowEdge.source edge := existing ++ [FlowEdge.target edge] ]> adj)
    edges ∅.

Definition sortByPosition (nodePositions : gmap string Position.t)
    (ids : list string) : list string :=
  sortBy (comparePosition nodePositions) ids.

(** [for (const target of targets) if (groupIds.has(target) &&
    !visited.has(target)) { queue.push(target); visited.add(target) }] *)
Definition enqueueTargets (groupIds : list string) (targets : list string)
    (queue : list string) (visited : gset string)
  : list string * gset string :=
  fold_left
    (fun '(q, v) target =>
       if (bool_decide (target ∈ groupIds) && negb (bool_decide (target ∈ v)))%bool
       then (q ++ [target], {[ target ]} ∪ v)
       else (q, v))
    targets (queue, visited).

(** The [while (queue.length > 0)] loop; each turn shifts one group off
    the queue, so [length groupIds] turns always suffice
    (see [processQueue_fuel]). *)
Fixpoint processQueue (fuel : nat) (adj : gmap string (list string))
    (groupIds : list string) (nodePositions : gmap string Position.t)
    (queue : list string) (visited : gset string) (result : list string)
  : list string * gset string * list string :=
  match fuel, queue with
  | S fuel', current :: queue' =>
      let targets := match adj !! current with Some ts => ts | None => [] end in
      let '(q, v) :=
        enqueueTargets groupIds (sortByPosition nodePositions targets)
                       queue' visited in
      processQueue fuel' adj groupIds nodePositions q v (result ++ [current])
  | _, _ => (queue, visited, result)
  end.

Definition topologicalSortFromStart (startNodeId : string)
    (groupIds : list string) (edges : list FlowEdge.t)
    (nodePositions : gmap string Position.t) : list string :=
  let adj := buildAdjacencyMap edges in
  let fromStart := match adj !! startNodeId with Some ts => ts | None => [] end in
  let '(queue, visited) :=
    enqueueTargets groupIds (sortByPosition nodePositions fromStart) [] ∅ in
  let '(_, visited', result) :=
    processQueue (List.length groupIds) adj groupIds nodePositions
                 queue visited [] in
  let remaining :=
    List.filter (fun id => negb (bool_decide (id ∈ visited'))) groupIds in
  result ++ sortByPosition nodePositions remaining.

Definition sortByCanvasPosition (groupIds : list string)
    (nodePositions : gmap string Position.t) : list string :=
  sortBy (comparePosition nodePositions) groupIds.

Definition isGroup (n : FlowNode.t) : bool := bool_decide (FlowNode.type n = group).

Definition tagFrom (start : nat) (ids : list string) : list GroupOrderInfo :=
  List.map (fun '(index, gid) =>
              mkGroupOrderInfo gid (String "G" (Js.natToString (index + 1))) index)
           (List.combine (seq start (List.length ids)) ids).

Definition calculateGroupOrder (nodes : list FlowNode.t)
    (edges : list FlowEdge.t) : list GroupOrderInfo :=
  let groupNodes := List.filter isGroup nodes in
  match groupNodes with
  | [] => []
  | _ =>
      let groupIds := OMap.setOfList (List.map FlowNode.id groupNodes) [] in
      let nodePositions : gmap string Position.t :=
        fold_left (fun (m : gmap string Position.t) node =>
                     <[ FlowNode.id node := FlowNode.position node ]> m)
                  groupNodes ∅ in
      let groupEdges :=
        List.filter (fun e => (bool_decide (FlowEdge.source e ∈ groupIds)
                               && bool_decide (FlowEdge.target e ∈ groupIds))%bool)
                    edges in
      let startEdges :=
        List.filter (fun e => (bool_decide (FlowEdge.source e = "start-node")
                               && bool_decide (FlowEdge.target e ∈ groupIds))%bool)
                    edges in
      let orderedGroupIds :=
        if (Nat.ltb 0 (List.length groupEdges)
            || Nat.ltb 0 (List.length startEdges))%bool
        then topologicalSortFromStart "start-node" groupIds edges nodePositions
        else sortByCanvasPosition groupIds nodePositions in
      tagFrom 0 orderedGroupIds
  end.

(** ** The store helper ([workflowStore.ts]) *)

(** [(n.data.bubbles || []).map(b => updates.get(b.id) ? {...} : b)] *)
Definition applyUpdates (updates : gmap string string)
    (bubbles : list BubbleData.t) : list BubbleData.t :=
  List.map
    (fun b =>
       match Js.truthy (updates !! BubbleData.id b) with
       | Some newColumn => BubbleData.withColumn b newColumn
       | None => b
       end)
    bubbles.

Definition applyUpdatesToNodes (updates : gmap string string)
    (nodes : list FlowNode.t) : list FlowNode.t :=
  List.map
    (fun n =>
       if decide (FlowNode.type n = group)
       then FlowNode.withBubbles n (applyUpdates updates (FlowNode.bubblesOrEmpty n))
       else n)
    nodes.

Definition applyNormalizationToNodes (nodes : list FlowNode.t)
    (edges : list FlowEdge.t) : list FlowNode.t :=
  let orderInfo := calculateGroupOrder nodes edges in
  let groupOrder := List.map groupId orderInfo in
  match normalizeColumnsWithGroupOrder nodes groupOrder with
  | None => nodes
  | Some updates => applyUpdatesToNodes updates nodes
  end.

(** ** The POSICAO v2 snapshot ([posicaoEncoding.ts])

    [encodePosicaoV2] builds a [PosicaoV2] document and hands it to
    [JSON.stringify]; [parsePosicaoAuto] hands the result of [JSON.parse]
    to [parsePosicaoV2].  The document is modelled at its TypeScript type
    (numbers, strings and arrays, on which the JSON text form is
    lossless); the empty string returned for a flow without groups is
    [None].  The legacy [n] channel of standalone notes, which the encoder
    no longer writes, is left out. *)

(** [Math.round]: the nearest integer, ties towards plus infinity. *)
Definition mathRound (q : Q) : Z := Qfloor (q + (1 # 2))%Q.

Record PosicaoV2 := mkPosicaoV2 {
  v : nat;
  vp : option (Q * Q * Q);
  sn : option (Q * Q);
  go : list string;
  g : gmap string (Q * Q * string * list string);
  e : option (list (string * string))
}.

Record ParsedGroupV2 := mkParsedGroupV2 {
  pg_groupId : string;
  pg_x : Q;
  pg_y : Q;
  pg_title : string;
  pg_columns : list string
}.

Record ParsedLayoutV2 := mkParsedLayoutV2 {
  version : nat;
  viewport : option (Q * Q * Q);
  startNodePosition : option (Q * Q);
  groups : list ParsedGroupV2;
  edges : list (string * string)
}.

Record DistributedGroup := mkDistributedGroup {
  dg_groupId : string;
  dg_x : Q;
  dg_y : Q;
  dg_title : string;
  dg_bubbles : list BubbleData.t
}.

(** [bubbles.map(b => b.data.supabaseColumn?.toUpperCase()).filter(col => !!col)] *)
Definition columnNames (bubbles : list BubbleData.t) : list string :=
  flat_map
    (fun b =>
       match Js.truthy (option_map Js.toUpperCase
                          (NodeData.supabaseColumn (BubbleData.data b))) with
       | Some col => [col]
       | None => []
       end)
    bubbles.

Definition validNodeIds (groupNodes : list FlowNode.t) : gset string :=
  fold_left (fun (s : gset string) n => {[ FlowNode.id n ]} ∪ s)
            groupNodes {[ "start-node" ]}.

Definition encodePosicaoV2 (nodes : list FlowNode.t) (edges : list FlowEdge.t)
    (viewport : option (Q * Q * Q)) : option PosicaoV2 :=
  let groupNodes := List.filter isGroup nodes in
  let startNode := List.find (fun n => bool_decide (FlowNode.type n = start)) nodes in
  match groupNodes with
  | [] => None
  | _ =>
      let round2 (q : Q) : Q := (inject_Z (mathRound (q * 100)) / 100)%Q in
      let vp := option_map (fun '(px, py, zoom) => (round2 px, round2 py, round2 zoom))
                           viewport in
      let sn :=
        option_map
          (fun n => (inject_Z (mathRound (Position.x (FlowNode.position n))),
                     inject_Z (mathRound (Position.y (FlowNode.position n)))))
          startNode in
      let '(go, g) :=
        fold_left
          (fun '(go, g) node =>
             let groupId := FlowNode.id node in
             let x := inject_Z (mathRound (Position.x (FlowNode.position node))) in
             let y := inject_Z (mathRound (Position.y (FlowNode.position node))) in
             let title := Js.orElse (FlowNode.label node) "Group" in
             let columns := columnNames (FlowNode.bubblesOrEmpty node) in
             (go ++ [groupId],
              <[ groupId := (x, y, title, columns) ]> (g : gmap string (Q * Q * string * list string))))
          groupNodes ([], ∅) in
      let valid := validNodeIds groupNodes in
      let validEdges :=
        List.filter (fun e => (bool_decide (FlowEdge.source e ∈ valid)
                               && bool_decide (FlowEdge.target e ∈ valid))%bool)
                    edges in
      Some (mkPosicaoV2 2 vp sn go g
              (Some (List.map (fun e => (FlowEdge.source e, FlowEdge.target e))
                              validEdges)))
  end.

Definition parsePosicaoV2 (data : PosicaoV2) : ParsedLayoutV2 :=
  let groups :=
    flat_map
      (fun groupId =>
         match g data !! groupId with
         | Some (x, y, title, columns) =>
             [mkParsedGroupV2 groupId x y title columns]
         | None => []
         end)
      (go data) in
  let edges := match e data with Some es => es | None => [] end in
  mkParsedLayoutV2 2 (vp data) (sn data) groups edges.

(** [bubbleByColumn]: the last bubble stored under each upper-cased
    column name. *)
Definition bubbleByColumn (bubbles : list BubbleData.t)
  : gmap string BubbleData.t :=
  fold_left
    (fun (m : gmap string BubbleData.t) b =>
       match Js.truthy (option_map Js.toUpperCase
                          (NodeData.supabaseColumn (BubbleData.data b))) with
       | Some col => <[ col := b ]> m
       | None => m
       end)
    bubbles ∅.

(** One group of the layout: its bubbles in the recorded column order,
    and the columns that found a bubble. *)
Definition fillGroup (byColumn : gmap string BubbleData.t) (pg : ParsedGroupV2)
    (assigned : gset string) : DistributedGroup * gset string :=
  let '(groupBubbles, assigned') :=
    fold_left
      (fun '(bs, asg) col =>
         match byColumn !! col with
         | Some bubble => (bs ++ [bubble], {[ col ]} ∪ asg)
         | None => (bs, asg)
         end)
      (pg_columns pg) ([], assigned) in
  (mkDistributedGroup (pg_groupId pg) (pg_x pg) (pg_y pg) (pg_title pg)
                      groupBubbles,
   assigned').

(** [result[result.length - 1].bubbles.push(...extra)] *)
Fixpoint pushToLast (result : list DistributedGroup) (extra : list BubbleData.t)
  : list DistributedGroup :=
  match result with
  | [] => []
  | [last] =>
      [mkDistributedGroup (dg_groupId last) (dg_x last) (dg_y last)
                          (dg_title last) (dg_bubbles last ++ extra)]
  | grp :: rest => grp :: pushToLast rest extra
  end.

(** [now] stands for [Date.now()] in the id of the fallback group. *)
Definition distributeBubblesByPosicaoV2 (now : nat)
    (bubbles : list BubbleData.t) (layout : ParsedLayoutV2)
  : list DistributedGroup :=
  let byColumn := bubbleByColumn bubbles in
  let '(result, assignedColumns) :=
    fold_left
      (fun '(res, asg) pg =>
         let '(grp, asg') := fillGroup byColumn pg asg in
         (res ++ [grp], asg'))
      (groups layout) ([], ∅) in
  let unassignedBubbles :=
    List.filter
      (fun b =>
         match Js.truthy (option_map Js.toUpperCase
                            (NodeData.supabaseColumn (BubbleData.data b))) with
         | Some col => negb (bool_decide (col ∈ (assignedColumns : gset string)))
         | None => false
         end)
      bubbles in
  match unassignedBubbles with
  | [] => result
  | _ =>
      match result with
      | [] => [mkDistributedGroup ("fallback-" ++ Js.natToString now)
                                  250 50 "Etapas" unassignedBubbles]
      | _ => pushToLast result unassignedBubbles
      end
  end.

(** Field assignments [data.f = v] on a [NodeData] record. *)

Module SetData.
Import NodeData.
Definition setLabel (v : string) (d : t) : t :=
  mk v (supabaseRowId d) (supabaseColumn d) (content d) (utm d)
     (caption d) (mediaUrl d) (timeMin d) (timeMax d) (hookFlowId d)
     (hookHours d) (hookMinutes d) (timeMessageRules d) (timeMediaRules d)
     (deliverableAction d) (deliverableFlowId d) (reminderAction d)
     (reminderFlowId d) (reminderHours d) (reminderMinutes d)
     (hookAction d) (note d).
Definition setContent (v : option string) (d : t) : t :=
  mk (label d) (supabaseRowId d) (supabaseColumn d) v (utm d) (caption d)
     (mediaUrl d) (timeMin d) (timeMax d) (hookFlowId d) (hookHours d)
     (hookMinutes d) (timeMessageRules d) (timeMediaRules d)
     (deliverableAction d) (deliverableFlowId d) (reminderAction d)
     (reminderFlowId d) (reminderHours d) (reminderMinutes d)
     (hookAction d) (note d).
Definition setUtm (v : option string) (d : t) : t :=
  mk (label d) (supabaseRowId d) (supabaseColumn d) (content d) v
     (caption d) (mediaUrl d) (timeMin d) (timeMax d) (hookFlowId d)
     (hookHours d) (hookMinutes d) (timeMessageRules d) (timeMediaRules d)
     (deliverableAction d) (deliverableFlowId d) (reminderAction d)
     (reminderFlowId d) (reminderHours d) (reminderMinutes d)
     (hookAction d) (note d).
Definition setCaption (v : option string) (d : t) : t :=
  mk (label d) (supabaseRowId d) (supabaseColumn d) (content d) (utm d) v
     (mediaUrl d) (timeMin d) (timeMax d) (hookFlowId d) (hookHours d)
     (hookMinutes d) (timeMessageRules d) (timeMediaRules d)
     (deliverableAction d) (deliverableFlowId d) (reminderAction d)
     (reminderFlowId d) (reminderHours d) (reminderMinutes d)
     (hookAction d) (note d).
Definition setMediaUrl (v : option string) (d : t) : t :=
  mk (label d) (supabaseRowId d) (supabaseColumn d) (content d) (utm d)
     (caption d) v (timeMin d) (timeMax d) (hookFlowId d) (hookHours d)
     (hookMinutes d) (timeMessageRules d) (timeMediaRules d)
     (deliverableAction d) (deliverableFlowId d) (reminderAction d)
     (reminderFlowId d) (reminderHours d) (reminderMinutes d)
     (hookAction d) (note d).
Definition setTimeMin (v : option Z) (d : t) : t :=
  mk (label d) (supabaseRowId d) (supabaseColumn d) (content d) (utm d)
     (caption d) (mediaUrl d) v (timeMax d) (hookFlowId d) (hookHours d)
     (hookMinutes d) (timeMessageRules d) (timeMediaRules d)
     (deliverableAction d) (deliverableFlowId d) (reminderAction d)
     (reminderFlowId d) (reminderHours d) (reminderMinutes d)
     (hookAction d) (note d).
Definition setTimeMax (v : option Z) (d : t) : t :=
  mk (label d) (supabaseRowId d) (supabaseColumn d) (content d) (utm d)
     (caption d) (mediaUrl d) (timeMin d) v (hookFlowId d) (hookHours d)
     (hookMinutes d) (timeMessageRules d) (timeMediaRules d)
     (deliverableAction d) (deliverableFlowId d) (reminderAction d)
     (reminderFlowId d) (reminderHours d) (reminderMinutes d)
     (hookAction d) (note d).
Definition setHookFlowId (v : option string) (d : t) : t :=
  mk (label d) (supabaseRowId d) (supabaseColumn d) (content d) (utm d)
     (caption d) (mediaUrl d) (timeMin d) (timeMax d) v (hookHours d)
     (hookMinutes d) (timeMessageRules d) (timeMediaRules d)
     (deliverableAction d) (deliverableFlowId d) (reminderAction d)
     (reminderFlowId d) (reminderHours d) (reminderMinutes d)
     (hookAction d) (note d).
Definition setHookHours (v : option Z) (d : t) : t :=
  mk (label d) (supabaseRowId d) (supabaseColumn d) (content d) (utm d)
     (caption d) (mediaUrl d) (timeMin d) (timeMax d) (hookFlowId d) v
     (hookMinutes d) (timeMessageRules d) (timeMediaRules d)
     (deliverableAction d) (deliverableFlowId d) (reminderAction d)
     (reminderFlowId d) (reminderHours d) (reminderMinutes d)
     (hookAction d) (note d).
Definition setHookMinutes (v : option Z) (d : t) : t :=
  mk (label d) (supabaseRowId d) (supabaseColumn d) (content d) (utm d)
     (caption d) (mediaUrl d) (timeMin d) (timeMax d) (hookFlowId d)
     (hookHours d) v (timeMessageRules d) (timeMediaRules d)
     (deliverableAction d) (deliverableFlowId d) (reminderAction d)
     (reminderFlowId d) (reminderHours d) (reminderMinutes d)
     (hookAction d) (note d).
Definition setTimeMessageRules (v : option (list TimeMessageRule.t)) (d : t) : t :=
  mk (label d) (supabaseRowId d) (supabaseColumn d) (content d) (utm d)
     (caption d) (mediaUrl d) (timeMin d) (timeMax d) (hookFlowId d)
     (hookHours d) (hookMinutes d) v (timeMediaRules d)
     (deliverableAction d) (deliverableFlowId d) (reminderAction d)
     (reminderFlowId d) (reminderHours d) (reminderMinutes d)
     (hookAction d) (note d).
Definition setTimeMediaRules (v : option (list TimeMediaRule.t)) (d : t) : t :=
  mk (label d) (supabaseRowId d) (supabaseColumn d) (content d) (utm d)
     (caption d) (mediaUrl d) (timeMin d) (timeMax d) (hookFlowId d)
     (hookHours d) (hookMinutes d) (timeMessageRules d) v
     (deliverableAction d) (deliverableFlowId d) (reminderAction d)
     (reminderFlowId d) (reminderHours d) (reminderMinutes d)
     (hookAction d) (note d).
Definition setDeliverableAction (v : option Action) (d : t) : t :=
  mk (label d) (supabaseRowId d) (supabaseColumn d) (content d) (utm d)
     (caption d) (mediaUrl d) (timeMin d) (timeMax d) (hookFlowId d)
     (hookHours d) (hookMinutes d) (timeMessageRules d) (timeMediaRules d)
     v (deliverableFlowId d) (reminderAction d) (reminderFlowId d)
     (reminderHours d) (reminderMinutes d) (hookAction d) (note d).
Definition setReminderAction (v : option Action) (d : t) : t :=
  mk (label d) (supabaseRowId d) (supabaseColumn d) (content d) (utm d)
     (caption d) (mediaUrl d) (timeMin d) (timeMax d) (hookFlowId d)
     (hookHours d) (hookMinutes d) (timeMessageRules d) (timeMediaRules d)
     (deliverableAction d) (deliverableFlowId d) v (reminderFlowId d)
     (reminderHours d) (reminderMinutes d) (hookAction d) (note d).
Definition setReminderFlowId (v : option string) (d : t) : t :=
  mk (label d) (supabaseRowId d) (supabaseColumn d) (content d) (utm d)
     (caption d) (mediaUrl d) (timeMin d) (timeMax d) (hookFlowId d)
     (hookHours d) (hookMinutes d) (timeMessageRules d) (timeMediaRules d)
     (deliverableAction d) (deliverableFlowId d) (reminderAction d) v
     (reminderHours d) (reminderMinutes d) (hookAction d) (note d).
Definition setReminderHours (v : option Z) (d : t) : t :=
  mk (label d) (supabaseRowId d) (supabaseColumn d) (content d) (utm d)
     (caption d) (mediaUrl d) (timeMin d) (timeMax d) (hookFlowId d)
     (hookHours d) (hookMinutes d) (timeMessageRules d) (timeMediaRules d)
     (deliverableAction d) (deliverableFlowId d) (reminderAction d)
     (reminderFlowId d) v (reminderMinutes d) (hookAction d) (note d).
Definition setReminderMinutes (v : option Z) (d : t) : t :=
  mk (label d) (supabaseRowId d) (supabaseColumn d) (content d) (utm d)
     (caption d) (mediaUrl d) (timeMin d) (timeMax d) (hookFlowId d)
     (hookHours d) (hookMinutes d) (timeMessageRules d) (timeMediaRules d)
     (deliverableAction d) (deliverableFlowId d) (reminderAction d)
     (reminderFlowId d) (reminderHours d) v (hookAction d) (note d).
Definition setHookAction (v : option Action) (d : t) : t :=
  mk (label d) (supabaseRowId d) (supabaseColumn d) (content d) (utm d)
     (caption d) (mediaUrl d) (timeMin d) (timeMax d) (hookFlowId d)
     (hookHours d) (hookMinutes d) (timeMessageRules d) (timeMediaRules d)
     (deliverableAction d) (deliverableFlowId d) (reminderAction d)
     (reminderFlowId d) (reminderHours d) (reminderMinutes d) v (note d).
End SetData.

(** ** Step payload codec: encoding (the flow editor page) *)

Local Open Scope string_scope.

(** A flow of the current group, as [availableFlows] lists it. *)
Record FlowRef := mkFlowRef {
  flowId : string;
  flowName : string
}.

(** [a || b || ... || ''] on optional strings. *)
Fixpoint firstTruthy (l : list (option string)) : string :=
  match l with
  | [] => ""
  | o :: l' => match Js.truthy o with Some s => s | None => firstTruthy l' end
  end.

(** [key ? availableFlows.find(f => f.id === key) : null], then [?.name] *)
Definition flowNameById (availableFlows : list FlowRef) (key : option string)
  : option string :=
  match Js.truthy key with
  | Some k =>
      option_map flowName
        (List.find (fun f => bool_decide (flowId f = k)) availableFlows)
  | None => None
  end.

Definition flowNameByName (availableFlows : list FlowRef) (key : option string)
  : option string :=
  match Js.truthy key with
  | Some k =>
      option_map flowName
        (List.find (fun f => bool_decide (flowName f = k)) availableFlows)
  | None => None
  end.

(** [String(h || 0).padStart(2, '0')] *)
Definition pad2 (h : Z) : string := Js.padStart2 (Js.intToString h).

Definition orZero (o : option Z) : Z := match o with Some z => z | None => 0%Z end.

Definition serializeMessageRule (r : TimeMessageRule.t) : string :=
  let content := Js.replaceAll ";" "," (TimeMessageRule.content r) in
  TimeMessageRule.startTime r ++ "-" ++ TimeMessageRule.endTime r ++ "-" ++ content.

Definition serializeMediaRule (r : TimeMediaRule.t) : string :=
  TimeMediaRule.startTime r ++ "|" ++ TimeMediaRule.endTime r ++ "|"
  ++ TimeMediaRule.mediaUrl r ++ "|"
  ++ firstTruthy [TimeMediaRule.caption r].

Definition buildSupabaseValueForBubble (availableFlows : list FlowRef)
    (bubble : BubbleData.t) : string :=
  let data := BubbleData.data bubble in
  let prefix := NODE_PREFIXES (BubbleData.type bubble) in
  let destName (key : option string) :=
    Js.trim (firstTruthy [flowNameById availableFlows key;
                          flowNameByName availableFlows key;
                          NodeData.content data; key]) in
  match BubbleData.type bubble with
  | Ntime =>
      let min := match NodeData.timeMin data with Some z => z | None => 5%Z end in
      let max := match NodeData.timeMax data with Some z => z | None => 10%Z end in
      prefix ++ Js.intToString min ++ "-" ++ Js.intToString max
  | Nmessage_time =>
      let rules := match NodeData.timeMessageRules data with
                   | Some rs => rs | None => [] end in
      prefix ++ Js.join ";" (List.map serializeMessageRule rules)
  | Nphoto_caption_time =>
      let rules := match NodeData.timeMediaRules data with
                   | Some rs => rs | None => [] end in
      "FT-C-T;" ++ Js.join ";" (List.map serializeMediaRule rules)
  | Nvideo_caption_time =>
      let rules := match NodeData.timeMediaRules data with
                   | Some rs => rs | None => [] end in
      "VD-C-T;" ++ Js.join ";" (List.map serializeMediaRule rules)
  | Nmessage => prefix ++ firstTruthy [NodeData.content data]
  | Nmessage_utm =>
      prefix ++ Js.trim (firstTruthy [NodeData.content data] ++ " "
                         ++ firstTruthy [NodeData.utm data])
  | Nphoto | Nvideo | Naudio => prefix ++ firstTruthy [NodeData.mediaUrl data]
  | Nphoto_caption | Nvideo_caption =>
      prefix ++ Js.trim (firstTruthy [NodeData.mediaUrl data] ++ " "
                         ++ firstTruthy [NodeData.caption data])
  | Nlead_respond | Nlink_pix => prefix
  | Nhook =>
      let action := match NodeData.hookAction data with
                    | Some a => a | None => ActAdd end in
      let dest := destName (NodeData.hookFlowId data) in
      match action with
      | ActDelete => "APAGAR-GANCHO-" ++ dest
      | ActAdd =>
          let timePart := pad2 (orZero (NodeData.hookHours data)) ++ ":"
                          ++ pad2 (orZero (NodeData.hookMinutes data)) in
          prefix ++ (if Js.isEmpty dest then timePart else dest ++ "-" ++ timePart)
      end
  | Ndelete_hook => prefix ++ destName (NodeData.hookFlowId data)
  | Ndeliverable =>
      let name :=
        Js.trim (firstTruthy
                   [flowNameById availableFlows (NodeData.deliverableFlowId data)]) in
      (match NodeData.deliverableAction data with
       | Some ActAdd => "ADD-ENTREGA-FLUXO-"
       | _ => "DEL-ENTREGA-FLUXO-"
       end) ++ name
  | Nreminder =>
      let name := destName (NodeData.reminderFlowId data) in
      match NodeData.reminderAction data with
      | Some ActAdd =>
          match NodeData.reminderHours data, NodeData.reminderMinutes data with
          | Some hh, Some mm =>
              "ADD-REL-" ++ name ++ "-" ++ Js.padStart2 (Js.intToString hh)
              ++ ":" ++ Js.padStart2 (Js.intToString mm)
          | _, _ => "ADD-REL-" ++ name ++ "-__:__"
          end
      | _ => "DEL-REL-" ++ name
      end
  | Nstart | Nnote => prefix
  end.

(** ** Step payload codec: decoding ([FetchFlowsModal.tsx]) *)

(** An identifier supply: [uuidv4()] returns the next identifier and
    advances the counter. *)
Definition Gen (A : Type) : Type := nat -> A * nat.

Definition gret {A} (a : A) : Gen A := fun n => (a, n).

Definition gbind {A B} (m : Gen A) (k : A -> Gen B) : Gen B :=
  fun n => let '(a, n') := m n in k a n'.

Fixpoint gmapM {A B} (f : A -> Gen B) (l : list A) : Gen (list B) :=
  match l with
  | [] => gret []
  | a :: l' => gbind (f a) (fun b => gbind (gmapM f l') (fun bs => gret (b :: bs)))
  end.

Definition nonEmpty (s : string) : bool := negb (Js.isEmpty s).

(** [parts[i] || d] *)
Definition partOr (parts : list string) (i : nat) (d : string) : string :=
  match nth_error parts i with
  | Some s => Js.orElse s d
  | None => d
  end.

(** [/^\d{1,2}$/] *)
Definition oneOrTwoDigits (s : string) : bool :=
  (Js.allDigits s
   && (Nat.leb 1 (String.length s) && Nat.leb (String.length s) 2))%bool.

(** The tail [(\d{1,2}):(\d{1,2})$] after a hyphen. *)
Definition timeTail (r : string) : option (string * string) :=
  match Js.split ":" r with
  | [h; m] => if (oneOrTwoDigits h && oneOrTwoDigits m)%bool
              then Some (h, m) else None
  | _ => None
  end.

(** [content.match(/-(\d{1,2}):(\d{1,2})$/)]: the leftmost hyphen whose
    tail is a time, with the two captured groups. *)
Fixpoint matchTimeSuffix (s : string) : option (string * string) :=
  match s with
  | EmptyString => None
  | String c s' =>
      if Ascii.eqb c "-" then
        match timeTail s' with
        | Some hm => Some hm
        | None => matchTimeSuffix s'
        end
      else matchTimeSuffix s'
  end.

(** [content.substring(0, content.lastIndexOf("-" + h + ":" + m))];
    a failed search ([-1]) clamps to the empty prefix. *)
Definition beforeTimeSuffix (content h m : string) : string :=
  match Js.lastIndexOf ("-" ++ h ++ ":" ++ m) content with
  | Some i => Js.take i content
  | None => ""
  end.

(** [isNaN(Number(part)) ? d : Number(part)], with a missing part
    ([undefined]) reading as NaN. *)
Definition numberOr (part : option string) (d : Z) : Z :=
  match part with
  | Some s => match Js.Number s with Some z => z | None => d end
  | None => d
  end.

Section Decode.

Variable uuid : nat -> string.

Definition uuidv4 : Gen string := fun n => (uuid n, S n).

Definition parseMessageRule (r : string) : Gen TimeMessageRule.t :=
  let parts := Js.split "-" r in
  gbind uuidv4 (fun id =>
  gret (TimeMessageRule.mk id (partOr parts 0 "00:00") (partOr parts 1 "23:59")
          (Js.join "-" (List.skipn 2 parts)))).

(** A rule of the current grammar, [HH:MM|HH:MM|URL|CAPTION]. *)
Definition parseMediaRule (r : string) : Gen TimeMediaRule.t :=
  let parts := Js.split "|" r in
  let startTime := partOr parts 0 "00:00" in
  let endTime := partOr parts 1 "23:59" in
  let mediaUrl := partOr parts 2 "" in
  let caption := partOr parts 3 "" in
  gbind uuidv4 (fun id =>
  gret (TimeMediaRule.mk id startTime endTime mediaUrl (Js.truthy (Some caption)))).

(** A rule of the legacy grammar, [start-end-url[ caption]]. *)
Definition parseLegacyMediaRule (r : string) : Gen TimeMediaRule.t :=
  let parts := Js.split "-" r in
  if Nat.leb 3 (List.length parts) then
    let start := partOr parts 0 "00:00" in
    let end_ := partOr parts 1 "23:59" in
    let fullStr := Js.join "-" (List.skipn 2 parts) in
    let '(mediaUrl, caption) :=
      match Js.indexOf "http" fullStr with
      | Some httpIdx =>
          let urlAndCaption := Js.slice httpIdx fullStr in
          match Js.indexOf " " urlAndCaption with
          | Some spaceInUrl =>
              (Js.take spaceInUrl urlAndCaption,
               Js.slice (spaceInUrl + 1) urlAndCaption)
          | None => (urlAndCaption, "")
          end
      | None => (fullStr, "")
      end in
    gbind uuidv4 (fun id =>
    gret (TimeMediaRule.mk id start end_ mediaUrl (Js.truthy (Some caption))))
  else
    gbind uuidv4 (fun id =>
    gret (TimeMediaRule.mk id "00:00" "23:59" r None)).

(** [rulesStr.split(";").filter(Boolean)] *)
Definition ruleStrings (rulesStr : string) : list string :=
  List.filter nonEmpty (Js.split ";" rulesStr).

(** The prefix dispatch of [parseColumnValue] on the trimmed cell [val]:
    the kind and the payload fields written into [data]. *)
Definition decodePayload (val : string) (data : NodeData.t)
  : Gen (NodeType * NodeData.t) :=
  let labelled ty d := SetData.setLabel (NODE_LABELS ty) d in
  if Js.startsWith "MSG-UTM-" val then
    let content := Js.slice 8 val in
    let parts := Js.split " " content in
    gret (Nmessage_utm,
          SetData.setUtm
            (Some (if Nat.ltb 1 (List.length parts)
                   then List.last parts "" else ""))
            (SetData.setContent
               (Some (Js.orElse (Js.join " " (List.removelast parts)) content))
               (labelled Nmessage_utm data)))
  else if Js.startsWith "MSG-TEMPO-" val then
    gbind (gmapM parseMessageRule (Js.split ";" (Js.slice 10 val))) (fun rules =>
    gret (Nmessage_time,
          SetData.setTimeMessageRules (Some rules) (labelled Nmessage_time data)))
  else if Js.startsWith "MSG-" val then
    gret (Nmessage,
          SetData.setContent (Some (Js.slice 4 val)) (labelled Nmessage data))
  else if Js.startsWith "FT-C-T;" val then
    gbind (gmapM parseMediaRule (ruleStrings (Js.slice 7 val))) (fun rules =>
    gret (Nphoto_caption_time,
          SetData.setTimeMediaRules (Some rules)
            (labelled Nphoto_caption_time data)))
  else if Js.startsWith "FT-C-T-" val then
    gbind (gmapM parseLegacyMediaRule (ruleStrings (Js.slice 7 val))) (fun rules =>
    gret (Nphoto_caption_time,
          SetData.setTimeMediaRules (Some rules)
            (labelled Nphoto_caption_time data)))
  else if Js.startsWith "VD-C-T;" val then
    gbind (gmapM parseMediaRule (ruleStrings (Js.slice 7 val))) (fun rules =>
    gret (Nvideo_caption_time,
          SetData.setTimeMediaRules (Some rules)
            (labelled Nvideo_caption_time data)))
  else if Js.startsWith "VD-C-T-" val then
    gbind (gmapM parseLegacyMediaRule (ruleStrings (Js.slice 7 val))) (fun rules =>
    gret (Nvideo_caption_time,
          SetData.setTimeMediaRules (Some rules)
            (labelled Nvideo_caption_time data)))
  else if Js.startsWith "FT-C-" val then
    let parts := Js.split " " (Js.slice 5 val) in
    gret (Nphoto_caption,
          SetData.setCaption (Some (Js.join " " (List.skipn 1 parts)))
            (SetData.setMediaUrl (Some (partOr parts 0 ""))
               (labelled Nphoto_caption data)))
  else if Js.startsWith "FT-" val then
    gret (Nphoto,
          SetData.setMediaUrl (Some (Js.slice 3 val)) (labelled Nphoto data))
  else if Js.startsWith "VD-C-" val then
    let parts := Js.split " " (Js.slice 5 val) in
    gret (Nvideo_caption,
          SetData.setCaption (Some (Js.join " " (List.skipn 1 parts)))
            (SetData.setMediaUrl (Some (partOr parts 0 ""))
               (labelled Nvideo_caption data)))
  else if Js.startsWith "VD-" val then
    gret (Nvideo,
          SetData.setMediaUrl (Some (Js.slice 3 val)) (labelled Nvideo data))
  else if Js.startsWith "AU-" val then
    gret (Naudio,
          SetData.setMediaUrl (Some (Js.slice 3 val)) (labelled Naudio data))
  else if Js.startsWith "T-" val then
    let parts := Js.split "-" (Js.slice 2 val) in
    gret (Ntime,
          SetData.setTimeMax (Some (numberOr (nth_error parts 1) 10))
            (SetData.setTimeMin (Some (numberOr (nth_error parts 0) 5))
               (labelled Ntime data)))
  else if bool_decide (val = "LD") then
    gret (Nlead_respond, labelled Nlead_respond data)
  else if bool_decide (val = "LK-PIX") then
    gret (Nlink_pix, labelled Nlink_pix data)
  else if Js.startsWith "ADD-ENTREGA-FLUXO-" val then
    gret (Ndeliverable,
          SetData.setContent (Some (Js.slice 18 val))
            (SetData.setDeliverableAction (Some ActAdd)
               (labelled Ndeliverable data)))
  else if Js.startsWith "DEL-ENTREGA-FLUXO-" val then
    gret (Ndeliverable,
          SetData.setContent (Some (Js.slice 18 val))
            (SetData.setDeliverableAction (Some ActDelete)
               (labelled Ndeliverable data)))
  else if Js.startsWith "ADD-REL-" val then
    let content := Js.slice 8 val in
    let d := SetData.setReminderAction (Some ActAdd) (labelled Nreminder data) in
    gret (Nreminder,
          match matchTimeSuffix content with
          | Some (h, m) =>
              let name := beforeTimeSuffix content h m in
              SetData.setReminderMinutes (Some (Z.of_nat (Js.digitsValue m)))
                (SetData.setReminderHours (Some (Z.of_nat (Js.digitsValue h)))
                   (SetData.setContent (Some name)
                      (SetData.setReminderFlowId (Some name) d)))
          | None =>
              SetData.setContent (Some content)
                (SetData.setReminderFlowId (Some content) d)
          end)
  else if Js.startsWith "DEL-REL-" val then
    let content := Js.slice 8 val in
    let d := SetData.setReminderAction (Some ActDelete) (labelled Nreminder data) in
    let name := match matchTimeSuffix content with
                | Some (h, m) => beforeTimeSuffix content h m
                | None => content
                end in
    gret (Nreminder,
          SetData.setContent (Some name)
            (SetData.setReminderFlowId (Some name) d))
  else if Js.startsWith "APAGAR-GANCHO-" val then
    gret (Nhook,
          SetData.setContent (Some (Js.slice 14 val))
            (SetData.setHookAction (Some ActDelete) (labelled Nhook data)))
  else if Js.startsWith "GANCHO-" val then
    let content := Js.slice 7 val in
    let d := SetData.setHookAction (Some ActAdd) (labelled Nhook data) in
    gret (Nhook,
          match matchTimeSuffix content with
          | Some (h, m) =>
              let name := beforeTimeSuffix content h m in
              SetData.setHookMinutes (Some (Z.of_nat (Js.digitsValue m)))
                (SetData.setHookHours (Some (Z.of_nat (Js.digitsValue h)))
                   (SetData.setContent (Some name)
                      (SetData.setHookFlowId (Some name) d)))
          | None =>
              SetData.setHookMinutes (Some 0%Z)
                (SetData.setHookHours (Some 0%Z)
                   (SetData.setContent (Some content)
                      (SetData.setHookFlowId (Some content) d)))
          end)
  else
    gret (Nmessage, SetData.setContent (Some val) (labelled Nmessage data)).

(** [value] is [None] for [null], [undefined] or a non-string cell. *)
Definition parseColumnValue (value : option string) (columnName : string)
  : Gen (option BubbleData.t) :=
  match value with
  | None => gret None
  | Some value =>
      let val := Js.trim value in
      if Js.isEmpty val then gret None
      else
        let data := NodeData.init "" (Some (Js.toUpperCase columnName)) in
        gbind (decodePayload val data) (fun '(type, data) =>
        gbind uuidv4 (fun id =>
        gret (Some (BubbleData.mk id type data))))
  end.

Definition parseTColumn (value : option string) (columnName : string)
  : Gen (option BubbleData.t) :=
  match value with
  | None => gret None
  | Some value =>
      let val := Js.trim value in
      if Js.isEmpty val then gret None
      else
        let cleanVal := if Js.startsWith "T-" val then Js.slice 2 val else val in
        let parts := Js.split "-" cleanVal in
        gbind uuidv4 (fun id =>
        gret (Some (BubbleData.mk id Ntime
                (SetData.setTimeMax (Some (numberOr (nth_error parts 1) 10))
                   (SetData.setTimeMin (Some (numberOr (nth_error parts 0) 5))
                      (NodeData.init (NODE_LABELS Ntime)
                                     (Some (Js.toUpperCase columnName))))))))
  end.

End Decode.

Local Open Scope list_scope.

(** ** Reading a fetched row ([parseSupabaseRow]) *)

(** A row of the table, as fetched or as published: a cell is absent
    ([undefined]), [null], or a string; a cell holding anything else
    reads as [null]. *)
Definition SupabaseRow : Type := gmap string (option string).

(** [row[key]] when that is a string. *)
Definition cell (row : SupabaseRow) (key : string) : option string :=
  match row !! key with
  | Some (Some s) => Some s
  | _ => None
  end.

Record ParsedFlow := mkParsedFlow {
  pf_grupo : string;
  pf_fluxo : string;
  pf_bubbles : list BubbleData.t;
  pf_stepCount : nat;
  pf_preview : list string;
  pf_posicao : option string;
  pf_blk : option string
}.

(** One pass [for (let i = 1; i <= 50; i++)] over the cells named
    [letter] followed by [i]: a cell that is a non-empty string is
    decoded by [parse], and what it decodes is pushed. *)
Fixpoint readCells (parse : option string -> string -> Gen (option BubbleData.t))
    (letter : string) (row : SupabaseRow) (indexes : list nat)
    (bubbles : list BubbleData.t) : Gen (list BubbleData.t) :=
  match indexes with
  | [] => gret bubbles
  | i :: rest =>
      let key := (letter ++ Js.natToString i)%string in
      match Js.truthy (cell row key) with
      | Some value =>
          gbind (parse (Some value) key) (fun bubble =>
          readCells parse letter row rest
            (match bubble with
             | Some b => bubbles ++ [b]
             | None => bubbles
             end))
      | None => readCells parse letter row rest bubbles
      end
  end.

(** The preview: the first three [M] cells, cut at 50 characters. *)
Definition previewLines (row : SupabaseRow) : list string :=
  flat_map
    (fun i =>
       let key := ("M" ++ Js.natToString i)%string in
       match Js.truthy (cell row key) with
       | Some value =>
           let truncated :=
             if Nat.ltb 50 (String.length value)
             then (Js.take 50 value ++ "...")%string else value in
           [(key ++ ": " ++ truncated)%string]
       | None => []
       end)
    (seq 1 3).

Definition parseSupabaseRow (uuid : nat -> string) (row : SupabaseRow)
  : Gen ParsedFlow :=
  gbind (readCells (parseColumnValue uuid) "M" row (seq 1 50) []) (fun bubbles =>
  gbind (readCells (parseTColumn uuid) "T" row (seq 1 50) bubbles) (fun bubbles =>
  gret (mkParsedFlow
          (match Js.truthy (cell row "GRUPO") with
           | Some s => s | None => "Sem Grupo"%string end)
          (match Js.truthy (cell row "FLUXO") with
           | Some s => s | None => "Sem Nome"%string end)
          bubbles (List.length bubbles) (previewLines row)
          (cell row "POSICAO") (cell row "BLK")))).

(** ** Building the published row ([handlePublish]) *)

Inductive PublishRefusal :=
| NoSteps                              (* toast: add at least one step *)
| DuplicatedColumn (column : string)   (* toast: duplicated column *)
| StepWithoutColumn.                   (* toast: a step has no Mx/Tx column *)

(** [if (!(col in rowData)) rowData[col] = null] *)
Definition nullIfAbsent (col : string) (rowData : SupabaseRow) : SupabaseRow :=
  match rowData !! col with
  | Some _ => rowData
  | None => <[ col := None ]> rowData
  end.

(** The row [handlePublish] posts, from the check on the steps onwards;
    [posicaoStr] and [blkStr] are what [encodePosicaoV2] and [encodeBlk]
    returned and [updatedAtIso] the time stamp.  The steps all store a
    column when the row is built (the loop before it refuses the flow
    otherwise). *)
Definition publishRow (availableFlows : list FlowRef)
    (grupo fluxo updatedAtIso posicaoStr : string) (blkStr : option string)
    (nodes : list FlowNode.t) : PublishRefusal + SupabaseRow :=
  let allBubblesInFlow := getAllBubblesFromFlowNodes nodes in
  if Nat.eqb (List.length allBubblesInFlow) 0 then inl NoSteps
  else
    match detectDuplicateColumns allBubblesInFlow with
    | (column, _) :: _ => inl (DuplicatedColumn column)
    | [] =>
        if forallb
             (fun b =>
                match Js.truthy (NodeData.supabaseColumn (BubbleData.data b)) with
                | Some col => bool_decide (is_Some (parseColumn col))
                | None => false
                end)
             allBubblesInFlow
        then
          let rowData : SupabaseRow :=
            <[ "BLK"%string := blkStr ]>
              (<[ "POSICAO"%string := Js.truthy (Some posicaoStr) ]>
                 (<[ "UPDATED_AT"%string := Some updatedAtIso ]>
                    (<[ "FLUXO"%string := Some fluxo ]>
                       (<[ "GRUPO"%string := Some grupo ]> ∅)))) in
          let rowData :=
            fold_left
              (fun (rowData : SupabaseRow) bubble =>
                 match NodeData.supabaseColumn (BubbleData.data bubble) with
                 | Some col =>
                     <[ Js.toUpperCase col :=
                          Some (buildSupabaseValueForBubble availableFlows bubble) ]>
                       rowData
                 | None => rowData
                 end)
              allBubblesInFlow rowData in
          inr (fold_left
                 (fun (rowData : SupabaseRow) i =>
                    let mCol := Js.toUpperCase (buildColumn M i) in
                    let tCol := Js.toUpperCase (buildColumn T i) in
                    nullIfAbsent tCol (nullIfAbsent mCol rowData))
                 (seq 1 COLUMN_LIMIT) rowData)
        else inl StepWithoutColumn
    end.

(** ** Store actions on the nodes of one flow ([workflowStore.ts]) *)

(** [updateBubble]: replace the payload (and optionally the kind) of the
    bubble [bubbleId] in the group [nodeId]. *)
Definition updateBubble (nodes : list FlowNode.t) (nodeId bubbleId : string)
    (data : NodeData.t) (newType : option NodeType) : list FlowNode.t :=
  List.map
    (fun n =>
       if (bool_decide (FlowNode.id n = nodeId) && isGroup n)%bool then
         FlowNode.withBubbles n
           (List.map
              (fun b =>
                 if bool_decide (BubbleData.id b = bubbleId) then
                   BubbleData.mk (BubbleData.id b)
                     (match newType with
                      | Some ty => ty
                      | None => BubbleData.type b
                      end)
                     data
                 else b)
              (FlowNode.bubblesOrEmpty n))
       else n)
    nodes.

(** Step 1 of [deleteBubble]: the nodes without the bubble, and the
    column it held (the variable [deletedColumn], assigned while
    mapping over the nodes). *)
Definition removeBubble (nodes : list FlowNode.t) (nodeId bubbleId : string)
  : list FlowNode.t * option string :=
  fold_left
    (fun '(acc, deletedColumn) n =>
       if (negb (bool_decide (FlowNode.id n = nodeId)) || negb (isGroup n))%bool
       then (acc ++ [n], deletedColumn)
       else
         let bubbles := FlowNode.bubblesOrEmpty n in
         let targetBubble :=
           List.find (fun b => bool_decide (BubbleData.id b = bubbleId)) bubbles in
         let deletedColumn' :=
           match targetBubble with
           | Some b => NodeData.supabaseColumn (BubbleData.data b)
           | None => deletedColumn
           end in
         (acc ++ [FlowNode.withBubbles n
                    (List.filter
                       (fun b => negb (bool_decide (BubbleData.id b = bubbleId)))
                       bubbles)],
          deletedColumn'))
    nodes ([], None).

Definition deleteBubble (nodes : list FlowNode.t) (nodeId bubbleId : string)
  : list FlowNode.t :=
  let '(updatedNodes, deletedColumn) := removeBubble nodes nodeId bubbleId in
  match Js.truthy deletedColumn with
  | None => updatedNodes
  | Some deletedColumn =>
      match reorganizeColumnsAfterDeletion updatedNodes deletedColumn with
      | None => updatedNodes
      | Some columnUpdates => applyUpdatesToNodes columnUpdates updatedNodes
      end
  end.


(** [reorderBubblesInNode]: replace the bubbles of the group [nodeId],
    then normalize. *)
Definition reorderBubblesInNode (nodes : list FlowNode.t)
    (edges : list FlowEdge.t) (nodeId : string)
    (newBubbleOrder : list BubbleData.t) : list FlowNode.t :=
  applyNormalizationToNodes
    (List.map
       (fun n =>
          if (bool_decide (FlowNode.id n = nodeId) && isGroup n)%bool
          then FlowNode.withBubbles n newBubbleOrder
          else n)
       nodes)
    edges.

(** Step 1 of [moveBubbleBetweenNodes]: the nodes without the bubble,
    and the bubble found (the variable [movedBubble]). *)
Definition takeBubble (nodes : list FlowNode.t) (sourceNodeId bubbleId : string)
  : list FlowNode.t * option BubbleData.t :=
  fold_left
    (fun '(acc, movedBubble) n =>
       if (negb (bool_decide (FlowNode.id n = sourceNodeId)) || negb (isGroup n))%bool
       then (acc ++ [n], movedBubble)
       else
         let bubbles := FlowNode.bubblesOrEmpty n in
         let found :=
           List.find (fun b => bool_decide (BubbleData.id b = bubbleId)) bubbles in
         let movedBubble' :=
           match found with Some b => Some b | None => movedBubble end in
         (acc ++ [FlowNode.withBubbles n
                    (List.filter
                       (fun b => negb (bool_decide (BubbleData.id b = bubbleId)))
                       bubbles)],
          movedBubble'))
    nodes ([], None).

(** [bubbles.splice(i, 0, x)] for [0 <= i]; past the end it appends. *)
Definition spliceIn {A} (i : nat) (x : A) (l : list A) : list A :=
  firstn i l ++ x :: skipn i l.

(** Step 2: the bubble put into the group [targetNodeId], at
    [insertIndex] when that is a number at least 0, else at the end. *)
Definition putBubble (nodes : list FlowNode.t) (targetNodeId : string)
    (movedBubble : BubbleData.t) (insertIndex : option Z) : list FlowNode.t :=
  List.map
    (fun n =>
       if (negb (bool_decide (FlowNode.id n = targetNodeId)) || negb (isGroup n))%bool
       then n
       else
         let bubbles := FlowNode.bubblesOrEmpty n in
         FlowNode.withBubbles n
           (match insertIndex with
            | Some i => if Z.leb 0 i then spliceIn (Z.to_nat i) movedBubble bubbles
                        else bubbles ++ [movedBubble]
            | None => bubbles ++ [movedBubble]
            end))
    nodes.

Definition moveBubbleBetweenNodes (nodes : list FlowNode.t)
    (edges : list FlowEdge.t) (sourceNodeId targetNodeId bubbleId : string)
    (insertIndex : option Z) : list FlowNode.t :=
  let '(nodesAfterRemove, movedBubble) := takeBubble nodes sourceNodeId bubbleId in
  match movedBubble with
  | None => nodes
  | Some b =>
      applyNormalizationToNodes
        (putBubble nodesAfterRemove targetNodeId b insertIndex) edges
  end.

(** ** Manual slot assignment ([handleChangeBubbleColumn]) *)

Inductive ChangeOutcome :=
| InvalidColumn                 (* toast 'Coluna invalida' *)
| DuplicateColumn (col : string) (* toast: the column is already in use *)
| Ignored                       (* the bubble was not found: silent return *)
| Applied.

(** [currentFlow.nodes.find(n => n.id === nodeId)], then, for a group,
    [(node.data.bubbles || []).find(b => b.id === bubbleId)]. *)
Definition targetBubble (nodes : list FlowNode.t) (nodeId bubbleId : string)
  : option BubbleData.t :=
  match List.find (fun n => bool_decide (FlowNode.id n = nodeId)) nodes with
  | Some n =>
      if isGroup n then
        List.find (fun b => bool_decide (BubbleData.id b = bubbleId))
                  (FlowNode.bubblesOrEmpty n)
      else None
  | None => None
  end.

Definition handleChangeBubbleColumn (nodes : list FlowNode.t)
    (nodeId bubbleId column : string) : ChangeOutcome * list FlowNode.t :=
  match parseColumn column with
  | None => (InvalidColumn, nodes)
  | Some (kind, index) =>
      let normalized := buildColumn kind index in
      let duplicates :=
        List.existsb
          (fun b =>
             if bool_decide (BubbleData.id b = bubbleId) then false
             else
               match Js.truthy (NodeData.supabaseColumn (BubbleData.data b)) with
               | Some col =>
                   match parseColumn col with
                   | Some (k, i) => bool_decide (buildColumn k i = normalized)
                   | None => false
                   end
               | None => false
               end)
          (getAllBubblesFromFlowNodes nodes) in
      if duplicates then (DuplicateColumn normalized, nodes)
      else
        match targetBubble nodes nodeId bubbleId with
        | None => (Ignored, nodes)
        | Some b =>
            (Applied,
             updateBubble nodes nodeId bubbleId
               (NodeData.withColumn (BubbleData.data b) (Some normalized)) None)
        end
  end.

(** ** Dropping a new step into a group ([handleDropBubbleIntoGroup]) *)



(** ** The time-rule editor ([TimeMediaRuleEditor], the flow editor page) *)

(** [/^([01]\d|2[0-3]):([0-5]\d)$/.test(time)] *)
Definition isValidTime (time : string) : bool :=
  match time with
  | String h1 (String h2 (String c (String m1 (String m2 EmptyString)))) =>
      ((((Ascii.eqb h1 "0" || Ascii.eqb h1 "1") && Js.isDigit h2)
        || (Ascii.eqb h1 "2"
            && (Nat.leb 48 (nat_of_ascii h2) && Nat.leb (nat_of_ascii h2) 51)))
       && Ascii.eqb c ":"
       && (Nat.leb 48 (nat_of_ascii m1) && Nat.leb (nat_of_ascii m1) 53)
       && Js.isDigit m2)%bool
  | _ => false
  end.

(** [const [h, m] = time.split(':').map(Number); return h * 60 + m], and
    [-1] for a time that is not valid; [None] is NaN. *)
Definition timeToMinutes (time : string) : option Z :=
  if negb (isValidTime time) then Some (-1)%Z
  else
    match List.map Js.Number (Js.split ":" time) with
    | Some h :: Some m :: _ => Some (h * 60 + m)%Z
    | _ => None
    end.

(** [a >= b] and [a < b] on numbers; a comparison with NaN is false. *)
Definition numGe (a b : option Z) : bool :=
  match a, b with
  | Some x, Some y => Z.leb y x
  | _, _ => false
  end.

Definition numLt (a b : option Z) : bool :=
  match a, b with
  | Some x, Some y => Z.ltb x y
  | _, _ => false
  end.

(** The toasts of [validateTimeMediaRules], by what they report. *)
Inductive RuleToast :=
| EmptyMediaUrl                                  (* error: empty media URL *)
| InvalidTimeFormat                              (* error: not HH:MM *)
| StartNotBeforeEnd (startTime endTime : string) (* error: start not before end *)
| RangesOverlap.                                 (* warning: ranges overlap *)

Record TimeSlot := mkTimeSlot {
  slotStart : option Z;
  slotEnd : option Z;
  slotId : string
}.

(** The nested loops over [timeSlots]: one warning for each pair of
    overlapping ranges. *)
Fixpoint overlapWarnings (timeSlots : list TimeSlot) : list RuleToast :=
  match timeSlots with
  | [] => []
  | slotA :: rest =>
      flat_map
        (fun slotB =>
           if (numLt (slotStart slotA) (slotEnd slotB)
               && numLt (slotStart slotB) (slotEnd slotA))%bool
           then [RangesOverlap] else [])
        rest
      ++ overlapWarnings rest
  end.

(** The verdict, with the toasts shown on the way. *)
Definition validateTimeMediaRules (rules : list TimeMediaRule.t)
  : bool * list RuleToast :=
  let '(isValid, timeSlots, toasts) :=
    fold_left
      (fun '(isValid, timeSlots, toasts) rule =>
         if Js.isEmpty (Js.trim (TimeMediaRule.mediaUrl rule)) then
           (false, timeSlots, toasts ++ [EmptyMediaUrl])
         else if (negb (isValidTime (TimeMediaRule.startTime rule))
                  || negb (isValidTime (TimeMediaRule.endTime rule)))%bool then
           (false, timeSlots, toasts ++ [InvalidTimeFormat])
         else
           let startMinutes := timeToMinutes (TimeMediaRule.startTime rule) in
           let endMinutes := timeToMinutes (TimeMediaRule.endTime rule) in
           if numGe startMinutes endMinutes then
             (false, timeSlots,
              toasts ++ [StartNotBeforeEnd (TimeMediaRule.startTime rule)
                                           (TimeMediaRule.endTime rule)])
           else
             (isValid,
              timeSlots ++ [mkTimeSlot startMinutes endMinutes
                                       (TimeMediaRule.id rule)],
              toasts))
      rules (true, [], []) in
  if negb isValid then (false, toasts)
  else (true, toasts ++ overlapWarnings timeSlots).

(** [/[\r\n]+/g] replaced by one space: [inRun] tells that the
    character before was part of the run being replaced. *)
Fixpoint replaceLineBreaks (inRun : bool) (s : string) : string :=
  match s with
  | EmptyString => EmptyString
  | String c s' =>
      if (Nat.eqb (nat_of_ascii c) 13 || Nat.eqb (nat_of_ascii c) 10)%bool then
        if inRun then replaceLineBreaks true s'
        else String " " (replaceLineBreaks true s')
      else String c (replaceLineBreaks false s')
  end.

(** [caption.replace(/;/g, ',').replace(/\|/g, '-').replace(/[\r\n]+/g, ' ')] *)
Definition sanitizeCaption (caption : string) : string :=
  replaceLineBreaks false
    (Js.replaceAll "|" "-" (Js.replaceAll ";" "," caption)).

(** ** Vocabulary of the statements *)

(** The items of slot kind [k], in traversal order. *)
Definition ofKind (k : ColumnKind) (items : list (BubbleData.t * ColumnKind))
  : list (BubbleData.t * ColumnKind) :=
  List.filter (fun it => bool_decide (snd it = k)) items.


(** The counter the normalizer keeps for slot kind [k]. *)
Definition counterOf (k : ColumnKind) (st : Counters) : nat :=
  match k with M => mCounter st | T => tCounter st end.

(** The identifier of a traversal item. *)
Definition itemId (it : BubbleData.t * ColumnKind) : string :=
  BubbleData.id (fst it).

(** [applyUpdates] on one bubble. *)
Definition applyUpdate (updates : gmap string string) (b : BubbleData.t)
  : BubbleData.t :=
  match Js.truthy (updates !! BubbleData.id b) with
  | Some newColumn => BubbleData.withColumn b newColumn
  | None => b
  end.

(** [applyUpdatesToNodes] on one node and on one traversal item. *)
Definition updateNode (updates : gmap string string) (n : FlowNode.t)
  : FlowNode.t :=
  if decide (FlowNode.type n = group)
  then FlowNode.withBubbles n (applyUpdates updates (FlowNode.bubblesOrEmpty n))
  else n.

Definition updateItem (updates : gmap string string)
    (it : BubbleData.t * ColumnKind) : BubbleData.t * ColumnKind :=
  (applyUpdate updates (fst it), snd it).

Definition updateEntry (updates : gmap string string)
    (entry : string * FlowNode.t) : string * FlowNode.t :=
  (fst entry, updateNode updates (snd entry)).

(** The steps of a flow that take a slot. *)
Definition slottedSteps (nodes : list FlowNode.t) : list BubbleData.t :=
  List.filter (fun b => negb (isVisualOnlyBubble (BubbleData.type b)))
              (getAllBubblesFromFlowNodes nodes).

(** The same steps paired with their slot kind, group by group in array
    order. *)
Definition slottedItems (nodes : list FlowNode.t)
  : list (BubbleData.t * ColumnKind) :=
  flat_map (fun n => if decide (FlowNode.type n = group)
                     then slottedBubbles n else []) nodes.

(** What normalization may change: nothing of a step but its stored
    column, nothing at all of an annotation step; nothing of a node but
    the columns of its steps, nothing at all of a node that is not a
    group. *)
Definition bubbleFrame (b b' : BubbleData.t) : Prop :=
  BubbleData.id b' = BubbleData.id b
  /\ BubbleData.type b' = BubbleData.type b
  /\ NodeData.withColumn (BubbleData.data b') None
     = NodeData.withColumn (BubbleData.data b) None
  /\ (BubbleData.type b = Nnote -> b' = b).

Definition nodeFrame (n n' : FlowNode.t) : Prop :=
  FlowNode.id n' = FlowNode.id n
  /\ FlowNode.type n' = FlowNode.type n
  /\ FlowNode.position n' = FlowNode.position n
  /\ FlowNode.width n' = FlowNode.width n
  /\ FlowNode.height n' = FlowNode.height n
  /\ FlowNode.label n' = FlowNode.label n
  /\ FlowNode.note n' = FlowNode.note n
  /\ Forall2 bubbleFrame (FlowNode.bubblesOrEmpty n) (FlowNode.bubblesOrEmpty n')
  /\ (FlowNode.type n <> group -> n' = n).

(** The slot the shift reads off a bubble:
    [currentColumn ? parseColumn(currentColumn) : skip]. *)
Definition storedSlot (b : BubbleData.t) : option (ColumnKind * nat) :=
  match Js.truthy (NodeData.supabaseColumn (BubbleData.data b)) with
  | Some c => parseColumn c
  | None => None
  end.

(** The column the shift after deleting slot [(k, i)] writes on [b]. *)
Definition shiftOf (k : ColumnKind) (i : nat) (b : BubbleData.t)
  : option string :=
  match storedSlot b with
  | Some (k', i') =>
      if (bool_decide (k' = k) && Nat.ltb i i')%bool
      then Some (buildColumn k (i' - 1)) else None
  | None => None
  end.

(** What [removeBubble] does to one node. *)
Definition dropNode (nodeId bubbleId : string) (n : FlowNode.t) : FlowNode.t :=
  if (negb (bool_decide (FlowNode.id n = nodeId)) || negb (isGroup n))%bool then n
  else FlowNode.withBubbles n
         (List.filter (fun b => negb (bool_decide (BubbleData.id b = bubbleId)))
                      (FlowNode.bubblesOrEmpty n)).

(** The traversal items other than the step [bubbleId]. *)
Definition keepItem (bubbleId : string) (it : BubbleData.t * ColumnKind) : bool :=
  negb (bool_decide (BubbleData.id (fst it) = bubbleId)).

(** The step [x] sits in no group but [g]. *)
Definition onlyIn (g x : string) (n : FlowNode.t) : Prop :=
  FlowNode.id n <> g -> FlowNode.type n = group ->
  forall b, b ∈ FlowNode.bubblesOrEmpty n -> BubbleData.id b <> x.

(** No annotation step stores a column that reads as a slot. *)
Definition notesStoreNoSlot (nodes : list FlowNode.t) : Prop :=
  forall b, b ∈ getAllBubblesFromFlowNodes nodes ->
            isVisualOnlyBubble (BubbleData.type b) = true ->
            storedSlot b = None.

(** Canvas positions in reading order: by x, then by y. *)
Definition positionLe (p q : Position.t) : Prop :=
  (Position.x p < Position.x q)%Q
  \/ ((Position.x p == Position.x q)%Q /\ (Position.y p <= Position.y q)%Q).

(** The ids of the groups of a flow, in array order. *)
Definition groupIdsOf (nodes : list FlowNode.t) : list string :=
  List.map FlowNode.id (List.filter isGroup nodes).

(** The position of the group [g] of a flow (the origin when there is
    none). *)
Definition groupPosition (nodes : list FlowNode.t) (g : string) : Position.t :=
  match List.find (fun n => (isGroup n && bool_decide (FlowNode.id n = g))%bool)
                  nodes with
  | Some n => FlowNode.position n
  | None => origin
  end.

(** No edge orders the groups: none runs from a group or from the start
    node to a group. *)
Definition noOrderingEdges (nodes : list FlowNode.t) (edges : list FlowEdge.t)
  : Prop :=
  forall e, e ∈ edges -> FlowEdge.target e ∈ groupIdsOf nodes ->
            (FlowEdge.source e ∉ groupIdsOf nodes)
            /\ FlowEdge.source e <> "start-node"%string.

(** Every group marked visited has been shifted off the queue or waits
    in it. *)
Definition coversVisited (queue : list string) (visited : gset string)
    (result : list string) : Prop :=
  forall x, x ∈ visited -> x ∈ result ++ queue.

(** Slot [i] of kind [kind] is in use, as [getUsedColumns] counts it:
    stored by a step of that kind. *)
Definition slotUsed (bubbles : list BubbleData.t) (kind : ColumnKind) (i : nat)
  : Prop :=
  exists b, b ∈ bubbles
            /\ getColumnKindForBubble (BubbleData.type b) = kind
            /\ storedSlot b = Some (kind, i).

(** The ids of the steps that store the slot named [c], in order. *)
Definition idsStoredAt (c : string) (bubbles : list BubbleData.t) : list string :=
  List.map BubbleData.id
    (List.filter (fun b => bool_decide (currentNormalized b = Some c)) bubbles).


(** A step without its column. *)
Definition eraseColumn (b : BubbleData.t) : BubbleData.t :=
  BubbleData.mk (BubbleData.id b) (BubbleData.type b)
                (NodeData.withColumn (BubbleData.data b) None).

(** Well-formed flows: identifiers identify. *)
Definition uniqueNodeIds (nodes : list FlowNode.t) : Prop :=
  NoDup (List.map FlowNode.id nodes).

Definition uniqueBubbleIds (nodes : list FlowNode.t) : Prop :=
  NoDup (List.map BubbleData.id (getAllBubblesFromFlowNodes nodes)).

(** The canonical group order of a flow, as [applyNormalizationToNodes]
    passes it to the normalizer. *)
Definition canonicalOrder (nodes : list FlowNode.t) (edges : list FlowEdge.t)
  : list string :=
  List.map groupId (calculateGroupOrder nodes edges).

(** The invariant of the traversal queue: the groups shifted off and
    the groups waiting are distinct groups, all marked visited. *)
Definition queueInvariant (groupIds : list string) (queue : list string)
    (visited : gset string) (result : list string) : Prop :=
  NoDup (result ++ queue)
  /\ (forall x, x ∈ result ++ queue -> x ∈ groupIds /\ x ∈ visited).

(** The slot [col] is taken by a step other than [bubbleId]. *)
Definition slotTaken (nodes : list FlowNode.t) (bubbleId col : string) : Prop :=
  exists b, b ∈ getAllBubblesFromFlowNodes nodes
            /\ BubbleData.id b <> bubbleId
            /\ normalizedColumn (NodeData.supabaseColumn (BubbleData.data b))
               = Some col.

(** The column name the snapshot files a bubble under:
    [b.data.supabaseColumn?.toUpperCase()], when truthy. *)
Definition colName (b : BubbleData.t) : option string :=
  Js.truthy (option_map Js.toUpperCase
               (NodeData.supabaseColumn (BubbleData.data b))).

(** The bubbles found for the recorded columns of a group, in order. *)
Definition foundBubbles (byColumn : gmap string BubbleData.t)
    (columns : list string) : list BubbleData.t :=
  omap (fun col => byColumn !! col) columns.

Definition filledGroup (byColumn : gmap string BubbleData.t)
    (pg : ParsedGroupV2) : DistributedGroup :=
  mkDistributedGroup (pg_groupId pg) (pg_x pg) (pg_y pg) (pg_title pg)
                     (foundBubbles byColumn (pg_columns pg)).

(** The structure the snapshot is about: per group its id, position,
    title and slot names in order; and the edges as (source, target). *)
Definition GroupShape : Type := (string * Q * Q * string * list string)%type.

Definition decodedShape (grp : DistributedGroup) : GroupShape :=
  (dg_groupId grp, dg_x grp, dg_y grp, dg_title grp,
   columnNames (dg_bubbles grp)).

(** What [encodePosicaoV2] records of a group: the position rounded, the
    title with ["Group"] for an empty one, the upper-cased column names
    of the steps that store one. *)
Definition recordedShape (n : FlowNode.t) : GroupShape :=
  (FlowNode.id n,
   inject_Z (mathRound (Position.x (FlowNode.position n))),
   inject_Z (mathRound (Position.y (FlowNode.position n))),
   Js.orElse (FlowNode.label n) "Group",
   columnNames (FlowNode.bubblesOrEmpty n)).

(** A group as it is in the flow. *)
Definition flowShape (n : FlowNode.t) : GroupShape :=
  (FlowNode.id n,
   Position.x (FlowNode.position n),
   Position.y (FlowNode.position n),
   FlowNode.label n,
   columnNames (FlowNode.bubblesOrEmpty n)).

(** An edge the snapshot keeps: both ends are the start node or a group. *)
Definition recordedEdge (nodes : list FlowNode.t) (edge : FlowEdge.t) : bool :=
  let ok (i : string) :=
    (bool_decide (i = "start-node")
     || bool_decide (i ∈ List.map FlowNode.id (List.filter isGroup nodes)))%bool in
  (ok (FlowEdge.source edge) && ok (FlowEdge.target edge))%bool.

Definition edgePair (edge : FlowEdge.t) : string * string :=
  (FlowEdge.source edge, FlowEdge.target edge).

(** The bubbles the snapshot can place: those with a column name. *)
Definition placeable (bubbles : list BubbleData.t) : list BubbleData.t :=
  List.filter (fun b => bool_decide (is_Some (colName b))) bubbles.

(** All the column names a layout records, group after group. *)
Definition layoutColumns (layout : ParsedLayoutV2) : list string :=
  flat_map pg_columns (groups layout).

(** [s] does not contain the character [c]. *)
Fixpoint noChar (c : ascii) (s : string) : bool :=
  match s with
  | EmptyString => true
  | String a s' => (negb (Ascii.eqb a c) && noChar c s')%bool
  end.

(** [s] contains no white space. *)
Fixpoint noWhiteSpace (s : string) : bool :=
  match s with
  | EmptyString => true
  | String a s' => (negb (Js.isWhiteSpace a) && noWhiteSpace s')%bool
  end.

(** [s] does not end in white space: [s.trimEnd() === s]. *)
Definition noTrailingSpace (s : string) : bool :=
  bool_decide (Js.trimEnd s = s).

(** A prefix trimming cannot eat into: not empty, no white space. *)
Definition solidPrefix (p : string) : bool :=
  (negb (Js.isEmpty p) && noWhiteSpace p)%bool.

(** [HH:MM]: two digits, a colon, two digits. *)
Definition validTime (s : string) : bool :=
  match s with
  | String h1 (String h2 (String c (String m1 (String m2 EmptyString)))) =>
      (Js.isDigit h1 && Js.isDigit h2 && Ascii.eqb c ":"
       && Js.isDigit m1 && Js.isDigit m2)%bool
  | _ => false
  end.

(** The payload of a step, as the encoder reads it off the record
    (an absent text is the empty text, an absent or empty caption of a
    rule is no caption, absent timer bounds are 5 and 10, a hook
    without action adds, absent hook hours and minutes are 0, a reminder
    that does not add deletes and then has no time); rule ids are not
    part of it.  Kinds outside the symmetric part of the codec have
    none. *)
Inductive Payload :=
| PText (content : string)
| PTextUtm (content utm : string)
| PMessageRules (rules : list (string * string * string))
| PMedia (mediaUrl : string)
| PMediaCaption (mediaUrl caption : string)
| PMediaRules (rules : list (string * string * string * option string))
| PTime (timeMin timeMax : Z)
| PTag
| PHook (action : Action) (content target : string) (hours minutes : Z)
| PReminder (action : Action) (content target : string) (time : option (Z * Z)).

Definition messageRuleBody (r : TimeMessageRule.t) : string * string * string :=
  (TimeMessageRule.startTime r, TimeMessageRule.endTime r,
   TimeMessageRule.content r).

Definition mediaRuleBody (r : TimeMediaRule.t)
  : string * string * string * option string :=
  (TimeMediaRule.startTime r, TimeMediaRule.endTime r,
   TimeMediaRule.mediaUrl r, Js.truthy (TimeMediaRule.caption r)).

Definition messageRulesOf (d : NodeData.t) : list TimeMessageRule.t :=
  match NodeData.timeMessageRules d with Some rs => rs | None => [] end.

Definition mediaRulesOf (d : NodeData.t) : list TimeMediaRule.t :=
  match NodeData.timeMediaRules d with Some rs => rs | None => [] end.

Definition timeMinOf (d : NodeData.t) : Z :=
  match NodeData.timeMin d with Some z => z | None => 5%Z end.

Definition timeMaxOf (d : NodeData.t) : Z :=
  match NodeData.timeMax d with Some z => z | None => 10%Z end.

Definition payloadOf (b : BubbleData.t) : option Payload :=
  let d := BubbleData.data b in
  match BubbleData.type b with
  | Nmessage => Some (PText (firstTruthy [NodeData.content d]))
  | Nmessage_utm =>
      Some (PTextUtm (firstTruthy [NodeData.content d])
                     (firstTruthy [NodeData.utm d]))
  | Nmessage_time =>
      Some (PMessageRules (List.map messageRuleBody (messageRulesOf d)))
  | Nphoto | Nvideo | Naudio => Some (PMedia (firstTruthy [NodeData.mediaUrl d]))
  | Nphoto_caption | Nvideo_caption =>
      Some (PMediaCaption (firstTruthy [NodeData.mediaUrl d])
                          (firstTruthy [NodeData.caption d]))
  | Nphoto_caption_time | Nvideo_caption_time =>
      Some (PMediaRules (List.map mediaRuleBody (mediaRulesOf d)))
  | Ntime => Some (PTime (timeMinOf d) (timeMaxOf d))
  | Nlead_respond | Nlink_pix => Some PTag
  | Nhook =>
      Some (PHook (match NodeData.hookAction d with Some a => a | None => ActAdd end)
                  (firstTruthy [NodeData.content d])
                  (firstTruthy [NodeData.hookFlowId d])
                  (orZero (NodeData.hookHours d))
                  (orZero (NodeData.hookMinutes d)))
  | Nreminder =>
      Some (match NodeData.reminderAction d with
            | Some ActAdd =>
                PReminder ActAdd (firstTruthy [NodeData.content d])
                  (firstTruthy [NodeData.reminderFlowId d])
                  (match NodeData.reminderHours d, NodeData.reminderMinutes d with
                   | Some hh, Some mm => Some (hh, mm)
                   | _, _ => None
                   end)
            | _ =>
                PReminder ActDelete (firstTruthy [NodeData.content d])
                  (firstTruthy [NodeData.reminderFlowId d]) None
            end)
  | _ => None
  end.

Definition wellFormedMessageRule (r : TimeMessageRule.t) : bool :=
  (validTime (TimeMessageRule.startTime r)
   && validTime (TimeMessageRule.endTime r)
   && noChar ";" (TimeMessageRule.content r)
   && noTrailingSpace (TimeMessageRule.content r))%bool.

Definition wellFormedMediaRule (r : TimeMediaRule.t) : bool :=
  let cap := firstTruthy [TimeMediaRule.caption r] in
  (validTime (TimeMediaRule.startTime r)
   && validTime (TimeMediaRule.endTime r)
   && noChar ";" (TimeMediaRule.mediaUrl r)
   && noChar "|" (TimeMediaRule.mediaUrl r)
   && noChar ";" cap && noChar "|" cap && noTrailingSpace cap)%bool.

(** The name the encoder writes for the target [key] of a hook or a
    reminder: the name of the flow with that id, else of the flow with
    that name, else the content, else the key itself; trimmed. *)
Definition destinationOf (availableFlows : list FlowRef) (d : NodeData.t)
    (key : option string) : string :=
  Js.trim (firstTruthy [flowNameById availableFlows key;
                        flowNameByName availableFlows key;
                        NodeData.content d; key]).

(** A step that names its target: the stored target and the content are
    the name the encoder writes (so the target is a flow name, as a
    fetched step has it, not a flow id standing for another name). *)
Definition namesTarget (availableFlows : list FlowRef) (d : NodeData.t)
    (key : option string) : bool :=
  (bool_decide (firstTruthy [key] = destinationOf availableFlows d key)
   && bool_decide (firstTruthy [NodeData.content d]
                   = destinationOf availableFlows d key))%bool.

(** Hours or minutes that print with at most two digits. *)
Definition inTwoDigits (z : Z) : bool := (Z.leb 0 z && Z.leb z 99)%bool.

(** The payloads on which the codec is symmetric; [availableFlows] are
    the flows of the group, which the encoder looks targets up in. *)
Definition wellFormedPayload (availableFlows : list FlowRef) (b : BubbleData.t)
  : bool :=
  let d := BubbleData.data b in
  let text := firstTruthy [NodeData.content d] in
  let url := firstTruthy [NodeData.mediaUrl d] in
  let cap := firstTruthy [NodeData.caption d] in
  let tag := firstTruthy [NodeData.utm d] in
  match BubbleData.type b with
  | Nmessage =>
      (noTrailingSpace text && negb (Js.startsWith "UTM-" text)
       && negb (Js.startsWith "TEMPO-" text))%bool
  | Nmessage_utm =>
      (negb (Js.isEmpty text) && bool_decide (Js.trimStart text = text)
       && negb (Js.isEmpty tag) && noWhiteSpace tag)%bool
  | Nmessage_time =>
      (negb (Nat.eqb (List.length (messageRulesOf d)) 0)
       && forallb wellFormedMessageRule (messageRulesOf d))%bool
  | Nphoto | Nvideo =>
      (noTrailingSpace url && negb (Js.startsWith "C-" url))%bool
  | Naudio => noTrailingSpace url
  | Nphoto_caption | Nvideo_caption =>
      (negb (Js.isEmpty url) && noWhiteSpace url && noTrailingSpace cap
       && negb (Js.startsWith "T;" url) && negb (Js.startsWith "T-" url))%bool
  | Nphoto_caption_time | Nvideo_caption_time =>
      forallb wellFormedMediaRule (mediaRulesOf d)
  | Ntime => (Z.leb 0 (timeMinOf d) && Z.leb 0 (timeMaxOf d))%bool
  | Nlead_respond | Nlink_pix => true
  | Nhook =>
      (negb (bool_decide (NodeData.hookAction d = Some ActDelete))
       && namesTarget availableFlows d (NodeData.hookFlowId d)
       && negb (Js.isEmpty (firstTruthy [NodeData.hookFlowId d]))
       && inTwoDigits (orZero (NodeData.hookHours d))
       && inTwoDigits (orZero (NodeData.hookMinutes d)))%bool
  | Nreminder =>
      (namesTarget availableFlows d (NodeData.reminderFlowId d)
       && match NodeData.reminderAction d with
          | Some ActAdd =>
              match NodeData.reminderHours d, NodeData.reminderMinutes d with
              | Some hh, Some mm => inTwoDigits hh && inTwoDigits mm
              | _, _ => false
              end
          | _ =>
              negb (bool_decide
                      (is_Some (matchTimeSuffix
                                  (firstTruthy [NodeData.reminderFlowId d]))))
          end)%bool
  | _ => false
  end.

(** The decoded step keeps the kind and the payload of [b] and is filed
    under the upper-cased column name. *)
Definition decodesTo (decoded : option BubbleData.t) (b : BubbleData.t)
    (columnName : string) : Prop :=
  exists b', decoded = Some b'
             /\ BubbleData.type b' = BubbleData.type b
             /\ payloadOf b' = payloadOf b
             /\ NodeData.supabaseColumn (BubbleData.data b')
                = Some (Js.toUpperCase columnName).

(** The slot columns of the table, in the order a row is read. *)
Definition slotKeys : list string :=
  List.map (buildColumn M) (seq 1 COLUMN_LIMIT)
  ++ List.map (buildColumn T) (seq 1 COLUMN_LIMIT).

(** A cell holding a string that is not blank. *)
Definition filledCell (row : SupabaseRow) (key : string) : bool :=
  match cell row key with
  | Some value => negb (Js.isEmpty (Js.trim value))
  | None => false
  end.

(** The column a step stores. *)
Definition storedColumn (b : BubbleData.t) : option string :=
  NodeData.supabaseColumn (BubbleData.data b).

(** A step stores the name of a slot of its own kind, spelled as
    [buildColumn] spells it. *)
Definition storesOwnSlot (b : BubbleData.t) : Prop :=
  exists i, 1 <= i <= COLUMN_LIMIT
            /\ storedColumn b
               = Some (buildColumn (getColumnKindForBubble (BubbleData.type b)) i).

(** The steps in the order of the columns they store. *)
Definition bySlot (bubbles : list BubbleData.t) : list BubbleData.t :=
  omap (fun key =>
          List.find (fun b => bool_decide (storedColumn b = Some key)) bubbles)
       slotKeys.

(** Two steps of the same kind, with the same payload, under the same
    column. *)
Definition sameStep (b' b : BubbleData.t) : Prop :=
  BubbleData.type b' = BubbleData.type b
  /\ payloadOf b' = payloadOf b
  /\ storedColumn b' = storedColumn b.

(** A rule [validateTimeMediaRules] finds no fault with. *)
Definition acceptableRule (rule : TimeMediaRule.t) : bool :=
  (negb (Js.isEmpty (Js.trim (TimeMediaRule.mediaUrl rule)))
   && isValidTime (TimeMediaRule.startTime rule)
   && isValidTime (TimeMediaRule.endTime rule)
   && numLt (timeToMinutes (TimeMediaRule.startTime rule))
            (timeToMinutes (TimeMediaRule.endTime rule)))%bool.

(** The time of day [hh:mm] in minutes. *)
Definition minutesOfDay (hh mm : nat) : Z := Z.of_nat (60 * hh + mm).

(** The two-digit numeral of [n < 100]. *)
Definition twoDigits (n : nat) : string :=
  String (ascii_of_nat (48 + n / 10)) (String (ascii_of_nat (48 + n mod 10)) "").

(** A line break: carriage return or line feed. *)
Definition isLineBreak (c : ascii) : bool :=
  (Nat.eqb (nat_of_ascii c) 13 || Nat.eqb (nat_of_ascii c) 10)%bool.

Fixpoint noLineBreak (s : string) : bool :=
  match s with
  | EmptyString => true
  | String c s' => (negb (isLineBreak c) && noLineBreak s')%bool
  end.

(** The prefixes and literals [parseColumnValue] recognizes. *)
Definition recognizedPrefixes : list string :=
  [ "MSG-UTM-"; "MSG-TEMPO-"; "MSG-"; "FT-C-T;"; "FT-C-T-"; "VD-C-T;";
    "VD-C-T-"; "FT-C-"; "FT-"; "VD-C-"; "VD-"; "AU-"; "T-";
    "ADD-ENTREGA-FLUXO-"; "DEL-ENTREGA-FLUXO-"; "ADD-REL-"; "DEL-REL-";
    "APAGAR-GANCHO-"; "GANCHO-" ]%string.

Definition recognizedLiterals : list string := [ "LD"; "LK-PIX" ]%string.

Definition recognized (val : string) : bool :=
  (List.existsb (fun p => Js.startsWith p val) recognizedPrefixes
   || List.existsb (fun l => bool_decide (val = l)) recognizedLiterals)%bool.

(** The plain-message step [parseColumnValue] falls back to. *)
Definition plainMessage (id text columnName : string) : BubbleData.t :=
  BubbleData.mk id Nmessage
    (SetData.setContent (Some text)
       (SetData.setLabel (NODE_LABELS Nmessage)
          (NodeData.init "" (Some (Js.toUpperCase columnName))))).

(** The stored columns of a flow, group by group. *)
Definition columnsOf (nodes : list FlowNode.t) : list (list (option string)) :=
  List.map
    (fun n => List.map (fun b => NodeData.supabaseColumn (BubbleData.data b))
                       (FlowNode.bubblesOrEmpty n))
    nodes.

(** ** Sample flows *)

Definition groupNode (i : string) (x y : Q) (title : string)
    (bs : list BubbleData.t) : FlowNode.t :=
  FlowNode.mk i group (Position.mk x y) None None title (Some bs) None.

Definition startNode : FlowNode.t :=
  FlowNode.mk "start-node" start (Position.mk 50 50) None None "Inicio" None None.

Definition messageStep (i : string) (col : option string) (text : string)
  : BubbleData.t :=
  BubbleData.mk i Nmessage
    (SetData.setContent (Some text) (NodeData.init (NODE_LABELS Nmessage) col)).

Definition timeStep (i : string) (col : option string) : BubbleData.t :=
  BubbleData.mk i Ntime
    (SetData.setTimeMax (Some 10%Z)
       (SetData.setTimeMin (Some 5%Z) (NodeData.init (NODE_LABELS Ntime) col))).

Definition noteStep (i : string) (col : option string) : BubbleData.t :=
  BubbleData.mk i Nnote (NodeData.init (NODE_LABELS Nnote) col).

Definition edge (s t : string) : FlowEdge.t :=
  FlowEdge.mk (String.append s (String.append "->" t)) s t.

(** Three groups at (0,0), (100,0) and (0,50), no edges. *)
Definition threeGroups : list FlowNode.t :=
  [ startNode;
    groupNode "g00" 0 0 "Intro" [messageStep "s1" None "oi"];
    groupNode "g100" 100 0 "Oferta"
      [messageStep "s2" (Some "M1") "veja"; timeStep "s3" None];
    groupNode "g050" 0 50 "Fim" [messageStep "s4" None "tchau"] ].

(** start -> A, start -> B, A -> C, with A at x = 0 and B at x = 100. *)
Definition branching : list FlowNode.t :=
  [ startNode;
    groupNode "C" 50 0 "C" [messageStep "c1" None "c"];
    groupNode "B" 100 0 "B" [messageStep "b1" None "b"];
    groupNode "A" 0 0 "A" [messageStep "a1" None "a"] ].

Definition branchingEdges : list FlowEdge.t :=
  [ edge "start-node" "A"; edge "start-node" "B"; edge "A" "C" ].

(** One group of 51 message steps, none with a slot yet. *)
Definition crowded : list FlowNode.t :=
  [ startNode;
    groupNode "g" 0 0 "Intro"
      (List.map (fun i => messageStep (String.append "s" (Js.natToString i)) None "oi")
                (seq 1 51)) ].

(** One group with a single content step and no timer step. *)
Definition oneMessage : list FlowNode.t :=
  [ startNode; groupNode "g" 0 0 "Intro" [messageStep "a" (Some "M1") "oi"] ].

(** A group off the integer grid and without a title. *)
Definition offGrid : list FlowNode.t :=
  [ startNode; groupNode "g" (1 # 2) 0 "" [messageStep "a" (Some "M1") "oi"] ].

Definition offGridEdges : list FlowEdge.t := [ edge "start-node" "g" ].

(** A published flow: two groups on the integer grid, slots assigned. *)
Definition published : list FlowNode.t :=
  [ startNode;
    groupNode "g1" 0 0 "Intro"
      [messageStep "s1" (Some "M1") "oi"; timeStep "s2" (Some "T1")];
    groupNode "g2" 300 40 "Oferta" [messageStep "s3" (Some "M2") "veja"] ].

Definition publishedEdges : list FlowEdge.t :=
  [ edge "start-node" "g1"; edge "g1" "g2" ].

Definition publishedDoc : PosicaoV2 :=
  match encodePosicaoV2 published publishedEdges None with
  | Some doc => doc
  | None => mkPosicaoV2 2 None None [] ∅ None
  end.

(** A normalized group in which an annotation step stores a column. *)
Definition annotated : list FlowNode.t :=
  [ startNode;
    groupNode "g" 0 0 "Intro"
      [ noteStep "n" (Some "M1");
        messageStep "a" (Some "M1") "oi";
        messageStep "b" (Some "M2") "veja" ] ].














(** A normalized group of two messages around a timer. *)
Definition sequenced : list FlowNode.t :=
  [ startNode;
    groupNode "g" 0 0 "Intro"
      [ messageStep "a" (Some "M1"%string) "oi";
        timeStep "t" (Some "T1"%string);
        messageStep "b" (Some "M2"%string) "veja" ] ].

(** Two groups side by side. *)
Definition twoGroups : list FlowNode.t :=
  [ startNode;
    groupNode "g1" 0 0 "Intro"
      [ messageStep "a" (Some "M1"%string) "oi";
        messageStep "b" (Some "M2"%string) "veja" ];
    groupNode "g2" 400 0 "Oferta"
      [ messageStep "c" (Some "M3"%string) "compre" ] ].

(* ================================================================== *)
(** * Part II — lemmas and theorems                                    *)
(* ================================================================== *)
(** ** Decimal numerals *)

Lemma string_of_uint_allDigits (d : Decimal.uint) :
  Js.allDigits (NilEmpty.string_of_uint d) = true.
Proof. induction d; simpl; auto. Qed.

Lemma digitsValueFrom_string_of_uint (d : Decimal.uint) (acc : nat) :
  Js.digitsValueFrom acc (NilEmpty.string_of_uint d) = Nat.of_uint_acc d acc.
Proof.
  revert acc. induction d; intros acc; simpl Js.digitsValueFrom; simpl Nat.of_uint_acc;
    rewrite ?Nat.tail_mul_spec; try reflexivity;
    rewrite IHd; f_equal; unfold Js.digitValue; simpl; lia.
Qed.

Lemma digitsValue_natToString (n : nat) : Js.digitsValue (Js.natToString n) = n.
Proof.
  unfold Js.digitsValue, Js.natToString.
  rewrite digitsValueFrom_string_of_uint. apply Unsigned.of_to.
Qed.

Lemma natToString_inj (n m : nat) : Js.natToString n = Js.natToString m -> n = m.
Proof.
  intros H. rewrite <- (digitsValue_natToString n), <- (digitsValue_natToString m).
  now rewrite H.
Qed.

Lemma natToString_allDigits (n : nat) : Js.allDigits (Js.natToString n) = true.
Proof. apply string_of_uint_allDigits. Qed.

(** ** White space and case on digit strings *)

Lemma digit_not_space (c : ascii) : Js.isDigit c = true -> Js.isWhiteSpace c = false.
Proof.
  unfold Js.isDigit, Js.isWhiteSpace. intros H.
  apply andb_true_iff in H as [H1 H2].
  apply Nat.leb_le in H1. apply Nat.leb_le in H2.
  repeat (apply orb_false_iff; split); apply Nat.eqb_neq; lia.
Qed.

Lemma digit_upper (c : ascii) : Js.isDigit c = true -> Js.upperChar c = c.
Proof.
  unfold Js.isDigit, Js.upperChar. intros H.
  apply andb_true_iff in H as [H1 H2].
  apply Nat.leb_le in H1. apply Nat.leb_le in H2.
  destruct (Nat.leb 97 (nat_of_ascii c)) eqn:E; [|reflexivity].
  apply Nat.leb_le in E. lia.
Qed.

Lemma trimEnd_digits (s : string) : Js.allDigits s = true -> Js.trimEnd s = s.
Proof.
  induction s as [|c s IH]; simpl; [reflexivity|]. intros H.
  apply andb_true_iff in H as [Hc Hs].
  rewrite (digit_not_space c Hc). simpl. now rewrite IH.
Qed.

Lemma toUpperCase_digits (s : string) : Js.allDigits s = true -> Js.toUpperCase s = s.
Proof.
  induction s as [|c s IH]; simpl; [reflexivity|]. intros H.
  apply andb_true_iff in H as [Hc Hs].
  now rewrite (digit_upper c Hc), IH.
Qed.

Lemma upper_trim_buildColumn (k : ColumnKind) (i : nat) :
  Js.toUpperCase (Js.trim (buildColumn k i)) = buildColumn k i.
Proof.
  unfold buildColumn, Js.trim.
  assert (Hd := natToString_allDigits i).
  destruct k; simpl; rewrite (trimEnd_digits _ Hd), (toUpperCase_digits _ Hd);
    reflexivity.
Qed.

(** ** [parseColumn] against [buildColumn] *)

Lemma parseColumn_buildColumn_cases (k : ColumnKind) (i : nat) :
  parseColumn (buildColumn k i) = Some (k, i) \/ parseColumn (buildColumn k i) = None.
Proof.
  unfold parseColumn. rewrite upper_trim_buildColumn. unfold buildColumn.
  rewrite natToString_allDigits, digitsValue_natToString.
  destruct k; simpl;
    repeat match goal with |- context [if ?b then _ else _] => destruct b end;
    auto.
Qed.

Lemma parseColumn_buildColumn (k : ColumnKind) (i : nat) :
  1 <= i <= COLUMN_LIMIT -> parseColumn (buildColumn k i) = Some (k, i).
Proof.
  intros Hi.
  assert (Hall : forallb (fun j => bool_decide (parseColumn (buildColumn k j) = Some (k, j)))
                         (seq 1 COLUMN_LIMIT) = true)
    by (destruct k; vm_compute; reflexivity).
  rewrite forallb_forall in Hall.
  specialize (Hall i). rewrite bool_decide_eq_true in Hall. apply Hall.
  apply in_seq. unfold COLUMN_LIMIT in *. lia.
Qed.

Lemma buildColumn_inj (k k' : ColumnKind) (i i' : nat) :
  buildColumn k i = buildColumn k' i' -> k = k' /\ i = i'.
Proof.
  unfold buildColumn. intros H. injection H as Hk Hi.
  split; [destruct k, k'; simpl in Hk; congruence | now apply natToString_inj].
Qed.

Lemma buildColumn_nonempty (k : ColumnKind) (i : nat) :
  Js.truthy (Some (buildColumn k i)) = Some (buildColumn k i).
Proof. reflexivity. Qed.

Lemma currentNormalized_withColumn (b : BubbleData.t) (k : ColumnKind) (i : nat) :
  currentNormalized (BubbleData.withColumn b (buildColumn k i)) = Some (buildColumn k i)
  \/ currentNormalized (BubbleData.withColumn b (buildColumn k i)) = None.
Proof.
  unfold currentNormalized, normalizedColumn. simpl.
  rewrite upper_trim_buildColumn. simpl.
  destruct (parseColumn_buildColumn_cases k i) as [-> | ->]; auto.
Qed.

Lemma currentNormalized_withColumn_in_range (b : BubbleData.t) (k : ColumnKind) (i : nat) :
  1 <= i <= COLUMN_LIMIT ->
  currentNormalized (BubbleData.withColumn b (buildColumn k i)) = Some (buildColumn k i).
Proof.
  intros Hi. unfold currentNormalized, normalizedColumn. simpl.
  rewrite upper_trim_buildColumn. simpl.
  now rewrite (parseColumn_buildColumn k i Hi).
Qed.


(** ** Insertion-ordered maps *)

Lemma omap_get_fresh {V} (k : string) (m : list (string * V)) :
  k ∉ List.map fst m -> OMap.get k m = None.
Proof.
  induction m as [|[k' v'] m IH]; simpl; [reflexivity|]. intros H.
  destruct (decide (k' = k)) as [->|Hne].
  - exfalso. apply H. left.
  - apply IH. intros Hin. apply H. now right.
Qed.

Lemma omap_set_fresh {V} (k : string) (v : V) (m : list (string * V)) :
  k ∉ List.map fst m -> OMap.set k v m = m ++ [(k, v)].
Proof.
  induction m as [|[k' v'] m IH]; simpl; [reflexivity|]. intros H.
  destruct (decide (k' = k)) as [->|Hne].
  - exfalso. apply H. left.
  - f_equal. apply IH. intros Hin. apply H. now right.
Qed.

Lemma omap_get_elem {V} (k : string) (v : V) (m : list (string * V)) :
  OMap.get k m = Some v -> (k, v) ∈ m.
Proof.
  induction m as [|[k' v'] m IH]; simpl; [discriminate|].
  destruct (decide (k' = k)) as [->|Hne].
  - intros [= ->]. left.
  - intros H. right. auto.
Qed.

(** The node map of a flow with distinct node ids lists the nodes in
    array order. *)
Lemma nodeMap_of_unique (nodes : list FlowNode.t) (acc : list (string * FlowNode.t)) :
  NoDup (List.map fst acc ++ List.map FlowNode.id nodes) ->
  fold_left (fun m node => OMap.set (FlowNode.id node) node m) nodes acc
  = acc ++ List.map (fun n => (FlowNode.id n, n)) nodes.
Proof.
  revert acc. induction nodes as [|n nodes IH]; intros acc Hnd; simpl.
  - now rewrite app_nil_r.
  - rewrite omap_set_fresh.
    + rewrite IH.
      * rewrite <- app_assoc. reflexivity.
      * rewrite map_app. simpl. rewrite <- app_assoc. exact Hnd.
    + apply NoDup_app in Hnd as (_ & Hdisj & _).
      intros Hin. apply (Hdisj _ Hin). left.
Qed.

(** ** The traversal collects every slotted step exactly once *)

Lemma collectRemaining_delete (k : string) (n : FlowNode.t)
    (m : list (string * FlowNode.t)) :
  OMap.get k m = Some n ->
  collectRemaining m
  ≡ₚ (if decide (FlowNode.type n = group) then slottedBubbles n else [])
     ++ collectRemaining (OMap.delete k m).
Proof.
  induction m as [|[k' n'] m IH]; simpl; [discriminate|].
  destruct (decide (k' = k)) as [->|Hne].
  - intros [= ->]. reflexivity.
  - intros H. specialize (IH H). unfold collectRemaining in *. simpl.
    rewrite IH. rewrite !app_assoc. apply Permutation_app_tail.
    apply Permutation_app_comm.
Qed.

Lemma collectInOrder_perm (order : list string) (m : list (string * FlowNode.t))
    (acc : list (BubbleData.t * ColumnKind)) :
  fst (collectInOrder order m acc) ++ collectRemaining (snd (collectInOrder order m acc))
  ≡ₚ acc ++ collectRemaining m.
Proof.
  revert m acc. induction order as [|gid order IH]; intros m acc; simpl.
  - reflexivity.
  - destruct (OMap.get gid m) as [node|] eqn:Hget; [|apply IH].
    destruct (decide (FlowNode.type node = group)) as [Hg|Hg]; [|apply IH].
    rewrite IH. rewrite (collectRemaining_delete gid node m Hget).
    rewrite decide_True by exact Hg. now rewrite app_assoc.
Qed.

Lemma collectRemaining_nodes (nodes : list FlowNode.t) :
  collectRemaining (List.map (fun n => (FlowNode.id n, n)) nodes)
  = slottedItems nodes.
Proof.
  unfold collectRemaining, slottedItems.
  induction nodes as [|n nodes IH]; simpl; [reflexivity|].
  now rewrite IH.
Qed.

Lemma slottedBubbles_fst (n : FlowNode.t) :
  List.map fst (slottedBubbles n)
  = List.filter (fun b => negb (isVisualOnlyBubble (BubbleData.type b)))
                (FlowNode.bubblesOrEmpty n).
Proof.
  unfold slottedBubbles. induction (FlowNode.bubblesOrEmpty n) as [|b bs IH];
    simpl; [reflexivity|].
  destruct (isVisualOnlyBubble (BubbleData.type b)); simpl; now rewrite IH.
Qed.

Lemma slottedItems_fst (nodes : list FlowNode.t) :
  List.map fst (slottedItems nodes) = slottedSteps nodes.
Proof.
  unfold slottedItems, slottedSteps, getAllBubblesFromFlowNodes.
  induction nodes as [|n nodes IH]; simpl; [reflexivity|].
  rewrite map_app, List.filter_app, IH. f_equal.
  destruct (decide (FlowNode.type n = group)); [apply slottedBubbles_fst|reflexivity].
Qed.

Lemma allBubblesInOrder_items (nodes : list FlowNode.t) (order : list string) :
  uniqueNodeIds nodes ->
  allBubblesInOrder nodes order ≡ₚ slottedItems nodes.
Proof.
  intros Hnd. unfold allBubblesInOrder.
  rewrite (nodeMap_of_unique nodes []) by exact Hnd. simpl.
  pose proof (collectInOrder_perm order
                (List.map (fun n => (FlowNode.id n, n)) nodes) []) as Hp.
  destruct (collectInOrder _ _ _) as [acc rest]. simpl in Hp.
  now rewrite Hp, collectRemaining_nodes.
Qed.

Lemma allBubblesInOrder_perm (nodes : list FlowNode.t) (order : list string) :
  uniqueNodeIds nodes ->
  List.map fst (allBubblesInOrder nodes order) ≡ₚ slottedSteps nodes.
Proof.
  intros Hnd. rewrite <- slottedItems_fst.
  apply Permutation_map. now apply allBubblesInOrder_items.
Qed.

(** The slot kind paired with a bubble is the kind of its type. *)
Lemma slottedBubbles_kind (n : FlowNode.t) (b : BubbleData.t) (k : ColumnKind) :
  (b, k) ∈ slottedBubbles n ->
  k = getColumnKindForBubble (BubbleData.type b)
  /\ isVisualOnlyBubble (BubbleData.type b) = false
  /\ b ∈ FlowNode.bubblesOrEmpty n.
Proof.
  unfold slottedBubbles. rewrite list_elem_of_In, in_flat_map.
  intros (b' & Hin & Hb). destruct (isVisualOnlyBubble (BubbleData.type b')) eqn:E.
  - destruct Hb.
  - destruct Hb as [[= -> ->]|[]]. rewrite list_elem_of_In. auto.
Qed.

(** ** The counting loop *)

Lemma ofKind_app (k : ColumnKind) (l1 l2 : list (BubbleData.t * ColumnKind)) :
  ofKind k (l1 ++ l2) = ofKind k l1 ++ ofKind k l2.
Proof. apply List.filter_app. Qed.

Lemma assignStep_counter (st : Counters) (b : BubbleData.t) (k k' : ColumnKind) :
  counterOf k' (assignStep st (b, k))
  = counterOf k' st + List.length (ofKind k' [(b, k)]).
Proof.
  unfold assignStep.
  destruct k, k'; simpl; destruct (decide _); simpl; lia.
Qed.

Lemma assignStep_updates (st : Counters) (b : BubbleData.t) (k : ColumnKind) :
  updates (assignStep st (b, k))
  = if decide (currentNormalized b = Some (buildColumn k (S (counterOf k st))))
    then updates st
    else <[ BubbleData.id b := buildColumn k (S (counterOf k st)) ]> (updates st).
Proof.
  unfold assignStep.
  destruct k; simpl; rewrite Nat.add_1_r; destruct (decide _); reflexivity.
Qed.

Lemma assign_fold_counter (items : list (BubbleData.t * ColumnKind))
    (st : Counters) (k : ColumnKind) :
  counterOf k (fold_left assignStep items st)
  = counterOf k st + List.length (ofKind k items).
Proof.
  revert st. induction items as [|[b kb] items IH]; intros st.
  - simpl. lia.
  - cbn [fold_left]. rewrite IH, assignStep_counter.
    change ((b, kb) :: items) with ([(b, kb)] ++ items).
    rewrite ofKind_app, length_app. lia.
Qed.

Lemma assign_fold_other (items : list (BubbleData.t * ColumnKind))
    (st : Counters) (i : string) :
  i ∉ List.map itemId items ->
  updates (fold_left assignStep items st) !! i = updates st !! i.
Proof.
  revert st. induction items as [|[b kb] items IH]; intros st Hi; [reflexivity|].
  cbn [fold_left]. rewrite IH.
  - rewrite assignStep_updates. destruct (decide _); [reflexivity|].
    apply lookup_insert_ne. intros Heq. apply Hi. simpl. rewrite <- Heq. left.
  - intros Hin. apply Hi. now right.
Qed.

Lemma assign_fold_at (pre post : list (BubbleData.t * ColumnKind))
    (b : BubbleData.t) (k : ColumnKind) (st : Counters) :
  NoDup (List.map itemId (pre ++ (b, k) :: post)) ->
  updates (fold_left assignStep (pre ++ (b, k) :: post) st) !! BubbleData.id b
  = let c := buildColumn k (S (counterOf k st + List.length (ofKind k pre))) in
    if decide (currentNormalized b = Some c)
    then updates st !! BubbleData.id b
    else Some c.
Proof.
  revert st. induction pre as [|[b' k'] pre IH]; intros st Hnd.
  - cbn [app fold_left]. simpl in Hnd. apply NoDup_cons in Hnd as [Hni _].
    rewrite assign_fold_other by exact Hni.
    rewrite assignStep_updates. cbn [ofKind List.filter List.length].
    rewrite Nat.add_0_r. cbv zeta. destruct (decide _); [reflexivity|].
    apply lookup_insert_eq.
  - cbn [app fold_left]. simpl in Hnd. apply NoDup_cons in Hnd as [Hni Hnd].
    rewrite IH by exact Hnd. cbv zeta.
    rewrite assignStep_counter.
    change ((b', k') :: pre) with ([(b', k')] ++ pre).
    rewrite ofKind_app, length_app, Nat.add_assoc.
    destruct (decide _); [|reflexivity].
    rewrite assignStep_updates. destruct (decide _); [reflexivity|].
    apply lookup_insert_ne. intros Heq. apply Hni.
    rewrite map_app. apply elem_of_app. right. simpl.
    unfold itemId at 1. simpl. rewrite Heq. left.
Qed.

(** The update map of a traversal with distinct step ids: a step is
    listed exactly when its stored slot differs from the one its rank
    gives it. *)
Lemma assignAll_at (pre post : list (BubbleData.t * ColumnKind))
    (b : BubbleData.t) (k : ColumnKind) :
  NoDup (List.map itemId (pre ++ (b, k) :: post)) ->
  updates (assignAll (pre ++ (b, k) :: post)) !! BubbleData.id b
  = let c := buildColumn k (S (List.length (ofKind k pre))) in
    if decide (currentNormalized b = Some c) then None else Some c.
Proof.
  intros Hnd. unfold assignAll. rewrite assign_fold_at by exact Hnd.
  cbv zeta. destruct k; simpl; destruct (decide _); try reflexivity;
    apply lookup_empty.
Qed.

Lemma assignAll_other (items : list (BubbleData.t * ColumnKind)) (i : string) :
  i ∉ List.map itemId items -> updates (assignAll items) !! i = None.
Proof.
  intros Hi. unfold assignAll. rewrite assign_fold_other by exact Hi.
  apply lookup_empty.
Qed.

(** ** Applying an update map commutes with the traversal *)

Lemma applyUpdate_id (u : gmap string string) (b : BubbleData.t) :
  BubbleData.id (applyUpdate u b) = BubbleData.id b.
Proof. unfold applyUpdate. destruct (Js.truthy _); reflexivity. Qed.

Lemma applyUpdate_type (u : gmap string string) (b : BubbleData.t) :
  BubbleData.type (applyUpdate u b) = BubbleData.type b.
Proof. unfold applyUpdate. destruct (Js.truthy _); reflexivity. Qed.

Lemma applyUpdates_map (u : gmap string string) (bs : list BubbleData.t) :
  applyUpdates u bs = List.map (applyUpdate u) bs.
Proof. reflexivity. Qed.

Lemma applyUpdatesToNodes_map (u : gmap string string) (nodes : list FlowNode.t) :
  applyUpdatesToNodes u nodes = List.map (updateNode u) nodes.
Proof. reflexivity. Qed.

Lemma updateNode_id (u : gmap string string) (n : FlowNode.t) :
  FlowNode.id (updateNode u n) = FlowNode.id n.
Proof. unfold updateNode. destruct (decide _); reflexivity. Qed.

Lemma updateNode_type (u : gmap string string) (n : FlowNode.t) :
  FlowNode.type (updateNode u n) = FlowNode.type n.
Proof. unfold updateNode. destruct (decide _); reflexivity. Qed.

Lemma updateNode_position (u : gmap string string) (n : FlowNode.t) :
  FlowNode.position (updateNode u n) = FlowNode.position n.
Proof. unfold updateNode. destruct (decide _); reflexivity. Qed.

Lemma updateNode_bubbles (u : gmap string string) (n : FlowNode.t) :
  FlowNode.type n = group ->
  FlowNode.bubblesOrEmpty (updateNode u n)
  = List.map (applyUpdate u) (FlowNode.bubblesOrEmpty n).
Proof. intros Hg. unfold updateNode. rewrite decide_True by exact Hg. reflexivity. Qed.

Lemma slottedBubbles_update (u : gmap string string) (n : FlowNode.t) :
  FlowNode.type n = group ->
  slottedBubbles (updateNode u n) = List.map (updateItem u) (slottedBubbles n).
Proof.
  intros Hg. unfold slottedBubbles. rewrite (updateNode_bubbles u n Hg).
  induction (FlowNode.bubblesOrEmpty n) as [|b bs IH]; simpl; [reflexivity|].
  rewrite applyUpdate_type, map_app, IH. f_equal.
  destruct (isVisualOnlyBubble (BubbleData.type b)); reflexivity.
Qed.

Lemma omap_set_update (u : gmap string string) (n : FlowNode.t)
    (m : list (string * FlowNode.t)) :
  OMap.set (FlowNode.id n) (updateNode u n) (List.map (updateEntry u) m)
  = List.map (updateEntry u) (OMap.set (FlowNode.id n) n m).
Proof.
  induction m as [|[k' n'] m IH]; simpl; [reflexivity|].
  destruct (decide (k' = FlowNode.id n)); simpl; [reflexivity|].
  now rewrite IH.
Qed.

Lemma nodeMap_update (u : gmap string string) (nodes : list FlowNode.t)
    (acc : list (string * FlowNode.t)) :
  fold_left (fun m node => OMap.set (FlowNode.id node) node m)
            (List.map (updateNode u) nodes) (List.map (updateEntry u) acc)
  = List.map (updateEntry u)
      (fold_left (fun m node => OMap.set (FlowNode.id node) node m) nodes acc).
Proof.
  revert acc. induction nodes as [|n nodes IH]; intros acc; simpl; [reflexivity|].
  rewrite updateNode_id, omap_set_update. apply IH.
Qed.

Lemma omap_get_update (u : gmap string string) (k : string)
    (m : list (string * FlowNode.t)) :
  OMap.get k (List.map (updateEntry u) m) = option_map (updateNode u) (OMap.get k m).
Proof.
  induction m as [|[k' n'] m IH]; simpl; [reflexivity|].
  destruct (decide (k' = k)); [reflexivity|exact IH].
Qed.

Lemma omap_delete_update (u : gmap string string) (k : string)
    (m : list (string * FlowNode.t)) :
  OMap.delete k (List.map (updateEntry u) m) = List.map (updateEntry u) (OMap.delete k m).
Proof.
  induction m as [|[k' n'] m IH]; simpl; [reflexivity|].
  destruct (decide (k' = k)); simpl; [reflexivity|now rewrite IH].
Qed.

Lemma collectInOrder_update (u : gmap string string) (order : list string)
    (m : list (string * FlowNode.t)) (acc : list (BubbleData.t * ColumnKind)) :
  collectInOrder order (List.map (updateEntry u) m) (List.map (updateItem u) acc)
  = (List.map (updateItem u) (fst (collectInOrder order m acc)),
     List.map (updateEntry u) (snd (collectInOrder order m acc))).
Proof.
  revert m acc. induction order as [|gid order IH]; intros m acc; simpl; [reflexivity|].
  rewrite omap_get_update. destruct (OMap.get gid m) as [node|]; simpl; [|apply IH].
  rewrite updateNode_type.
  destruct (decide (FlowNode.type node = group)) as [Hg|Hg]; [|apply IH].
  rewrite omap_delete_update, (slottedBubbles_update u node Hg), <- map_app.
  apply IH.
Qed.

Lemma collectRemaining_update (u : gmap string string)
    (m : list (string * FlowNode.t)) :
  collectRemaining (List.map (updateEntry u) m)
  = List.map (updateItem u) (collectRemaining m).
Proof.
  unfold collectRemaining. induction m as [|[k n] m IH]; simpl; [reflexivity|].
  rewrite map_app, IH, updateNode_type. f_equal.
  destruct (decide (FlowNode.type n = group)) as [Hg|Hg]; [|reflexivity].
  apply (slottedBubbles_update u n Hg).
Qed.

Lemma allBubblesInOrder_update (u : gmap string string) (nodes : list FlowNode.t)
    (order : list string) :
  allBubblesInOrder (applyUpdatesToNodes u nodes) order
  = List.map (updateItem u) (allBubblesInOrder nodes order).
Proof.
  unfold allBubblesInOrder. rewrite applyUpdatesToNodes_map.
  pose proof (nodeMap_update u nodes []) as Hm. simpl in Hm. rewrite Hm. clear Hm.
  set (m := fold_left (fun m node => OMap.set (FlowNode.id node) node m) nodes []).
  pose proof (collectInOrder_update u order m []) as Hc.
  change (List.map (updateItem u) []) with (@nil (BubbleData.t * ColumnKind)) in Hc.
  rewrite Hc. clear Hc.
  destruct (collectInOrder order m []) as [acc rest]. cbn [fst snd].
  now rewrite List.map_app, collectRemaining_update.
Qed.

(** ** The group order reads only ids, types and positions *)

Lemma filter_isGroup_update (u : gmap string string) (nodes : list FlowNode.t) :
  List.filter isGroup (List.map (updateNode u) nodes)
  = List.map (updateNode u) (List.filter isGroup nodes).
Proof.
  induction nodes as [|n nodes IH]; simpl; [reflexivity|].
  unfold isGroup at 1. rewrite updateNode_type. fold (isGroup n).
  destruct (isGroup n); simpl; now rewrite IH.
Qed.

Lemma positions_update (u : gmap string string) (nodes : list FlowNode.t)
    (m : gmap string Position.t) :
  fold_left (fun (m : gmap string Position.t) node =>
               <[ FlowNode.id node := FlowNode.position node ]> m)
            (List.map (updateNode u) nodes) m
  = fold_left (fun (m : gmap string Position.t) node =>
               <[ FlowNode.id node := FlowNode.position node ]> m)
            nodes m.
Proof.
  revert m. induction nodes as [|n nodes IH]; intros m; simpl; [reflexivity|].
  now rewrite updateNode_id, updateNode_position, IH.
Qed.

Lemma calculateGroupOrder_update (u : gmap string string)
    (nodes : list FlowNode.t) (edges : list FlowEdge.t) :
  calculateGroupOrder (applyUpdatesToNodes u nodes) edges
  = calculateGroupOrder nodes edges.
Proof.
  unfold calculateGroupOrder. rewrite applyUpdatesToNodes_map, filter_isGroup_update.
  rewrite positions_update.
  assert (Hids : List.map FlowNode.id (List.map (updateNode u) (List.filter isGroup nodes))
                 = List.map FlowNode.id (List.filter isGroup nodes)).
  { rewrite List.map_map. apply List.map_ext. intros n. apply updateNode_id. }
  rewrite Hids.
  destruct (List.filter isGroup nodes); reflexivity.
Qed.

(** ** After normalization: the traversal of the result *)

Lemma size_zero_empty (u : gmap string string) :
  Nat.ltb 0 (size u) = false -> u = ∅.
Proof.
  intros H. apply Nat.ltb_ge in H. apply map_size_empty_iff. lia.
Qed.

Lemma applyUpdate_empty (b : BubbleData.t) : applyUpdate ∅ b = b.
Proof. unfold applyUpdate. now rewrite lookup_empty. Qed.

Lemma updateItem_empty (items : list (BubbleData.t * ColumnKind)) :
  List.map (updateItem ∅) items = items.
Proof.
  induction items as [|[b k] items IH]; simpl; [reflexivity|].
  unfold updateItem at 1. simpl. now rewrite applyUpdate_empty, IH.
Qed.

Lemma canonicalOrder_normalized (nodes : list FlowNode.t) (edges : list FlowEdge.t) :
  canonicalOrder (applyNormalizationToNodes nodes edges) edges
  = canonicalOrder nodes edges.
Proof.
  unfold applyNormalizationToNodes, canonicalOrder.
  destruct (normalizeColumnsWithGroupOrder _ _); [|reflexivity].
  now rewrite calculateGroupOrder_update.
Qed.

(** The traversal of the normalized flow is the traversal of the flow
    with the update map applied step by step. *)
Lemma steps_after_normalization (nodes : list FlowNode.t) (edges : list FlowEdge.t) :
  let items := allBubblesInOrder nodes (canonicalOrder nodes edges) in
  allBubblesInOrder (applyNormalizationToNodes nodes edges)
                    (canonicalOrder (applyNormalizationToNodes nodes edges) edges)
  = List.map (updateItem (updates (assignAll items))) items.
Proof.
  intros items. rewrite canonicalOrder_normalized.
  unfold applyNormalizationToNodes, normalizeColumnsWithGroupOrder.
  fold (canonicalOrder nodes edges). fold items.
  destruct (Nat.ltb 0 (size (updates (assignAll items)))) eqn:E.
  - apply allBubblesInOrder_update.
  - rewrite (size_zero_empty _ E). now rewrite updateItem_empty.
Qed.


Lemma NoDup_map_filter {A B} (f : A -> B) (P : A -> bool) (l : list A) :
  NoDup (List.map f l) -> NoDup (List.map f (List.filter P l)).
Proof.
  induction l as [|x l IH]; simpl; [constructor|]. intros Hnd.
  apply NoDup_cons in Hnd as [Hni Hnd].
  destruct (P x); simpl; [|auto].
  constructor; [|auto]. intros Hin. apply Hni.
  apply list_elem_of_In in Hin. apply in_map_iff in Hin as (y & <- & Hin).
  apply list_elem_of_In, in_map. apply filter_In in Hin. tauto.
Qed.

Lemma items_unique (nodes : list FlowNode.t) (order : list string) :
  uniqueNodeIds nodes -> uniqueBubbleIds nodes ->
  NoDup (List.map itemId (allBubblesInOrder nodes order)).
Proof.
  intros Hn Hb.
  assert (Hp : List.map itemId (allBubblesInOrder nodes order)
               ≡ₚ List.map BubbleData.id (slottedSteps nodes)).
  { rewrite <- (allBubblesInOrder_perm nodes order Hn), List.map_map. reflexivity. }
  rewrite Hp. unfold slottedSteps. apply NoDup_map_filter. exact Hb.
Qed.



(** ** Ranks along a list *)


Lemma Forall2_map_left {A B C} (f : A -> B) (R : B -> C -> Prop)
    (l : list A) (l' : list C) :
  Forall2 (fun a c => R (f a) c) l l' -> Forall2 R (List.map f l) l'.
Proof. induction 1; simpl; constructor; auto. Qed.

Lemma ofKind_updateItem (u : gmap string string) (k : ColumnKind)
    (items : list (BubbleData.t * ColumnKind)) :
  ofKind k (List.map (updateItem u) items) = List.map (updateItem u) (ofKind k items).
Proof.
  unfold ofKind. induction items as [|[b kb] items IH]; simpl; [reflexivity|].
  destruct (bool_decide (kb = k)); simpl; now rewrite IH.
Qed.


Lemma NoDup_omap_positions {A B} (f : A -> option B) (l : list A) :
  (forall i j x y s, l !! i = Some x -> l !! j = Some y ->
                     f x = Some s -> f y = Some s -> i = j) ->
  NoDup (omap f l).
Proof.
  induction l as [|x l IH]; intros H; simpl; [constructor|].
  assert (Hl : NoDup (omap f l)).
  { apply IH. intros i j a b s Hi Hj Ha Hb.
    specialize (H (S i) (S j) a b s Hi Hj Ha Hb). lia. }
  destruct (f x) as [s|] eqn:E; [|exact Hl].
  constructor; [|exact Hl].
  intros Hin. apply list_elem_of_omap in Hin as (y & Hy & Hfy).
  apply list_elem_of_lookup in Hy as [j Hj].
  specialize (H 0 (S j) x y s eq_refl Hj E Hfy). discriminate.
Qed.

(** ** The duplicate detector on steps with distinct slots *)

Lemma columnIndex_fold (bubbles : list BubbleData.t)
    (m : list (string * list string)) :
  NoDup (List.map fst m ++ omap currentNormalized bubbles) ->
  Forall (fun entry => List.length (snd entry) = 1) m ->
  Forall (fun entry => List.length (snd entry) = 1)
    (fold_left
       (fun map b =>
          match currentNormalized b with
          | Some normalized =>
              let arr := match OMap.get normalized map with
                         | Some a => a | None => [] end in
              OMap.set normalized (arr ++ [BubbleData.id b]) map
          | None => map
          end)
       bubbles m).
Proof.
  revert m. induction bubbles as [|b bs IH]; intros m Hnd Hm; [exact Hm|].
  cbn [fold_left]. simpl in Hnd.
  destruct (currentNormalized b) as [s|] eqn:E; [|now apply IH].
  assert (Hfresh : s ∉ List.map fst m).
  { apply NoDup_app in Hnd as (_ & Hdisj & _). intros Hin.
    apply (Hdisj s Hin). left. }
  cbv zeta. rewrite (omap_get_fresh s m Hfresh), (omap_set_fresh s _ m Hfresh).
  apply IH.
  - rewrite List.map_app. simpl. rewrite <- app_assoc. exact Hnd.
  - apply Forall_app. split; [exact Hm|]. constructor; [reflexivity|constructor].
Qed.

Lemma filter_singletons (l : list (string * list string)) :
  Forall (fun entry => List.length (snd entry) = 1) l ->
  List.filter (fun '(_, ids) => Nat.ltb 1 (List.length ids)) l = [].
Proof.
  induction 1 as [|[key ids] l Hx _ IH]; simpl; [reflexivity|].
  simpl in Hx. rewrite Hx. simpl. exact IH.
Qed.

Lemma detectDuplicateColumns_none (bubbles : list BubbleData.t) :
  NoDup (omap currentNormalized bubbles) -> detectDuplicateColumns bubbles = [].
Proof.
  intros Hnd. unfold detectDuplicateColumns, columnIndex.
  apply filter_singletons.
  apply (columnIndex_fold bubbles [] Hnd). constructor.
Qed.

(** ** Slot uniqueness and gapless numbering *)



(** ** Steps the normalizer does not list *)

Lemma NoDup_map_eq {A B} (f : A -> B) (l : list A) (x y : A) :
  NoDup (List.map f l) -> x ∈ l -> y ∈ l -> f x = f y -> x = y.
Proof.
  induction l as [|a l IH]; simpl; intros Hnd Hx Hy Hf.
  - inversion Hx.
  - apply NoDup_cons in Hnd as [Hni Hnd].
    apply elem_of_cons in Hx as [->|Hx]; apply elem_of_cons in Hy as [->|Hy]; auto.
    + exfalso. apply Hni. rewrite Hf. apply list_elem_of_In, in_map.
      now apply list_elem_of_In.
    + exfalso. apply Hni. rewrite <- Hf. apply list_elem_of_In, in_map.
      now apply list_elem_of_In.
Qed.

Lemma slottedSteps_elem (nodes : list FlowNode.t) (b : BubbleData.t) :
  b ∈ slottedSteps nodes <->
  b ∈ getAllBubblesFromFlowNodes nodes
  /\ isVisualOnlyBubble (BubbleData.type b) = false.
Proof.
  unfold slottedSteps. rewrite !list_elem_of_In, filter_In, negb_true_iff.
  reflexivity.
Qed.

Lemma slottedItems_elem (nodes : list FlowNode.t) (b : BubbleData.t) :
  b ∈ getAllBubblesFromFlowNodes nodes ->
  isVisualOnlyBubble (BubbleData.type b) = false ->
  (b, getColumnKindForBubble (BubbleData.type b)) ∈ slottedItems nodes.
Proof.
  unfold getAllBubblesFromFlowNodes, slottedItems.
  rewrite !list_elem_of_In, !in_flat_map.
  intros (n & Hn & Hb) Hv. exists n. split; [exact Hn|].
  destruct (decide (FlowNode.type n = group)); [|destruct Hb].
  unfold slottedBubbles. apply in_flat_map. exists b. split; [exact Hb|].
  rewrite Hv. now left.
Qed.

(** An annotation step is never a key of the update map. *)
Lemma note_not_listed (nodes : list FlowNode.t) (order : list string)
    (b : BubbleData.t) :
  uniqueNodeIds nodes -> uniqueBubbleIds nodes ->
  b ∈ getAllBubblesFromFlowNodes nodes ->
  isVisualOnlyBubble (BubbleData.type b) = true ->
  BubbleData.id b ∉ List.map itemId (allBubblesInOrder nodes order).
Proof.
  intros Hn Hb Hin Hv Hid.
  apply list_elem_of_In, in_map_iff in Hid as ([b2 k2] & Heq & Hin2).
  unfold itemId in Heq. simpl in Heq.
  assert (H2 : b2 ∈ slottedSteps nodes).
  { rewrite <- (allBubblesInOrder_perm nodes order Hn).
    apply list_elem_of_In, in_map_iff. exists (b2, k2). split; [reflexivity|exact Hin2]. }
  apply slottedSteps_elem in H2 as [H2 Hv2].
  assert (b2 = b) by (eapply (NoDup_map_eq BubbleData.id); eauto).
  subst b2. congruence.
Qed.

Lemma withColumn_same (b : BubbleData.t) (c : string) :
  NodeData.supabaseColumn (BubbleData.data b) = Some c ->
  BubbleData.withColumn b c = b.
Proof.
  destruct b as [i ty d]. destruct d. simpl. intros ->. reflexivity.
Qed.

Lemma withColumn_twice (b : BubbleData.t) (c : string) :
  BubbleData.withColumn (BubbleData.withColumn b c) c = BubbleData.withColumn b c.
Proof. reflexivity. Qed.

(** ** The second pass *)

Section SecondPass.

Variable items : list (BubbleData.t * ColumnKind).
Hypothesis items_nodup : NoDup (List.map itemId items).

Let u := updates (assignAll items).
Let items1 := List.map (updateItem u) items.
Let u1 := updates (assignAll items1).

Lemma items1_ids : List.map itemId items1 = List.map itemId items.
Proof.
  unfold items1. rewrite List.map_map. apply List.map_ext.
  intros [b k]. unfold itemId, updateItem. simpl. apply applyUpdate_id.
Qed.

Lemma second_pass_at (pre post : list (BubbleData.t * ColumnKind))
    (b : BubbleData.t) (k : ColumnKind) :
  items = pre ++ (b, k) :: post ->
  let c := buildColumn k (S (List.length (ofKind k pre))) in
  (u1 !! BubbleData.id b = None
   \/ (u1 !! BubbleData.id b = Some c
       /\ NodeData.supabaseColumn (BubbleData.data (applyUpdate u b)) = Some c))
  /\ (S (List.length (ofKind k pre)) <= COLUMN_LIMIT ->
      u1 !! BubbleData.id b = None).
Proof.
  intros Hsplit c.
  assert (Hitems1 : items1 = List.map (updateItem u) pre ++ (applyUpdate u b, k)
                               :: List.map (updateItem u) post).
  { unfold items1. generalize u. intros u0. rewrite Hsplit.
    rewrite List.map_app. reflexivity. }
  assert (Hnd1 : NoDup (List.map itemId
            (List.map (updateItem u) pre ++ (applyUpdate u b, k)
               :: List.map (updateItem u) post))).
  { rewrite <- Hitems1, items1_ids. exact items_nodup. }
  pose proof (assignAll_at _ _ _ _ Hnd1) as H1. cbv zeta in H1.
  rewrite ofKind_updateItem, length_map, applyUpdate_id in H1. fold c in H1.
  rewrite <- Hitems1 in H1. fold u1 in H1.
  pose proof items_nodup as Hnd. rewrite Hsplit in Hnd.
  pose proof (assignAll_at _ _ _ _ Hnd) as H0. cbv zeta in H0. fold c in H0.
  rewrite <- Hsplit in H0. fold u in H0.
  rewrite H1. unfold applyUpdate. rewrite H0.
  destruct (decide (currentNormalized b = Some c)) as [Hc|Hc]; simpl.
  - rewrite decide_True by exact Hc. auto.
  - split.
    + destruct (decide (currentNormalized (BubbleData.withColumn b c) = Some c));
        [left; reflexivity|right; split; reflexivity].
    + intros Hr. rewrite decide_True; [reflexivity|].
      apply currentNormalized_withColumn_in_range. lia.
Qed.

End SecondPass.

(** ** Idempotence *)

Lemma bubble_of_group (nodes : list FlowNode.t) (n : FlowNode.t) (b : BubbleData.t) :
  n ∈ nodes -> FlowNode.type n = group -> b ∈ FlowNode.bubblesOrEmpty n ->
  b ∈ getAllBubblesFromFlowNodes nodes.
Proof.
  intros Hn Hg Hb. unfold getAllBubblesFromFlowNodes.
  apply list_elem_of_In, in_flat_map. exists n.
  split; [now apply list_elem_of_In|].
  rewrite decide_True by exact Hg. now apply list_elem_of_In.
Qed.

Lemma second_pass_bubble (nodes : list FlowNode.t) (order : list string)
    (b : BubbleData.t) :
  uniqueNodeIds nodes -> uniqueBubbleIds nodes ->
  b ∈ getAllBubblesFromFlowNodes nodes ->
  let items := allBubblesInOrder nodes order in
  let u := updates (assignAll items) in
  let u1 := updates (assignAll (List.map (updateItem u) items)) in
  applyUpdate u1 (applyUpdate u b) = applyUpdate u b.
Proof.
  intros Hn Hb Hin items u u1.
  assert (Hnd : NoDup (List.map itemId items)) by now apply items_unique.
  unfold applyUpdate at 1. rewrite applyUpdate_id.
  destruct (isVisualOnlyBubble (BubbleData.type b)) eqn:Hv.
  - pose proof (note_not_listed nodes order b Hn Hb Hin Hv) as Hni.
    fold items in Hni. rewrite <- (items1_ids items) in Hni.
    unfold u1, u. now rewrite (assignAll_other _ _ Hni).
  - pose proof (slottedItems_elem nodes b Hin Hv) as Hit.
    rewrite <- (allBubblesInOrder_items nodes order Hn) in Hit. fold items in Hit.
    apply list_elem_of_split in Hit as (pre & post & Hsplit).
    destruct (second_pass_at items Hnd pre post b _ Hsplit) as [[H1|[H1 Hcol]] _];
      fold u in H1; fold u1 in H1; rewrite H1; simpl; [reflexivity|].
    apply withColumn_same. exact Hcol.
Qed.

Lemma second_pass_node (nodes : list FlowNode.t) (order : list string)
    (n : FlowNode.t) :
  uniqueNodeIds nodes -> uniqueBubbleIds nodes -> n ∈ nodes ->
  let items := allBubblesInOrder nodes order in
  let u := updates (assignAll items) in
  let u1 := updates (assignAll (List.map (updateItem u) items)) in
  updateNode u1 (updateNode u n) = updateNode u n.
Proof.
  intros Hn Hb Hin items u u1.
  unfold updateNode at 1. rewrite updateNode_type.
  destruct (decide (FlowNode.type n = group)) as [Hg|Hg]; [|reflexivity].
  rewrite (updateNode_bubbles u n Hg). unfold updateNode.
  rewrite decide_True by exact Hg.
  unfold FlowNode.withBubbles. simpl. do 2 f_equal.
  rewrite !applyUpdates_map, List.map_map. apply List.map_ext_in.
  intros b Hbin. apply (second_pass_bubble nodes order b Hn Hb).
  apply (bubble_of_group nodes n b Hin Hg). now apply list_elem_of_In.
Qed.

Lemma rank_bound (k : ColumnKind) (pre post : list (BubbleData.t * ColumnKind))
    (b : BubbleData.t) :
  S (List.length (ofKind k pre))
  <= List.length (ofKind k (pre ++ (b, k) :: post)).
Proof.
  rewrite ofKind_app, length_app.
  change ((b, k) :: post) with ([(b, k)] ++ post).
  rewrite ofKind_app, length_app.
  assert (H : ofKind k [(b, k)] = [(b, k)]).
  { unfold ofKind. simpl. now rewrite bool_decide_true by reflexivity. }
  rewrite H. simpl. lia.
Qed.

Lemma ofKind_length_perm (k : ColumnKind) (l l' : list (BubbleData.t * ColumnKind)) :
  l ≡ₚ l' -> List.length (ofKind k l) = List.length (ofKind k l').
Proof.
  unfold ofKind. induction 1 as [|x l l' _ IH|x y l|l l' l'' _ IH1 _ IH2]; simpl.
  - reflexivity.
  - destruct (bool_decide _); simpl; lia.
  - destruct (bool_decide _), (bool_decide _); reflexivity.
  - congruence.
Qed.

Lemma applyNormalization_unfold (nodes : list FlowNode.t) (edges : list FlowEdge.t) :
  applyNormalizationToNodes nodes edges
  = let u := updates (assignAll (allBubblesInOrder nodes (canonicalOrder nodes edges))) in
    if Nat.ltb 0 (size u) then applyUpdatesToNodes u nodes else nodes.
Proof.
  unfold applyNormalizationToNodes, normalizeColumnsWithGroupOrder, canonicalOrder.
  cbv zeta. destruct (Nat.ltb 0 _); reflexivity.
Qed.

(** C5 (amended) — Idempotence.  In a flow whose node ids and step ids
    are distinct, normalizing the normalized flow returns it unchanged;
    when the flow has at most 50 content steps and at most 50 timer
    steps, the second pass finds nothing to update (its update map is
    empty). *)
Theorem normalization_idempotent (nodes : list FlowNode.t) (edges : list FlowEdge.t) :
  uniqueNodeIds nodes -> uniqueBubbleIds nodes ->
  let nodes1 := applyNormalizationToNodes nodes edges in
  applyNormalizationToNodes nodes1 edges = nodes1
  /\ (List.length (ofKind M (slottedItems nodes)) <= COLUMN_LIMIT ->
      List.length (ofKind T (slottedItems nodes)) <= COLUMN_LIMIT ->
      normalizeColumnsWithGroupOrder nodes1 (canonicalOrder nodes1 edges) = None).
Proof.
  intros Hn Hb nodes1.
  set (order := canonicalOrder nodes edges).
  set (items := allBubblesInOrder nodes order).
  set (u := updates (assignAll items)).
  set (u1 := updates (assignAll (List.map (updateItem u) items))).
  assert (Hnd : NoDup (List.map itemId items)) by now apply items_unique.
  assert (Hsteps : allBubblesInOrder nodes1 (canonicalOrder nodes1 edges)
                   = List.map (updateItem u) items)
    by apply steps_after_normalization.
  assert (Hsecond : normalizeColumnsWithGroupOrder nodes1 (canonicalOrder nodes1 edges)
                    = if Nat.ltb 0 (size u1) then Some u1 else None).
  { unfold normalizeColumnsWithGroupOrder. rewrite Hsteps. reflexivity. }
  assert (Hfirst : nodes1 = if Nat.ltb 0 (size u)
                            then applyUpdatesToNodes u nodes else nodes)
    by apply applyNormalization_unfold.
  split.
  - rewrite (applyNormalization_unfold nodes1 edges). cbv zeta.
    rewrite Hsteps. fold u1.
    destruct (Nat.ltb 0 (size u1)) eqn:E1; [|reflexivity].
    rewrite Hfirst.
    destruct (Nat.ltb 0 (size u)) eqn:E0.
    + rewrite !applyUpdatesToNodes_map, List.map_map. apply List.map_ext_in.
      intros n Hin. apply (second_pass_node nodes order n Hn Hb).
      now apply list_elem_of_In.
    + exfalso. apply size_zero_empty in E0.
      unfold u1 in E1. rewrite E0, updateItem_empty in E1.
      fold u in E1. rewrite E0 in E1. rewrite map_size_empty in E1. discriminate.
  - intros HM HT. rewrite Hsecond.
    assert (Hempty : u1 = ∅).
    { apply map_eq. intros i. rewrite lookup_empty.
      destruct (decide (i ∈ List.map itemId items)) as [Hi|Hi].
      - apply list_elem_of_In, in_map_iff in Hi as ([b k] & <- & Hin).
        apply list_elem_of_In, list_elem_of_split in Hin as (pre & post & Hsplit).
        destruct (second_pass_at items Hnd pre post b k Hsplit) as [_ Hr].
        apply Hr.
        pose proof (rank_bound k pre post b) as Hrank. rewrite <- Hsplit in Hrank.
        assert (Hlen : List.length (ofKind k items)
                       = List.length (ofKind k (slottedItems nodes))).
        { apply ofKind_length_perm. now apply allBubblesInOrder_items. }
        destruct k; lia.
      - unfold u1, u. apply assignAll_other. now rewrite items1_ids. }
    rewrite Hempty, map_size_empty. reflexivity.
Qed.

(** ** Frame *)

Lemma bubbleFrame_refl (b : BubbleData.t) : bubbleFrame b b.
Proof. unfold bubbleFrame. auto. Qed.

Lemma nodeFrame_refl (n : FlowNode.t) : nodeFrame n n.
Proof.
  unfold nodeFrame. repeat split; auto.
  induction (FlowNode.bubblesOrEmpty n); constructor; auto using bubbleFrame_refl.
Qed.

Lemma Forall2_map_right_in {A B} (R : A -> B -> Prop) (f : A -> B) (l : list A) :
  (forall x, x ∈ l -> R x (f x)) -> Forall2 R l (List.map f l).
Proof.
  induction l as [|x l IH]; intros H; simpl; constructor.
  - apply H. left.
  - apply IH. intros y Hy. apply H. now right.
Qed.

(** C10 — Frame.  In a flow whose node ids and step ids are distinct,
    normalization returns the nodes in the same order with the same ids,
    types, positions, sizes, titles and notes; each group keeps its steps
    in the same order, each step its id, kind and every payload field but
    the stored column; annotation steps and nodes that are not groups are
    returned as they are.  (The edge list is an input only.) *)
Theorem normalization_frame (nodes : list FlowNode.t) (edges : list FlowEdge.t) :
  uniqueNodeIds nodes -> uniqueBubbleIds nodes ->
  Forall2 nodeFrame nodes (applyNormalizationToNodes nodes edges).
Proof.
  intros Hn Hb. unfold applyNormalizationToNodes.
  fold (canonicalOrder nodes edges).
  destruct (normalizeColumnsWithGroupOrder nodes (canonicalOrder nodes edges))
    as [u|] eqn:E.
  - rewrite applyUpdatesToNodes_map. apply Forall2_map_right_in.
    intros n Hin. unfold nodeFrame.
    rewrite updateNode_id, updateNode_type, updateNode_position.
    unfold updateNode.
    destruct (decide (FlowNode.type n = group)) as [Hg|Hg].
    + simpl. repeat split; auto; [|congruence].
      rewrite applyUpdates_map. apply Forall2_map_right_in.
      intros b Hbin. unfold bubbleFrame.
      rewrite applyUpdate_id, applyUpdate_type. repeat split.
      * unfold applyUpdate. destruct (Js.truthy _); reflexivity.
      * intros Hnote.
        assert (Hv : isVisualOnlyBubble (BubbleData.type b) = true)
          by (unfold isVisualOnlyBubble; now apply bool_decide_eq_true).
        pose proof (bubble_of_group nodes n b Hin Hg Hbin) as Hall.
        pose proof (note_not_listed nodes (canonicalOrder nodes edges) b
                      Hn Hb Hall Hv) as Hni.
        unfold normalizeColumnsWithGroupOrder in E.
        destruct (Nat.ltb 0 _); [|discriminate]. injection E as <-.
        unfold applyUpdate. now rewrite (assignAll_other _ _ Hni).
    + repeat split; auto.
      induction (FlowNode.bubblesOrEmpty n); constructor;
        auto using bubbleFrame_refl.
  - clear. induction nodes; constructor; auto using nodeFrame_refl.
Qed.


Lemma normalization_idempotent_witness :
  uniqueNodeIds threeGroups /\ uniqueBubbleIds threeGroups
  /\ (let nodes1 := applyNormalizationToNodes threeGroups [] in
      applyNormalizationToNodes nodes1 [] = nodes1
      /\ (List.length (ofKind M (slottedItems threeGroups)) <= COLUMN_LIMIT ->
          List.length (ofKind T (slottedItems threeGroups)) <= COLUMN_LIMIT ->
          normalizeColumnsWithGroupOrder nodes1 (canonicalOrder nodes1 []) = None)).
Proof.
  assert (Hn : uniqueNodeIds threeGroups)
    by (apply (bool_decide_eq_true_1 (NoDup _)); vm_compute; reflexivity).
  assert (Hb : uniqueBubbleIds threeGroups)
    by (apply (bool_decide_eq_true_1 (NoDup _)); vm_compute; reflexivity).
  split; [exact Hn|]. split; [exact Hb|].
  exact (normalization_idempotent threeGroups [] Hn Hb).
Defined.

(** C5 (as stated) does not hold for every flow.  In a group of 51
    message steps the first pass assigns M1 to M51.  [parseColumn] reads
    no slot beyond 50, so the second pass takes the step in M51 for one
    without a normalized slot and issues M51 to it again: the nodes come
    out unchanged, but the update map of the second pass is not empty. *)
Lemma second_pass_updates_beyond_limit :
  let nodes1 := applyNormalizationToNodes crowded [] in
  uniqueNodeIds crowded /\ uniqueBubbleIds crowded
  /\ List.length (ofKind M (slottedItems crowded)) = 51
  /\ parseColumn "M51" = None
  /\ option_map map_to_list
       (normalizeColumnsWithGroupOrder nodes1 (canonicalOrder nodes1 []))
     = Some [("s51", "M51")]
  /\ applyNormalizationToNodes nodes1 [] = nodes1.
Proof.
  cbv zeta.
  split; [apply (bool_decide_eq_true_1 (NoDup _)); vm_compute; reflexivity|].
  split; [apply (bool_decide_eq_true_1 (NoDup _)); vm_compute; reflexivity|].
  repeat split; vm_compute; reflexivity.
Qed.

Lemma normalization_frame_witness :
  uniqueNodeIds threeGroups /\ uniqueBubbleIds threeGroups
  /\ Forall2 nodeFrame threeGroups (applyNormalizationToNodes threeGroups []).
Proof.
  assert (Hn : uniqueNodeIds threeGroups)
    by (apply (bool_decide_eq_true_1 (NoDup _)); vm_compute; reflexivity).
  assert (Hb : uniqueBubbleIds threeGroups)
    by (apply (bool_decide_eq_true_1 (NoDup _)); vm_compute; reflexivity).
  split; [exact Hn|]. split; [exact Hb|].
  exact (normalization_frame threeGroups [] Hn Hb).
Defined.

(** ** The shift after a deletion against the full resequence *)

(** C6 — the flow [annotated] is normalized; deleting its annotation step
    [n], which stores [M1], makes the shift move [b] from [M2] to [M1],
    where [a] already is, while the full resequence of the same flow
    leaves [a] at [M1] and [b] at [M2]. *)
Theorem shift_after_note_deletion_diverges :
  normalizeColumnsWithGroupOrder annotated (canonicalOrder annotated []) = None
  /\ columnsOf (deleteBubble annotated "g" "n")
     = [[]; [Some "M1"; Some "M1"]]
  /\ columnsOf (applyNormalizationToNodes (fst (removeBubble annotated "g" "n")) [])
     = [[]; [Some "M1"; Some "M2"]].
Proof. repeat split; vm_compute; reflexivity. Qed.

(** ** Group order on the two reference layouts *)

Ltac each_permutation H :=
  apply permutations_Permutation in H; cbn in H;
  repeat (apply elem_of_cons in H as [->|H]);
  [..|apply elem_of_nil in H; destruct H].

(** C3 (as stated) fails: on the flow [threeGroups], without edges, the
    order is not [(0,0); (100,0); (0,50)]. *)
Lemma order_by_position_not_as_stated :
  List.map groupId (calculateGroupOrder threeGroups [])
  <> ["g00"; "g100"; "g050"].
Proof. vm_compute. discriminate. Qed.

(** C3 (amended) — Order determinism.  A flow with no edges whose groups,
    in any array order and with any titles and steps, sit at (0,0),
    (100,0) and (0,50) is ordered [(0,0); (0,50); (100,0)]: by x, then
    by y. *)
Theorem order_by_position (nodes : list FlowNode.t)
    (t1 t2 t3 : string) (bs1 bs2 bs3 : list BubbleData.t) :
  nodes ≡ₚ [ startNode;
             groupNode "g00" 0 0 t1 bs1;
             groupNode "g100" 100 0 t2 bs2;
             groupNode "g050" 0 50 t3 bs3 ] ->
  List.map groupId (calculateGroupOrder nodes []) = ["g00"; "g050"; "g100"]
  /\ List.map orderTag (calculateGroupOrder nodes []) = ["G1"; "G2"; "G3"].
Proof.
  intros H. symmetry in H. each_permutation H; split; vm_compute; reflexivity.
Qed.

Lemma order_by_position_witness :
  threeGroups ≡ₚ [ startNode;
                   groupNode "g00" 0 0 "Intro" [messageStep "s1" None "oi"];
                   groupNode "g100" 100 0 "Oferta"
                     [messageStep "s2" (Some "M1") "veja"; timeStep "s3" None];
                   groupNode "g050" 0 50 "Fim" [messageStep "s4" None "tchau"] ]
  /\ List.map groupId (calculateGroupOrder threeGroups []) = ["g00"; "g050"; "g100"]
  /\ List.map orderTag (calculateGroupOrder threeGroups []) = ["G1"; "G2"; "G3"].
Proof.
  split; [reflexivity|].
  apply (order_by_position threeGroups "Intro" "Oferta" "Fim"
           [messageStep "s1" None "oi"]
           [messageStep "s2" (Some "M1") "veja"; timeStep "s3" None]
           [messageStep "s4" None "tchau"]).
  reflexivity.
Defined.

(** C7 — Topological precedence.  With edges start -> A, start -> B and
    A -> C in any order, groups A at x = 0 and B at x = 100 (any y), C
    anywhere, and the nodes in any array order, the order is [A; B; C]:
    breadth first, and not [A; C; B]. *)
Theorem order_breadth_first (nodes : list FlowNode.t) (edges : list FlowEdge.t)
    (yA yB xC yC : Q) (tA tB tC : string) (bsA bsB bsC : list BubbleData.t)
    (e1 e2 e3 : string) :
  nodes ≡ₚ [ startNode;
             groupNode "A" 0 yA tA bsA;
             groupNode "B" 100 yB tB bsB;
             groupNode "C" xC yC tC bsC ] ->
  edges ≡ₚ [ FlowEdge.mk e1 "start-node" "A";
             FlowEdge.mk e2 "start-node" "B";
             FlowEdge.mk e3 "A" "C" ] ->
  List.map groupId (calculateGroupOrder nodes edges) = ["A"; "B"; "C"]
  /\ List.map groupId (calculateGroupOrder nodes edges) <> ["A"; "C"; "B"].
Proof.
  intros Hn He. symmetry in Hn. symmetry in He.
  assert (Hgoal : List.map groupId (calculateGroupOrder nodes edges) = ["A"; "B"; "C"]).
  { each_permutation Hn; each_permutation He; vm_compute; reflexivity. }
  split; [exact Hgoal|]. rewrite Hgoal. discriminate.
Qed.

Lemma order_breadth_first_witness :
  branching ≡ₚ [ startNode;
                 groupNode "A" 0 0 "A" [messageStep "a1" None "a"];
                 groupNode "B" 100 0 "B" [messageStep "b1" None "b"];
                 groupNode "C" 50 0 "C" [messageStep "c1" None "c"] ]
  /\ branchingEdges ≡ₚ [ FlowEdge.mk "start-node->A" "start-node" "A";
                         FlowEdge.mk "start-node->B" "start-node" "B";
                         FlowEdge.mk "A->C" "A" "C" ]
  /\ List.map groupId (calculateGroupOrder branching branchingEdges) = ["A"; "B"; "C"]
  /\ List.map groupId (calculateGroupOrder branching branchingEdges) <> ["A"; "C"; "B"].
Proof.
  assert (Hn : branching ≡ₚ [ startNode;
                 groupNode "A" 0 0 "A" [messageStep "a1" None "a"];
                 groupNode "B" 100 0 "B" [messageStep "b1" None "b"];
                 groupNode "C" 50 0 "C" [messageStep "c1" None "c"] ]).
  { unfold branching. apply perm_skip.
    eapply perm_trans; [apply perm_swap|].
    eapply perm_trans; [apply perm_skip, perm_swap|].
    apply perm_swap. }
  assert (He : branchingEdges ≡ₚ [ FlowEdge.mk "start-node->A" "start-node" "A";
                         FlowEdge.mk "start-node->B" "start-node" "B";
                         FlowEdge.mk "A->C" "A" "C" ]) by reflexivity.
  split; [exact Hn|]. split; [exact He|].
  exact (order_breadth_first branching branchingEdges 0 0 50 0 "A" "B" "C"
           [messageStep "a1" None "a"] [messageStep "b1" None "b"]
           [messageStep "c1" None "c"] "start-node->A" "start-node->B" "A->C"
           Hn He).
Defined.

(** ** The traversal loop ends within its fuel *)

Lemma enqueueTargets_invariant (groupIds targets queue : list string)
    (visited : gset string) (result : list string) :
  queueInvariant groupIds queue visited result ->
  queueInvariant groupIds (fst (enqueueTargets groupIds targets queue visited))
                 (snd (enqueueTargets groupIds targets queue visited)) result.
Proof.
  unfold enqueueTargets. revert queue visited.
  induction targets as [|t targets IH]; intros queue visited Hinv; [exact Hinv|].
  cbn [fold_left].
  destruct (bool_decide (t ∈ groupIds)) eqn:Hg; simpl; [|now apply IH].
  destruct (bool_decide (t ∈ visited)) eqn:Hv; simpl; [now apply IH|].
  apply IH. apply bool_decide_eq_true in Hg. apply bool_decide_eq_false in Hv.
  destruct Hinv as [Hnd Hin]. split.
  - rewrite app_assoc. apply NoDup_app. split; [exact Hnd|]. split.
    + intros x Hx Hx'. apply list_elem_of_singleton in Hx'. subst x.
      apply Hv. now apply Hin.
    + apply NoDup_singleton.
  - intros x Hx. rewrite app_assoc in Hx. apply elem_of_app in Hx as [Hx|Hx].
    + destruct (Hin x Hx). split; [assumption|].
      apply elem_of_union. now right.
    + apply list_elem_of_singleton in Hx. subst x. split; [assumption|].
      apply elem_of_union. left. now apply elem_of_singleton.
Qed.

(** With the invariant and [length groupIds] turns still available
    (counting those already taken), the loop stops on an empty queue,
    as the [while] loop of the source does. *)
Lemma processQueue_fuel (fuel : nat) (adj : gmap string (list string))
    (groupIds : list string) (nodePositions : gmap string Position.t)
    (queue : list string) (visited : gset string) (result : list string) :
  queueInvariant groupIds queue visited result ->
  List.length groupIds <= fuel + List.length result ->
  fst (fst (processQueue fuel adj groupIds nodePositions queue visited result)) = [].
Proof.
  revert queue visited result.
  induction fuel as [|fuel IH]; intros queue visited result Hinv Hlen.
  - simpl. destruct Hinv as [Hnd Hin].
    assert (Hle : List.length (result ++ queue) <= List.length groupIds).
    { apply NoDup_incl_length; [apply NoDup_ListNoDup; exact Hnd|].
      intros x Hx. apply list_elem_of_In. apply Hin. now apply list_elem_of_In. }
    rewrite length_app in Hle. destruct queue; [reflexivity|simpl in Hle; lia].
  - destruct queue as [|current queue]; [reflexivity|].
    cbn [processQueue].
    set (targets := sortByPosition nodePositions
                      match adj !! current with Some ts => ts | None => [] end).
    assert (Hinv' : queueInvariant groupIds queue visited (result ++ [current])).
    { destruct Hinv as [Hnd Hin]. split.
      - now rewrite <- app_assoc.
      - intros x Hx. apply Hin. now rewrite <- app_assoc in Hx. }
    pose proof (enqueueTargets_invariant groupIds targets queue visited _ Hinv') as He.
    destruct (enqueueTargets groupIds targets queue visited) as [q v].
    apply IH; [exact He|]. rewrite length_app. simpl. lia.
Qed.

Lemma topologicalSort_queue_drained (groupIds : list string)
    (edges : list FlowEdge.t) (nodePositions : gmap string Position.t) :
  let adj := buildAdjacencyMap edges in
  let fromStart := match adj !! "start-node" with Some ts => ts | None => [] end in
  let start := enqueueTargets groupIds (sortByPosition nodePositions fromStart) [] ∅ in
  fst (fst (processQueue (List.length groupIds) adj groupIds nodePositions
                         (fst start) (snd start) [])) = [].
Proof.
  intros adj fromStart start. apply processQueue_fuel; [|simpl; lia].
  apply enqueueTargets_invariant. split; [constructor|].
  intros x Hx. inversion Hx.
Qed.

(** ** Manual slot assignment *)

Lemma duplicates_spec (nodes : list FlowNode.t) (bubbleId normalized : string) :
  List.existsb
    (fun b =>
       if bool_decide (BubbleData.id b = bubbleId) then false
       else
         match Js.truthy (NodeData.supabaseColumn (BubbleData.data b)) with
         | Some col =>
             match parseColumn col with
             | Some (k, i) => bool_decide (buildColumn k i = normalized)
             | None => false
             end
         | None => false
         end)
    (getAllBubblesFromFlowNodes nodes) = true
  <-> slotTaken nodes bubbleId normalized.
Proof.
  rewrite existsb_exists. unfold slotTaken, normalizedColumn. split.
  - intros (b & Hin & Hb). exists b. split; [now apply list_elem_of_In|].
    destruct (bool_decide (BubbleData.id b = bubbleId)) eqn:E; [discriminate|].
    apply bool_decide_eq_false in E. split; [exact E|].
    destruct (Js.truthy _) as [col|]; [|discriminate].
    destruct (parseColumn col) as [[k i]|]; [|discriminate].
    apply bool_decide_eq_true in Hb. now rewrite Hb.
  - intros (b & Hin & Hne & Hb). exists b. split; [now apply list_elem_of_In|].
    rewrite bool_decide_false by exact Hne.
    destruct (Js.truthy _) as [col|]; [|discriminate].
    destruct (parseColumn col) as [[k i]|]; [|discriminate].
    apply bool_decide_eq_true. congruence.
Qed.

Lemma find_map_id {A} (f : A -> A) (P : A -> bool) (l : list A) :
  (forall x, P (f x) = P x) ->
  List.find P (List.map f l) = option_map f (List.find P l).
Proof.
  intros H. induction l as [|x l IH]; simpl; [reflexivity|].
  rewrite H. destruct (P x); [reflexivity|exact IH].
Qed.

(** After an update the same lookup finds the step with its new payload. *)
Lemma targetBubble_updateBubble (nodes : list FlowNode.t) (nodeId bubbleId : string)
    (b : BubbleData.t) (d : NodeData.t) :
  targetBubble nodes nodeId bubbleId = Some b ->
  targetBubble (updateBubble nodes nodeId bubbleId d None) nodeId bubbleId
  = Some (BubbleData.mk (BubbleData.id b) (BubbleData.type b) d).
Proof.
  unfold targetBubble, updateBubble. intros H.
  rewrite find_map_id.
  - destruct (List.find _ nodes) as [n|] eqn:En; [|discriminate].
    cbn [option_map].
    apply find_some in En as [_ Hid]. rewrite Hid.
    destruct (isGroup n) eqn:Hg; [|discriminate]. cbn [andb].
    assert (Hg' : forall bs, isGroup (FlowNode.withBubbles n bs) = true)
      by (intros bs; exact Hg).
    rewrite Hg'.
    change (FlowNode.bubblesOrEmpty (FlowNode.withBubbles n ?bs)) with bs.
    rewrite find_map_id.
    + rewrite H. cbn [option_map]. apply find_some in H as [_ Hb].
      now rewrite Hb.
    + intros x. destruct (bool_decide (BubbleData.id x = bubbleId)) eqn:E;
        cbn [BubbleData.id]; rewrite E; reflexivity.
  - intros n. destruct (bool_decide (FlowNode.id n = nodeId) && isGroup n)%bool;
      reflexivity.
Qed.

(** C8 (as stated) fails: the content step [a] of [oneMessage] asks for
    the timer slot [T1]; the kind letter does not match its slot kind,
    yet the request is applied and the step now stores [T1]. *)
Lemma manual_assignment_ignores_kind :
  getColumnKindForBubble Nmessage = M
  /\ parseColumn "T1" = Some (T, 1)
  /\ fst (handleChangeBubbleColumn oneMessage "g" "a" "T1") = Applied
  /\ columnsOf (snd (handleChangeBubbleColumn oneMessage "g" "a" "T1"))
     = [[]; [Some "T1"]].
Proof. repeat split; vm_compute; reflexivity. Qed.

(** C8 (amended) — Manual assignment.  A request is rejected, the flow
    left as it was, exactly when the requested string, trimmed and
    upper-cased, fails [^[MT]\d{1,2}$] with index in [1,50]
    ([InvalidColumn]), or when the normalized slot is stored by a
    different step of the flow ([DuplicateColumn]); the kind letter is
    not compared with the step's slot kind.  A request passing both
    checks is applied when the step is found in the named group: the
    step then stores the normalized slot; when it is not found, nothing
    changes. *)
Theorem manual_assignment_outcome (nodes : list FlowNode.t)
    (nodeId bubbleId column : string) :
  let r := handleChangeBubbleColumn nodes nodeId bubbleId column in
  (fst r = InvalidColumn <-> parseColumn column = None)
  /\ (forall col, fst r = DuplicateColumn col <->
        exists k i, parseColumn column = Some (k, i) /\ col = buildColumn k i
                    /\ slotTaken nodes bubbleId col)
  /\ (fst r = Applied <->
        exists k i b, parseColumn column = Some (k, i)
                      /\ ~ slotTaken nodes bubbleId (buildColumn k i)
                      /\ targetBubble nodes nodeId bubbleId = Some b)
  /\ (fst r <> Applied -> snd r = nodes)
  /\ (forall k i b, parseColumn column = Some (k, i) ->
        targetBubble nodes nodeId bubbleId = Some b -> fst r = Applied ->
        targetBubble (snd r) nodeId bubbleId
        = Some (BubbleData.withColumn b (buildColumn k i))).
Proof.
  unfold handleChangeBubbleColumn.
  destruct (parseColumn column) as [[kind index]|] eqn:Hp; cbv zeta.
  - pose proof (duplicates_spec nodes bubbleId (buildColumn kind index)) as Hd.
    destruct (List.existsb _ _) eqn:Edup.
    + assert (Ht : slotTaken nodes bubbleId (buildColumn kind index))
        by now apply Hd.
      simpl. repeat split; try discriminate; try congruence.
      * intros [= <-]. exists kind, index. auto.
      * intros (k & i & [= <- <-] & -> & _). reflexivity.
      * intros (k & i & b & [= <- <-] & Hn & _). contradiction.
    + assert (Ht : ~ slotTaken nodes bubbleId (buildColumn kind index)).
      { intros H. apply Hd in H. discriminate. }
      destruct (targetBubble nodes nodeId bubbleId) as [b|] eqn:Etb; simpl.
      * repeat split; try discriminate; try congruence.
        -- intros (k & i & [= <- <-] & -> & H). contradiction.
        -- intros _. exists kind, index, b. auto.
        -- intros k i b' [= <- <-] [= <-] _.
           apply (targetBubble_updateBubble nodes nodeId bubbleId b _ Etb).
      * repeat split; try discriminate; try congruence.
        -- intros (k & i & [= <- <-] & -> & H). contradiction.
        -- intros (k & i & b & _ & _ & H). discriminate.
  - simpl. repeat split; try discriminate; try congruence.
    + intros (k & i & H & _). discriminate.
    + intros (k & i & b & H & _). discriminate.
Qed.

(** ** The snapshot: encoding *)

Lemma encode_groups_fold (groupNodes : list FlowNode.t) (go0 : list string)
    (g0 : gmap string (Q * Q * string * list string)) :
  let r :=
    fold_left
      (fun '(go, g) node =>
         let groupId := FlowNode.id node in
         let x := inject_Z (mathRound (Position.x (FlowNode.position node))) in
         let y := inject_Z (mathRound (Position.y (FlowNode.position node))) in
         let title := Js.orElse (FlowNode.label node) "Group" in
         let columns := columnNames (FlowNode.bubblesOrEmpty node) in
         (go ++ [groupId],
          <[ groupId := (x, y, title, columns) ]>
            (g : gmap string (Q * Q * string * list string))))
      groupNodes (go0, g0) in
  fst r = go0 ++ List.map FlowNode.id groupNodes
  /\ (NoDup (List.map FlowNode.id groupNodes) ->
      forall n, n ∈ groupNodes ->
        snd r !! FlowNode.id n
        = Some (inject_Z (mathRound (Position.x (FlowNode.position n))),
                inject_Z (mathRound (Position.y (FlowNode.position n))),
                Js.orElse (FlowNode.label n) "Group",
                columnNames (FlowNode.bubblesOrEmpty n)))
  /\ (forall i, i ∉ List.map FlowNode.id groupNodes -> snd r !! i = g0 !! i).
Proof.
  revert go0 g0. induction groupNodes as [|m ms IH]; intros go0 g0.
  - simpl. rewrite app_nil_r. repeat split; auto. intros _ n Hn. inversion Hn.
  - cbn [fold_left]. cbv zeta.
    specialize (IH (go0 ++ [FlowNode.id m])
                   (<[ FlowNode.id m :=
                        (inject_Z (mathRound (Position.x (FlowNode.position m))),
                         inject_Z (mathRound (Position.y (FlowNode.position m))),
                         Js.orElse (FlowNode.label m) "Group",
                         columnNames (FlowNode.bubblesOrEmpty m)) ]> g0)).
    cbv zeta in IH. destruct IH as (Hgo & Hin & Hout).
    split; [|split].
    + rewrite Hgo, <- app_assoc. reflexivity.
    + intros Hnd n Hn. simpl in Hnd. apply NoDup_cons in Hnd as [Hni Hnd].
      apply elem_of_cons in Hn as [->|Hn].
      * rewrite Hout by exact Hni. apply lookup_insert_eq.
      * now apply Hin.
    + intros i Hi. rewrite Hout.
      * apply lookup_insert_ne. intros Heq. apply Hi. simpl. rewrite Heq. left.
      * intros Hin'. apply Hi. simpl. now right.
Qed.

Lemma validNodeIds_spec (groupNodes : list FlowNode.t) (i : string) :
  i ∈ validNodeIds groupNodes
  <-> i = "start-node" \/ i ∈ List.map FlowNode.id groupNodes.
Proof.
  unfold validNodeIds.
  assert (H : forall (s : gset string),
             i ∈ fold_left (fun (s : gset string) n => {[ FlowNode.id n ]} ∪ s)
                           groupNodes s
             <-> i ∈ s \/ i ∈ List.map FlowNode.id groupNodes).
  { induction groupNodes as [|n ns IH]; intros s; simpl.
    - split; [auto|]. intros [H|H]; [exact H|inversion H].
    - rewrite IH, elem_of_union, elem_of_singleton, elem_of_cons. tauto. }
  rewrite H, elem_of_singleton. reflexivity.
Qed.

(** ** The snapshot: distribution *)

Lemma columnNames_elem (bubbles : list BubbleData.t) (c : string) :
  c ∈ columnNames bubbles <-> exists b, b ∈ bubbles /\ colName b = Some c.
Proof.
  unfold columnNames. rewrite list_elem_of_In, in_flat_map. split.
  - intros (b & Hb & Hc). exists b. split; [now apply list_elem_of_In|].
    unfold colName. destruct (Js.truthy _); [|destruct Hc].
    destruct Hc as [->|[]]. reflexivity.
  - intros (b & Hb & Hc). exists b. split; [now apply list_elem_of_In|].
    unfold colName in Hc. rewrite Hc. now left.
Qed.

Lemma columnNames_app (l1 l2 : list BubbleData.t) :
  columnNames (l1 ++ l2) = columnNames l1 ++ columnNames l2.
Proof. unfold columnNames. apply flat_map_app. Qed.

Lemma bubbleByColumn_fold (bubbles : list BubbleData.t)
    (m0 : gmap string BubbleData.t) (c : string) :
  let m :=
    fold_left
      (fun (m : gmap string BubbleData.t) b =>
         match Js.truthy (option_map Js.toUpperCase
                            (NodeData.supabaseColumn (BubbleData.data b))) with
         | Some col => <[ col := b ]> m
         | None => m
         end)
      bubbles m0 in
  (forall b, m !! c = Some b ->
             m0 !! c = Some b \/ (b ∈ bubbles /\ colName b = Some c))
  /\ (is_Some (m0 !! c) \/ c ∈ columnNames bubbles -> is_Some (m !! c)).
Proof.
  revert m0. induction bubbles as [|x xs IH]; intros m0; cbn [fold_left].
  - split; [auto|]. intros [H|H]; [exact H|inversion H].
  - cbv zeta. fold (colName x).
    destruct (colName x) as [cx|] eqn:Ex.
    + specialize (IH (<[ cx := x ]> m0)). cbv zeta in IH. destruct IH as [IH1 IH2].
      split.
      * intros b Hb. destruct (IH1 b Hb) as [H|[H1 H2]].
        -- destruct (decide (cx = c)) as [->|Hne].
           ++ rewrite lookup_insert_eq in H. injection H as <-.
              right. split; [left|exact Ex].
           ++ rewrite lookup_insert_ne in H by exact Hne. now left.
        -- right. split; [now right|exact H2].
      * intros H. apply IH2.
        destruct (decide (cx = c)) as [->|Hne].
        -- left. rewrite lookup_insert_eq. eauto.
        -- destruct H as [H|H].
           ++ left. now rewrite lookup_insert_ne.
           ++ right. apply columnNames_elem in H as (b & Hb & Hc).
              apply columnNames_elem. exists b. split; [|exact Hc].
              apply elem_of_cons in Hb as [->|Hb]; [congruence|exact Hb].
    + specialize (IH m0). cbv zeta in IH. destruct IH as [IH1 IH2]. split.
      * intros b Hb. destruct (IH1 b Hb) as [H|[H1 H2]]; [now left|].
        right. split; [now right|exact H2].
      * intros H. apply IH2. destruct H as [H|H]; [now left|]. right.
        apply columnNames_elem in H as (b & Hb & Hc).
        apply columnNames_elem. exists b. split; [|exact Hc].
        apply elem_of_cons in Hb as [->|Hb]; [congruence|exact Hb].
Qed.

Lemma bubbleByColumn_spec (bubbles : list BubbleData.t) (c : string) :
  (forall b, bubbleByColumn bubbles !! c = Some b -> colName b = Some c)
  /\ (c ∈ columnNames bubbles -> is_Some (bubbleByColumn bubbles !! c)).
Proof.
  destruct (bubbleByColumn_fold bubbles ∅ c) as [H1 H2]. split.
  - intros b Hb. destruct (H1 b Hb) as [H|[_ H]]; [|exact H].
    rewrite lookup_empty in H. discriminate.
  - intros H. apply H2. now right.
Qed.

Lemma fillGroup_fold (byColumn : gmap string BubbleData.t) (cols : list string)
    (bs : list BubbleData.t) (asg : gset string) :
  let r :=
    fold_left
      (fun '(bs, asg) col =>
         match byColumn !! col with
         | Some bubble => (bs ++ [bubble], {[ col ]} ∪ asg)
         | None => (bs, asg)
         end)
      cols (bs, asg) in
  fst r = bs ++ foundBubbles byColumn cols
  /\ (forall x, x ∈ snd r <->
                x ∈ asg \/ (x ∈ cols /\ is_Some (byColumn !! x))).
Proof.
  revert bs asg. induction cols as [|c cs IH]; intros bs asg; cbn [fold_left].
  - simpl. rewrite app_nil_r. split; [reflexivity|].
    intros x. split; [auto|]. intros [H|[H _]]; [exact H|inversion H].
  - unfold foundBubbles. simpl. fold (foundBubbles byColumn cs).
    destruct (byColumn !! c) as [bubble|] eqn:E.
    + destruct (IH (bs ++ [bubble]) ({[ c ]} ∪ asg)) as [H1 H2]. split.
      * rewrite H1, <- app_assoc. reflexivity.
      * intros x. rewrite H2, elem_of_union, elem_of_singleton, elem_of_cons.
        split.
        -- intros [[->|H]|[H1' H2']]; eauto.
        -- intros [H|[[->|H] Hs]]; eauto.
    + destruct (IH bs asg) as [H1 H2]. split; [exact H1|].
      intros x. rewrite H2, elem_of_cons. split.
      * intros [H|[H Hs]]; eauto.
      * intros [H|[[->|H] Hs]]; eauto.
        rewrite E in Hs. destruct Hs as [? Hs]. discriminate.
Qed.

Lemma fillGroup_spec (byColumn : gmap string BubbleData.t) (pg : ParsedGroupV2)
    (asg : gset string) :
  fst (fillGroup byColumn pg asg) = filledGroup byColumn pg
  /\ (forall x, x ∈ snd (fillGroup byColumn pg asg) <->
                x ∈ asg \/ (x ∈ pg_columns pg /\ is_Some (byColumn !! x))).
Proof.
  unfold fillGroup.
  pose proof (fillGroup_fold byColumn (pg_columns pg) [] asg) as H.
  cbv zeta in H. destruct (fold_left _ _ _) as [bs asg']. simpl in *.
  destruct H as [-> H]. split; [reflexivity|exact H].
Qed.

Lemma distribute_fold (byColumn : gmap string BubbleData.t)
    (pgs : list ParsedGroupV2) (res : list DistributedGroup) (asg : gset string) :
  let r :=
    fold_left
      (fun '(res, asg) pg =>
         let '(grp, asg') := fillGroup byColumn pg asg in
         (res ++ [grp], asg'))
      pgs (res, asg) in
  fst r = res ++ List.map (filledGroup byColumn) pgs
  /\ (forall x, x ∈ snd r <->
                x ∈ asg \/ exists pg, pg ∈ pgs /\ x ∈ pg_columns pg
                                       /\ is_Some (byColumn !! x)).
Proof.
  revert res asg. induction pgs as [|pg pgs IH]; intros res asg; cbn [fold_left].
  - simpl. rewrite app_nil_r. split; [reflexivity|].
    intros x. split; [auto|]. intros [H|(pg & H & _)]; [exact H|inversion H].
  - destruct (fillGroup_spec byColumn pg asg) as [Hf Ha].
    destruct (fillGroup byColumn pg asg) as [grp asg']. simpl in Hf, Ha. subst grp.
    destruct (IH (res ++ [filledGroup byColumn pg]) asg') as [H1 H2]. split.
    + rewrite H1, <- app_assoc. reflexivity.
    + intros x. rewrite H2, Ha. split.
      * intros [[H|[Hc Hs]]|(pg' & Hin & Hc & Hs)].
        -- now left.
        -- right. exists pg. split; [left|auto].
        -- right. exists pg'. split; [now right|auto].
      * intros [H|(pg' & Hin & Hc & Hs)].
        -- left. now left.
        -- apply elem_of_cons in Hin as [->|Hin].
           ++ left. right. auto.
           ++ right. exists pg'. auto.
Qed.

Lemma columnNames_found (byColumn : gmap string BubbleData.t) (cols : list string) :
  (forall c b, byColumn !! c = Some b -> colName b = Some c) ->
  (forall c, c ∈ cols -> is_Some (byColumn !! c)) ->
  columnNames (foundBubbles byColumn cols) = cols.
Proof.
  intros Hname Hall. unfold foundBubbles.
  induction cols as [|c cs IH]; simpl; [reflexivity|].
  destruct (Hall c) as [b Hb]; [left|]. rewrite Hb. simpl.
  fold (colName b). rewrite (Hname c b Hb). simpl. f_equal.
  apply IH. intros c' Hc'. apply Hall. now right.
Qed.

(** ** The snapshot: round trip *)

Lemma mathRound_integer (z : Z) : mathRound (inject_Z z) = z.
Proof.
  unfold mathRound, Qfloor, Qplus, inject_Z. simpl.
  rewrite Z.mul_1_r.
  replace (z * 2 + 1)%Z with (1 + z * 2)%Z by lia.
  rewrite Z.div_add by lia. reflexivity.
Qed.

Lemma orElse_nonempty (s d : string) : s <> "" -> Js.orElse s d = s.
Proof. destruct s; [congruence|reflexivity]. Qed.

Lemma filter_none {A} (P : A -> bool) (l : list A) :
  (forall x, x ∈ l -> P x = false) -> List.filter P l = [].
Proof.
  induction l as [|x l IH]; intros H; simpl; [reflexivity|].
  rewrite (H x) by left. apply IH. intros y Hy. apply H. now right.
Qed.

Lemma parse_groups (g : gmap string (Q * Q * string * list string))
    (l : list FlowNode.t) :
  (forall n, n ∈ l ->
     g !! FlowNode.id n
     = Some (inject_Z (mathRound (Position.x (FlowNode.position n))),
             inject_Z (mathRound (Position.y (FlowNode.position n))),
             Js.orElse (FlowNode.label n) "Group",
             columnNames (FlowNode.bubblesOrEmpty n))) ->
  flat_map
    (fun groupId =>
       match g !! groupId with
       | Some (x, y, title, columns) => [mkParsedGroupV2 groupId x y title columns]
       | None => []
       end)
    (List.map FlowNode.id l)
  = List.map
      (fun n => mkParsedGroupV2 (FlowNode.id n)
                  (inject_Z (mathRound (Position.x (FlowNode.position n))))
                  (inject_Z (mathRound (Position.y (FlowNode.position n))))
                  (Js.orElse (FlowNode.label n) "Group")
                  (columnNames (FlowNode.bubblesOrEmpty n)))
      l.
Proof.
  induction l as [|n l IH]; intros H; simpl; [reflexivity|].
  rewrite (H n) by left. simpl. f_equal. apply IH. intros m Hm. apply H. now right.
Qed.

Lemma columnNames_of_flow (nodes : list FlowNode.t) (c : string) :
  c ∈ columnNames (getAllBubblesFromFlowNodes nodes)
  <-> exists n, n ∈ List.filter isGroup nodes
                /\ c ∈ columnNames (FlowNode.bubblesOrEmpty n).
Proof.
  unfold getAllBubblesFromFlowNodes.
  induction nodes as [|m ms IH]; simpl.
  - split; [intros H; inversion H|intros (n & H & _); inversion H].
  - rewrite columnNames_app, elem_of_app, IH. unfold isGroup at 2.
    destruct (decide (FlowNode.type m = group)) as [Hg|Hg].
    + rewrite bool_decide_true by exact Hg. split.
      * intros [H|(n & Hn & Hc)]; [exists m; split; [left|exact H]|].
        exists n. split; [now right|exact Hc].
      * intros (n & Hn & Hc). apply elem_of_cons in Hn as [->|Hn]; [now left|].
        right. eauto.
    + rewrite bool_decide_false by exact Hg. split.
      * intros [H|H]; [inversion H|exact H].
      * intros H. now right.
Qed.

(** C2 (as stated) fails: the group of [offGrid] sits at x = 1/2 and has
    an empty title; read back from its snapshot it sits at x = 1 and is
    titled "Group". *)
Lemma snapshot_round_trip_not_exact :
  List.map flowShape (List.filter isGroup offGrid)
  = [("g", 1 # 2, 0%Q, "", ["M1"])]
  /\ (match encodePosicaoV2 offGrid offGridEdges None with
      | Some doc =>
          List.map decodedShape
            (distributeBubblesByPosicaoV2 0 (getAllBubblesFromFlowNodes offGrid)
               (parsePosicaoV2 doc))
          = [("g", 1%Q, 0%Q, "Group", ["M1"])]
      | None => False
      end)
  /\ ~ (1 == 1 # 2)%Q /\ "Group" <> "".
Proof.
  split; [vm_compute; reflexivity|]. split; [vm_compute; reflexivity|].
  split; [intros H; vm_compute in H; discriminate|discriminate].
Qed.

(** C2 (amended) — Round-trip fidelity.  For a flow with at least one
    group and distinct group ids, the snapshot read back against the
    flow's own column names gives the groups in array order with their
    ids, their positions rounded to the nearest integer, their titles
    (an empty title as "Group"), and the upper-cased column names of
    their steps in order; and the (source, target) pairs, in order, of
    the edges whose ends are the start node or a group.  A group on
    integer coordinates with a non-empty title is reproduced exactly. *)
Theorem snapshot_round_trip (nodes : list FlowNode.t) (edges0 : list FlowEdge.t)
    (viewport0 : option (Q * Q * Q)) (now : nat) (bubbles : list BubbleData.t)
    (doc : PosicaoV2) :
  NoDup (List.map FlowNode.id (List.filter isGroup nodes)) ->
  encodePosicaoV2 nodes edges0 viewport0 = Some doc ->
  (forall c, c ∈ columnNames bubbles
             <-> c ∈ columnNames (getAllBubblesFromFlowNodes nodes)) ->
  List.map decodedShape
    (distributeBubblesByPosicaoV2 now bubbles (parsePosicaoV2 doc))
  = List.map recordedShape (List.filter isGroup nodes)
  /\ edges (parsePosicaoV2 doc)
     = List.map edgePair (List.filter (recordedEdge nodes) edges0)
  /\ (forall n zx zy,
        Position.x (FlowNode.position n) = inject_Z zx ->
        Position.y (FlowNode.position n) = inject_Z zy ->
        FlowNode.label n <> "" ->
        recordedShape n = flowShape n).
Proof.
  intros Hnd Henc Hcols.
  split; [|split].
  - unfold encodePosicaoV2 in Henc.
    destruct (List.filter isGroup nodes) as [|n0 ns] eqn:Eg; [discriminate|].
    rewrite <- Eg in *.
    pose proof (encode_groups_fold (List.filter isGroup nodes) [] ∅) as Hfold.
    cbv zeta in Hfold. cbv zeta in Henc.
    destruct (fold_left _ (List.filter isGroup nodes) ([], ∅)) as [go1 g1].
    simpl in Hfold. destruct Hfold as (Hgo & Hg & _).
    injection Henc as <-.
    unfold parsePosicaoV2, distributeBubblesByPosicaoV2. simpl.
    rewrite Hgo, (parse_groups g1 _ (Hg Hnd)).
    set (byColumn := bubbleByColumn bubbles).
    set (pgs := List.map _ (List.filter isGroup nodes)).
    pose proof (distribute_fold byColumn pgs [] ∅) as Hd. cbv zeta in Hd.
    destruct (fold_left _ pgs ([], ∅)) as [result assigned].
    simpl in Hd. destruct Hd as [-> Hasg].
    assert (Hfound : forall c, c ∈ columnNames (getAllBubblesFromFlowNodes nodes) ->
                               is_Some (byColumn !! c)).
    { intros c Hc. apply (bubbleByColumn_spec bubbles c). now apply Hcols. }
    rewrite filter_none.
    + rewrite List.map_map. unfold pgs. rewrite List.map_map.
      apply List.map_ext_in. intros n Hn.
      unfold decodedShape, recordedShape, filledGroup. simpl. f_equal.
      apply columnNames_found.
      * intros c b Hb. now apply (bubbleByColumn_spec bubbles c).
      * intros c Hc. apply Hfound. apply columnNames_of_flow.
        exists n. split; [now apply list_elem_of_In|exact Hc].
    + intros b Hb. fold (colName b). destruct (colName b) as [c|] eqn:Ec; [|reflexivity].
      apply negb_false_iff, bool_decide_eq_true. apply Hasg. right.
      assert (Hc : c ∈ columnNames (getAllBubblesFromFlowNodes nodes)).
      { apply Hcols. apply columnNames_elem. eauto. }
      pose proof (Hfound c Hc) as Hs.
      apply columnNames_of_flow in Hc as (n & Hn & Hc).
      exists (mkParsedGroupV2 (FlowNode.id n)
                (inject_Z (mathRound (Position.x (FlowNode.position n))))
                (inject_Z (mathRound (Position.y (FlowNode.position n))))
                (Js.orElse (FlowNode.label n) "Group")
                (columnNames (FlowNode.bubblesOrEmpty n))).
      split; [|split; [exact Hc|exact Hs]].
      unfold pgs. apply list_elem_of_In, in_map_iff. exists n.
      split; [reflexivity|now apply list_elem_of_In].
  - unfold encodePosicaoV2 in Henc.
    destruct (List.filter isGroup nodes) as [|n0 ns] eqn:Eg; [discriminate|].
    rewrite <- Eg in *. cbv zeta in Henc.
    destruct (fold_left _ (List.filter isGroup nodes) ([], ∅)) as [go1 g1].
    injection Henc as <-.
    unfold parsePosicaoV2. simpl. f_equal.
    apply List.filter_ext. intros ed. unfold recordedEdge.
    assert (Hok : forall i,
               bool_decide (i ∈ validNodeIds (List.filter isGroup nodes))
               = (bool_decide (i = "start-node")
                  || bool_decide (i ∈ List.map FlowNode.id (List.filter isGroup nodes)))%bool).
    { intros i. apply eq_true_iff_eq.
      rewrite orb_true_iff, !bool_decide_eq_true. apply validNodeIds_spec. }
    now rewrite !Hok.
  - intros n zx zy Hx Hy Hl. unfold recordedShape, flowShape.
    rewrite Hx, Hy, !mathRound_integer, (orElse_nonempty _ _ Hl). reflexivity.
Qed.

Lemma snapshot_round_trip_witness :
  NoDup (List.map FlowNode.id (List.filter isGroup published))
  /\ encodePosicaoV2 published publishedEdges None = Some publishedDoc
  /\ List.map decodedShape
       (distributeBubblesByPosicaoV2 0 (getAllBubblesFromFlowNodes published)
          (parsePosicaoV2 publishedDoc))
     = List.map recordedShape (List.filter isGroup published)
  /\ edges (parsePosicaoV2 publishedDoc)
     = List.map edgePair (List.filter (recordedEdge published) publishedEdges).
Proof.
  assert (Hnd : NoDup (List.map FlowNode.id (List.filter isGroup published)))
    by (apply (bool_decide_eq_true_1 (NoDup _)); vm_compute; reflexivity).
  assert (Henc : encodePosicaoV2 published publishedEdges None = Some publishedDoc)
    by (vm_compute; reflexivity).
  split; [exact Hnd|]. split; [exact Henc|].
  destruct (snapshot_round_trip published publishedEdges None 0
              (getAllBubblesFromFlowNodes published) publishedDoc Hnd Henc
              (fun c => iff_refl _)) as (H1 & H2 & _).
  split; [exact H1|exact H2].
Defined.

(** ** The payload codec: the fallback *)

Lemma isEmpty_false (s : string) : s <> "" -> Js.isEmpty s = false.
Proof. destruct s; [congruence|reflexivity]. Qed.

Lemma isEmpty_true (s : string) : Js.isEmpty s = true <-> s = "".
Proof. destruct s; simpl; split; congruence. Qed.

(** C9 — Unrecognized prefix.  A cell whose trimmed text is not empty and
    matches no recognized prefix or literal decodes to a plain-message
    step whose content is the whole trimmed text; and the decoder is
    total: it yields no step exactly for a null cell and for a cell that
    is empty or white space only. *)
Theorem decode_fallback (uuid : nat -> string) (s columnName : string) (n : nat) :
  Js.trim s <> "" ->
  recognized (Js.trim s) = false ->
  fst (parseColumnValue uuid (Some s) columnName n)
  = Some (plainMessage (uuid n) (Js.trim s) columnName)
  /\ (forall value,
        fst (parseColumnValue uuid value columnName n) = None
        <-> value = None \/ exists s', value = Some s' /\ Js.trim s' = "").
Proof.
  intros Hne Hrec. split.
  - unfold parseColumnValue. rewrite (isEmpty_false _ Hne).
    unfold recognized in Hrec. apply orb_false_iff in Hrec as [Hp Hl].
    simpl in Hp, Hl.
    repeat match goal with
           | H : (_ || _)%bool = false |- _ => apply orb_false_iff in H as [? H]
           end.
    unfold decodePayload, gbind.
    repeat match goal with
           | H : ?b = false |- context [if ?b then _ else _] => rewrite H
           end.
    reflexivity.
  - intros value. unfold parseColumnValue. destruct value as [s'|].
    + destruct (Js.isEmpty (Js.trim s')) eqn:E.
      * simpl. split; [|reflexivity]. intros _. right. exists s'.
        split; [reflexivity|now apply isEmpty_true].
      * unfold gbind. destruct (decodePayload uuid (Js.trim s') _ n) as [[ty d] n'].
        simpl. split; [discriminate|].
        intros [H|(s2 & [= <-] & H)]; [discriminate|].
        apply isEmpty_true in H. congruence.
    + simpl. split; [auto|reflexivity].
Qed.

Lemma decode_fallback_witness :
  Js.trim "  Oi, tudo bem?  " <> ""
  /\ recognized (Js.trim "  Oi, tudo bem?  ") = false
  /\ fst (parseColumnValue (fun _ => "id") (Some "  Oi, tudo bem?  ") "m3" 0)
     = Some (plainMessage "id" "Oi, tudo bem?" "m3").
Proof.
  assert (H1 : Js.trim "  Oi, tudo bem?  " <> "") by (vm_compute; discriminate).
  assert (H2 : recognized (Js.trim "  Oi, tudo bem?  ") = false)
    by (vm_compute; reflexivity).
  split; [exact H1|]. split; [exact H2|].
  exact (proj1 (decode_fallback (fun _ => "id") "  Oi, tudo bem?  " "m3" 0 H1 H2)).
Defined.

(** ** Strings: trimming, splitting and joining *)

Local Open Scope string_scope.

#[local] Arguments String.append !s1 s2 : simpl nomatch.

Lemma append_nil_r (s : string) : s ++ "" = s.
Proof. induction s; simpl; congruence. Qed.

Lemma append_assoc (a b c : string) : (a ++ b) ++ c = a ++ (b ++ c).
Proof. induction a; simpl; congruence. Qed.

Lemma allWhiteSpace_app (a b : string) :
  Js.allWhiteSpace (a ++ b) = (Js.allWhiteSpace a && Js.allWhiteSpace b)%bool.
Proof.
  induction a as [|c a IH]; simpl; [reflexivity|].
  rewrite IH. now rewrite andb_assoc.
Qed.

Lemma trimEnd_app_nonblank (a b : string) :
  Js.allWhiteSpace b = false -> Js.trimEnd (a ++ b) = a ++ Js.trimEnd b.
Proof.
  intros Hb. induction a as [|c a IH]; [reflexivity|].
  cbn [append Js.trimEnd]. cbn [Js.allWhiteSpace].
  rewrite allWhiteSpace_app, Hb, andb_false_r, andb_false_r. now rewrite IH.
Qed.

(** Behind a character that is not white space the end of the text is
    trimmed in place. *)
Lemma trimEnd_behind (a : string) (c : ascii) (b : string) :
  Js.isWhiteSpace c = false ->
  Js.trimEnd (a ++ String c b) = a ++ String c (Js.trimEnd b).
Proof.
  intros Hc. rewrite trimEnd_app_nonblank.
  - cbn [Js.trimEnd Js.allWhiteSpace]. now rewrite Hc.
  - simpl. now rewrite Hc.
Qed.

Lemma trim_behind (c : ascii) (b : string) :
  Js.isWhiteSpace c = false -> Js.trim (String c b) = String c (Js.trimEnd b).
Proof.
  intros Hc. unfold Js.trim. cbn [Js.trimStart]. rewrite Hc.
  apply (trimEnd_behind "" c b Hc).
Qed.

Lemma noTrailingSpace_spec (s : string) :
  noTrailingSpace s = true -> Js.trimEnd s = s.
Proof. unfold noTrailingSpace. apply bool_decide_eq_true_1. Qed.

Lemma trimEnd_nonempty (s : string) :
  Js.trimEnd s = s -> s <> "" -> Js.allWhiteSpace s = false.
Proof.
  destruct s as [|c s]; [congruence|]. intros H _.
  cbn [Js.trimEnd] in H. destruct (Js.allWhiteSpace (String c s)); [discriminate|reflexivity].
Qed.

Lemma noWhiteSpace_trimStart (s : string) :
  noWhiteSpace s = true -> Js.trimStart s = s.
Proof.
  destruct s as [|c s]; [reflexivity|]. simpl. intros H.
  apply andb_true_iff in H as [Hc _]. apply negb_true_iff in Hc. now rewrite Hc.
Qed.

Lemma noWhiteSpace_trimEnd (s : string) :
  noWhiteSpace s = true -> Js.trimEnd s = s.
Proof.
  induction s as [|c s IH]; [reflexivity|]. simpl. intros H.
  apply andb_true_iff in H as [Hc Hs]. apply negb_true_iff in Hc.
  rewrite Hc. simpl. now rewrite IH.
Qed.

Lemma noWhiteSpace_noSpace (s : string) :
  noWhiteSpace s = true -> noChar " " s = true.
Proof.
  induction s as [|c s IH]; [reflexivity|]. simpl. intros H.
  apply andb_true_iff in H as [Hc Hs]. rewrite (IH Hs), andb_true_r.
  apply negb_true_iff. apply negb_true_iff in Hc.
  destruct (Ascii.eqb c " ") eqn:E; [|reflexivity].
  apply Ascii.eqb_eq in E. subst c. discriminate.
Qed.

(** *** [split] and [join] *)

Lemma split_nonempty (sep : ascii) (s : string) : Js.split sep s <> [].
Proof.
  destruct s as [|c s]; simpl; [discriminate|].
  destruct (Ascii.eqb c sep); [discriminate|].
  destruct (Js.split sep s); discriminate.
Qed.

Lemma split_cons_char (sep c : ascii) (s : string) :
  Ascii.eqb c sep = false ->
  Js.split sep (String c s)
  = match Js.split sep s with
    | h :: t => String c h :: t
    | [] => [String c ""]
    end.
Proof. intros H. simpl. now rewrite H. Qed.

Lemma split_noChar (sep : ascii) (s : string) :
  noChar sep s = true -> Js.split sep s = [s].
Proof.
  induction s as [|c s IH]; [reflexivity|]. simpl. intros H.
  apply andb_true_iff in H as [Hc Hs]. apply negb_true_iff in Hc.
  rewrite Hc, (IH Hs). reflexivity.
Qed.

Lemma split_app_sep (sep : ascii) (a b : string) :
  noChar sep a = true ->
  Js.split sep (a ++ String sep b) = a :: Js.split sep b.
Proof.
  induction a as [|c a IH]; simpl; intros H.
  - now rewrite Ascii.eqb_refl.
  - apply andb_true_iff in H as [Hc Ha]. apply negb_true_iff in Hc.
    rewrite Hc, (IH Ha). reflexivity.
Qed.

Lemma split_snoc (sep : ascii) (a u : string) :
  noChar sep u = true ->
  Js.split sep (a ++ String sep u) = (Js.split sep a ++ [u])%list.
Proof.
  intros Hu. induction a as [|c a IH]; simpl.
  - rewrite Ascii.eqb_refl, (split_noChar sep u Hu). reflexivity.
  - destruct (Ascii.eqb c sep); [now rewrite IH|].
    rewrite IH. pose proof (split_nonempty sep a) as Hne.
    destruct (Js.split sep a); [congruence|reflexivity].
Qed.

Lemma join_cons (sep h : string) (t : list string) :
  t <> [] -> Js.join sep (h :: t) = h ++ sep ++ Js.join sep t.
Proof. destruct t; [congruence|reflexivity]. Qed.

Lemma join_split (sep : ascii) (s : string) :
  Js.join (String sep "") (Js.split sep s) = s.
Proof.
  induction s as [|c s IH]; [reflexivity|]. simpl.
  destruct (Ascii.eqb c sep) eqn:E.
  - apply Ascii.eqb_eq in E. subst c.
    rewrite join_cons by apply split_nonempty. simpl. now rewrite IH.
  - pose proof (split_nonempty sep s) as Hne.
    destruct (Js.split sep s) as [|h t]; [congruence|].
    destruct t as [|h' t].
    + simpl in *. congruence.
    + rewrite (join_cons _ (String c h)) by discriminate.
      rewrite (join_cons _ h) in IH by discriminate.
      rewrite <- IH. reflexivity.
Qed.

Lemma split_join (sep : ascii) (l : list string) :
  l <> [] -> forallb (noChar sep) l = true ->
  Js.split sep (Js.join (String sep "") l) = l.
Proof.
  induction l as [|h t IH]; [congruence|]. intros _ H. simpl in H.
  apply andb_true_iff in H as [Hh Ht].
  destruct t as [|h' t].
  - simpl. now apply split_noChar.
  - rewrite join_cons by discriminate. simpl append.
    rewrite (split_app_sep sep h _ Hh). f_equal. apply IH; [discriminate|exact Ht].
Qed.

Lemma replaceAll_noChar (from to : ascii) (s : string) :
  noChar from s = true -> Js.replaceAll from to s = s.
Proof.
  induction s as [|c s IH]; [reflexivity|]. simpl. intros H.
  apply andb_true_iff in H as [Hc Hs]. apply negb_true_iff in Hc.
  now rewrite Hc, (IH Hs).
Qed.

Lemma noChar_app (c : ascii) (a b : string) :
  noChar c (a ++ b) = (noChar c a && noChar c b)%bool.
Proof.
  induction a as [|x a IH]; simpl; [reflexivity|]. rewrite IH. now rewrite andb_assoc.
Qed.

(** *** Prefixes *)

Lemma prefix_nil (s : string) : String.prefix "" s = true.
Proof. destruct s; reflexivity. Qed.

Lemma prefix_app (p s : string) : String.prefix p (p ++ s) = true.
Proof.
  induction p as [|c p IH]; simpl; [apply prefix_nil|].
  destruct (ascii_dec c c); [exact IH|congruence].
Qed.

Lemma prefix_shorter (p q s : string) :
  String.prefix p s = false -> String.prefix (p ++ q) s = false.
Proof.
  revert s. induction p as [|c p IH]; intros s.
  - rewrite prefix_nil. discriminate.
  - destruct s as [|x s]; [reflexivity|]. simpl.
    destruct (ascii_dec c x); [apply IH|reflexivity].
Qed.

(** *** Numbers *)

Lemma Number_natToString (n : nat) :
  Js.Number (Js.natToString n) = Some (Z.of_nat n).
Proof.
  unfold Js.Number, Js.trim.
  pose proof (natToString_allDigits n) as Hd.
  pose proof (digitsValue_natToString n) as Hv.
  destruct (Js.natToString n) as [|c r] eqn:E.
  - simpl. unfold Js.digitsValue in Hv. simpl in Hv. now subst n.
  - assert (Hc : Js.isDigit c = true) by (simpl in Hd; now apply andb_true_iff in Hd).
    cbn [Js.trimStart]. rewrite (digit_not_space c Hc).
    rewrite (trimEnd_digits (String c r) Hd).
    assert (Hm : Ascii.eqb c "-" = false).
    { destruct (Ascii.eqb c "-") eqn:Em; [|reflexivity].
      apply Ascii.eqb_eq in Em. subst c. discriminate. }
    assert (Hp : Ascii.eqb c "+" = false).
    { destruct (Ascii.eqb c "+") eqn:Em; [|reflexivity].
      apply Ascii.eqb_eq in Em. subst c. discriminate. }
    now rewrite Hm, Hp, Hd, Hv.
Qed.

Lemma natToString_noChar (c : ascii) (n : nat) :
  Js.isDigit c = false -> noChar c (Js.natToString n) = true.
Proof.
  intros Hc. pose proof (natToString_allDigits n) as Hd.
  induction (Js.natToString n) as [|x s IH]; [reflexivity|]. simpl in *.
  apply andb_true_iff in Hd as [Hx Hs]. rewrite (IH Hs), andb_true_r.
  apply negb_true_iff. destruct (Ascii.eqb x c) eqn:E; [|reflexivity].
  apply Ascii.eqb_eq in E. congruence.
Qed.

Lemma allWhiteSpace_trimEnd (s : string) :
  Js.allWhiteSpace (Js.trimEnd s) = true -> Js.allWhiteSpace s = true.
Proof.
  induction s as [|c s IH]; [reflexivity|]. cbn [Js.trimEnd].
  destruct (Js.allWhiteSpace (String c s)) eqn:E; [reflexivity|].
  intros H. simpl in H, E. apply andb_true_iff in H as [Hc Hs].
  rewrite Hc, (IH Hs) in E. discriminate.
Qed.

Lemma trimEnd_idem (s : string) : Js.trimEnd (Js.trimEnd s) = Js.trimEnd s.
Proof.
  induction s as [|c s IH]; [reflexivity|]. cbn [Js.trimEnd].
  destruct (Js.allWhiteSpace (String c s)) eqn:E; [reflexivity|].
  cbn [Js.trimEnd]. rewrite IH.
  destruct (Js.allWhiteSpace (String c (Js.trimEnd s))) eqn:E'; [|reflexivity].
  simpl in E, E'. apply andb_true_iff in E' as [Hc Hs].
  rewrite Hc, (allWhiteSpace_trimEnd s Hs) in E. discriminate.
Qed.

(** ** The payload codec: symmetry *)

Lemma trimEnd_solid (p body : string) :
  solidPrefix p = true -> Js.trimEnd (p ++ body) = p ++ Js.trimEnd body.
Proof.
  unfold solidPrefix. intros H. apply andb_true_iff in H as [Hne Hws].
  induction p as [|c p IH]; [discriminate|].
  simpl in Hws. apply andb_true_iff in Hws as [Hc Hp]. apply negb_true_iff in Hc.
  destruct p as [|c' p'].
  - simpl. rewrite Hc. reflexivity.
  - cbn [append Js.trimEnd Js.allWhiteSpace]. rewrite Hc. cbn [andb].
    f_equal. apply IH; [reflexivity|exact Hp].
Qed.

Lemma trim_solid (p body : string) :
  solidPrefix p = true -> Js.trim (p ++ body) = p ++ Js.trimEnd body.
Proof.
  intros H. unfold Js.trim. rewrite <- (trimEnd_solid p body H). f_equal.
  unfold solidPrefix in H. apply andb_true_iff in H as [Hne Hws].
  destruct p as [|c p]; [discriminate|]. simpl in Hws.
  apply andb_true_iff in Hws as [Hc _]. apply negb_true_iff in Hc.
  simpl. now rewrite Hc.
Qed.

Lemma firstTruthy_some (s : string) : firstTruthy [Some s] = s.
Proof. destruct s; reflexivity. Qed.

Lemma truthy_firstTruthy (o : option string) :
  Js.truthy (Some (firstTruthy [o])) = Js.truthy o.
Proof. destruct o as [[|c s]|]; reflexivity. Qed.

Lemma orElse_self (s d : string) : s <> "" -> Js.orElse s d = s.
Proof. destruct s; [congruence|reflexivity]. Qed.

Lemma nonEmpty_spec (s : string) : Js.isEmpty s = false -> s <> "".
Proof. destruct s; [discriminate|congruence]. Qed.

Lemma intToString_nonneg (z : Z) :
  (0 <=? z)%Z = true -> Js.intToString z = Js.natToString (Z.to_nat z).
Proof. destruct z; [reflexivity|reflexivity|discriminate]. Qed.

Lemma orElse_empty (s : string) : Js.orElse s "" = s.
Proof. destruct s; reflexivity. Qed.

Lemma truthy_idem (o : option string) : Js.truthy (Js.truthy o) = Js.truthy o.
Proof. destruct o as [[|c s]|]; reflexivity. Qed.

Lemma trimEnd_keep (a : string) (c : ascii) (b : string) :
  Js.trimEnd b = b -> b <> "" -> Js.trimEnd (a ++ String c b) = a ++ String c b.
Proof.
  intros Hb Hne. pose proof (trimEnd_nonempty b Hb Hne) as Hw.
  rewrite trimEnd_app_nonblank by (simpl; rewrite Hw; apply andb_false_r).
  f_equal. cbn [Js.trimEnd Js.allWhiteSpace]. rewrite Hw, andb_false_r.
  now rewrite Hb.
Qed.

Lemma trimStart_length (s : string) :
  String.length (Js.trimStart s) <= String.length s.
Proof.
  induction s as [|c s IH]; simpl; [lia|].
  destruct (Js.isWhiteSpace c); simpl; lia.
Qed.

Lemma trimStart_fixed (s r : string) :
  s <> "" -> Js.trimStart s = s -> Js.trimStart (s ++ r) = s ++ r.
Proof.
  destruct s as [|c s]; [congruence|]. intros _ H. simpl in *.
  destruct (Js.isWhiteSpace c); [|reflexivity].
  pose proof (trimStart_length s) as L. rewrite H in L. simpl in L. lia.
Qed.

(** A prefix test that fails on [u] still fails once [u] is followed by
    a character the prefix does not contain. *)
Lemma prefix_behind (p u : string) (c : ascii) (r : string) :
  String.prefix p u = false -> noChar c p = true ->
  String.prefix p (u ++ String c r) = false.
Proof.
  revert u. induction p as [|a p IH]; intros u H Hc.
  - rewrite prefix_nil in H. discriminate.
  - simpl in Hc. apply andb_true_iff in Hc as [Ha Hp]. apply negb_true_iff in Ha.
    destruct u as [|x u]; simpl in *.
    + destruct (ascii_dec a c) as [->|]; [|reflexivity].
      rewrite Ascii.eqb_refl in Ha. discriminate.
    + destruct (ascii_dec a x); [now apply IH|reflexivity].
Qed.

Lemma digit_neq (c x : ascii) :
  Js.isDigit c = true -> Js.isDigit x = false -> Ascii.eqb c x = false.
Proof.
  intros Hc Hx. destruct (Ascii.eqb c x) eqn:E; [|reflexivity].
  apply Ascii.eqb_eq in E. congruence.
Qed.

(** What a well-formed [HH:MM] never contains. *)
Lemma validTime_noChar (s : string) (x : ascii) :
  validTime s = true -> Js.isDigit x = false -> Ascii.eqb ":" x = false ->
  noChar x s = true.
Proof.
  intros H Hx Hcolon.
  destruct s as [|h1 [|h2 [|c [|m1 [|m2 [|]]]]]]; try discriminate.
  cbv beta iota delta [validTime] in H.
  do 4 (apply andb_true_iff in H as [H ?]).
  match goal with E : Ascii.eqb c ":" = true |- _ =>
    apply Ascii.eqb_eq in E; subst c end.
  cbn [noChar]. rewrite (digit_neq h1 x), (digit_neq h2 x), (digit_neq m1 x),
    (digit_neq m2 x), Hcolon by assumption. reflexivity.
Qed.

Lemma validTime_nonempty (s : string) : validTime s = true -> s <> "".
Proof. destruct s; [discriminate|congruence]. Qed.

(** Mapping a parser that consumes identifiers over serialized rules. *)
Lemma gmapM_bodies {A B C} (f : string -> Gen B) (ser : A -> string)
    (body : A -> C) (body' : B -> C) (l : list A) :
  Forall (fun a => forall k, body' (fst (f (ser a) k)) = body a) l ->
  forall k, List.map body' (fst (gmapM f (List.map ser l) k)) = List.map body l.
Proof.
  induction 1 as [|a l Ha _ IH]; intros k; [reflexivity|].
  simpl. unfold gbind. specialize (Ha k).
  destruct (f (ser a) k) as [b k']. specialize (IH k').
  destruct (gmapM f (List.map ser l) k') as [bs k'']. simpl in *.
  now rewrite Ha, IH.
Qed.

(** Joined cells that do not end in white space. *)
Lemma trimEnd_join (sep : ascii) (l : list string) :
  l <> [] -> Forall (fun e => Js.trimEnd e = e /\ e <> "") l ->
  Js.trimEnd (Js.join (String sep "") l) = Js.join (String sep "") l
  /\ Js.join (String sep "") l <> "".
Proof.
  induction l as [|h t IH]; [congruence|]. intros _ H.
  apply Forall_cons_iff in H as [[Hh Hne] Ht]. destruct t as [|h' t].
  - simpl. auto.
  - rewrite join_cons by discriminate. simpl append.
    destruct (IH ltac:(discriminate) Ht) as [IH1 IH2]. split.
    + now apply trimEnd_keep.
    + destruct h; discriminate.
Qed.

(** Settle the prefix tests that remain once the literal head of a cell
    has been compared away: by a hypothesis on a shorter prefix, or
    trivially for the empty prefix. *)
Ltac settle_prefix :=
  repeat match goal with
         | |- context [String.prefix "" ?v] => rewrite (prefix_nil v)
         | H : String.prefix ?q ?v = false |- context [String.prefix ?p ?v] =>
             let E := fresh "E" in
             assert (E : String.prefix p v = false)
               by (first [exact H | exact (prefix_shorter q _ v H)]);
             rewrite E; clear E
         end.

(** Run [decodePayload] on a cell with a literal head. *)
Ltac run_decode :=
  unfold decodePayload, Js.startsWith in *; simpl; settle_prefix;
  simpl; unfold gret.

(** Decoding writes the payload fields; the column stays. *)
Lemma decodePayload_column (uuid : nat -> string) (val : string)
    (data : NodeData.t) (n : nat) :
  NodeData.supabaseColumn (snd (fst (decodePayload uuid val data n)))
  = NodeData.supabaseColumn data.
Proof.
  unfold decodePayload. cbv zeta.
  repeat first
    [ reflexivity
    | progress (unfold gbind; destruct (gmapM _ _ n) as [rs n']; reflexivity)
    | match goal with
      | |- context [if Js.startsWith ?p val then _ else _] =>
          destruct (Js.startsWith p val)
      | |- context [if bool_decide (val = ?l) then _ else _] =>
          destruct (bool_decide (val = l))
      | |- context [matchTimeSuffix ?c] =>
          destruct (matchTimeSuffix c) as [[h m]|]
      end ].
Qed.

#[local] Arguments firstTruthy : simpl never.

Section Symmetry.

Variable availableFlows : list FlowRef.
Variable uuid : nat -> string.
Variable columnName : string.
Variable n : nat.

Local Abbreviation decode b :=
  (fst (parseColumnValue uuid
          (Some (buildSupabaseValueForBubble availableFlows b)) columnName n)).

(** Decoding a cell that starts with a solid prefix and does not end in
    white space dispatches on the cell itself. *)
Lemma parse_solid (p body : string) :
  solidPrefix p = true -> Js.trimEnd body = body ->
  fst (parseColumnValue uuid (Some (p ++ body)) columnName n)
  = (let '(ty, d, n') :=
       decodePayload uuid (p ++ body)
         (NodeData.init "" (Some (Js.toUpperCase columnName))) n in
     Some (BubbleData.mk (uuid n') ty d)).
Proof.
  intros Hp Hb. unfold parseColumnValue. rewrite (trim_solid p body Hp), Hb.
  assert (He : Js.isEmpty (p ++ body) = false).
  { unfold solidPrefix in Hp. destruct p; [discriminate|reflexivity]. }
  rewrite He. unfold gbind, uuidv4, gret.
  destruct (decodePayload _ _ _ _) as [[ty d] n']. reflexivity.
Qed.

Lemma message_symmetry (b : BubbleData.t) :
  BubbleData.type b = Nmessage -> wellFormedPayload availableFlows b = true ->
  decodesTo (decode b) b columnName.
Proof.
  intros Hty Hwf. unfold decodesTo, wellFormedPayload, payloadOf,
    buildSupabaseValueForBubble in *.
  rewrite Hty in *. cbn [NODE_PREFIXES] in *.
  set (text := firstTruthy [NodeData.content (BubbleData.data b)]) in *.
  apply andb_true_iff in Hwf as [Hwf H3]. apply andb_true_iff in Hwf as [H1 H2].
  apply noTrailingSpace_spec in H1.
  apply negb_true_iff in H2. apply negb_true_iff in H3.
  rewrite (parse_solid "MSG-" text eq_refl H1).
  run_decode. eexists. split; [reflexivity|]. simpl. rewrite firstTruthy_some. auto.
Qed.

Lemma media_symmetry (b : BubbleData.t) :
  BubbleData.type b = Nphoto \/ BubbleData.type b = Nvideo
  \/ BubbleData.type b = Naudio ->
  wellFormedPayload availableFlows b = true -> decodesTo (decode b) b columnName.
Proof.
  intros Hty Hwf. unfold decodesTo, wellFormedPayload, payloadOf,
    buildSupabaseValueForBubble in *.
  set (url := firstTruthy [NodeData.mediaUrl (BubbleData.data b)]) in *.
  destruct Hty as [Hty|[Hty|Hty]]; rewrite Hty in *; cbn [NODE_PREFIXES] in *.
  - apply andb_true_iff in Hwf as [H1 H2].
    apply noTrailingSpace_spec in H1. apply negb_true_iff in H2.
    rewrite (parse_solid "FT-" url eq_refl H1). run_decode.
    eexists. split; [reflexivity|]. simpl. rewrite firstTruthy_some. auto.
  - apply andb_true_iff in Hwf as [H1 H2].
    apply noTrailingSpace_spec in H1. apply negb_true_iff in H2.
    rewrite (parse_solid "VD-" url eq_refl H1). run_decode.
    eexists. split; [reflexivity|]. simpl. rewrite firstTruthy_some. auto.
  - apply noTrailingSpace_spec in Hwf.
    rewrite (parse_solid "AU-" url eq_refl Hwf). run_decode.
    eexists. split; [reflexivity|]. simpl. rewrite firstTruthy_some. auto.
Qed.

Lemma tag_symmetry (b : BubbleData.t) :
  BubbleData.type b = Nlead_respond \/ BubbleData.type b = Nlink_pix ->
  decodesTo (decode b) b columnName.
Proof.
  intros Hty. unfold decodesTo, payloadOf, buildSupabaseValueForBubble.
  destruct Hty as [Hty|Hty]; rewrite Hty; cbn [NODE_PREFIXES].
  - eexists. split; [reflexivity|]. simpl. auto.
  - eexists. split; [reflexivity|]. simpl. auto.
Qed.

Lemma timer_cell (a c : nat) :
  Js.trimEnd (Js.natToString a ++ String "-" (Js.natToString c))
  = Js.natToString a ++ String "-" (Js.natToString c)
  /\ Js.split "-" (Js.natToString a ++ String "-" (Js.natToString c))
     = [Js.natToString a; Js.natToString c].
Proof.
  split.
  - rewrite trimEnd_behind by reflexivity.
    now rewrite (trimEnd_digits _ (natToString_allDigits c)).
  - rewrite split_app_sep by (now apply natToString_noChar).
    now rewrite split_noChar by (now apply natToString_noChar).
Qed.

Lemma time_symmetry (b : BubbleData.t) :
  BubbleData.type b = Ntime -> wellFormedPayload availableFlows b = true ->
  decodesTo (decode b) b columnName
  /\ decodesTo
       (fst (parseTColumn uuid
               (Some (buildSupabaseValueForBubble availableFlows b))
               columnName n))
       b columnName.
Proof.
  intros Hty Hwf. unfold decodesTo, wellFormedPayload, payloadOf,
    buildSupabaseValueForBubble in *.
  rewrite Hty in *. cbn [NODE_PREFIXES] in *.
  fold (timeMinOf (BubbleData.data b)) (timeMaxOf (BubbleData.data b)).
  apply andb_true_iff in Hwf as [H1 H2].
  rewrite (intToString_nonneg _ H1), (intToString_nonneg _ H2).
  apply Z.leb_le in H1, H2.
  set (a := Z.to_nat (timeMinOf (BubbleData.data b))).
  set (c := Z.to_nat (timeMaxOf (BubbleData.data b))).
  assert (Ha : Z.of_nat a = timeMinOf (BubbleData.data b)) by (apply Z2Nat.id, H1).
  assert (Hc : Z.of_nat c = timeMaxOf (BubbleData.data b)) by (apply Z2Nat.id, H2).
  destruct (timer_cell a c) as [Ht Hs].
  change (Js.natToString a ++ "-" ++ Js.natToString c)
    with (Js.natToString a ++ String "-" (Js.natToString c)).
  split.
  - rewrite (parse_solid "T-" (Js.natToString a ++ String "-" (Js.natToString c))
               eq_refl Ht).
    run_decode. rewrite Hs.
    eexists. split; [reflexivity|]. simpl.
    rewrite !Number_natToString, Ha, Hc. auto.
  - unfold parseTColumn.
    rewrite (trim_solid "T-" (Js.natToString a ++ String "-" (Js.natToString c))
               eq_refl), Ht.
    unfold Js.startsWith. simpl. rewrite prefix_nil, Hs.
    eexists. split; [reflexivity|]. simpl.
    rewrite !Number_natToString, Ha, Hc. auto.
Qed.

Lemma utm_symmetry (b : BubbleData.t) :
  BubbleData.type b = Nmessage_utm -> wellFormedPayload availableFlows b = true ->
  decodesTo (decode b) b columnName.
Proof.
  intros Hty Hwf. unfold decodesTo, wellFormedPayload, payloadOf,
    buildSupabaseValueForBubble in *.
  rewrite Hty in *. cbn [NODE_PREFIXES] in *.
  set (text := firstTruthy [NodeData.content (BubbleData.data b)]) in *.
  set (tag := firstTruthy [NodeData.utm (BubbleData.data b)]) in *.
  apply andb_true_iff in Hwf as [Hwf H4]. apply andb_true_iff in Hwf as [Hwf H3].
  apply andb_true_iff in Hwf as [H1 H2].
  apply negb_true_iff, nonEmpty_spec in H1. apply bool_decide_eq_true_1 in H2.
  apply negb_true_iff, nonEmpty_spec in H3.
  change (text ++ " " ++ tag) with (text ++ String " " tag).
  assert (He : Js.trimEnd (text ++ String " " tag) = text ++ String " " tag)
    by (apply trimEnd_keep; [now apply noWhiteSpace_trimEnd|exact H3]).
  assert (Ht : Js.trim (text ++ String " " tag) = text ++ String " " tag)
    by (unfold Js.trim; now rewrite (trimStart_fixed text _ H1 H2)).
  rewrite Ht, (parse_solid "MSG-UTM-" _ eq_refl He). run_decode.
  rewrite (split_snoc " " text tag (noWhiteSpace_noSpace tag H4)).
  rewrite last_last, removelast_last, join_split, (orElse_self text _ H1).
  rewrite length_app, Nat.add_comm. simpl.
  destruct (Js.split " " text) eqn:Hs; [now destruct (split_nonempty " " text)|].
  eexists. split; [reflexivity|]. simpl. rewrite !firstTruthy_some. auto.
Qed.

(** The cell of a captioned medium: the address, then the caption
    behind one space unless it is empty. *)
Lemma caption_cell (url cap : string) :
  solidPrefix url = true -> Js.trimEnd cap = cap ->
  exists tail,
    Js.trim (url ++ " " ++ cap) = url ++ tail
    /\ Js.trimEnd (url ++ tail) = url ++ tail
    /\ (cap = "" /\ tail = "" \/ tail = String " " cap).
Proof.
  intros Hu Hc. change (url ++ " " ++ cap) with (url ++ String " " cap).
  rewrite (trim_solid url _ Hu). destruct cap as [|c cap].
  - exists "". rewrite (trimEnd_solid url "" Hu). auto.
  - exists (String " " (String c cap)).
    pose proof (trimEnd_nonempty _ Hc ltac:(discriminate)) as Hw.
    assert (E : Js.trimEnd (String " " (String c cap)) = String " " (String c cap)).
    { change (Js.trimEnd ("" ++ String " " (String c cap))
              = "" ++ String " " (String c cap)).
      apply trimEnd_keep; [exact Hc|discriminate]. }
    rewrite (trimEnd_solid url _ Hu), E. auto.
Qed.

Lemma caption_parts (url cap tail : string) :
  solidPrefix url = true ->
  cap = "" /\ tail = "" \/ tail = String " " cap ->
  partOr (Js.split " " (url ++ tail)) 0 "" = url
  /\ Js.join " " (List.skipn 1 (Js.split " " (url ++ tail))) = cap.
Proof.
  intros Hu Ht. unfold solidPrefix in Hu. apply andb_true_iff in Hu as [_ Hu].
  apply noWhiteSpace_noSpace in Hu. destruct Ht as [[-> ->]| ->].
  - rewrite append_nil_r, (split_noChar _ _ Hu).
    split; [apply orElse_empty|reflexivity].
  - rewrite (split_app_sep _ _ _ Hu).
    split; [apply orElse_empty|apply join_split].
Qed.

Lemma caption_prefix (p url cap tail : string) :
  String.prefix p url = false -> noChar " " p = true ->
  cap = "" /\ tail = "" \/ tail = String " " cap ->
  String.prefix p (url ++ tail) = false.
Proof.
  intros H Hp [[_ ->]| ->]; [now rewrite append_nil_r|now apply prefix_behind].
Qed.

Lemma captioned_symmetry (b : BubbleData.t) :
  BubbleData.type b = Nphoto_caption \/ BubbleData.type b = Nvideo_caption ->
  wellFormedPayload availableFlows b = true -> decodesTo (decode b) b columnName.
Proof.
  intros Hty Hwf. unfold decodesTo, wellFormedPayload, payloadOf,
    buildSupabaseValueForBubble in *.
  set (url := firstTruthy [NodeData.mediaUrl (BubbleData.data b)]) in *.
  set (cap := firstTruthy [NodeData.caption (BubbleData.data b)]) in *.
  assert (Hwf' : ((negb (Js.isEmpty url) && noWhiteSpace url && noTrailingSpace cap
                   && negb (Js.startsWith "T;" url)
                   && negb (Js.startsWith "T-" url))%bool = true))
    by (destruct Hty as [Hty|Hty]; rewrite Hty in Hwf; exact Hwf).
  clear Hwf. apply andb_true_iff in Hwf' as [Hwf H5].
  apply andb_true_iff in Hwf as [Hwf H4]. apply andb_true_iff in Hwf as [Hu H3].
  apply noTrailingSpace_spec in H3. apply negb_true_iff in H4, H5.
  unfold Js.startsWith in H4, H5.
  destruct (caption_cell url cap Hu H3) as (tail & Ht & He & Hcase).
  destruct (caption_parts url cap tail Hu Hcase) as [Hp0 Hp1].
  pose proof (caption_prefix "T;" url cap tail H4 eq_refl Hcase) as P1.
  pose proof (caption_prefix "T-" url cap tail H5 eq_refl Hcase) as P2.
  destruct Hty as [Hty|Hty]; rewrite Hty in *; cbn [NODE_PREFIXES] in *; rewrite Ht.
  - rewrite (parse_solid "FT-C-" _ eq_refl He). run_decode. rewrite Hp0, Hp1.
    eexists. split; [reflexivity|]. simpl. rewrite !firstTruthy_some. auto.
  - rewrite (parse_solid "VD-C-" _ eq_refl He). run_decode. rewrite Hp0, Hp1.
    eexists. split; [reflexivity|]. simpl. rewrite !firstTruthy_some. auto.
Qed.

Lemma message_rule_cell (r : TimeMessageRule.t) :
  wellFormedMessageRule r = true ->
  Js.trimEnd (serializeMessageRule r) = serializeMessageRule r
  /\ serializeMessageRule r <> ""
  /\ noChar ";" (serializeMessageRule r) = true
  /\ forall k, messageRuleBody (fst (parseMessageRule uuid (serializeMessageRule r) k))
               = messageRuleBody r.
Proof.
  unfold wellFormedMessageRule, serializeMessageRule, messageRuleBody.
  destruct r as [i st en ct]. cbn [TimeMessageRule.startTime
    TimeMessageRule.endTime TimeMessageRule.content]. intros H.
  apply andb_true_iff in H as [H H4]. apply andb_true_iff in H as [H H3].
  apply andb_true_iff in H as [H1 H2]. apply noTrailingSpace_spec in H4.
  rewrite (replaceAll_noChar _ _ _ H3).
  change (st ++ "-" ++ en ++ "-" ++ ct) with (st ++ String "-" (en ++ String "-" ct)).
  repeat split.
  - rewrite !trimEnd_behind by reflexivity. now rewrite H4.
  - pose proof (validTime_nonempty st H1). destruct st; [congruence|discriminate].
  - rewrite noChar_app. cbn [noChar]. rewrite noChar_app. cbn [noChar].
    rewrite (validTime_noChar st ";" H1), (validTime_noChar en ";" H2), H3
      by reflexivity. reflexivity.
  - intros k. unfold parseMessageRule, gbind, uuidv4, gret.
    rewrite (split_app_sep "-" st _ (validTime_noChar st "-" H1 eq_refl eq_refl)).
    rewrite (split_app_sep "-" en _ (validTime_noChar en "-" H2 eq_refl eq_refl)).
    cbn [fst partOr nth_error skipn TimeMessageRule.startTime
         TimeMessageRule.endTime TimeMessageRule.content].
    rewrite drop_0, join_split, (orElse_self st), (orElse_self en)
      by (now apply validTime_nonempty). reflexivity.
Qed.

Lemma media_rule_cell (r : TimeMediaRule.t) :
  wellFormedMediaRule r = true ->
  Js.trimEnd (serializeMediaRule r) = serializeMediaRule r
  /\ serializeMediaRule r <> ""
  /\ noChar ";" (serializeMediaRule r) = true
  /\ forall k, mediaRuleBody (fst (parseMediaRule uuid (serializeMediaRule r) k))
               = mediaRuleBody r.
Proof.
  unfold wellFormedMediaRule, serializeMediaRule, mediaRuleBody.
  destruct r as [i st en url co]. cbn [TimeMediaRule.startTime
    TimeMediaRule.endTime TimeMediaRule.mediaUrl TimeMediaRule.caption].
  set (cap := firstTruthy [co]). intros H.
  apply andb_true_iff in H as [H H7]. apply andb_true_iff in H as [H H6].
  apply andb_true_iff in H as [H H5]. apply andb_true_iff in H as [H H4].
  apply andb_true_iff in H as [H H3]. apply andb_true_iff in H as [H1 H2].
  apply noTrailingSpace_spec in H7.
  change (st ++ "|" ++ en ++ "|" ++ url ++ "|" ++ cap)
    with (st ++ String "|" (en ++ String "|" (url ++ String "|" cap))).
  repeat split.
  - rewrite !trimEnd_behind by reflexivity. now rewrite H7.
  - pose proof (validTime_nonempty st H1). destruct st; [congruence|discriminate].
  - rewrite !noChar_app. cbn [noChar]. rewrite !noChar_app. cbn [noChar].
    rewrite !noChar_app. cbn [noChar].
    rewrite (validTime_noChar st ";" H1), (validTime_noChar en ";" H2), H3, H5
      by reflexivity. reflexivity.
  - intros k. unfold parseMediaRule, gbind, uuidv4, gret.
    rewrite (split_app_sep "|" st _ (validTime_noChar st "|" H1 eq_refl eq_refl)).
    rewrite (split_app_sep "|" en _ (validTime_noChar en "|" H2 eq_refl eq_refl)).
    rewrite (split_app_sep "|" url _ H4), (split_noChar "|" cap H6).
    cbn [fst partOr nth_error TimeMediaRule.startTime TimeMediaRule.endTime
         TimeMediaRule.mediaUrl TimeMediaRule.caption].
    rewrite !orElse_empty, truthy_idem, (orElse_self st), (orElse_self en)
      by (now apply validTime_nonempty).
    unfold cap. now rewrite truthy_firstTruthy.
Qed.

Lemma rule_cells {A} (ser : A -> string) (wf : A -> bool) (rules : list A) :
  (forall r, wf r = true ->
     Js.trimEnd (ser r) = ser r /\ ser r <> "" /\ noChar ";" (ser r) = true) ->
  forallb wf rules = true -> rules <> [] ->
  Js.trimEnd (Js.join ";" (List.map ser rules)) = Js.join ";" (List.map ser rules)
  /\ Js.split ";" (Js.join ";" (List.map ser rules)) = List.map ser rules
  /\ List.filter nonEmpty (List.map ser rules) = List.map ser rules.
Proof.
  intros Hc Hwf Hne. rewrite List.forallb_forall in Hwf.
  assert (Hm : List.map ser rules <> []) by (destruct rules; [congruence|discriminate]).
  repeat split.
  - apply (trimEnd_join ";" _ Hm). apply List.Forall_forall. intros e He.
    apply List.in_map_iff in He as (r & <- & Hr).
    destruct (Hc r (Hwf r Hr)) as (? & ? & _). auto.
  - apply (split_join ";" _ Hm). apply List.forallb_forall. intros e He.
    apply List.in_map_iff in He as (r & <- & Hr).
    now destruct (Hc r (Hwf r Hr)) as (_ & _ & ?).
  - apply List.forallb_filter_id. apply List.forallb_forall. intros e He.
    apply List.in_map_iff in He as (r & <- & Hr).
    destruct (Hc r (Hwf r Hr)) as (_ & ? & _).
    unfold nonEmpty. destruct (ser r); [congruence|reflexivity].
Qed.

Lemma message_time_symmetry (b : BubbleData.t) :
  BubbleData.type b = Nmessage_time -> wellFormedPayload availableFlows b = true ->
  decodesTo (decode b) b columnName.
Proof.
  intros Hty Hwf. unfold decodesTo, wellFormedPayload, payloadOf,
    buildSupabaseValueForBubble in *.
  rewrite Hty in *. cbn [NODE_PREFIXES] in *.
  fold (messageRulesOf (BubbleData.data b)).
  set (rules := messageRulesOf (BubbleData.data b)) in *.
  apply andb_true_iff in Hwf as [Hne Hwf].
  assert (Hne' : rules <> []) by (destruct rules; [discriminate|congruence]).
  destruct (rule_cells serializeMessageRule wellFormedMessageRule rules
              (fun r H => let '(conj a (conj c (conj d _))) := message_rule_cell r H
                          in conj a (conj c d)) Hwf Hne')
    as (Ht & Hs & _).
  rewrite (parse_solid "MSG-TEMPO-" _ eq_refl Ht). run_decode. rewrite Hs.
  unfold gbind.
  assert (Hb := gmapM_bodies (parseMessageRule uuid) serializeMessageRule
                  messageRuleBody messageRuleBody rules).
  specialize (Hb ltac:(apply List.Forall_forall; intros r Hr;
                       rewrite List.forallb_forall in Hwf;
                       apply (message_rule_cell r (Hwf r Hr))) n).
  destruct (gmapM _ _ n) as [rs k]. simpl in Hb.
  eexists. split; [reflexivity|]. simpl. unfold messageRulesOf at 1. simpl.
  rewrite Hb. auto.
Qed.

Lemma media_time_symmetry (b : BubbleData.t) :
  BubbleData.type b = Nphoto_caption_time
  \/ BubbleData.type b = Nvideo_caption_time ->
  wellFormedPayload availableFlows b = true -> decodesTo (decode b) b columnName.
Proof.
  intros Hty Hwf. unfold decodesTo, wellFormedPayload, payloadOf,
    buildSupabaseValueForBubble in *.
  fold (mediaRulesOf (BubbleData.data b)).
  set (rules := mediaRulesOf (BubbleData.data b)) in *.
  assert (Hwf' : forallb wellFormedMediaRule rules = true)
    by (destruct Hty as [Hty|Hty]; rewrite Hty in Hwf; exact Hwf).
  clear Hwf.
  assert (Hcell : Js.trimEnd (Js.join ";" (List.map serializeMediaRule rules))
                  = Js.join ";" (List.map serializeMediaRule rules)
                  /\ ruleStrings (Js.join ";" (List.map serializeMediaRule rules))
                     = List.map serializeMediaRule rules).
  { destruct rules as [|r rules'] eqn:E; [split; reflexivity|]. rewrite <- E in *.
    destruct (rule_cells serializeMediaRule wellFormedMediaRule rules
                (fun r H => let '(conj a (conj c (conj d _))) := media_rule_cell r H
                            in conj a (conj c d)) Hwf'
                ltac:(rewrite E; discriminate))
      as (Ht & Hs & Hf).
    split; [exact Ht|]. unfold ruleStrings. now rewrite Hs, Hf. }
  destruct Hcell as [Ht Hs].
  assert (Hb := gmapM_bodies (parseMediaRule uuid) serializeMediaRule
                  mediaRuleBody mediaRuleBody rules).
  specialize (Hb ltac:(apply List.Forall_forall; intros r Hr;
                       rewrite List.forallb_forall in Hwf';
                       apply (media_rule_cell r (Hwf' r Hr))) n).
  destruct Hty as [Hty|Hty]; rewrite Hty in *.
  - rewrite (parse_solid "FT-C-T;" _ eq_refl Ht). run_decode. rewrite Hs.
    unfold gbind. destruct (gmapM _ _ n) as [rs k]. simpl in Hb.
    eexists. split; [reflexivity|]. simpl. unfold mediaRulesOf at 1. simpl.
    rewrite Hb. auto.
  - rewrite (parse_solid "VD-C-T;" _ eq_refl Ht). run_decode. rewrite Hs.
    unfold gbind. destruct (gmapM _ _ n) as [rs k]. simpl in Hb.
    eexists. split; [reflexivity|]. simpl. unfold mediaRulesOf at 1. simpl.
    rewrite Hb. auto.
Qed.

End Symmetry.

(** *** Hooks and reminders: the time suffix *)

Lemma allDigits_noChar (c : ascii) (s : string) :
  Js.isDigit c = false -> Js.allDigits s = true -> noChar c s = true.
Proof.
  intros Hc. induction s as [|x s IH]; [reflexivity|]. simpl. intros H.
  apply andb_true_iff in H as [Hx Hs]. rewrite (IH Hs), andb_true_r.
  apply negb_true_iff. now apply digit_neq.
Qed.


(** A time tail holds no hyphen. *)
Lemma timeTail_noHyphen (r h m : string) :
  timeTail r = Some (h, m) -> noChar "-" r = true.
Proof.
  unfold timeTail. pose proof (join_split ":" r) as Hj.
  destruct (Js.split ":" r) as [|h' [|m' [|x l]]]; try discriminate.
  unfold oneOrTwoDigits.
  match goal with |- (if ?c then _ else _) = _ -> _ => destruct c eqn:E end;
    [|discriminate].
  apply andb_true_iff in E as [E1 E2].
  apply andb_true_iff in E1 as [Eh _]. apply andb_true_iff in E2 as [Em _].
  intros _. rewrite <- Hj. unfold Js.join. cbn [String.concat].
  rewrite !noChar_app, (allDigits_noChar "-" h' eq_refl Eh),
    (allDigits_noChar "-" m' eq_refl Em). reflexivity.
Qed.

(** The time matched at the end of [dest-t] is the tail [t], whatever
    hyphens [dest] holds. *)
Lemma matchTimeSuffix_behind (dest t h m : string) :
  timeTail t = Some (h, m) ->
  matchTimeSuffix (dest ++ String "-" t) = Some (h, m).
Proof.
  intros Ht. induction dest as [|c d IH].
  - cbn [append matchTimeSuffix]. cbn [Ascii.eqb Bool.eqb]. now rewrite Ht.
  - cbn [append matchTimeSuffix]. destruct (Ascii.eqb c "-"); [|exact IH].
    destruct (timeTail (d ++ String "-" t)) as [[h' m']|] eqn:E; [|exact IH].
    apply timeTail_noHyphen in E. rewrite noChar_app in E.
    apply andb_true_iff in E as [_ E]. cbn [noChar] in E. discriminate.
Qed.

Lemma prefix_length (p s : string) :
  String.prefix p s = true -> String.length p <= String.length s.
Proof.
  revert s. induction p as [|c p IH]; intros s H; [simpl; lia|].
  destruct s as [|x s]; [discriminate|]. simpl in *.
  destruct (ascii_dec c x); [|discriminate]. specialize (IH s H). lia.
Qed.

Lemma lastIndexOf_short (p s : string) :
  String.length s < String.length p -> Js.lastIndexOf p s = None.
Proof.
  induction s as [|c s IH]; intros H.
  - cbn [Js.lastIndexOf]. destruct p; [simpl in H; lia|reflexivity].
  - cbn [Js.lastIndexOf]. rewrite IH by (simpl in H; lia).
    destruct (String.prefix p (String c s)) eqn:E; [|reflexivity].
    apply prefix_length in E. lia.
Qed.

Lemma lastIndexOf_behind (dest p : string) :
  p <> "" -> Js.lastIndexOf p (dest ++ p) = Some (String.length dest).
Proof.
  intros Hp. induction dest as [|c d IH].
  - cbn [append String.length]. destruct p as [|x p]; [congruence|].
    cbn [Js.lastIndexOf]. rewrite lastIndexOf_short by (simpl; lia).
    rewrite <- (append_nil_r (String x p)) at 2. now rewrite prefix_app.
  - cbn [append String.length Js.lastIndexOf]. now rewrite IH.
Qed.

Lemma take_behind (dest p : string) :
  Js.take (String.length dest) (dest ++ p) = dest.
Proof.
  induction dest as [|c d IH]; [now destruct p|].
  cbn [append String.length Js.take]. now rewrite IH.
Qed.

Lemma beforeTimeSuffix_behind (dest h m : string) :
  beforeTimeSuffix (dest ++ String "-" (h ++ String ":" m)) h m = dest.
Proof.
  unfold beforeTimeSuffix.
  change ("-" ++ h ++ ":" ++ m) with (String "-" (h ++ String ":" m)).
  rewrite lastIndexOf_behind by discriminate. apply take_behind.
Qed.

(** Hours and minutes as the encoder prints them. *)
Lemma pad2_cases :
  forallb
    (fun i =>
       let s := pad2 (Z.of_nat i) in
       (oneOrTwoDigits s && Nat.eqb (Js.digitsValue s) i && noChar ":" s
        && Js.allDigits s && negb (Js.isEmpty s))%bool)
    (seq 0 100) = true.
Proof. vm_compute. reflexivity. Qed.

Lemma pad2_spec (z : Z) :
  inTwoDigits z = true ->
  oneOrTwoDigits (pad2 z) = true /\ Z.of_nat (Js.digitsValue (pad2 z)) = z
  /\ noChar ":" (pad2 z) = true /\ Js.allDigits (pad2 z) = true /\ pad2 z <> "".
Proof.
  unfold inTwoDigits. intros H. apply andb_true_iff in H as [H0 H9].
  apply Z.leb_le in H0, H9.
  pose proof pad2_cases as Hall. rewrite forallb_forall in Hall.
  specialize (Hall (Z.to_nat z) ltac:(apply in_seq; lia)). cbv zeta in Hall.
  rewrite Z2Nat.id in Hall by exact H0.
  apply andb_true_iff in Hall as [Hall He]. apply andb_true_iff in Hall as [Hall Hd].
  apply andb_true_iff in Hall as [Hall Hc]. apply andb_true_iff in Hall as [Ho Hv].
  apply Nat.eqb_eq in Hv. repeat split; auto.
  - rewrite Hv. now apply Z2Nat.id.
  - apply negb_true_iff in He. now apply nonEmpty_spec.
Qed.

Lemma timeTail_pads (h m : string) :
  oneOrTwoDigits h = true -> oneOrTwoDigits m = true ->
  noChar ":" h = true -> noChar ":" m = true ->
  timeTail (h ++ String ":" m) = Some (h, m).
Proof.
  intros Hh Hm Hch Hcm. unfold timeTail.
  rewrite (split_app_sep ":" h m Hch), (split_noChar ":" m Hcm).
  now rewrite Hh, Hm.
Qed.



Lemma trimEnd_trim (s : string) : Js.trimEnd (Js.trim s) = Js.trim s.
Proof. unfold Js.trim. apply trimEnd_idem. Qed.

Section Targets.

Variable availableFlows : list FlowRef.
Variable uuid : nat -> string.
Variable columnName : string.
Variable n : nat.

Local Abbreviation decode b :=
  (fst (parseColumnValue uuid
          (Some (buildSupabaseValueForBubble availableFlows b)) columnName n)).

Lemma hook_symmetry (b : BubbleData.t) :
  BubbleData.type b = Nhook -> wellFormedPayload availableFlows b = true ->
  decodesTo (decode b) b columnName.
Proof.
  intros Hty Hwf. unfold decodesTo, wellFormedPayload, payloadOf,
    buildSupabaseValueForBubble in *.
  rewrite Hty in *. cbn [NODE_PREFIXES] in *.
  apply andb_true_iff in Hwf as [Hwf Hm]. apply andb_true_iff in Hwf as [Hwf Hh].
  apply andb_true_iff in Hwf as [Hwf Hne]. apply andb_true_iff in Hwf as [Hact Hname].
  unfold namesTarget, destinationOf in Hname.
  apply andb_true_iff in Hname as [Ht Hc].
  apply bool_decide_eq_true_1 in Ht, Hc.
  cbv beta zeta in *. set (dest := Js.trim _) in *.
  apply negb_true_iff in Hne. rewrite Ht in Hne.
  apply negb_true_iff, bool_decide_eq_false_1 in Hact.
  destruct (pad2_spec _ Hh) as (Ho1 & Hv1 & Hc1 & Hd1 & Hn1).
  destruct (pad2_spec _ Hm) as (Ho2 & Hv2 & Hc2 & Hd2 & Hn2).
  set (hh := pad2 (orZero (NodeData.hookHours (BubbleData.data b)))) in *.
  set (mm := pad2 (orZero (NodeData.hookMinutes (BubbleData.data b)))) in *.
  assert (Hadd : match NodeData.hookAction (BubbleData.data b) with
                 | Some a => a | None => ActAdd end = ActAdd)
    by (destruct (NodeData.hookAction (BubbleData.data b)) as [[|]|];
        [reflexivity|congruence|reflexivity]).
  rewrite Hadd, Hne. clearbody dest hh mm.
  change (dest ++ "-" ++ hh ++ ":" ++ mm)
    with (dest ++ String "-" (hh ++ String ":" mm)).
  assert (Hbody : Js.trimEnd (dest ++ String "-" (hh ++ String ":" mm))
                  = dest ++ String "-" (hh ++ String ":" mm)).
  { apply trimEnd_keep.
    - apply trimEnd_keep; [now apply trimEnd_digits|exact Hn2].
    - destruct hh; discriminate. }
  rewrite (parse_solid uuid columnName n "GANCHO-" _ eq_refl Hbody).
  run_decode.
  rewrite (matchTimeSuffix_behind dest _ hh mm (timeTail_pads hh mm Ho1 Ho2 Hc1 Hc2)).
  rewrite beforeTimeSuffix_behind.
  eexists. split; [reflexivity|]. simpl.
  rewrite !firstTruthy_some, Hv1, Hv2, Ht, Hc. auto.
Qed.

Lemma reminder_symmetry (b : BubbleData.t) :
  BubbleData.type b = Nreminder -> wellFormedPayload availableFlows b = true ->
  decodesTo (decode b) b columnName.
Proof.
  intros Hty Hwf. unfold decodesTo, wellFormedPayload, payloadOf,
    buildSupabaseValueForBubble in *.
  rewrite Hty in *. cbn [NODE_PREFIXES] in *.
  apply andb_true_iff in Hwf as [Hname Hwf].
  unfold namesTarget, destinationOf in Hname.
  apply andb_true_iff in Hname as [Ht Hc].
  apply bool_decide_eq_true_1 in Ht, Hc.
  cbv beta zeta in *. set (dest := Js.trim _) in *.
  assert (Hdest : Js.trimEnd dest = dest) by apply trimEnd_trim.
  destruct (NodeData.reminderAction (BubbleData.data b)) as [[|]|] eqn:Ea.
  - destruct (NodeData.reminderHours (BubbleData.data b)) as [hz|]; [|discriminate].
    destruct (NodeData.reminderMinutes (BubbleData.data b)) as [mz|]; [|discriminate].
    apply andb_true_iff in Hwf as [Hh Hm].
    destruct (pad2_spec _ Hh) as (Ho1 & Hv1 & Hc1 & Hd1 & Hn1).
    destruct (pad2_spec _ Hm) as (Ho2 & Hv2 & Hc2 & Hd2 & Hn2).
    fold (pad2 hz) (pad2 mz). set (hh := pad2 hz) in *. set (mm := pad2 mz) in *.
    clearbody dest hh mm.
    change ("ADD-REL-" ++ dest ++ "-" ++ hh ++ ":" ++ mm)
      with ("ADD-REL-" ++ (dest ++ String "-" (hh ++ String ":" mm))).
    assert (Hbody : Js.trimEnd (dest ++ String "-" (hh ++ String ":" mm))
                    = dest ++ String "-" (hh ++ String ":" mm)).
    { apply trimEnd_keep.
      - apply trimEnd_keep; [now apply trimEnd_digits|exact Hn2].
      - destruct hh; discriminate. }
    rewrite (parse_solid uuid columnName n "ADD-REL-" _ eq_refl Hbody).
    run_decode.
    rewrite (matchTimeSuffix_behind dest _ hh mm
               (timeTail_pads hh mm Ho1 Ho2 Hc1 Hc2)).
    rewrite beforeTimeSuffix_behind.
    eexists. split; [reflexivity|]. simpl.
    rewrite !firstTruthy_some, Hv1, Hv2, Ht, Hc. auto.
  - apply negb_true_iff, bool_decide_eq_false_1 in Hwf. rewrite Ht in Hwf.
    assert (Hnone : matchTimeSuffix dest = None)
      by (destruct (matchTimeSuffix dest); [exfalso; apply Hwf; eauto|reflexivity]).
    clearbody dest.
    rewrite (parse_solid uuid columnName n "DEL-REL-" dest eq_refl Hdest).
    run_decode. rewrite Hnone.
    eexists. split; [reflexivity|]. simpl.
    rewrite !firstTruthy_some, Ht, Hc. auto.
  - apply negb_true_iff, bool_decide_eq_false_1 in Hwf. rewrite Ht in Hwf.
    assert (Hnone : matchTimeSuffix dest = None)
      by (destruct (matchTimeSuffix dest); [exfalso; apply Hwf; eauto|reflexivity]).
    clearbody dest.
    rewrite (parse_solid uuid columnName n "DEL-REL-" dest eq_refl Hdest).
    run_decode. rewrite Hnone.
    eexists. split; [reflexivity|]. simpl.
    rewrite !firstTruthy_some, Ht, Hc. auto.
Qed.



End Targets.




Local Open Scope list_scope.

(** ** The shift after a deletion: where it agrees with the resequence *)

(** *** Reading a stored column twice *)

Lemma upperChar_space (c : ascii) :
  Js.isWhiteSpace (Js.upperChar c) = Js.isWhiteSpace c.
Proof.
  destruct c as [[] [] [] [] [] [] [] []]; reflexivity.
Qed.

Lemma upperChar_idem (c : ascii) : Js.upperChar (Js.upperChar c) = Js.upperChar c.
Proof.
  destruct c as [[] [] [] [] [] [] [] []]; reflexivity.
Qed.

Lemma toUpperCase_idem (s : string) :
  Js.toUpperCase (Js.toUpperCase s) = Js.toUpperCase s.
Proof.
  induction s as [|c s IH]; simpl; [reflexivity|]. now rewrite upperChar_idem, IH.
Qed.

Lemma allWhiteSpace_upper (s : string) :
  Js.allWhiteSpace (Js.toUpperCase s) = Js.allWhiteSpace s.
Proof.
  induction s as [|c s IH]; simpl; [reflexivity|]. now rewrite upperChar_space, IH.
Qed.

Lemma trimStart_upper (s : string) :
  Js.trimStart (Js.toUpperCase s) = Js.toUpperCase (Js.trimStart s).
Proof.
  induction s as [|c s IH]; simpl; [reflexivity|]. rewrite upperChar_space.
  destruct (Js.isWhiteSpace c); [exact IH|reflexivity].
Qed.

Lemma trimEnd_upper (s : string) :
  Js.trimEnd (Js.toUpperCase s) = Js.toUpperCase (Js.trimEnd s).
Proof.
  induction s as [|c s IH]; [reflexivity|].
  cbn [Js.toUpperCase Js.trimEnd].
  change (String (Js.upperChar c) (Js.toUpperCase s))
    with (Js.toUpperCase (String c s)).
  rewrite allWhiteSpace_upper.
  destruct (Js.allWhiteSpace (String c s)); [reflexivity|].
  cbn [Js.toUpperCase]. now rewrite IH.
Qed.

Lemma trimStart_trimEnd (s : string) :
  Js.trimStart s = s -> Js.trimStart (Js.trimEnd s) = Js.trimEnd s.
Proof.
  destruct s as [|c s]; [reflexivity|]. intros H.
  assert (Hc : Js.isWhiteSpace c = false).
  { simpl in H. destruct (Js.isWhiteSpace c); [|reflexivity].
    pose proof (trimStart_length s) as L. rewrite H in L. simpl in L. lia. }
  cbn [Js.trimEnd Js.allWhiteSpace]. rewrite Hc. simpl. now rewrite Hc.
Qed.

Lemma trimStart_idem (s : string) : Js.trimStart (Js.trimStart s) = Js.trimStart s.
Proof.
  induction s as [|c s IH]; [reflexivity|]. simpl.
  destruct (Js.isWhiteSpace c) eqn:E; [exact IH|]. simpl. now rewrite E.
Qed.

Lemma trim_idem (s : string) : Js.trim (Js.trim s) = Js.trim s.
Proof.
  unfold Js.trim. rewrite (trimStart_trimEnd _ (trimStart_idem s)).
  apply trimEnd_idem.
Qed.

Lemma trim_upper (s : string) :
  Js.trim (Js.toUpperCase s) = Js.toUpperCase (Js.trim s).
Proof. unfold Js.trim. now rewrite trimStart_upper, trimEnd_upper. Qed.

(** [parseColumn] reads its argument trimmed and upper-cased; doing so
    beforehand changes nothing. *)
Lemma parseColumn_normalized (c : string) :
  parseColumn (Js.toUpperCase (Js.trim c)) = parseColumn c.
Proof.
  unfold parseColumn. now rewrite trim_upper, trim_idem, toUpperCase_idem.
Qed.

Lemma parseColumn_empty : parseColumn "" = None.
Proof. reflexivity. Qed.

(** The slot the normalizer reads off a bubble is the slot the shift
    reads off it. *)
Lemma currentNormalized_storedSlot (b : BubbleData.t) :
  currentNormalized b
  = option_map (fun s => buildColumn (fst s) (snd s)) (storedSlot b).
Proof.
  unfold currentNormalized, storedSlot, normalizedColumn.
  destruct (NodeData.supabaseColumn (BubbleData.data b)) as [c|]; [|reflexivity].
  cbn [option_map]. destruct c as [|a c]; [reflexivity|].
  cbn [Js.truthy Js.isEmpty].
  destruct (Js.toUpperCase (Js.trim (String a c))) as [|a' c'] eqn:E.
  - simpl. unfold parseColumn. now rewrite E.
  - cbn [Js.truthy Js.isEmpty]. rewrite <- E, parseColumn_normalized.
    destruct (parseColumn (String a c)) as [[k i]|]; reflexivity.
Qed.

Lemma storedSlot_of_current (b : BubbleData.t) (k : ColumnKind) (i : nat) :
  currentNormalized b = Some (buildColumn k i) -> storedSlot b = Some (k, i).
Proof.
  rewrite currentNormalized_storedSlot.
  destruct (storedSlot b) as [[k' i']|]; [|discriminate]. simpl. intros E.
  assert (buildColumn k' i' = buildColumn k i) as E' by congruence.
  apply buildColumn_inj in E' as [-> ->]. reflexivity.
Qed.

(** *** The map of the shift *)

Lemma shift_fold (k : ColumnKind) (i : nat) (bubbles : list BubbleData.t)
    (m : gmap string string) :
  fold_left
    (fun (updates : gmap string string) bubble =>
       match Js.truthy (NodeData.supabaseColumn (BubbleData.data bubble)) with
       | Some currentColumn =>
           match parseColumn currentColumn with
           | Some (k', i') =>
               if (bool_decide (k' = k) && Nat.ltb i i')%bool
               then <[ BubbleData.id bubble := buildColumn k (i' - 1) ]> updates
               else updates
           | None => updates
           end
       | None => updates
       end)
    bubbles m
  = fold_left
      (fun (updates : gmap string string) bubble =>
         match shiftOf k i bubble with
         | Some c => <[ BubbleData.id bubble := c ]> updates
         | None => updates
         end)
      bubbles m.
Proof.
  revert m. induction bubbles as [|b bubbles IH]; intros m; [reflexivity|].
  cbn [fold_left]. rewrite IH. f_equal. unfold shiftOf, storedSlot.
  destruct (Js.truthy (NodeData.supabaseColumn (BubbleData.data b))) as [c|];
    [|reflexivity].
  destruct (parseColumn c) as [[k' i']|]; [|reflexivity].
  destruct (bool_decide (k' = k) && Nat.ltb i i')%bool; reflexivity.
Qed.

Section InsertFold.

Variable f : BubbleData.t -> option string.

Let step (updates : gmap string string) (bubble : BubbleData.t) :=
  match f bubble with
  | Some c => <[ BubbleData.id bubble := c ]> updates
  | None => updates
  end.

Lemma insert_fold_out (l : list BubbleData.t) (m : gmap string string) (j : string) :
  j ∉ List.map BubbleData.id l -> fold_left step l m !! j = m !! j.
Proof.
  revert m. induction l as [|a l IH]; intros m Hj; [reflexivity|].
  cbn [fold_left]. cbn [List.map] in Hj. apply not_elem_of_cons in Hj as [Hja Hj].
  rewrite (IH _ Hj). unfold step. destruct (f a); [|reflexivity].
  now rewrite lookup_insert_ne by congruence.
Qed.

Lemma insert_fold_in (l : list BubbleData.t) (m : gmap string string)
    (b : BubbleData.t) :
  NoDup (List.map BubbleData.id l) -> b ∈ l ->
  fold_left step l m !! BubbleData.id b
  = match f b with Some c => Some c | None => m !! BubbleData.id b end.
Proof.
  revert m. induction l as [|a l IH]; intros m Hnd Hb; [now apply elem_of_nil in Hb|].
  cbn [List.map] in Hnd. apply NoDup_cons in Hnd as [Ha Hnd].
  cbn [fold_left]. apply elem_of_cons in Hb as [->|Hb].
  - rewrite (insert_fold_out l _ _ Ha). unfold step.
    destruct (f a); [apply lookup_insert_eq|reflexivity].
  - rewrite (IH _ Hnd Hb). destruct (f b); [reflexivity|].
    unfold step. destruct (f a); [|reflexivity].
    apply lookup_insert_ne. intros E. apply Ha. rewrite E.
    apply list_elem_of_fmap. now exists b.
Qed.

End InsertFold.

(** *** Removing a step, node by node *)

Lemma removeBubble_fold (nodes acc : list FlowNode.t) (d : option string)
    (nodeId bubbleId : string) :
  fst (fold_left
         (fun '(acc, deletedColumn) n =>
            if (negb (bool_decide (FlowNode.id n = nodeId)) || negb (isGroup n))%bool
            then (acc ++ [n], deletedColumn)
            else
              let bubbles := FlowNode.bubblesOrEmpty n in
              let targetBubble :=
                List.find (fun b => bool_decide (BubbleData.id b = bubbleId)) bubbles in
              let deletedColumn' :=
                match targetBubble with
                | Some b => NodeData.supabaseColumn (BubbleData.data b)
                | None => deletedColumn
                end in
              (acc ++ [FlowNode.withBubbles n
                         (List.filter
                            (fun b => negb (bool_decide (BubbleData.id b = bubbleId)))
                            bubbles)],
               deletedColumn'))
         nodes (acc, d))
  = acc ++ List.map (dropNode nodeId bubbleId) nodes.
Proof.
  revert acc d. induction nodes as [|n nodes IH]; intros acc d.
  - simpl. now rewrite app_nil_r.
  - cbn [fold_left List.map].
    assert (E : dropNode nodeId bubbleId n
                = if (negb (bool_decide (FlowNode.id n = nodeId))
                      || negb (isGroup n))%bool then n
                  else FlowNode.withBubbles n
                         (List.filter
                            (fun b => negb (bool_decide (BubbleData.id b = bubbleId)))
                            (FlowNode.bubblesOrEmpty n))) by reflexivity.
    rewrite E.
    destruct (negb (bool_decide (FlowNode.id n = nodeId)) || negb (isGroup n))%bool;
      rewrite IH, <- app_assoc; reflexivity.
Qed.

Lemma removeBubble_fst (nodes : list FlowNode.t) (nodeId bubbleId : string) :
  fst (removeBubble nodes nodeId bubbleId) = List.map (dropNode nodeId bubbleId) nodes.
Proof. unfold removeBubble. now rewrite removeBubble_fold. Qed.

Lemma find_absent {A} (f : A -> bool) (l : list A) :
  (forall a, a ∈ l -> f a = false) -> List.find f l = None.
Proof.
  induction l as [|a l IH]; intros H; [reflexivity|]. simpl.
  rewrite (H a) by apply list_elem_of_here.
  apply IH. intros a' Ha'. apply H. now apply list_elem_of_further.
Qed.

Lemma find_snoc {A} (f : A -> bool) (l : list A) (a : A) :
  List.find f (l ++ [a])
  = match List.find f l with
    | Some x => Some x
    | None => if f a then Some a else None
    end.
Proof.
  induction l as [|x l IH]; simpl; [reflexivity|]. destruct (f x); [reflexivity|exact IH].
Qed.

Lemma find_id_absent (nodes : list FlowNode.t) (g : string) :
  g ∉ List.map FlowNode.id nodes ->
  List.find (fun n => bool_decide (FlowNode.id n = g)) nodes = None.
Proof.
  intros H. apply find_absent. intros a Ha. apply bool_decide_eq_false.
  intros E. apply H. rewrite <- E. apply list_elem_of_fmap. now exists a.
Qed.

(** The column [deleteBubble] captures is the column of the step it
    finds in the group. *)
Lemma removeBubble_snd (nodes : list FlowNode.t) (g x : string) (bx : BubbleData.t) :
  uniqueNodeIds nodes -> targetBubble nodes g x = Some bx ->
  snd (removeBubble nodes g x) = NodeData.supabaseColumn (BubbleData.data bx).
Proof.
  unfold uniqueNodeIds, targetBubble.
  induction nodes as [|n l IH] using rev_ind; intros Hnd Ht; [discriminate|].
  rewrite List.map_app in Hnd. apply NoDup_app in Hnd as (Hl & Hn & _).
  assert (Hfresh : FlowNode.id n ∉ List.map FlowNode.id l).
  { intros Hin. apply (Hn _ Hin). simpl. apply list_elem_of_here. }
  rewrite find_snoc in Ht. unfold removeBubble. rewrite fold_left_app.
  fold (removeBubble l g x). destruct (removeBubble l g x) as [acc d] eqn:Er.
  cbn [fold_left]. destruct (decide (FlowNode.id n = g)) as [Eg|Eg].
  - rewrite (find_id_absent l g) in Ht by (now rewrite <- Eg).
    rewrite (bool_decide_eq_true_2 _ Eg) in *. cbn [negb orb].
    destruct (isGroup n); [|discriminate]. cbn [negb snd].
    now rewrite Ht.
  - rewrite (bool_decide_eq_false_2 _ Eg) in *. cbn [negb orb snd].
    apply (IH Hl).
    destruct (List.find (fun n0 => bool_decide (FlowNode.id n0 = g)) l);
      [exact Ht|discriminate].
Qed.

(** *** Traversal of a flow whose nodes are transformed one by one *)

Section TraversalMap.

Variable F : FlowNode.t -> FlowNode.t.
Variable G : list (BubbleData.t * ColumnKind) -> list (BubbleData.t * ColumnKind).
Variable good : FlowNode.t -> Prop.

Hypothesis F_id : forall n, FlowNode.id (F n) = FlowNode.id n.
Hypothesis F_type : forall n, FlowNode.type (F n) = FlowNode.type n.
Hypothesis F_position : forall n, FlowNode.position (F n) = FlowNode.position n.
Hypothesis G_nil : G [] = [].
Hypothesis G_app : forall a b, G (a ++ b) = G a ++ G b.
Hypothesis F_slotted :
  forall n, good n -> FlowNode.type n = group ->
            slottedBubbles (F n) = G (slottedBubbles n).

Let entryF (e : string * FlowNode.t) : string * FlowNode.t := (fst e, F (snd e)).

Lemma omap_get_map (k : string) (m : list (string * FlowNode.t)) :
  OMap.get k (List.map entryF m) = option_map F (OMap.get k m).
Proof.
  induction m as [|[k' n'] m IH]; simpl; [reflexivity|].
  destruct (decide (k' = k)); [reflexivity|exact IH].
Qed.

Lemma omap_delete_map (k : string) (m : list (string * FlowNode.t)) :
  OMap.delete k (List.map entryF m) = List.map entryF (OMap.delete k m).
Proof.
  induction m as [|[k' n'] m IH]; simpl; [reflexivity|].
  destruct (decide (k' = k)); simpl; [reflexivity|now rewrite IH].
Qed.

Lemma omap_delete_Forall {V} (P : string * V -> Prop) (k : string)
    (m : list (string * V)) :
  Forall P m -> Forall P (OMap.delete k m).
Proof.
  induction 1 as [|[k' v] m Hx Hm IH]; simpl; [constructor|].
  destruct (decide (k' = k)); [exact Hm|now constructor].
Qed.

Lemma collectInOrder_map (order : list string) (m : list (string * FlowNode.t))
    (acc : list (BubbleData.t * ColumnKind)) :
  Forall (fun e => good (snd e)) m ->
  collectInOrder order (List.map entryF m) (G acc)
  = (G (fst (collectInOrder order m acc)),
     List.map entryF (snd (collectInOrder order m acc))).
Proof.
  revert m acc. induction order as [|gid order IH]; intros m acc Hm; simpl;
    [reflexivity|].
  rewrite omap_get_map. destruct (OMap.get gid m) as [node|] eqn:Eg; simpl;
    [|now apply IH].
  rewrite F_type.
  destruct (decide (FlowNode.type node = group)) as [Hg|Hg]; [|now apply IH].
  assert (Hgood : good node).
  { apply omap_get_elem in Eg. rewrite Forall_forall in Hm.
    apply (Hm _ Eg). }
  rewrite omap_delete_map, (F_slotted node Hgood Hg), <- G_app.
  apply IH. now apply omap_delete_Forall.
Qed.

Lemma collectRemaining_map (m : list (string * FlowNode.t)) :
  Forall (fun e => good (snd e)) m ->
  collectRemaining (List.map entryF m) = G (collectRemaining m).
Proof.
  unfold collectRemaining. induction 1 as [|[k n] m Hn Hm IH]; simpl;
    [now rewrite G_nil|].
  rewrite G_app, IH, F_type. f_equal.
  destruct (decide (FlowNode.type n = group)) as [Hg|Hg];
    [now apply F_slotted|now rewrite G_nil].
Qed.

Lemma allBubblesInOrder_map (nodes : list FlowNode.t) (order : list string) :
  uniqueNodeIds nodes -> Forall good nodes ->
  allBubblesInOrder (List.map F nodes) order = G (allBubblesInOrder nodes order).
Proof.
  intros Hnd Hgood. unfold allBubblesInOrder.
  assert (Hids : List.map FlowNode.id (List.map F nodes) = List.map FlowNode.id nodes).
  { rewrite List.map_map. apply List.map_ext. exact F_id. }
  rewrite (nodeMap_of_unique nodes []) by exact Hnd.
  rewrite (nodeMap_of_unique (List.map F nodes) []) by (simpl; now rewrite Hids).
  cbn [app].
  assert (Hm : List.map (fun n => (FlowNode.id n, n)) (List.map F nodes)
               = List.map entryF (List.map (fun n => (FlowNode.id n, n)) nodes)).
  { rewrite !List.map_map. apply List.map_ext. intros n. unfold entryF. simpl.
    now rewrite F_id. }
  rewrite Hm. set (m := List.map (fun n => (FlowNode.id n, n)) nodes).
  assert (Hgm : Forall (fun e => good (snd e)) m).
  { unfold m. apply Forall_fmap. exact Hgood. }
  pose proof (collectInOrder_map order m [] Hgm) as Hc. rewrite G_nil in Hc.
  rewrite Hc. destruct (collectInOrder order m []) as [acc rest] eqn:Ec.
  cbn [fst snd]. rewrite G_app. f_equal. apply collectRemaining_map.
  pose proof (f_equal snd Ec) as Er. simpl in Er. subst rest.
  clear Hc Ec. revert Hgm. generalize (@nil (BubbleData.t * ColumnKind)).
  generalize m. clear m Hm.
  induction order as [|gid order IH]; intros m acc0 Hgm; simpl; [exact Hgm|].
  destruct (OMap.get gid m) as [node|]; [|now apply IH].
  destruct (decide (FlowNode.type node = group)); [|now apply IH].
  apply IH. now apply omap_delete_Forall.
Qed.

Lemma calculateGroupOrder_map (nodes : list FlowNode.t) (edges : list FlowEdge.t) :
  calculateGroupOrder (List.map F nodes) edges = calculateGroupOrder nodes edges.
Proof.
  unfold calculateGroupOrder.
  assert (Hf : List.filter isGroup (List.map F nodes)
               = List.map F (List.filter isGroup nodes)).
  { induction nodes as [|n l IH]; simpl; [reflexivity|].
    unfold isGroup at 1. rewrite F_type. fold (isGroup n).
    destruct (isGroup n); simpl; now rewrite IH. }
  rewrite Hf.
  assert (Hids : List.map FlowNode.id (List.map F (List.filter isGroup nodes))
                 = List.map FlowNode.id (List.filter isGroup nodes)).
  { rewrite List.map_map. apply List.map_ext. exact F_id. }
  assert (Hpos : forall l (m : gmap string Position.t),
             fold_left (fun (m : gmap string Position.t) node =>
                          <[ FlowNode.id node := FlowNode.position node ]> m)
                       (List.map F l) m
             = fold_left (fun (m : gmap string Position.t) node =>
                            <[ FlowNode.id node := FlowNode.position node ]> m)
                         l m).
  { induction l as [|n l IH]; intros m; simpl; [reflexivity|].
    now rewrite F_id, F_position, IH. }
  rewrite Hids, Hpos.
  destruct (List.filter isGroup nodes); reflexivity.
Qed.

End TraversalMap.

(** *** Removing one step from a flow *)

Lemma dropNode_id (g x : string) (n : FlowNode.t) :
  FlowNode.id (dropNode g x n) = FlowNode.id n.
Proof. unfold dropNode. now destruct (_ || _)%bool. Qed.

Lemma dropNode_type (g x : string) (n : FlowNode.t) :
  FlowNode.type (dropNode g x n) = FlowNode.type n.
Proof. unfold dropNode. now destruct (_ || _)%bool. Qed.

Lemma dropNode_position (g x : string) (n : FlowNode.t) :
  FlowNode.position (dropNode g x n) = FlowNode.position n.
Proof. unfold dropNode. now destruct (_ || _)%bool. Qed.

Lemma filter_all {A} (p : A -> bool) (l : list A) :
  (forall a, a ∈ l -> p a = true) -> List.filter p l = l.
Proof.
  induction l as [|a l IH]; intros H; [reflexivity|]. simpl.
  rewrite (H a) by apply list_elem_of_here. f_equal.
  apply IH. intros a' Ha'. apply H. now apply list_elem_of_further.
Qed.

Lemma dropNode_bubbles (g x : string) (n : FlowNode.t) :
  onlyIn g x n -> FlowNode.type n = group ->
  FlowNode.bubblesOrEmpty (dropNode g x n)
  = List.filter (fun b => negb (bool_decide (BubbleData.id b = x)))
                (FlowNode.bubblesOrEmpty n).
Proof.
  intros Hgood Hg. unfold dropNode, isGroup. rewrite (bool_decide_eq_true_2 _ Hg).
  cbn [negb]. rewrite orb_false_r.
  destruct (decide (FlowNode.id n = g)) as [E|E].
  - rewrite (bool_decide_eq_true_2 _ E). reflexivity.
  - rewrite (bool_decide_eq_false_2 _ E). cbn [negb]. symmetry. apply filter_all.
    intros b Hb. apply negb_true_iff, bool_decide_eq_false.
    now apply (Hgood E Hg).
Qed.

Lemma slottedBubbles_filter (x : string) (bs : list BubbleData.t) :
  flat_map
    (fun bubble =>
       if isVisualOnlyBubble (BubbleData.type bubble) then []
       else [(bubble, getColumnKindForBubble (BubbleData.type bubble))])
    (List.filter (fun b => negb (bool_decide (BubbleData.id b = x))) bs)
  = List.filter (keepItem x)
      (flat_map
         (fun bubble =>
            if isVisualOnlyBubble (BubbleData.type bubble) then []
            else [(bubble, getColumnKindForBubble (BubbleData.type bubble))])
         bs).
Proof.
  induction bs as [|b bs IH]; [reflexivity|]. cbn [List.filter flat_map].
  rewrite List.filter_app, <- IH.
  assert (Ek : forall k, keepItem x (b, k) = negb (bool_decide (BubbleData.id b = x)))
    by reflexivity.
  destruct (isVisualOnlyBubble (BubbleData.type b)) eqn:Ev;
    destruct (negb (bool_decide (BubbleData.id b = x))) eqn:E;
    cbn [flat_map List.filter app]; rewrite ?Ev, ?Ek, ?E;
    cbn [flat_map List.filter app]; rewrite ?Ek, ?E; reflexivity.
Qed.

Lemma dropNode_slotted (g x : string) (n : FlowNode.t) :
  onlyIn g x n -> FlowNode.type n = group ->
  slottedBubbles (dropNode g x n) = List.filter (keepItem x) (slottedBubbles n).
Proof.
  intros Hgood Hg. unfold slottedBubbles.
  rewrite (dropNode_bubbles g x n Hgood Hg). apply slottedBubbles_filter.
Qed.

Lemma getAllBubbles_app (l1 l2 : list FlowNode.t) :
  getAllBubblesFromFlowNodes (l1 ++ l2)
  = getAllBubblesFromFlowNodes l1 ++ getAllBubblesFromFlowNodes l2.
Proof. unfold getAllBubblesFromFlowNodes. apply flat_map_app. Qed.

Lemma getAllBubbles_drop (g x : string) (nodes : list FlowNode.t) :
  Forall (onlyIn g x) nodes ->
  getAllBubblesFromFlowNodes (List.map (dropNode g x) nodes)
  = List.filter (fun b => negb (bool_decide (BubbleData.id b = x)))
                (getAllBubblesFromFlowNodes nodes).
Proof.
  unfold getAllBubblesFromFlowNodes.
  induction 1 as [|n nodes Hn _ IH]; [reflexivity|].
  cbn [List.map flat_map]. rewrite List.filter_app, IH, dropNode_type. f_equal.
  destruct (decide (FlowNode.type n = group)) as [Hg|Hg]; [|reflexivity].
  now apply dropNode_bubbles.
Qed.

(** Where the found step is. *)
Lemma targetBubble_spec (nodes : list FlowNode.t) (g x : string) (bx : BubbleData.t) :
  targetBubble nodes g x = Some bx ->
  exists ng, ng ∈ nodes /\ FlowNode.id ng = g /\ FlowNode.type ng = group
             /\ bx ∈ FlowNode.bubblesOrEmpty ng /\ BubbleData.id bx = x.
Proof.
  unfold targetBubble.
  destruct (List.find _ nodes) as [ng|] eqn:Ef; [|discriminate].
  apply List.find_some in Ef as [Hin Hid]. apply bool_decide_eq_true_1 in Hid.
  destruct (isGroup ng) eqn:Eg; [|discriminate]. intros Hb.
  apply List.find_some in Hb as [Hbin Hbid]. apply bool_decide_eq_true_1 in Hbid.
  apply bool_decide_eq_true_1 in Eg.
  exists ng. rewrite <- !list_elem_of_In in *. auto.
Qed.

Lemma unique_step_onlyIn (nodes : list FlowNode.t) (g x : string)
    (bx : BubbleData.t) :
  uniqueBubbleIds nodes -> targetBubble nodes g x = Some bx ->
  Forall (onlyIn g x) nodes.
Proof.
  intros Hnd Ht. apply targetBubble_spec in Ht as (ng & Hng & Hid & Hg & Hbx & Hx).
  apply list_elem_of_split in Hng as (l1 & l2 & ->).
  unfold uniqueBubbleIds in Hnd.
  rewrite getAllBubbles_app in Hnd.
  change (ng :: l2) with ([ng] ++ l2) in Hnd. rewrite getAllBubbles_app in Hnd.
  assert (E : getAllBubblesFromFlowNodes [ng] = FlowNode.bubblesOrEmpty ng).
  { unfold getAllBubblesFromFlowNodes. simpl.
    destruct (decide (FlowNode.type ng = group)); [apply app_nil_r|contradiction]. }
  rewrite E, !List.map_app in Hnd.
  apply NoDup_app in Hnd as (_ & H1 & Hnd). apply NoDup_app in Hnd as (_ & H2 & _).
  assert (Hxin : x ∈ List.map BubbleData.id (FlowNode.bubblesOrEmpty ng)).
  { rewrite <- Hx. now apply list_elem_of_fmap_2. }
  apply Forall_forall. intros n Hn Hne Hgn b Hb Hbx'.
  apply elem_of_app in Hn as [Hn|Hn].
  - apply (H1 x); [|apply elem_of_app; now left].
    rewrite <- Hbx'. apply list_elem_of_fmap_2.
    now apply (bubble_of_group l1 n b).
  - apply elem_of_cons in Hn as [->|Hn]; [now apply Hne|].
    apply (H2 x Hxin). rewrite <- Hbx'. apply list_elem_of_fmap_2.
    now apply (bubble_of_group l2 n b).
Qed.

Lemma traversal_after_removal (nodes : list FlowNode.t) (order : list string)
    (g x : string) :
  uniqueNodeIds nodes -> Forall (onlyIn g x) nodes ->
  allBubblesInOrder (List.map (dropNode g x) nodes) order
  = List.filter (keepItem x) (allBubblesInOrder nodes order).
Proof.
  intros Hn Hgood.
  apply (allBubblesInOrder_map (dropNode g x) (List.filter (keepItem x))
           (onlyIn g x)); auto using dropNode_id, dropNode_type.
  - intros a b. apply List.filter_app.
  - intros n. apply dropNode_slotted.
Qed.

Lemma canonicalOrder_after_removal (nodes : list FlowNode.t)
    (edges : list FlowEdge.t) (g x : string) :
  canonicalOrder (List.map (dropNode g x) nodes) edges = canonicalOrder nodes edges.
Proof.
  unfold canonicalOrder. f_equal.
  apply calculateGroupOrder_map; auto using dropNode_id, dropNode_type,
    dropNode_position.
Qed.

(** *** Counting again after the removal *)

(** In a flow the normalizer finds nothing to change in, every step
    stores the slot of its rank. *)
Lemma normalized_item (pre post : list (BubbleData.t * ColumnKind))
    (b : BubbleData.t) (k : ColumnKind) :
  NoDup (List.map itemId (pre ++ (b, k) :: post)) ->
  updates (assignAll (pre ++ (b, k) :: post)) = ∅ ->
  currentNormalized b = Some (buildColumn k (S (List.length (ofKind k pre)))).
Proof.
  intros Hnd Hu. pose proof (assignAll_at pre post b k Hnd) as H.
  rewrite Hu, lookup_empty in H. cbv zeta in H.
  destruct (decide (currentNormalized b
                    = Some (buildColumn k (S (List.length (ofKind k pre))))));
    [assumption|discriminate].
Qed.

Lemma keep_all (x : string) (items : list (BubbleData.t * ColumnKind)) :
  x ∉ List.map itemId items -> List.filter (keepItem x) items = items.
Proof.
  intros H. apply filter_all. intros it Hit. unfold keepItem.
  apply negb_true_iff, bool_decide_eq_false. intros E. apply H.
  rewrite <- E. now apply (list_elem_of_fmap_2 itemId).
Qed.

Lemma keep_split (px sx : list (BubbleData.t * ColumnKind))
    (bx : BubbleData.t) (kx : ColumnKind) :
  NoDup (List.map itemId (px ++ (bx, kx) :: sx)) ->
  List.filter (keepItem (BubbleData.id bx)) (px ++ (bx, kx) :: sx) = px ++ sx.
Proof.
  intros Hnd. rewrite List.map_app in Hnd. cbn [List.map] in Hnd.
  change (itemId (bx, kx)) with (BubbleData.id bx) in Hnd.
  apply NoDup_app in Hnd as (_ & Hp & Hs). apply NoDup_cons in Hs as [Hs _].
  rewrite List.filter_app. cbn [List.filter]. unfold keepItem at 2. cbn [fst].
  rewrite (bool_decide_eq_true_2 _ eq_refl). cbn [negb].
  rewrite (keep_all _ sx Hs). f_equal. apply keep_all.
  intros Hin. apply (Hp _ Hin). apply list_elem_of_here.
Qed.

Lemma ofKind_one (k kx : ColumnKind) (bx : BubbleData.t) :
  List.length (ofKind k [(bx, kx)]) = if decide (kx = k) then 1 else 0.
Proof.
  unfold ofKind. simpl. destruct (decide (kx = k)) as [E|E].
  - now rewrite (bool_decide_eq_true_2 _ E).
  - now rewrite (bool_decide_eq_false_2 _ E).
Qed.

(** After the removal of the step at rank [r] of kind [kx], the
    resequence writes on every other step what the shift writes. *)
Lemma resequence_after_removal (px sx : list (BubbleData.t * ColumnKind))
    (bx : BubbleData.t) (kx : ColumnKind) (y : BubbleData.t) (k : ColumnKind) :
  NoDup (List.map itemId (px ++ (bx, kx) :: sx)) ->
  updates (assignAll (px ++ (bx, kx) :: sx)) = ∅ ->
  (y, k) ∈ px ++ sx ->
  updates (assignAll (px ++ sx)) !! BubbleData.id y
  = shiftOf kx (S (List.length (ofKind kx px))) y.
Proof.
  intros Hnd Hu Hy.
  assert (Hnd' : NoDup (List.map itemId (px ++ sx))).
  { rewrite List.map_app in *. cbn [List.map] in Hnd.
    apply NoDup_app in Hnd as (H1 & H2 & H3). apply NoDup_cons in H3 as [_ H3].
    apply NoDup_app. repeat split; [exact H1| |exact H3].
    intros j Hj Hj'. apply (H2 j Hj). now apply list_elem_of_further. }
  apply elem_of_app in Hy as [Hy|Hy].
  - apply list_elem_of_split in Hy as (p1 & p2 & ->).
    rewrite <- !app_assoc in *. cbn [app] in *.
    rewrite (assignAll_at p1 (p2 ++ sx) y k Hnd'). cbv zeta.
    pose proof (normalized_item p1 (p2 ++ (bx, kx) :: sx) y k Hnd Hu) as Hc.
    rewrite Hc. destruct (decide _) as [_|Hne]; [|congruence].
    unfold shiftOf. rewrite (storedSlot_of_current _ _ _ Hc).
    destruct (decide (k = kx)) as [->|Hk].
    + pose proof (rank_bound kx p1 p2 y) as Hr.
      replace (Nat.ltb _ _) with false; [now rewrite andb_false_r|].
      symmetry. apply Nat.ltb_ge. lia.
    + now rewrite (bool_decide_eq_false_2 _ Hk).
  - apply list_elem_of_split in Hy as (s1 & s2 & ->).
    change (px ++ (bx, kx) :: s1 ++ (y, k) :: s2)
      with (px ++ ((bx, kx) :: s1) ++ (y, k) :: s2) in *.
    rewrite !app_assoc in *.
    rewrite (assignAll_at (px ++ s1) s2 y k Hnd'). cbv zeta.
    pose proof (normalized_item (px ++ (bx, kx) :: s1) s2 y k Hnd Hu) as Hc.
    unfold shiftOf. rewrite (storedSlot_of_current _ _ _ Hc), Hc.
    change ((bx, kx) :: s1) with ([(bx, kx)] ++ s1).
    rewrite !ofKind_app, !length_app, ofKind_one.
    destruct (decide (kx = k)) as [->|Hk].
    + rewrite (bool_decide_eq_true_2 _ eq_refl). cbn [andb].
      replace (Nat.ltb _ _) with true by (symmetry; apply Nat.ltb_lt; lia).
      destruct (decide _) as [E|_].
      * apply (inj Some) in E. apply buildColumn_inj in E as [_ E]. lia.
      * do 2 f_equal. lia.
    + rewrite (bool_decide_eq_false_2 (k = kx)) by congruence. cbn [andb].
      destruct (decide _) as [_|Hne]; [reflexivity|].
      exfalso. apply Hne. do 2 f_equal; lia.
Qed.

Lemma item_ids_are_step_ids (nodes : list FlowNode.t) (order : list string)
    (j : string) :
  uniqueNodeIds nodes ->
  j ∈ List.map itemId (allBubblesInOrder nodes order) ->
  j ∈ List.map BubbleData.id (getAllBubblesFromFlowNodes nodes).
Proof.
  intros Hn Hj. apply list_elem_of_fmap in Hj as (it & -> & Hit).
  apply (list_elem_of_fmap_2 fst) in Hit.
  rewrite (allBubblesInOrder_perm nodes order Hn) in Hit.
  apply slottedSteps_elem in Hit as [Hit _].
  now apply (list_elem_of_fmap_2 BubbleData.id).
Qed.

Lemma uniqueNodeIds_drop (nodes : list FlowNode.t) (g x : string) :
  uniqueNodeIds nodes -> uniqueNodeIds (List.map (dropNode g x) nodes).
Proof.
  unfold uniqueNodeIds. intros H.
  replace (List.map FlowNode.id (List.map (dropNode g x) nodes))
    with (List.map FlowNode.id nodes); [exact H|].
  rewrite List.map_map. apply List.map_ext. intros n. now rewrite dropNode_id.
Qed.

Lemma normalized_updates (nodes : list FlowNode.t) (order : list string) :
  normalizeColumnsWithGroupOrder nodes order = None ->
  updates (assignAll (allBubblesInOrder nodes order)) = ∅.
Proof.
  unfold normalizeColumnsWithGroupOrder. intros H. apply size_zero_empty.
  destruct (Nat.ltb 0 (size _)); [discriminate|reflexivity].
Qed.

(** The shift and the resequence write the same columns once the step
    at [(kx, r)] is gone. *)
Lemma shift_map_is_resequence_map (nodes : list FlowNode.t) (order : list string)
    (g : string) (bx : BubbleData.t) (kx : ColumnKind)
    (px sx : list (BubbleData.t * ColumnKind)) :
  uniqueNodeIds nodes -> uniqueBubbleIds nodes -> notesStoreNoSlot nodes ->
  Forall (onlyIn g (BubbleData.id bx)) nodes ->
  allBubblesInOrder nodes order = px ++ (bx, kx) :: sx ->
  updates (assignAll (px ++ (bx, kx) :: sx)) = ∅ ->
  fold_left
    (fun (updates : gmap string string) bubble =>
       match shiftOf kx (S (List.length (ofKind kx px))) bubble with
       | Some c => <[ BubbleData.id bubble := c ]> updates
       | None => updates
       end)
    (getAllBubblesFromFlowNodes (List.map (dropNode g (BubbleData.id bx)) nodes)) ∅
  = updates (assignAll (px ++ sx)).
Proof.
  intros Hn Hb Hnotes Hgood Hitems Hu.
  pose proof (items_unique nodes order Hn Hb) as Hnd. rewrite Hitems in Hnd.
  pose proof (traversal_after_removal nodes order g _ Hn Hgood) as Htr.
  rewrite Hitems, (keep_split px sx bx kx Hnd) in Htr.
  assert (Hsub : forall j, j ∈ List.map itemId (px ++ sx) ->
                           j ∈ List.map itemId (allBubblesInOrder nodes order)).
  { intros j Hj. rewrite Hitems. rewrite List.map_app in *. cbn [List.map].
    apply elem_of_app in Hj as [Hj|Hj]; apply elem_of_app; [now left|right].
    now apply list_elem_of_further. }
  apply map_eq. intros j.
  destruct (decide (j ∈ List.map BubbleData.id
                      (getAllBubblesFromFlowNodes
                         (List.map (dropNode g (BubbleData.id bx)) nodes))))
    as [Hj|Hj].
  - apply list_elem_of_fmap in Hj as (y & -> & Hy).
    rewrite insert_fold_in, lookup_empty;
      [|rewrite (getAllBubbles_drop _ _ _ Hgood); now apply NoDup_map_filter
       |exact Hy].
    rewrite (getAllBubbles_drop _ _ _ Hgood) in Hy.
    apply list_elem_of_In, List.filter_In in Hy as [Hy Hyx].
    apply list_elem_of_In in Hy.
    apply negb_true_iff, bool_decide_eq_false in Hyx.
    destruct (isVisualOnlyBubble (BubbleData.type y)) eqn:Ev.
    + unfold shiftOf. rewrite (Hnotes y Hy Ev).
      symmetry. apply assignAll_other. intros Hin.
      apply (note_not_listed nodes order y Hn Hb Hy Ev). now apply Hsub.
    + pose proof (slottedItems_elem nodes y Hy Ev) as Hit.
      rewrite <- (allBubblesInOrder_items nodes order Hn), Hitems in Hit.
      assert (Hit' : (y, getColumnKindForBubble (BubbleData.type y)) ∈ px ++ sx).
      { apply elem_of_app in Hit as [Hit|Hit]; apply elem_of_app; [now left|].
        apply elem_of_cons in Hit as [E|Hit]; [|now right].
        exfalso. apply Hyx. congruence. }
      rewrite (resequence_after_removal px sx bx kx y _ Hnd Hu Hit').
      now destruct (shiftOf _ _ y).
  - rewrite insert_fold_out, lookup_empty by exact Hj.
    symmetry. apply assignAll_other. intros Hin. apply Hj.
    rewrite <- Htr in Hin.
    apply (item_ids_are_step_ids _ order); [|exact Hin].
    now apply uniqueNodeIds_drop.
Qed.

(** In a flow with distinct node ids and distinct step ids that the
    normalizer finds nothing to change in, and in which no annotation
    step stores a column that reads as a slot, deleting a step of a
    group with the shift gives the flow that the full resequence of the
    flow without the step gives. *)
Theorem shift_agrees_with_resequence (nodes : list FlowNode.t)
    (edges : list FlowEdge.t) (g x : string) (bx : BubbleData.t) :
  uniqueNodeIds nodes -> uniqueBubbleIds nodes -> notesStoreNoSlot nodes ->
  normalizeColumnsWithGroupOrder nodes (canonicalOrder nodes edges) = None ->
  targetBubble nodes g x = Some bx ->
  deleteBubble nodes g x
  = applyNormalizationToNodes (fst (removeBubble nodes g x)) edges.
Proof.
  intros Hn Hb Hnotes Hnorm Ht.
  pose proof (normalized_updates _ _ Hnorm) as Hu.
  pose proof (unique_step_onlyIn nodes g x bx Hb Ht) as Hgood.
  pose proof (removeBubble_snd nodes g x bx Hn Ht) as Hd.
  pose proof (removeBubble_fst nodes g x) as Hf.
  destruct (targetBubble_spec nodes g x bx Ht) as (ng & Hng & _ & Hg & Hbx & Hx).
  pose proof (bubble_of_group nodes ng bx Hng Hg Hbx) as Hall.
  unfold deleteBubble. destruct (removeBubble nodes g x) as [nodes' d].
  cbn [fst snd] in *. subst nodes' d x.
  rewrite applyNormalization_unfold, canonicalOrder_after_removal. cbv zeta.
  rewrite (traversal_after_removal nodes _ g _ Hn Hgood).
  set (order := canonicalOrder nodes edges) in *.
  destruct (isVisualOnlyBubble (BubbleData.type bx)) eqn:Ev.
  - rewrite keep_all by (now apply note_not_listed).
    rewrite Hu, map_size_empty. cbn [Nat.ltb Nat.leb].
    pose proof (Hnotes bx Hall Ev) as Hs. unfold storedSlot in Hs.
    destruct (Js.truthy _) as [c|]; [|reflexivity].
    unfold reorganizeColumnsAfterDeletion. now rewrite Hs.
  - pose proof (slottedItems_elem nodes bx Hall Ev) as Hit.
    rewrite <- (allBubblesInOrder_items nodes order Hn) in Hit.
    apply list_elem_of_split in Hit as (px & sx & Hitems).
    set (kx := getColumnKindForBubble (BubbleData.type bx)) in *.
    pose proof (items_unique nodes order Hn Hb) as Hnd.
    rewrite Hitems in Hnd, Hu |- *.
    pose proof (normalized_item px sx bx kx Hnd Hu) as Hc.
    apply storedSlot_of_current in Hc. unfold storedSlot in Hc.
    rewrite (keep_split px sx bx kx Hnd).
    destruct (Js.truthy _) as [c|]; [|discriminate].
    unfold reorganizeColumnsAfterDeletion. rewrite Hc, shift_fold.
    rewrite (shift_map_is_resequence_map nodes order g bx kx px sx
               Hn Hb Hnotes Hgood Hitems Hu).
    now destruct (Nat.ltb 0 (size _)).
Qed.

Lemma sequenced_notes : notesStoreNoSlot sequenced.
Proof.
  intros b Hin Ev. vm_compute in Hin.
  repeat (apply elem_of_cons in Hin as [->|Hin]); try discriminate Ev.
  now apply elem_of_nil in Hin.
Qed.

Lemma shift_agrees_with_resequence_witness :
  uniqueNodeIds sequenced /\ uniqueBubbleIds sequenced /\ notesStoreNoSlot sequenced
  /\ normalizeColumnsWithGroupOrder sequenced (canonicalOrder sequenced []) = None
  /\ targetBubble sequenced "g" "a" = Some (messageStep "a" (Some "M1"%string) "oi")
  /\ deleteBubble sequenced "g" "a"
     = applyNormalizationToNodes (fst (removeBubble sequenced "g" "a")) [].
Proof.
  assert (Hn : uniqueNodeIds sequenced)
    by (apply (bool_decide_eq_true_1 (NoDup _)); vm_compute; reflexivity).
  assert (Hb : uniqueBubbleIds sequenced)
    by (apply (bool_decide_eq_true_1 (NoDup _)); vm_compute; reflexivity).
  assert (Hz : normalizeColumnsWithGroupOrder sequenced (canonicalOrder sequenced [])
               = None) by (vm_compute; reflexivity).
  assert (Ht : targetBubble sequenced "g" "a"
               = Some (messageStep "a" (Some "M1"%string) "oi"))
    by (vm_compute; reflexivity).
  split; [exact Hn|]. split; [exact Hb|]. split; [exact sequenced_notes|].
  split; [exact Hz|]. split; [exact Ht|].
  exact (shift_agrees_with_resequence sequenced [] "g" "a"
           (messageStep "a" (Some "M1"%string) "oi") Hn Hb sequenced_notes Hz Ht).
Defined.

(* ================================================================== *)
(** * Part III — further properties of the code                        *)
(* ================================================================== *)

(** ** Sorting by canvas position *)

Lemma insertBy_perm {A} (cmp : A -> A -> Q) (x : A) (l : list A) :
  insertBy cmp x l ≡ₚ x :: l.
Proof.
  induction l as [|y l IH]; simpl; [reflexivity|].
  destruct (Qle_bool (cmp x y) 0); [reflexivity|].
  rewrite IH. apply Permutation_swap.
Qed.

Lemma sortBy_perm {A} (cmp : A -> A -> Q) (l : list A) : sortBy cmp l ≡ₚ l.
Proof.
  unfold sortBy. induction l as [|x l IH]; simpl; [reflexivity|].
  now rewrite insertBy_perm, IH.
Qed.

Section SortedBy.

Context {A : Type}.
Variable cmp : A -> A -> Q.
Variable le : A -> A -> Prop.

Hypothesis le_cmp : forall a b, Qle_bool (cmp a b) 0 = true -> le a b.
Hypothesis le_total : forall a b, Qle_bool (cmp a b) 0 = false -> le b a.
Hypothesis le_trans : forall a b c, le a b -> le b c -> le a c.

Lemma insertBy_sorted (x : A) (l : list A) :
  StronglySorted le l -> StronglySorted le (insertBy cmp x l).
Proof.
  induction 1 as [|y l Hl IH Hy]; simpl; [repeat constructor|].
  destruct (Qle_bool (cmp x y) 0) eqn:E.
  - constructor; [now constructor|]. constructor; [now apply le_cmp|].
    apply List.Forall_forall. intros z Hz. rewrite List.Forall_forall in Hy.
    apply (le_trans x y z); [now apply le_cmp|now apply Hy].
  - constructor; [exact IH|].
    apply List.Forall_forall. intros z Hz.
    apply list_elem_of_In in Hz. rewrite insertBy_perm in Hz.
    apply elem_of_cons in Hz as [->|Hz]; [now apply le_total|].
    rewrite List.Forall_forall in Hy. apply Hy. now apply list_elem_of_In.
Qed.

Lemma sortBy_sorted (l : list A) : StronglySorted le (sortBy cmp l).
Proof.
  unfold sortBy. induction l as [|x l IH]; simpl; [constructor|].
  now apply insertBy_sorted.
Qed.

End SortedBy.

Lemma positionLe_trans (p q r : Position.t) :
  positionLe p q -> positionLe q r -> positionLe p r.
Proof.
  unfold positionLe. intros [H1|[H1 H1']] [H2|[H2 H2']].
  - left. lra.
  - left. lra.
  - left. lra.
  - right. split; lra.
Qed.

Lemma comparePosition_le (pos : gmap string Position.t) (a b : string) :
  Qle_bool (comparePosition pos a b) 0 = true ->
  positionLe (positionOr pos a) (positionOr pos b).
Proof.
  unfold comparePosition, positionLe.
  destruct (Qeq_bool _ _) eqn:E; cbn [negb]; intros H; apply Qle_bool_iff in H.
  - apply Qeq_bool_iff in E. right. split; [exact E|lra].
  - apply Qeq_bool_neq in E. left. lra.
Qed.

Lemma comparePosition_total (pos : gmap string Position.t) (a b : string) :
  Qle_bool (comparePosition pos a b) 0 = false ->
  positionLe (positionOr pos b) (positionOr pos a).
Proof.
  unfold comparePosition, positionLe. intros H.
  assert (H' : ~ (match negb (Qeq_bool (Position.x (positionOr pos a))
                                      (Position.x (positionOr pos b))) with
                  | true => Position.x (positionOr pos a) - Position.x (positionOr pos b)
                  | false => Position.y (positionOr pos a) - Position.y (positionOr pos b)
                  end <= 0)%Q).
  { intros Hle. apply Qle_bool_iff in Hle. congruence. }
  clear H. destruct (Qeq_bool _ _) eqn:E; cbn [negb] in H'.
  - apply Qeq_bool_iff in E. right. split; lra.
  - apply Qeq_bool_neq in E. left. lra.
Qed.

Lemma sortByPosition_sorted (pos : gmap string Position.t) (ids : list string) :
  StronglySorted (fun a b => positionLe (positionOr pos a) (positionOr pos b))
                 (sortBy (comparePosition pos) ids).
Proof.
  apply sortBy_sorted.
  - apply comparePosition_le.
  - apply comparePosition_total.
  - intros a b c. apply positionLe_trans.
Qed.

(** ** The group order lists every group once *)

Lemma setOfList_spec (ids seen : list string) :
  NoDup seen ->
  NoDup (OMap.setOfList ids seen)
  /\ forall x, x ∈ OMap.setOfList ids seen <-> x ∈ seen \/ x ∈ ids.
Proof.
  revert seen. induction ids as [|i ids IH]; intros seen Hnd; simpl.
  - split; [exact Hnd|]. intros x. split; [now left|].
    intros [H|H]; [exact H|now apply elem_of_nil in H].
  - destruct (decide (i ∈ seen)) as [Hi|Hi].
    + destruct (IH seen Hnd) as [H1 H2]. split; [exact H1|].
      intros x. rewrite H2, elem_of_cons. split; [tauto|].
      intros [H|[->|H]]; tauto.
    + assert (Hnd' : NoDup (seen ++ [i])).
      { apply NoDup_app. repeat split; [exact Hnd| |apply NoDup_singleton].
        intros x Hx Hx'. apply list_elem_of_singleton in Hx'. now subst. }
      destruct (IH _ Hnd') as [H1 H2]. split; [exact H1|].
      intros x. rewrite H2, elem_of_app, list_elem_of_singleton, elem_of_cons. tauto.
Qed.

Lemma enqueueTargets_covers (groupIds targets queue : list string)
    (visited : gset string) (result : list string) :
  coversVisited queue visited result ->
  coversVisited (fst (enqueueTargets groupIds targets queue visited))
                (snd (enqueueTargets groupIds targets queue visited)) result.
Proof.
  unfold enqueueTargets. revert queue visited.
  induction targets as [|t targets IH]; intros queue visited Hc; [exact Hc|].
  cbn [fold_left].
  destruct (bool_decide (t ∈ groupIds) && negb (bool_decide (t ∈ visited)))%bool;
    [|now apply IH].
  apply IH. intros x Hx. rewrite app_assoc. apply elem_of_app.
  apply elem_of_union in Hx as [Hx|Hx].
  - right. apply elem_of_singleton in Hx. subst. apply list_elem_of_here.
  - left. now apply Hc.
Qed.

Lemma processQueue_invariants (fuel : nat) (adj : gmap string (list string))
    (groupIds : list string) (pos : gmap string Position.t)
    (queue : list string) (visited : gset string) (result : list string) :
  queueInvariant groupIds queue visited result ->
  coversVisited queue visited result ->
  let final := processQueue fuel adj groupIds pos queue visited result in
  queueInvariant groupIds (fst (fst final)) (snd (fst final)) (snd final)
  /\ coversVisited (fst (fst final)) (snd (fst final)) (snd final).
Proof.
  revert queue visited result.
  induction fuel as [|fuel IH]; intros queue visited result Hinv Hc; [now split|].
  destruct queue as [|current queue]; [now split|].
  cbn [processQueue].
  set (targets := sortByPosition pos
                    match adj !! current with Some ts => ts | None => [] end).
  assert (Hinv' : queueInvariant groupIds queue visited (result ++ [current])).
  { destruct Hinv as [Hnd Hin]. split.
    - now rewrite <- app_assoc.
    - intros x Hx. apply Hin. now rewrite <- app_assoc in Hx. }
  assert (Hc' : coversVisited queue visited (result ++ [current])).
  { intros x Hx. rewrite <- app_assoc. now apply Hc. }
  pose proof (enqueueTargets_invariant groupIds targets queue visited _ Hinv') as He.
  pose proof (enqueueTargets_covers groupIds targets queue visited _ Hc') as Hce.
  destruct (enqueueTargets groupIds targets queue visited) as [q v].
  now apply IH.
Qed.

(** The traversal returns the groups, each once. *)
Lemma topologicalSort_perm (startNodeId : string) (groupIds : list string)
    (edges : list FlowEdge.t) (pos : gmap string Position.t) :
  NoDup groupIds ->
  topologicalSortFromStart startNodeId groupIds edges pos ≡ₚ groupIds.
Proof.
  intros Hnd. unfold topologicalSortFromStart.
  set (adj := buildAdjacencyMap edges).
  set (fromStart := match adj !! startNodeId with Some ts => ts | None => [] end).
  assert (H0 : queueInvariant groupIds [] ∅ []).
  { split; [constructor|]. intros x Hx. inversion Hx. }
  assert (C0 : coversVisited [] ∅ []).
  { intros x Hx. now apply not_elem_of_empty in Hx. }
  pose proof (enqueueTargets_invariant groupIds (sortByPosition pos fromStart)
                [] ∅ [] H0) as H1.
  pose proof (enqueueTargets_covers groupIds (sortByPosition pos fromStart)
                [] ∅ [] C0) as C1.
  destruct (enqueueTargets groupIds (sortByPosition pos fromStart) [] ∅)
    as [queue visited] eqn:Eq.
  cbn [fst snd] in H1, C1.
  pose proof (processQueue_invariants (List.length groupIds) adj groupIds pos
                queue visited [] H1 C1) as [H2 C2].
  pose proof (processQueue_fuel (List.length groupIds) adj groupIds pos
                queue visited [] H1 ltac:(simpl; lia)) as Hq.
  destruct (processQueue (List.length groupIds) adj groupIds pos queue visited [])
    as [[q' visited'] result].
  cbn [fst snd] in *. subst q'. unfold coversVisited in C2. rewrite ?app_nil_r in *.
  destruct H2 as [Hr Hin0]. rewrite app_nil_r in Hr.
  assert (Hin : forall x, x ∈ result -> x ∈ groupIds /\ x ∈ visited')
    by (intros x Hx; apply Hin0; now rewrite app_nil_r).
  unfold sortByPosition. rewrite sortBy_perm.
  apply NoDup_Permutation; [|exact Hnd|].
  - apply NoDup_app. repeat split; [exact Hr| |].
    + intros x Hx Hx'. apply list_elem_of_In, List.filter_In in Hx' as [_ Hx'].
      apply negb_true_iff, bool_decide_eq_false in Hx'. apply Hx'. now apply Hin.
    + apply NoDup_ListNoDup, List.NoDup_filter, NoDup_ListNoDup, Hnd.
  - intros x. rewrite elem_of_app. split.
    + intros [Hx|Hx]; [now apply Hin|].
      now apply list_elem_of_In, List.filter_In in Hx as [Hx%list_elem_of_In _].
    + intros Hx. destruct (decide (x ∈ visited')) as [Hv|Hv].
      * left. now apply C2.
      * right. apply list_elem_of_In, List.filter_In. split.
        -- now apply list_elem_of_In.
        -- now apply negb_true_iff, bool_decide_eq_false.
Qed.

Lemma tagFrom_spec (start : nat) (ids : list string) :
  List.map groupId (tagFrom start ids) = ids
  /\ List.map orderIndex (tagFrom start ids) = seq start (List.length ids)
  /\ List.map orderTag (tagFrom start ids)
     = List.map (fun i => String "G" (Js.natToString (i + 1)))
                (seq start (List.length ids)).
Proof.
  unfold tagFrom. revert start.
  induction ids as [|i ids IH]; intros start; [now repeat split|].
  cbn [List.length seq combine List.map].
  destruct (IH (S start)) as (H1 & H2 & H3).
  cbn [groupId orderIndex orderTag]. now rewrite H1, H2, H3.
Qed.

Lemma groupIds_elem (nodes : list FlowNode.t) (g : string) :
  g ∈ groupIdsOf nodes
  <-> exists n, n ∈ nodes /\ FlowNode.type n = group /\ FlowNode.id n = g.
Proof.
  unfold groupIdsOf. rewrite list_elem_of_fmap. split.
  - intros (n & -> & Hn). apply list_elem_of_In, List.filter_In in Hn as [Hn Hg].
    exists n. repeat split; [now apply list_elem_of_In|].
    now apply bool_decide_eq_true_1 in Hg.
  - intros (n & Hn & Hg & <-). exists n. split; [reflexivity|].
    apply list_elem_of_In, List.filter_In. split; [now apply list_elem_of_In|].
    now apply bool_decide_eq_true_2.
Qed.

(** What [calculateGroupOrder] hands out, whichever branch it takes. *)
Lemma calculateGroupOrder_ids (nodes : list FlowNode.t) (edges : list FlowEdge.t) :
  List.map groupId (calculateGroupOrder nodes edges)
  ≡ₚ OMap.setOfList (groupIdsOf nodes) [].
Proof.
  unfold calculateGroupOrder, groupIdsOf.
  destruct (List.filter isGroup nodes) as [|n0 gs] eqn:Eg; [reflexivity|].
  set (ids := OMap.setOfList (List.map FlowNode.id (n0 :: gs)) []).
  destruct (setOfList_spec (List.map FlowNode.id (n0 :: gs)) [] (NoDup_nil_2))
    as [Hnd _]. fold ids in Hnd.
  destruct (_ || _)%bool.
  - destruct (tagFrom_spec 0 (topologicalSortFromStart "start-node" ids edges
       (fold_left (fun (m : gmap string Position.t) node =>
                     <[ FlowNode.id node := FlowNode.position node ]> m)
                  (n0 :: gs) ∅))) as [-> _].
    now apply topologicalSort_perm.
  - destruct (tagFrom_spec 0 (sortByCanvasPosition ids
       (fold_left (fun (m : gmap string Position.t) node =>
                     <[ FlowNode.id node := FlowNode.position node ]> m)
                  (n0 :: gs) ∅))) as [-> _].
    apply sortBy_perm.
Qed.

(** X1 — Every group of the flow is given exactly one place in the
    order: the ids listed by [calculateGroupOrder] are distinct and are
    exactly the ids of the group nodes; the places are numbered 0, 1, ...
    and tagged G1, G2, ... in that order. *)
Theorem group_order_lists_each_group_once (nodes : list FlowNode.t)
    (edges : list FlowEdge.t) :
  let order := calculateGroupOrder nodes edges in
  NoDup (List.map groupId order)
  /\ (forall g, g ∈ List.map groupId order
                <-> exists n, n ∈ nodes /\ FlowNode.type n = group
                              /\ FlowNode.id n = g)
  /\ List.map orderIndex order = seq 0 (List.length order)
  /\ List.map orderTag order
     = List.map (fun i => String "G" (Js.natToString (i + 1)))
                (seq 0 (List.length order)).
Proof.
  intros order. pose proof (calculateGroupOrder_ids nodes edges) as Hp.
  fold order in Hp.
  destruct (setOfList_spec (groupIdsOf nodes) [] (NoDup_nil_2)) as [Hnd Hel].
  split; [now rewrite Hp|]. split.
  - intros g. rewrite Hp, Hel, <- groupIds_elem. split; [|now right].
    intros [H|H]; [now apply elem_of_nil in H|exact H].
  - unfold order, calculateGroupOrder.
    destruct (List.filter isGroup nodes) as [|n0 gs]; [now split|].
    destruct (_ || _)%bool;
      match goal with |- context [tagFrom 0 ?l] =>
        destruct (tagFrom_spec 0 l) as (H1 & H2 & H3);
        assert (Hlen : List.length (tagFrom 0 l) = List.length l)
          by (rewrite <- H1 at 2; now rewrite List.length_map);
        rewrite Hlen; now split
      end.
Qed.

(** ** Without ordering edges the order is by position *)

Lemma find_filter {A} (p q : A -> bool) (l : list A) :
  List.find (fun a => (p a && q a)%bool) l = List.find q (List.filter p l).
Proof.
  induction l as [|a l IH]; simpl; [reflexivity|].
  destruct (p a); simpl; [|exact IH]. now destruct (q a).
Qed.

Lemma positions_lookup (gs : list FlowNode.t) (m : gmap string Position.t)
    (a : string) :
  NoDup (List.map FlowNode.id gs) ->
  fold_left (fun (m : gmap string Position.t) node =>
               <[ FlowNode.id node := FlowNode.position node ]> m) gs m !! a
  = match List.find (fun n => bool_decide (FlowNode.id n = a)) gs with
    | Some n => Some (FlowNode.position n)
    | None => m !! a
    end.
Proof.
  revert m. induction gs as [|n gs IH]; intros m Hnd; [reflexivity|].
  cbn [List.map] in Hnd. apply NoDup_cons in Hnd as [Hn Hnd].
  cbn [fold_left List.find]. rewrite (IH _ Hnd).
  destruct (decide (FlowNode.id n = a)) as [E|E].
  - rewrite (bool_decide_eq_true_2 _ E), find_id_absent by (now rewrite <- E).
    rewrite E. apply lookup_insert_eq.
  - rewrite (bool_decide_eq_false_2 _ E).
    destruct (List.find _ gs); [reflexivity|]. now apply lookup_insert_ne.
Qed.

Lemma uniqueGroupIds (nodes : list FlowNode.t) :
  uniqueNodeIds nodes -> NoDup (groupIdsOf nodes).
Proof. intros H. now apply NoDup_map_filter. Qed.

Lemma positionOr_groupPosition (nodes : list FlowNode.t) (a : string) :
  uniqueNodeIds nodes ->
  positionOr
    (fold_left (fun (m : gmap string Position.t) node =>
                  <[ FlowNode.id node := FlowNode.position node ]> m)
               (List.filter isGroup nodes) ∅) a
  = groupPosition nodes a.
Proof.
  intros Hn. unfold positionOr, groupPosition.
  rewrite (positions_lookup _ _ _ (uniqueGroupIds nodes Hn)), find_filter.
  now destruct (List.find _ _).
Qed.

Lemma filter_none_of {A} (p : A -> bool) (l : list A) :
  (forall a, a ∈ l -> p a = false) -> List.filter p l = [].
Proof.
  induction l as [|a l IH]; intros H; [reflexivity|]. simpl.
  rewrite (H a) by apply list_elem_of_here.
  apply IH. intros a' Ha'. apply H. now apply list_elem_of_further.
Qed.

Lemma StronglySorted_ext {A} (R R' : A -> A -> Prop) (l : list A) :
  (forall a b, R a b -> R' a b) -> StronglySorted R l -> StronglySorted R' l.
Proof.
  intros H. induction 1 as [|a l Hl IH Ha]; constructor; [exact IH|].
  eapply List.Forall_impl; [|exact Ha]. intros b. apply H.
Qed.

(** X2 — In a flow with distinct node ids in which no edge runs from a
    group or from the start node to a group, the groups are ordered by
    canvas position: by x, and by y where x is equal. *)
Theorem order_without_edges_is_by_position (nodes : list FlowNode.t)
    (edges : list FlowEdge.t) :
  uniqueNodeIds nodes -> noOrderingEdges nodes edges ->
  StronglySorted
    (fun a b => positionLe (groupPosition nodes a) (groupPosition nodes b))
    (canonicalOrder nodes edges).
Proof.
  intros Hn He. unfold canonicalOrder, calculateGroupOrder.
  fold (groupIdsOf nodes).
  destruct (List.filter isGroup nodes) as [|n0 gs] eqn:Eg; [constructor|].
  rewrite <- Eg.
  destruct (setOfList_spec (groupIdsOf nodes) [] NoDup_nil_2) as [_ Hel].
  assert (Hin : forall x, x ∈ OMap.setOfList (groupIdsOf nodes) []
                          -> x ∈ groupIdsOf nodes).
  { intros x Hx. apply Hel in Hx as [Hx|Hx]; [now apply elem_of_nil in Hx|exact Hx]. }
  rewrite (filter_none_of _ edges), (filter_none_of _ edges).
  - cbn [List.length Nat.ltb Nat.leb orb].
    destruct (tagFrom_spec 0 (sortByCanvasPosition
                (OMap.setOfList (groupIdsOf nodes) [])
                (fold_left (fun (m : gmap string Position.t) node =>
                              <[ FlowNode.id node := FlowNode.position node ]> m)
                           (List.filter isGroup nodes) ∅))) as [-> _].
    eapply StronglySorted_ext; [|apply sortByPosition_sorted].
    intros a b. cbv beta. now rewrite !(positionOr_groupPosition nodes _ Hn).
  - intros e Hein. apply andb_false_iff.
    destruct (bool_decide (FlowEdge.target e ∈ _)) eqn:Et; [|now right].
    left. apply bool_decide_eq_false. intros Es.
    apply bool_decide_eq_true_1, Hin in Et. now destruct (He e Hein Et).
  - intros e Hein. apply andb_false_iff.
    destruct (bool_decide (FlowEdge.target e ∈ _)) eqn:Et; [|now right].
    left. apply bool_decide_eq_false. intros Es.
    apply bool_decide_eq_true_1, Hin in Et. destruct (He e Hein Et) as [Hs _].
    apply Hs. now apply Hin.
Qed.

Lemma order_without_edges_is_by_position_witness :
  uniqueNodeIds threeGroups /\ noOrderingEdges threeGroups []
  /\ StronglySorted
       (fun a b => positionLe (groupPosition threeGroups a)
                              (groupPosition threeGroups b))
       (canonicalOrder threeGroups []).
Proof.
  assert (Hn : uniqueNodeIds threeGroups)
    by (apply (bool_decide_eq_true_1 (NoDup _)); vm_compute; reflexivity).
  assert (He : noOrderingEdges threeGroups [])
    by (intros e H; now apply elem_of_nil in H).
  split; [exact Hn|]. split; [exact He|].
  exact (order_without_edges_is_by_position threeGroups [] Hn He).
Defined.

(** ** Slot names *)

Lemma parseColumn_range (c : string) (k : ColumnKind) (i : nat) :
  parseColumn c = Some (k, i) -> 1 <= i <= COLUMN_LIMIT.
Proof.
  unfold parseColumn.
  destruct (Js.toUpperCase (Js.trim c)) as [|a ds]; [discriminate|].
  destruct (if Ascii.eqb a "M" then Some M
            else if Ascii.eqb a "T" then Some T else None) as [k'|];
    [|discriminate].
  destruct (Js.allDigits ds && _)%bool; [|discriminate].
  destruct (Nat.ltb (Js.digitsValue ds) 1 || Nat.ltb COLUMN_LIMIT (Js.digitsValue ds))%bool
    eqn:E; [discriminate|].
  intros [= _ <-]. apply orb_false_iff in E as [E1 E2].
  apply Nat.ltb_ge in E1, E2. lia.
Qed.

(** X3 — Slot names round-trip: the name built for kind [k] and index
    [i] parses back to [(k, i)] when 1 <= i <= 50, and is refused (index 0,
    index above 50) otherwise. *)
Theorem slot_name_round_trip (k : ColumnKind) (i : nat) :
  parseColumn (buildColumn k i)
  = if (Nat.leb 1 i && Nat.leb i COLUMN_LIMIT)%bool then Some (k, i) else None.
Proof.
  destruct (Nat.leb 1 i && Nat.leb i COLUMN_LIMIT)%bool eqn:E.
  - apply andb_true_iff in E as [E1 E2]. apply Nat.leb_le in E1, E2.
    now apply parseColumn_buildColumn.
  - destruct (parseColumn_buildColumn_cases k i) as [H|H]; [|exact H].
    apply parseColumn_range in H. apply andb_false_iff in E as [E|E];
      apply Nat.leb_gt in E; lia.
Qed.

(** ** The next free slot *)

Lemma find_over_range {B} (f : nat -> B) (p : B -> bool) (start len : nat) :
  match List.find p (List.map f (seq start len)) with
  | Some c => exists i, start <= i < start + len /\ c = f i /\ p (f i) = true
                        /\ forall j, start <= j < i -> p (f j) = false
  | None => forall j, start <= j < start + len -> p (f j) = false
  end.
Proof.
  revert start. induction len as [|len IH]; intros start; simpl.
  - intros j Hj. lia.
  - destruct (p (f start)) eqn:E.
    + exists start. split; [lia|]. split; [reflexivity|]. split; [exact E|].
      intros j Hj. lia.
    + specialize (IH (S start)). destruct (List.find p _) as [c|].
      * destruct IH as (i & Hi & Hc & Hp & Hlt). exists i.
        split; [lia|]. split; [exact Hc|]. split; [exact Hp|].
        intros j Hj. destruct (decide (j = start)) as [->|]; [exact E|].
        apply Hlt. lia.
      * intros j Hj. destruct (decide (j = start)) as [->|]; [exact E|].
        apply IH. lia.
Qed.

Lemma getUsedColumns_fold (bubbles : list BubbleData.t) (kind : ColumnKind)
    (used : gset string) (c : string) :
  c ∈ fold_left
        (fun used b =>
           if decide (getColumnKindForBubble (BubbleData.type b) = kind) then
             match Js.truthy (NodeData.supabaseColumn (BubbleData.data b)) with
             | Some col =>
                 match parseColumn col with
                 | Some (k, i) =>
                     if decide (k = kind) then {[ buildColumn kind i ]} ∪ used
                     else used
                 | None => used
                 end
             | None => used
             end
           else used)
        bubbles used
  <-> c ∈ used \/ exists i, c = buildColumn kind i /\ slotUsed bubbles kind i.
Proof.
  revert used. induction bubbles as [|b bubbles IH]; intros used; cbn [fold_left].
  - split; [now left|]. intros [H|(i & _ & (b & Hb & _))]; [exact H|].
    now apply elem_of_nil in Hb.
  - rewrite IH. clear IH.
    assert (Hcons : forall i, slotUsed (b :: bubbles) kind i
              <-> (getColumnKindForBubble (BubbleData.type b) = kind
                   /\ storedSlot b = Some (kind, i))
                  \/ slotUsed bubbles kind i).
    { intros i. unfold slotUsed. split.
      - intros (b' & Hb' & Hk & Hs). apply elem_of_cons in Hb' as [->|Hb'];
          [now left|right; now exists b'].
      - intros [[Hk Hs]|(b' & Hb' & Hk & Hs)].
        + exists b. split; [apply list_elem_of_here|now split].
        + exists b'. split; [now apply list_elem_of_further|now split]. }
    unfold storedSlot in Hcons.
    destruct (decide (getColumnKindForBubble (BubbleData.type b) = kind)) as [Hk|Hk].
    + destruct (Js.truthy (NodeData.supabaseColumn (BubbleData.data b))) as [col|].
      * destruct (parseColumn col) as [[k i]|].
        -- destruct (decide (k = kind)) as [->|Hne].
           ++ rewrite elem_of_union, elem_of_singleton. split.
              ** intros [[->|H]|(j & Hc & Hu)]; [right|now left|right].
                 --- exists i. split; [reflexivity|]. apply Hcons. now left.
                 --- exists j. split; [exact Hc|]. apply Hcons. now right.
              ** intros [H|(j & Hc & Hu)]; [now left; right|].
                 apply Hcons in Hu as [[_ Hu]|Hu].
                 --- left. left. congruence.
                 --- right. now exists j.
           ++ split.
              ** intros [H|(j & Hc & Hu)]; [now left|right].
                 exists j. split; [exact Hc|]. apply Hcons. now right.
              ** intros [H|(j & Hc & Hu)]; [now left|right].
                 apply Hcons in Hu as [[_ Hu]|Hu]; [congruence|now exists j].
        -- split.
           ++ intros [H|(j & Hc & Hu)]; [now left|right].
              exists j. split; [exact Hc|]. apply Hcons. now right.
           ++ intros [H|(j & Hc & Hu)]; [now left|right].
              apply Hcons in Hu as [[_ Hu]|Hu]; [discriminate|now exists j].
      * split.
        -- intros [H|(j & Hc & Hu)]; [now left|right].
           exists j. split; [exact Hc|]. apply Hcons. now right.
        -- intros [H|(j & Hc & Hu)]; [now left|right].
           apply Hcons in Hu as [[_ Hu]|Hu]; [discriminate|now exists j].
    + split.
      * intros [H|(j & Hc & Hu)]; [now left|right].
        exists j. split; [exact Hc|]. apply Hcons. now right.
      * intros [H|(j & Hc & Hu)]; [now left|right].
        apply Hcons in Hu as [[Hk' _]|Hu]; [contradiction|now exists j].
Qed.

Lemma getUsedColumns_spec (bubbles : list BubbleData.t) (kind : ColumnKind)
    (i : nat) :
  buildColumn kind i ∈ getUsedColumns bubbles kind <-> slotUsed bubbles kind i.
Proof.
  unfold getUsedColumns. rewrite getUsedColumns_fold. split.
  - intros [H|(j & Hc & Hu)]; [now apply not_elem_of_empty in H|].
    apply buildColumn_inj in Hc as [_ ->]. exact Hu.
  - intros H. right. now exists i.
Qed.


(** X4 — The suggested column is the free slot of least index: a
    suggestion is the name of a slot between 1 and 50 that no step of the
    kind stores, every slot below it being stored by one; there is no
    suggestion exactly when all fifty slots of the kind are stored. *)
Theorem suggestion_is_least_free_slot (bubbles : list BubbleData.t)
    (kind : ColumnKind) :
  match suggestNextAvailableColumn bubbles kind with
  | Some c =>
      exists i, 1 <= i <= COLUMN_LIMIT /\ c = buildColumn kind i
                /\ ~ slotUsed bubbles kind i
                /\ forall j, 1 <= j < i -> slotUsed bubbles kind j
  | None => forall j, 1 <= j <= COLUMN_LIMIT -> slotUsed bubbles kind j
  end.
Proof.
  unfold suggestNextAvailableColumn.
  pose proof (find_over_range (buildColumn kind)
                (fun col => negb (bool_decide (col ∈ getUsedColumns bubbles kind)))
                1 COLUMN_LIMIT) as H.
  destruct (List.find _ _) as [c|].
  - destruct H as (i & Hi & -> & Hp & Hlt). exists i.
    split; [unfold COLUMN_LIMIT in *; lia|]. split; [reflexivity|]. split.
    + rewrite <- getUsedColumns_spec.
      now apply negb_true_iff, bool_decide_eq_false in Hp.
    + intros j Hj. apply getUsedColumns_spec.
      specialize (Hlt j Hj). now apply negb_false_iff, bool_decide_eq_true in Hlt.
  - intros j Hj. apply getUsedColumns_spec.
    specialize (H j ltac:(lia)). now apply negb_false_iff, bool_decide_eq_true in H.
Qed.

(** ** Duplicate slots *)

Lemma omap_set_keys {V} (k : string) (x : V) (m : list (string * V)) :
  List.map fst (OMap.set k x m)
  = if decide (k ∈ List.map fst m) then List.map fst m else List.map fst m ++ [k].
Proof.
  induction m as [|[k' v'] m IH]; simpl; [reflexivity|].
  destruct (decide (k' = k)) as [->|Hne]; simpl.
  - rewrite decide_True by apply list_elem_of_here. reflexivity.
  - rewrite IH. destruct (decide (k ∈ List.map fst m)) as [Hin|Hin].
    + rewrite decide_True by (now apply list_elem_of_further). reflexivity.
    + rewrite decide_False; [reflexivity|].
      intros H. apply elem_of_cons in H as [H|H]; [congruence|contradiction].
Qed.

Lemma omap_set_NoDup {V} (k : string) (x : V) (m : list (string * V)) :
  NoDup (List.map fst m) -> NoDup (List.map fst (OMap.set k x m)).
Proof.
  intros H. rewrite omap_set_keys. destruct (decide _) as [Hin|Hin]; [exact H|].
  apply NoDup_app. repeat split; [exact H| |apply NoDup_singleton].
  intros y Hy Hy'. apply list_elem_of_singleton in Hy'. now subst.
Qed.

Lemma omap_set_elem {V} (k : string) (x : V) (m : list (string * V))
    (c : string) (v : V) :
  NoDup (List.map fst m) ->
  (c, v) ∈ OMap.set k x m <-> (c = k /\ v = x) \/ (c <> k /\ (c, v) ∈ m).
Proof.
  induction m as [|[k' v'] m IH]; intros Hnd; simpl.
  - rewrite list_elem_of_singleton. split.
    + intros [= -> ->]. now left.
    + intros [[-> ->]|[_ H]]; [reflexivity|now apply elem_of_nil in H].
  - cbn [List.map fst] in Hnd. apply NoDup_cons in Hnd as [Hk' Hnd].
    destruct (decide (k' = k)) as [->|Hne].
    + rewrite !elem_of_cons. split.
      * intros [[= -> ->]|H]; [now left|right].
        split; [|now right]. intros ->. apply Hk'.
        now apply (list_elem_of_fmap_2 fst) in H.
      * intros [[-> ->]|[Hc [[= -> ->]|H]]]; [now left|congruence|now right].
    + rewrite !elem_of_cons, (IH Hnd). split.
      * intros [[= -> ->]|[H|[Hc H]]]; [right; split; [congruence|now left]
                                       |now left|right; split; [exact Hc|now right]].
      * intros [H|[Hc [[= -> ->]|H]]]; [right; now left|now left|right; now right].
Qed.

Lemma omap_get_spec {V} (k : string) (v : V) (m : list (string * V)) :
  NoDup (List.map fst m) -> OMap.get k m = Some v <-> (k, v) ∈ m.
Proof.
  induction m as [|[k' v'] m IH]; intros Hnd; simpl.
  - split; [discriminate|]. intros H. now apply elem_of_nil in H.
  - cbn [List.map fst] in Hnd. apply NoDup_cons in Hnd as [Hk' Hnd].
    rewrite elem_of_cons. destruct (decide (k' = k)) as [->|Hne].
    + split.
      * intros [= ->]. now left.
      * intros [[= ->]|H]; [reflexivity|].
        exfalso. apply Hk'. now apply (list_elem_of_fmap_2 fst) in H.
    + rewrite (IH Hnd). split; [now right|].
      intros [[= -> ->]|H]; [congruence|exact H].
Qed.

Lemma idsStoredAt_snoc (c : string) (l : list BubbleData.t) (b : BubbleData.t) :
  idsStoredAt c (l ++ [b])
  = idsStoredAt c l
    ++ (if decide (currentNormalized b = Some c) then [BubbleData.id b] else []).
Proof.
  unfold idsStoredAt. rewrite List.filter_app, List.map_app. f_equal. simpl.
  destruct (decide (currentNormalized b = Some c)) as [E|E].
  - now rewrite (bool_decide_eq_true_2 _ E).
  - now rewrite (bool_decide_eq_false_2 _ E).
Qed.

(** The map of [detectDuplicateColumns], entry by entry. *)
Lemma columnIndex_spec (bubbles : list BubbleData.t) :
  NoDup (List.map fst (columnIndex bubbles))
  /\ forall c ids, (c, ids) ∈ columnIndex bubbles
                   <-> ids = idsStoredAt c bubbles /\ ids <> [].
Proof.
  induction bubbles as [|b l [IHn IHe]] using rev_ind.
  - split; [constructor|]. intros c ids. split.
    + intros H. now apply elem_of_nil in H.
    + intros [-> H]. now contradiction H.
  - unfold columnIndex in *. rewrite fold_left_app. cbn [fold_left].
    set (m := fold_left _ l []) in *.
    destruct (currentNormalized b) as [n|] eqn:En.
    + assert (Harr : match OMap.get n m with Some a => a | None => [] end
                     = idsStoredAt n l).
      { destruct (OMap.get n m) as [a|] eqn:Eg.
        - apply (omap_get_spec n a m IHn), IHe in Eg as [-> _]. reflexivity.
        - destruct (idsStoredAt n l) as [|i0 is0] eqn:Ei; [reflexivity|].
          assert (Hin : (n, i0 :: is0) ∈ m)
            by (apply IHe; rewrite Ei; split; [reflexivity|discriminate]).
          apply (omap_get_spec n _ m IHn) in Hin. congruence. }
      rewrite Harr. split; [now apply omap_set_NoDup|].
      intros c ids. rewrite (omap_set_elem _ _ _ _ _ IHn), IHe, idsStoredAt_snoc, En.
      destruct (decide (Some n = Some c)) as [E|E].
      * assert (n = c) as -> by congruence. split.
        -- intros [[_ ->]|[Hc _]]; [|congruence].
           split; [reflexivity|]. now destruct (idsStoredAt c l).
        -- intros [-> _]. now left.
      * rewrite app_nil_r. split.
        -- intros [[-> _]|[_ H]]; [congruence|exact H].
        -- intros H. right. split; [congruence|exact H].
    + split; [exact IHn|]. intros c ids. rewrite IHe, idsStoredAt_snoc, En.
      rewrite decide_False by discriminate. now rewrite app_nil_r.
Qed.

(** X5 — [detectDuplicateColumns] reports exactly the slots that two or
    more steps store, each once, with the ids of all the steps that
    store it, in order; steps are compared by the slot their column
    reads as (white space, case and leading zeros apart). *)
Theorem duplicates_are_the_shared_slots (bubbles : list BubbleData.t) :
  NoDup (List.map fst (detectDuplicateColumns bubbles))
  /\ forall c ids, (c, ids) ∈ detectDuplicateColumns bubbles
                   <-> ids = idsStoredAt c bubbles /\ 2 <= List.length ids.
Proof.
  destruct (columnIndex_spec bubbles) as [Hn He]. unfold detectDuplicateColumns.
  split.
  - apply (NoDup_map_filter fst (fun '(_, ids) => Nat.ltb 1 (List.length ids))).
    exact Hn.
  - intros c ids. rewrite list_elem_of_In, List.filter_In, <- list_elem_of_In, He.
    rewrite Nat.ltb_lt. split.
    + intros [[-> _] H]. split; [reflexivity|lia].
    + intros [-> H]. repeat split; [|lia].
      destruct (idsStoredAt c bubbles); [simpl in H; lia|discriminate].
Qed.

(** ** The order-free normalizer *)

(** X6 — In a flow with distinct node ids, [normalizeAllColumns] computes
    what [normalizeColumnsWithGroupOrder] computes for the empty group
    order: the groups are then taken in array order. *)
Theorem normalizeAllColumns_is_empty_order (nodes : list FlowNode.t) :
  uniqueNodeIds nodes ->
  normalizeAllColumns nodes = normalizeColumnsWithGroupOrder nodes [].
Proof.
  intros Hn. unfold normalizeAllColumns, normalizeColumnsWithGroupOrder.
  fold (slottedItems nodes).
  replace (allBubblesInOrder nodes []) with (slottedItems nodes); [reflexivity|].
  unfold allBubblesInOrder. rewrite (nodeMap_of_unique nodes []) by exact Hn.
  cbn [app collectInOrder]. now rewrite collectRemaining_nodes.
Qed.

Lemma normalizeAllColumns_is_empty_order_witness :
  uniqueNodeIds threeGroups
  /\ normalizeAllColumns threeGroups = normalizeColumnsWithGroupOrder threeGroups [].
Proof.
  assert (Hn : uniqueNodeIds threeGroups)
    by (apply (bool_decide_eq_true_1 (NoDup _)); vm_compute; reflexivity).
  split; [exact Hn|]. exact (normalizeAllColumns_is_empty_order threeGroups Hn).
Defined.

(** ** Dropping a new step into a group *)

Lemma NoDup_omap_of_counts {A} (f : A -> option string) (l : list A) :
  (forall c, List.length (List.filter (fun a => bool_decide (f a = Some c)) l) <= 1) ->
  NoDup (omap f l).
Proof.
  induction l as [|a l IH]; intros H; [constructor|].
  assert (Hl : forall c, List.length
                           (List.filter (fun a => bool_decide (f a = Some c)) l) <= 1).
  { intros c. specialize (H c). simpl in H.
    destruct (bool_decide (f a = Some c)); simpl in H; lia. }
  cbn [omap list_omap]. destruct (f a) as [c|] eqn:E; [|now apply IH].
  apply NoDup_cons. split; [|now apply IH].
  intros Hin. apply list_elem_of_omap in Hin as (a' & Ha' & Ea').
  specialize (H c). simpl in H. rewrite E, (bool_decide_eq_true_2 _ eq_refl) in H.
  simpl in H.
  assert (Hf : a' ∈ List.filter (fun a => bool_decide (f a = Some c)) l).
  { apply list_elem_of_In, List.filter_In. split; [now apply list_elem_of_In|].
    now apply bool_decide_eq_true_2. }
  destruct (List.filter _ l); [now apply elem_of_nil in Hf|simpl in H; lia].
Qed.

Lemma no_duplicates_iff (bubbles : list BubbleData.t) :
  detectDuplicateColumns bubbles = [] <-> NoDup (omap currentNormalized bubbles).
Proof.
  split; [|apply detectDuplicateColumns_none].
  intros H. apply NoDup_omap_of_counts. intros c.
  destruct (columnIndex_spec bubbles) as [_ He].
  destruct (le_lt_dec (List.length (idsStoredAt c bubbles)) 1) as [Hle|Hgt].
  - unfold idsStoredAt in Hle. now rewrite List.length_map in Hle.
  - exfalso.
    assert (Hin : (c, idsStoredAt c bubbles) ∈ detectDuplicateColumns bubbles).
    { unfold detectDuplicateColumns. apply list_elem_of_In, List.filter_In.
      split; [|now apply Nat.ltb_lt].
      apply list_elem_of_In, He. split; [reflexivity|].
      destruct (idsStoredAt c bubbles); [simpl in Hgt; lia|discriminate]. }
    rewrite H in Hin. now apply elem_of_nil in Hin.
Qed.

Lemma current_of_stored (b : BubbleData.t) (k : ColumnKind) (i : nat) :
  NodeData.supabaseColumn (BubbleData.data b) = Some (buildColumn k i) ->
  1 <= i <= COLUMN_LIMIT ->
  storedSlot b = Some (k, i) /\ currentNormalized b = Some (buildColumn k i).
Proof.
  intros Hc Hi.
  assert (Hs : storedSlot b = Some (k, i)).
  { unfold storedSlot. rewrite Hc, buildColumn_nonempty.
    now apply parseColumn_buildColumn. }
  split; [exact Hs|]. now rewrite currentNormalized_storedSlot, Hs.
Qed.







(** ** Moving a step between groups *)

Lemma takeBubble_fold (nodes acc : list FlowNode.t) (d : option BubbleData.t)
    (src x : string) :
  fst (fold_left
         (fun '(acc, movedBubble) n =>
            if (negb (bool_decide (FlowNode.id n = src)) || negb (isGroup n))%bool
            then (acc ++ [n], movedBubble)
            else
              let bubbles := FlowNode.bubblesOrEmpty n in
              let found :=
                List.find (fun b => bool_decide (BubbleData.id b = x)) bubbles in
              let movedBubble' :=
                match found with Some b => Some b | None => movedBubble end in
              (acc ++ [FlowNode.withBubbles n
                         (List.filter
                            (fun b => negb (bool_decide (BubbleData.id b = x)))
                            bubbles)],
               movedBubble'))
         nodes (acc, d))
  = acc ++ List.map (dropNode src x) nodes.
Proof.
  revert acc d. induction nodes as [|n nodes IH]; intros acc d.
  - simpl. now rewrite app_nil_r.
  - cbn [fold_left List.map].
    assert (E : dropNode src x n
                = if (negb (bool_decide (FlowNode.id n = src))
                      || negb (isGroup n))%bool then n
                  else FlowNode.withBubbles n
                         (List.filter
                            (fun b => negb (bool_decide (BubbleData.id b = x)))
                            (FlowNode.bubblesOrEmpty n))) by reflexivity.
    rewrite E.
    destruct (negb (bool_decide (FlowNode.id n = src)) || negb (isGroup n))%bool;
      rewrite IH, <- app_assoc; reflexivity.
Qed.

Lemma takeBubble_fst (nodes : list FlowNode.t) (src x : string) :
  fst (takeBubble nodes src x) = List.map (dropNode src x) nodes.
Proof. unfold takeBubble. now rewrite takeBubble_fold. Qed.

(** The bubble [moveBubbleBetweenNodes] picks up is the one found in the
    source group, if any. *)
Lemma takeBubble_snd (nodes : list FlowNode.t) (src x : string) :
  uniqueNodeIds nodes -> snd (takeBubble nodes src x) = targetBubble nodes src x.
Proof.
  unfold uniqueNodeIds, targetBubble.
  induction nodes as [|n l IH] using rev_ind; intros Hnd; [reflexivity|].
  rewrite List.map_app in Hnd. apply NoDup_app in Hnd as (Hl & Hn & _).
  assert (Hfresh : FlowNode.id n ∉ List.map FlowNode.id l).
  { intros Hin. apply (Hn _ Hin). simpl. apply list_elem_of_here. }
  rewrite find_snoc. unfold takeBubble. rewrite fold_left_app.
  fold (takeBubble l src x). specialize (IH Hl).
  destruct (takeBubble l src x) as [acc d]. cbn [snd] in IH.
  cbn [fold_left]. destruct (decide (FlowNode.id n = src)) as [Eg|Eg].
  - rewrite (find_id_absent l src) in * by (now rewrite <- Eg).
    rewrite (bool_decide_eq_true_2 _ Eg). cbn [negb orb]. subst d.
    destruct (isGroup n); cbn [negb snd]; [|reflexivity].
    now destruct (List.find _ (FlowNode.bubblesOrEmpty n)).
  - rewrite (bool_decide_eq_false_2 _ Eg). cbn [negb orb snd]. rewrite IH.
    now destruct (List.find (fun n0 => bool_decide (FlowNode.id n0 = src)) l).
Qed.

Lemma spliceIn_perm {A} (i : nat) (x : A) (l : list A) : spliceIn i x l ≡ₚ x :: l.
Proof.
  unfold spliceIn. rewrite <- Permutation_middle. now rewrite List.firstn_skipn.
Qed.

Lemma put_perm (b : BubbleData.t) (idx : option Z) (l : list BubbleData.t) :
  match idx with
  | Some i => if Z.leb 0 i then spliceIn (Z.to_nat i) b l else l ++ [b]
  | None => l ++ [b]
  end ≡ₚ b :: l.
Proof.
  destruct idx as [i|]; [destruct (Z.leb 0 i)|];
    [apply spliceIn_perm|..]; now rewrite <- Permutation_cons_append.
Qed.

Lemma putBubble_node (tgt : string) (b : BubbleData.t) (idx : option Z)
    (n : FlowNode.t) :
  let n' := if (negb (bool_decide (FlowNode.id n = tgt)) || negb (isGroup n))%bool
            then n
            else FlowNode.withBubbles n
                   (match idx with
                    | Some i => if Z.leb 0 i
                                then spliceIn (Z.to_nat i) b (FlowNode.bubblesOrEmpty n)
                                else FlowNode.bubblesOrEmpty n ++ [b]
                    | None => FlowNode.bubblesOrEmpty n ++ [b]
                    end) in
  (if decide (FlowNode.type n' = group) then FlowNode.bubblesOrEmpty n' else [])
  ≡ₚ (if (bool_decide (FlowNode.id n = tgt) && isGroup n)%bool then [b] else [])
     ++ (if decide (FlowNode.type n = group) then FlowNode.bubblesOrEmpty n else []).
Proof.
  cbv zeta.
  destruct (bool_decide (FlowNode.id n = tgt)); cbn [negb orb andb]; [|reflexivity].
  destruct (isGroup n) eqn:Eg; cbn [negb]; [|reflexivity].
  apply bool_decide_eq_true_1 in Eg.
  cbn [FlowNode.type FlowNode.withBubbles FlowNode.bubblesOrEmpty FlowNode.bubbles].
  rewrite !decide_True by exact Eg. apply put_perm.
Qed.

Lemma putBubble_bubbles (nodes : list FlowNode.t) (tgt : string)
    (b : BubbleData.t) (idx : option Z) :
  uniqueNodeIds nodes ->
  getAllBubblesFromFlowNodes (putBubble nodes tgt b idx)
  ≡ₚ (if bool_decide (tgt ∈ groupIdsOf nodes) then [b] else [])
     ++ getAllBubblesFromFlowNodes nodes.
Proof.
  unfold uniqueNodeIds, putBubble, getAllBubblesFromFlowNodes, groupIdsOf.
  induction nodes as [|n nodes IH]; intros Hnd; [reflexivity|].
  cbn [List.map] in Hnd. apply NoDup_cons in Hnd as [Hn Hnd].
  cbn [List.map flat_map]. specialize (IH Hnd).
  rewrite (putBubble_node tgt b idx n), IH. clear IH.
  set (old := if decide (FlowNode.type n = group) then FlowNode.bubblesOrEmpty n else []).
  set (rest := flat_map _ nodes).
  set (ids := List.map FlowNode.id (List.filter isGroup nodes)).
  assert (Hids : List.map FlowNode.id (List.filter isGroup (n :: nodes))
                 = (if isGroup n then [FlowNode.id n] else []) ++ ids).
  { cbn [List.filter]. now destruct (isGroup n). }
  rewrite Hids. clear Hids.
  destruct (bool_decide (FlowNode.id n = tgt) && isGroup n)%bool eqn:E.
  - apply andb_true_iff in E as [Eid Eg]. rewrite Eg.
    apply bool_decide_eq_true_1 in Eid.
    assert (H1 : bool_decide (tgt ∈ [FlowNode.id n] ++ ids) = true)
      by (apply bool_decide_eq_true_2; rewrite Eid; apply list_elem_of_here).
    assert (H2 : bool_decide (tgt ∈ ids) = false).
    { apply bool_decide_eq_false_2. intros Hin. apply Hn. rewrite Eid.
      apply list_elem_of_fmap in Hin as (n' & -> & Hn').
      apply list_elem_of_In, List.filter_In in Hn' as [Hn' _].
      now apply (list_elem_of_fmap_2 FlowNode.id), list_elem_of_In. }
    rewrite H1, H2. cbn [app]. reflexivity.
  - assert (H1 : bool_decide (tgt ∈ (if isGroup n then [FlowNode.id n] else []) ++ ids)
                 = bool_decide (tgt ∈ ids)).
    { apply bool_decide_ext. rewrite elem_of_app. split; [|now right].
      intros [H|H]; [|exact H]. exfalso.
      destruct (isGroup n) eqn:Eg; [|now apply elem_of_nil in H].
      apply list_elem_of_singleton in H.
      apply andb_false_iff in E as [E|E]; [|discriminate].
      apply bool_decide_eq_false in E. congruence. }
    rewrite H1. cbn [app]. destruct (bool_decide (tgt ∈ ids)); cbn [app]; [|reflexivity].
    now rewrite <- (Permutation_middle old rest b).
Qed.

Lemma groupIdsOf_drop (nodes : list FlowNode.t) (g x : string) :
  groupIdsOf (List.map (dropNode g x) nodes) = groupIdsOf nodes.
Proof.
  unfold groupIdsOf. induction nodes as [|n nodes IH]; [reflexivity|].
  cbn [List.map List.filter].
  assert (E : isGroup (dropNode g x n) = isGroup n)
    by (unfold isGroup; now rewrite dropNode_type).
  rewrite E. destruct (isGroup n); cbn [List.map]; now rewrite ?dropNode_id, IH.
Qed.

Lemma getAllBubbles_updates (u : gmap string string) (nodes : list FlowNode.t) :
  getAllBubblesFromFlowNodes (applyUpdatesToNodes u nodes)
  = List.map (applyUpdate u) (getAllBubblesFromFlowNodes nodes).
Proof.
  rewrite applyUpdatesToNodes_map. unfold getAllBubblesFromFlowNodes.
  induction nodes as [|n nodes IH]; [reflexivity|].
  cbn [List.map flat_map]. rewrite List.map_app, IH, updateNode_type. f_equal.
  destruct (decide (FlowNode.type n = group)) as [Hg|Hg]; [|reflexivity].
  now apply updateNode_bubbles.
Qed.

Lemma eraseColumn_update (u : gmap string string) (b : BubbleData.t) :
  eraseColumn (applyUpdate u b) = eraseColumn b.
Proof.
  unfold applyUpdate. destruct (Js.truthy _); [|reflexivity].
  now destruct b as [i ty []].
Qed.

(** Normalization changes nothing of the steps but their columns. *)
Lemma normalization_keeps_steps (nodes : list FlowNode.t) (edges : list FlowEdge.t) :
  List.map eraseColumn (getAllBubblesFromFlowNodes (applyNormalizationToNodes nodes edges))
  = List.map eraseColumn (getAllBubblesFromFlowNodes nodes).
Proof.
  rewrite applyNormalization_unfold. cbv zeta.
  destruct (Nat.ltb 0 (size _)); [|reflexivity].
  rewrite getAllBubbles_updates, List.map_map. apply List.map_ext.
  apply eraseColumn_update.
Qed.

Lemma filter_out_one (l : list BubbleData.t) (b : BubbleData.t) :
  NoDup (List.map BubbleData.id l) -> b ∈ l ->
  b :: List.filter (fun y => negb (bool_decide (BubbleData.id y = BubbleData.id b))) l
  ≡ₚ l.
Proof.
  induction l as [|a l IH]; intros Hnd Hb; [now apply elem_of_nil in Hb|].
  cbn [List.map] in Hnd. apply NoDup_cons in Hnd as [Ha Hnd].
  cbn [List.filter]. apply elem_of_cons in Hb as [->|Hb].
  - rewrite (bool_decide_eq_true_2 _ eq_refl). cbn [negb].
    rewrite filter_all; [reflexivity|]. intros y Hy.
    apply negb_true_iff, bool_decide_eq_false. intros E. apply Ha. rewrite <- E.
    now apply list_elem_of_fmap_2.
  - rewrite bool_decide_eq_false_2.
    + cbn [negb]. rewrite Permutation_swap. now rewrite (IH Hnd Hb).
    + intros E. apply Ha. rewrite E. now apply list_elem_of_fmap_2.
Qed.

Lemma putBubble_absent (nodes : list FlowNode.t) (tgt : string)
    (b : BubbleData.t) (idx : option Z) :
  tgt ∉ groupIdsOf nodes -> putBubble nodes tgt b idx = nodes.
Proof.
  unfold putBubble, groupIdsOf. induction nodes as [|n nodes IH]; intros H;
    [reflexivity|].
  cbn [List.map List.filter] in *.
  destruct (isGroup n) eqn:Eg; cbn [List.map] in H.
  - apply not_elem_of_cons in H as [Hne H]. rewrite (IH H).
    rewrite bool_decide_eq_false_2 by congruence. reflexivity.
  - rewrite (IH H), orb_true_r. reflexivity.
Qed.

(** What the move does before it normalizes. *)
Lemma move_unfold (nodes : list FlowNode.t) (edges : list FlowEdge.t)
    (src tgt x : string) (idx : option Z) :
  uniqueNodeIds nodes ->
  moveBubbleBetweenNodes nodes edges src tgt x idx
  = match targetBubble nodes src x with
    | None => nodes
    | Some b =>
        applyNormalizationToNodes
          (putBubble (List.map (dropNode src x) nodes) tgt b idx) edges
    end.
Proof.
  intros Hn. unfold moveBubbleBetweenNodes.
  pose proof (takeBubble_fst nodes src x) as Hf.
  pose proof (takeBubble_snd nodes src x Hn) as Hs.
  destruct (takeBubble nodes src x) as [ns mb]. cbn [fst snd] in *. now subst.
Qed.

(** X8 — Moving a step into a group of the flow loses nothing: in a flow
    with distinct node ids and distinct step ids, after
    [moveBubbleBetweenNodes] to a target that is a group of the flow, the
    steps of the flow are the same steps (ids, kinds and payloads; only
    stored columns may be renumbered), each once. *)
Theorem move_keeps_every_step (nodes : list FlowNode.t) (edges : list FlowEdge.t)
    (src tgt x : string) (idx : option Z) :
  uniqueNodeIds nodes -> uniqueBubbleIds nodes -> tgt ∈ groupIdsOf nodes ->
  List.map eraseColumn
    (getAllBubblesFromFlowNodes (moveBubbleBetweenNodes nodes edges src tgt x idx))
  ≡ₚ List.map eraseColumn (getAllBubblesFromFlowNodes nodes).
Proof.
  intros Hn Hb Htgt. rewrite (move_unfold nodes edges src tgt x idx Hn).
  destruct (targetBubble nodes src x) as [b|] eqn:Et; [|reflexivity].
  rewrite normalization_keeps_steps. apply fmap_Permutation.
  rewrite putBubble_bubbles by (now apply uniqueNodeIds_drop).
  rewrite groupIdsOf_drop, (bool_decide_eq_true_2 _ Htgt). cbn [app].
  pose proof (unique_step_onlyIn nodes src x b Hb Et) as Hgood.
  rewrite (getAllBubbles_drop src x nodes Hgood).
  destruct (targetBubble_spec nodes src x b Et) as (ng & Hng & _ & Hg & Hbx & <-).
  apply filter_out_one; [exact Hb|].
  now apply (bubble_of_group nodes ng b).
Qed.

(** X9 — Moving a step to a target that is not a group of the flow
    removes it: the step found in the source group is taken out and put
    nowhere; the other steps stay (columns renumbered). *)
Theorem move_to_missing_group_drops_step (nodes : list FlowNode.t)
    (edges : list FlowEdge.t) (src tgt x : string) (idx : option Z)
    (b : BubbleData.t) :
  uniqueNodeIds nodes -> uniqueBubbleIds nodes ->
  targetBubble nodes src x = Some b -> tgt ∉ groupIdsOf nodes ->
  let nodes' := moveBubbleBetweenNodes nodes edges src tgt x idx in
  (x ∉ List.map BubbleData.id (getAllBubblesFromFlowNodes nodes'))
  /\ eraseColumn b :: List.map eraseColumn (getAllBubblesFromFlowNodes nodes')
     ≡ₚ List.map eraseColumn (getAllBubblesFromFlowNodes nodes).
Proof.
  intros Hn Hb Et Htgt nodes'. unfold nodes'.
  rewrite (move_unfold nodes edges src tgt x idx Hn), Et.
  rewrite putBubble_absent by (now rewrite groupIdsOf_drop).
  pose proof (unique_step_onlyIn nodes src x b Hb Et) as Hgood.
  pose proof (normalization_keeps_steps (List.map (dropNode src x) nodes) edges) as Hk.
  rewrite (getAllBubbles_drop src x nodes Hgood) in Hk.
  destruct (targetBubble_spec nodes src x b Et) as (ng & Hng & _ & Hg & Hbx & Hx).
  split.
  - assert (Hids : List.map BubbleData.id
                     (getAllBubblesFromFlowNodes
                        (applyNormalizationToNodes (List.map (dropNode src x) nodes) edges))
                   = List.map BubbleData.id
                       (List.filter (fun b0 => negb (bool_decide (BubbleData.id b0 = x)))
                                    (getAllBubblesFromFlowNodes nodes))).
    { apply (f_equal (List.map BubbleData.id)) in Hk.
      rewrite !List.map_map in Hk. exact Hk. }
    rewrite Hids. intros Hin. apply list_elem_of_fmap in Hin as (y & Hy & Hin).
    apply list_elem_of_In, List.filter_In in Hin as [_ Hin].
    apply negb_true_iff, bool_decide_eq_false in Hin. congruence.
  - rewrite Hk. change (eraseColumn b :: List.map eraseColumn ?l)
      with (List.map eraseColumn (b :: l)).
    apply fmap_Permutation. subst x. apply filter_out_one; [exact Hb|].
    now apply (bubble_of_group nodes ng b).
Qed.

Lemma twoGroups_unique : uniqueNodeIds twoGroups /\ uniqueBubbleIds twoGroups.
Proof.
  split; apply (bool_decide_eq_true_1 (NoDup _)); vm_compute; reflexivity.
Qed.

Lemma move_keeps_every_step_witness :
  uniqueNodeIds twoGroups /\ uniqueBubbleIds twoGroups
  /\ "g2"%string ∈ groupIdsOf twoGroups
  /\ List.map eraseColumn
       (getAllBubblesFromFlowNodes
          (moveBubbleBetweenNodes twoGroups [] "g1" "g2" "a" (Some 0%Z)))
     ≡ₚ List.map eraseColumn (getAllBubblesFromFlowNodes twoGroups).
Proof.
  destruct twoGroups_unique as [Hn Hb].
  assert (Ht : "g2"%string ∈ groupIdsOf twoGroups)
    by (apply (bool_decide_eq_true_1 (_ ∈ _)); vm_compute; reflexivity).
  split; [exact Hn|]. split; [exact Hb|]. split; [exact Ht|].
  exact (move_keeps_every_step twoGroups [] "g1" "g2" "a" (Some 0%Z) Hn Hb Ht).
Defined.

Lemma move_to_missing_group_drops_step_witness :
  uniqueNodeIds twoGroups /\ uniqueBubbleIds twoGroups
  /\ targetBubble twoGroups "g1" "a" = Some (messageStep "a" (Some "M1"%string) "oi")
  /\ ("nowhere"%string ∉ groupIdsOf twoGroups)
  /\ (let nodes' := moveBubbleBetweenNodes twoGroups [] "g1" "nowhere" "a" None in
      ("a"%string ∉ List.map BubbleData.id (getAllBubblesFromFlowNodes nodes'))
      /\ eraseColumn (messageStep "a" (Some "M1"%string) "oi")
         :: List.map eraseColumn (getAllBubblesFromFlowNodes nodes')
         ≡ₚ List.map eraseColumn (getAllBubblesFromFlowNodes twoGroups)).
Proof.
  destruct twoGroups_unique as [Hn Hb].
  assert (Ht : targetBubble twoGroups "g1" "a"
               = Some (messageStep "a" (Some "M1"%string) "oi"))
    by (vm_compute; reflexivity).
  assert (Hg : "nowhere"%string ∉ groupIdsOf twoGroups)
    by (apply (bool_decide_eq_false_1 (_ ∈ _)); vm_compute; reflexivity).
  split; [exact Hn|]. split; [exact Hb|]. split; [exact Ht|]. split; [exact Hg|].
  exact (move_to_missing_group_drops_step twoGroups [] "g1" "nowhere" "a" None
           _ Hn Hb Ht Hg).
Defined.

(** ** Distributing fetched steps over the recorded groups *)

Lemma columnNames_omap (bubbles : list BubbleData.t) :
  columnNames bubbles = omap colName bubbles.
Proof.
  unfold columnNames. induction bubbles as [|b l IH]; [reflexivity|].
  cbn [flat_map omap list_omap]. fold (colName b). rewrite IH.
  now destruct (colName b).
Qed.

Lemma colName_unique (bubbles : list BubbleData.t) (b b' : BubbleData.t)
    (c : string) :
  NoDup (columnNames bubbles) -> b ∈ bubbles -> b' ∈ bubbles ->
  colName b = Some c -> colName b' = Some c -> b = b'.
Proof.
  rewrite columnNames_omap.
  induction bubbles as [|a l IH]; intros Hnd Hb Hb' Hc Hc';
    [now apply elem_of_nil in Hb|].
  cbn [omap list_omap] in Hnd.
  assert (Hin : forall y, y ∈ l -> colName y = Some c -> c ∈ omap colName l)
    by (intros y Hy Ey; apply list_elem_of_omap; now exists y).
  apply elem_of_cons in Hb as [->|Hb]; apply elem_of_cons in Hb' as [->|Hb'].
  - reflexivity.
  - rewrite Hc in Hnd. apply NoDup_cons in Hnd as [Hn _].
    exfalso. apply Hn. now apply (Hin b').
  - rewrite Hc' in Hnd. apply NoDup_cons in Hnd as [Hn _].
    exfalso. apply Hn. now apply (Hin b).
  - apply IH; try assumption.
    destruct (colName a); [now apply NoDup_cons in Hnd as [_ Hnd]|exact Hnd].
Qed.

Lemma placeable_NoDup (bubbles : list BubbleData.t) :
  NoDup (columnNames bubbles) -> NoDup (placeable bubbles).
Proof.
  rewrite columnNames_omap. unfold placeable.
  induction bubbles as [|a l IH]; intros Hnd; [constructor|].
  cbn [omap list_omap] in Hnd. cbn [List.filter].
  destruct (colName a) as [c|] eqn:Ec.
  - apply NoDup_cons in Hnd as [Hn Hnd].
    rewrite bool_decide_eq_true_2 by (now exists c).
    apply NoDup_cons. split; [|now apply IH].
    intros Hin. apply list_elem_of_In, List.filter_In in Hin as [Hin _].
    apply Hn. apply list_elem_of_omap. exists a. split; [now apply list_elem_of_In|exact Ec].
  - rewrite bool_decide_eq_false_2 by (intros [c Hc]; discriminate). now apply IH.
Qed.

Lemma byColumn_lookup (bubbles : list BubbleData.t) (c : string) (b : BubbleData.t) :
  bubbleByColumn bubbles !! c = Some b -> b ∈ bubbles /\ colName b = Some c.
Proof.
  intros H. destruct (bubbleByColumn_fold bubbles ∅ c) as [H1 _].
  destruct (H1 b H) as [H0|H0]; [|exact H0].
  rewrite lookup_empty in H0. discriminate.
Qed.

Lemma found_flat (byColumn : gmap string BubbleData.t) (pgs : list ParsedGroupV2) :
  flat_map dg_bubbles (List.map (filledGroup byColumn) pgs)
  = foundBubbles byColumn (flat_map pg_columns pgs).
Proof.
  unfold foundBubbles. induction pgs as [|pg pgs IH]; [reflexivity|].
  cbn [List.map flat_map filledGroup dg_bubbles]. rewrite IH.
  unfold foundBubbles. now rewrite omap_app.
Qed.

Lemma pushToLast_flat (result : list DistributedGroup) (extra : list BubbleData.t) :
  result <> [] ->
  flat_map dg_bubbles (pushToLast result extra)
  = flat_map dg_bubbles result ++ extra.
Proof.
  induction result as [|grp rest IH]; intros Hne; [congruence|].
  destruct rest as [|grp' rest'].
  - simpl. now rewrite !app_nil_r.
  - change (pushToLast (grp :: grp' :: rest') extra)
      with (grp :: pushToLast (grp' :: rest') extra).
    cbn [flat_map]. rewrite IH by discriminate. now rewrite app_assoc.
Qed.

(** The steps handed out, in order: the ones the recorded columns find,
    then the ones no recorded column found. *)
Lemma distribute_flat (now : nat) (bubbles : list BubbleData.t)
    (layout : ParsedLayoutV2) :
  flat_map dg_bubbles (distributeBubblesByPosicaoV2 now bubbles layout)
  = foundBubbles (bubbleByColumn bubbles) (layoutColumns layout)
    ++ List.filter
         (fun b => match colName b with
                   | Some col =>
                       negb (bool_decide
                               (col ∈ layoutColumns layout
                                /\ is_Some (bubbleByColumn bubbles !! col)))
                   | None => false
                   end)
         bubbles.
Proof.
  unfold distributeBubblesByPosicaoV2, layoutColumns.
  pose proof (distribute_fold (bubbleByColumn bubbles) (groups layout) [] ∅) as H.
  cbv zeta in H. destruct (fold_left _ (groups layout) _) as [result asg].
  cbn [fst snd app] in H. destruct H as [-> Hasg].
  assert (Hf : List.filter
                 (fun b =>
                    match Js.truthy (option_map Js.toUpperCase
                             (NodeData.supabaseColumn (BubbleData.data b))) with
                    | Some col => negb (bool_decide (col ∈ asg))
                    | None => false
                    end) bubbles
               = List.filter
                   (fun b => match colName b with
                             | Some col =>
                                 negb (bool_decide
                                         (col ∈ flat_map pg_columns (groups layout)
                                          /\ is_Some (bubbleByColumn bubbles !! col)))
                             | None => false
                             end) bubbles).
  { apply List.filter_ext. intros b. unfold colName.
    destruct (Js.truthy _) as [col|]; [|reflexivity]. f_equal.
    apply bool_decide_ext. rewrite Hasg. split.
    - intros [H|(pg & Hpg & Hc & Hs)]; [now apply not_elem_of_empty in H|].
      split; [|exact Hs]. apply list_elem_of_In, in_flat_map.
      exists pg. split; now apply list_elem_of_In.
    - intros [Hc Hs]. right. apply list_elem_of_In, in_flat_map in Hc as (pg & Hpg & Hc).
      exists pg. repeat split; [now apply list_elem_of_In|now apply list_elem_of_In|exact Hs]. }
  rewrite Hf. clear Hf.
  destruct (List.filter _ bubbles) as [|u us] eqn:Eu.
  - now rewrite app_nil_r, found_flat.
  - destruct (groups layout) as [|pg pgs] eqn:Eg.
    + simpl. now rewrite app_nil_r.
    + cbn [List.map]. rewrite pushToLast_flat by discriminate.
      change (filledGroup (bubbleByColumn bubbles) pg
              :: List.map (filledGroup (bubbleByColumn bubbles)) pgs)
        with (List.map (filledGroup (bubbleByColumn bubbles)) (pg :: pgs)).
      now rewrite found_flat.
Qed.

Lemma filter_within {A} (p q : A -> bool) (l : list A) :
  (forall a, p a = true -> q a = true) ->
  List.filter p l = List.filter p (List.filter q l).
Proof.
  intros H. induction l as [|a l IH]; [reflexivity|]. cbn [List.filter].
  destruct (p a) eqn:Ep.
  - rewrite (H a Ep). cbn [List.filter]. now rewrite Ep, IH.
  - destruct (q a); cbn [List.filter]; now rewrite ?Ep, IH.
Qed.

(** X10 — Distribution loses and duplicates no step: when the fetched
    steps have distinct column names and the layout records no column
    twice, the steps handed out over the groups are exactly the fetched
    steps that have a column name, each once (a step without a column
    name is not placed). *)
Theorem distribution_places_every_step_once (now : nat)
    (bubbles : list BubbleData.t) (layout : ParsedLayoutV2) :
  NoDup (columnNames bubbles) -> NoDup (layoutColumns layout) ->
  flat_map dg_bubbles (distributeBubblesByPosicaoV2 now bubbles layout)
  ≡ₚ placeable bubbles.
Proof.
  intros Hb Hl. rewrite distribute_flat.
  set (byCol := bubbleByColumn bubbles).
  set (cols := layoutColumns layout) in *.
  apply NoDup_Permutation.
  - apply NoDup_app. repeat split.
    + unfold foundBubbles. apply NoDup_omap_positions.
      intros i j x y s Hi Hj Hx Hy.
      apply (NoDup_lookup cols i j x); [exact Hl|exact Hi|].
      apply (byColumn_lookup bubbles) in Hx as [_ Hx].
      apply (byColumn_lookup bubbles) in Hy as [_ Hy].
      assert (x = y) as -> by congruence. exact Hj.
    + intros b Hf Hu. unfold foundBubbles in Hf.
      apply list_elem_of_omap in Hf as (c & Hc & Hlook).
      apply list_elem_of_In, List.filter_In in Hu as [_ Hu].
      destruct (byColumn_lookup bubbles c b Hlook) as [_ Hn]. rewrite Hn in Hu.
      apply negb_true_iff, bool_decide_eq_false in Hu. apply Hu.
      split; [exact Hc|now exists b].
    + rewrite (filter_within _ (fun b => bool_decide (is_Some (colName b)))).
      * apply NoDup_ListNoDup, List.NoDup_filter, NoDup_ListNoDup.
        now apply placeable_NoDup.
      * intros b Hp. apply bool_decide_eq_true_2.
        destruct (colName b) as [c|]; [now exists c|discriminate].
  - now apply placeable_NoDup.
  - intros b. rewrite elem_of_app. unfold placeable, foundBubbles.
    rewrite list_elem_of_omap. split.
    + intros [(c & Hc & Hlook)|Hu].
      * destruct (byColumn_lookup bubbles c b Hlook) as [Hin Hn].
        apply list_elem_of_In, List.filter_In.
        split; [now apply list_elem_of_In|]. apply bool_decide_eq_true_2. now exists c.
      * apply list_elem_of_In, List.filter_In in Hu as [Hin Hu].
        apply list_elem_of_In, List.filter_In. split; [exact Hin|].
        apply bool_decide_eq_true_2.
        destruct (colName b) as [c|]; [now exists c|discriminate].
    + intros Hs. apply list_elem_of_In, List.filter_In in Hs as [Hin Hs].
      apply list_elem_of_In in Hin.
      apply bool_decide_eq_true_1 in Hs as [c Hc].
      destruct (decide (c ∈ cols /\ is_Some (byCol !! c))) as [[Hcol [b' Hb']]|Hno].
      * left. exists c. split; [exact Hcol|].
        destruct (byColumn_lookup bubbles c b' Hb') as [Hin' Hn'].
        now rewrite (colName_unique bubbles b b' c Hb Hin Hin' Hc Hn').
      * right. apply list_elem_of_In, List.filter_In.
        split; [now apply list_elem_of_In|]. rewrite Hc.
        now apply negb_true_iff, bool_decide_eq_false_2.
Qed.

Lemma distribution_places_every_step_once_witness :
  NoDup (columnNames (getAllBubblesFromFlowNodes published))
  /\ NoDup (layoutColumns (parsePosicaoV2 publishedDoc))
  /\ flat_map dg_bubbles
       (distributeBubblesByPosicaoV2 0 (getAllBubblesFromFlowNodes published)
          (parsePosicaoV2 publishedDoc))
     ≡ₚ placeable (getAllBubblesFromFlowNodes published).
Proof.
  assert (Hb : NoDup (columnNames (getAllBubblesFromFlowNodes published))).
  { apply (bool_decide_eq_true_1 (NoDup _)). vm_compute. reflexivity. }
  assert (Hl : NoDup (layoutColumns (parsePosicaoV2 publishedDoc))).
  { apply (bool_decide_eq_true_1 (NoDup _)). vm_compute. reflexivity. }
  split; [exact Hb|]. split; [exact Hl|].
  exact (distribution_places_every_step_once 0 _ _ Hb Hl).
Defined.

(** ** Reading a fetched row *)

(** A cell that is not blank always decodes, and the step is filed under
    the upper-cased name of the column read. *)
Lemma parseColumnValue_filed (uuid : nat -> string) (v key : string) (n : nat) :
  if Js.isEmpty (Js.trim v)
  then fst (parseColumnValue uuid (Some v) key n) = None
  else exists b, fst (parseColumnValue uuid (Some v) key n) = Some b
                 /\ storedColumn b = Some (Js.toUpperCase key).
Proof.
  unfold parseColumnValue. destruct (Js.isEmpty (Js.trim v)); [reflexivity|].
  unfold gbind.
  pose proof (decodePayload_column uuid (Js.trim v)
                (NodeData.init "" (Some (Js.toUpperCase key))) n) as Hc.
  destruct (decodePayload uuid (Js.trim v) _ n) as [[ty d] n']. cbn [fst snd] in Hc.
  unfold uuidv4, gret. cbn [fst]. eexists. split; [reflexivity|].
  unfold storedColumn. cbn [BubbleData.data]. exact Hc.
Qed.

Lemma parseTColumn_filed (uuid : nat -> string) (v key : string) (n : nat) :
  if Js.isEmpty (Js.trim v)
  then fst (parseTColumn uuid (Some v) key n) = None
  else exists b, fst (parseTColumn uuid (Some v) key n) = Some b
                 /\ storedColumn b = Some (Js.toUpperCase key)
                 /\ BubbleData.type b = Ntime.
Proof.
  unfold parseTColumn. destruct (Js.isEmpty (Js.trim v)); [reflexivity|].
  unfold gbind, uuidv4, gret. cbn [fst]. eexists. split; [reflexivity|].
  split; reflexivity.
Qed.

Lemma readCells_spec {X} (parse : option string -> string -> Gen (option BubbleData.t))
    (letter : string) (row : SupabaseRow) (P : BubbleData.t -> X -> Prop)
    (src : string -> option X) (indexes : list nat) :
  (forall i, i ∈ indexes ->
     match src (letter ++ Js.natToString i)%string with
     | Some x =>
         exists v, Js.truthy (cell row (letter ++ Js.natToString i)%string) = Some v
           /\ forall n, exists b,
                fst (parse (Some v) (letter ++ Js.natToString i)%string n) = Some b
                /\ P b x
     | None =>
         Js.truthy (cell row (letter ++ Js.natToString i)%string) = None
         \/ exists v, Js.truthy (cell row (letter ++ Js.natToString i)%string) = Some v
              /\ forall n, fst (parse (Some v) (letter ++ Js.natToString i)%string n)
                           = None
     end) ->
  forall bubbles n, exists new,
    fst (readCells parse letter row indexes bubbles n) = bubbles ++ new
    /\ Forall2 P new
         (omap src (List.map (fun i => (letter ++ Js.natToString i)%string) indexes)).
Proof.
  induction indexes as [|i rest IH]; intros H bubbles n.
  - exists []. split; [now rewrite app_nil_r|constructor].
  - assert (Hrest : forall j, j ∈ rest ->
               match src (letter ++ Js.natToString j)%string with
               | Some x =>
                   exists v, Js.truthy (cell row (letter ++ Js.natToString j)%string)
                             = Some v
                     /\ forall n, exists b,
                          fst (parse (Some v) (letter ++ Js.natToString j)%string n)
                          = Some b /\ P b x
               | None =>
                   Js.truthy (cell row (letter ++ Js.natToString j)%string) = None
                   \/ exists v,
                        Js.truthy (cell row (letter ++ Js.natToString j)%string)
                        = Some v
                        /\ forall n,
                             fst (parse (Some v)
                                    (letter ++ Js.natToString j)%string n) = None
               end)
      by (intros j Hj; apply H; now apply list_elem_of_further).
    specialize (H i (list_elem_of_here _ _)).
    cbn [readCells List.map omap list_omap].
    destruct (src (letter ++ Js.natToString i)%string) as [x|].
    + destruct H as (v & -> & Hp). unfold gbind.
      destruct (Hp n) as (b & Hb & HP).
      destruct (parse (Some v) _ n) as [ob n']. cbn [fst] in Hb. subst ob.
      destruct (IH Hrest (bubbles ++ [b]) n') as (new & -> & Hnew).
      exists (b :: new). split; [now rewrite <- app_assoc|now constructor].
    + destruct H as [-> | (v & -> & Hp)].
      * apply (IH Hrest).
      * unfold gbind. specialize (Hp n).
        destruct (parse (Some v) _ n) as [ob n']. cbn [fst] in Hp. subst ob.
        apply (IH Hrest).
Qed.

Lemma omap_as_filter {A} (p : A -> bool) (l : list A) :
  omap (fun a => if p a then Some a else None) l = List.filter p l.
Proof.
  induction l as [|a l IH]; [reflexivity|].
  cbn [omap list_omap List.filter]. destruct (p a); now rewrite IH.
Qed.

Lemma Forall2_columns (l : list BubbleData.t) (keys : list string) :
  Forall2 (fun b key => storedColumn b = Some key) l keys ->
  List.map storedColumn l = List.map Some keys.
Proof. induction 1; [reflexivity|]. cbn [List.map]. now f_equal. Qed.

Lemma upper_buildColumn (k : ColumnKind) (i : nat) :
  Js.toUpperCase (buildColumn k i) = buildColumn k i.
Proof.
  unfold buildColumn. cbn [Js.toUpperCase].
  rewrite (toUpperCase_digits _ (natToString_allDigits i)). now destruct k.
Qed.

Lemma slotKeys_NoDup : NoDup slotKeys.
Proof. apply (bool_decide_eq_true_1 (NoDup _)). vm_compute. reflexivity. Qed.

Lemma filter_NoDup {A} (p : A -> bool) (l : list A) :
  NoDup l -> NoDup (List.filter p l).
Proof. intros H. now apply NoDup_ListNoDup, List.NoDup_filter, NoDup_ListNoDup. Qed.

(** What one fetch reads off the slot cells of a row. *)
Lemma fetched_cells (uuid : nat -> string) (row : SupabaseRow) (n : nat) :
  exists ms ts,
    pf_bubbles (fst (parseSupabaseRow uuid row n)) = ms ++ ts
    /\ pf_stepCount (fst (parseSupabaseRow uuid row n)) = List.length (ms ++ ts)
    /\ Forall2 (fun b key => storedColumn b = Some key) ms
         (List.filter (filledCell row) (List.map (buildColumn M) (seq 1 COLUMN_LIMIT)))
    /\ Forall2 (fun b key => storedColumn b = Some key /\ BubbleData.type b = Ntime)
         ts
         (List.filter (filledCell row) (List.map (buildColumn T) (seq 1 COLUMN_LIMIT))).
Proof.
  unfold parseSupabaseRow, gbind.
  destruct (readCells_spec (parseColumnValue uuid) "M" row
              (fun b key => storedColumn b = Some key)
              (fun key => if filledCell row key then Some key else None)
              (seq 1 50)) with (bubbles := @nil BubbleData.t) (n := n)
    as (ms & Hms & HM).
  { intros i _. change ("M" ++ Js.natToString i)%string with (buildColumn M i).
    unfold filledCell. destruct (cell row (buildColumn M i)) as [v|]; [|now left].
    cbn [Js.truthy]. destruct (Js.isEmpty v) eqn:Ev.
    - destruct v; [|discriminate]. now left.
    - destruct (Js.isEmpty (Js.trim v)) eqn:Et; cbn [negb].
      + right. exists v. split; [reflexivity|]. intros m.
        pose proof (parseColumnValue_filed uuid v (buildColumn M i) m) as Hp.
        now rewrite Et in Hp.
      + exists v. split; [reflexivity|]. intros m.
        pose proof (parseColumnValue_filed uuid v (buildColumn M i) m) as Hp.
        rewrite Et, upper_buildColumn in Hp. exact Hp. }
  destruct (readCells _ "M" row _ _ n) as [ms0 n1]. cbn [fst app] in Hms. subst ms0.
  destruct (readCells_spec (parseTColumn uuid) "T" row
              (fun b key => storedColumn b = Some key /\ BubbleData.type b = Ntime)
              (fun key => if filledCell row key then Some key else None)
              (seq 1 50)) with (bubbles := ms) (n := n1)
    as (ts & Hts & HT).
  { intros i _. change ("T" ++ Js.natToString i)%string with (buildColumn T i).
    unfold filledCell. destruct (cell row (buildColumn T i)) as [v|]; [|now left].
    cbn [Js.truthy]. destruct (Js.isEmpty v) eqn:Ev.
    - destruct v; [|discriminate]. now left.
    - destruct (Js.isEmpty (Js.trim v)) eqn:Et; cbn [negb].
      + right. exists v. split; [reflexivity|]. intros m.
        pose proof (parseTColumn_filed uuid v (buildColumn T i) m) as Hp.
        now rewrite Et in Hp.
      + exists v. split; [reflexivity|]. intros m.
        pose proof (parseTColumn_filed uuid v (buildColumn T i) m) as Hp.
        rewrite Et, upper_buildColumn in Hp. exact Hp. }
  destruct (readCells _ "T" row _ _ n1) as [ts0 n2]. cbn [fst] in Hts. subst ts0.
  exists ms, ts. unfold gret. cbn [fst pf_bubbles pf_stepCount].
  split; [reflexivity|]. split; [reflexivity|].
  rewrite omap_as_filter in HM, HT. split; [exact HM|exact HT].
Qed.

Lemma cells_in_order (row : SupabaseRow) (ms ts : list BubbleData.t) :
  Forall2 (fun b key => storedColumn b = Some key) ms
    (List.filter (filledCell row) (List.map (buildColumn M) (seq 1 COLUMN_LIMIT))) ->
  Forall2 (fun b key => storedColumn b = Some key /\ BubbleData.type b = Ntime) ts
    (List.filter (filledCell row) (List.map (buildColumn T) (seq 1 COLUMN_LIMIT))) ->
  List.map storedColumn (ms ++ ts)
  = List.map Some (List.filter (filledCell row) slotKeys).
Proof.
  intros HM HT. unfold slotKeys. rewrite List.filter_app, !List.map_app. f_equal.
  - now apply Forall2_columns.
  - apply Forall2_columns. eapply Forall2_impl; [exact HT|]. now intros b key [H _].
Qed.

Lemma NoDup_map_Some {A} (l : list A) : NoDup l -> NoDup (List.map Some l).
Proof. intros H. apply NoDup_fmap_2; [apply _|exact H]. Qed.

Lemma slotKeys_length : List.length slotKeys = 100.
Proof. vm_compute. reflexivity. Qed.

(** X11 — Whatever a row holds, fetching it yields exactly one step for
    each slot cell that holds a non-blank string, filed under that
    cell's column, the [M] cells first and each kind in index order; a
    step read from a [T] cell is a timer.  So the fetched steps have
    distinct columns and there are at most 100 of them. *)
Theorem fetched_steps_follow_the_cells (uuid : nat -> string)
    (row : SupabaseRow) (n : nat) :
  let flow := fst (parseSupabaseRow uuid row n) in
  List.map storedColumn (pf_bubbles flow)
  = List.map Some (List.filter (filledCell row) slotKeys)
  /\ (forall b i, b ∈ pf_bubbles flow -> storedColumn b = Some (buildColumn T i) ->
                  BubbleData.type b = Ntime)
  /\ NoDup (List.map storedColumn (pf_bubbles flow))
  /\ pf_stepCount flow = List.length (pf_bubbles flow)
  /\ pf_stepCount flow <= 100.
Proof.
  cbv zeta.
  destruct (fetched_cells uuid row n) as (ms & ts & -> & -> & HM & HT).
  pose proof (cells_in_order row ms ts HM HT) as Hcols.
  split; [exact Hcols|]. split; [|split; [|split; [reflexivity|]]].
  - intros b i Hin Hc. apply elem_of_app in Hin as [Hin|Hin].
    + exfalso. apply list_elem_of_lookup in Hin as [j Hj].
      destruct (Forall2_lookup_l _ _ _ _ _ HM Hj) as (key & Hkey & Hs).
      apply list_elem_of_lookup_2, list_elem_of_In, List.filter_In in Hkey as [Hkey _].
      apply List.in_map_iff in Hkey as (i' & <- & _).
      rewrite Hc in Hs. apply (inj Some), buildColumn_inj in Hs as [Hk _].
      discriminate.
    + apply list_elem_of_lookup in Hin as [j Hj].
      now destruct (Forall2_lookup_l _ _ _ _ _ HT Hj) as (key & _ & _ & Hty).
  - rewrite Hcols. apply NoDup_map_Some, filter_NoDup, slotKeys_NoDup.
  - rewrite <- (List.length_map storedColumn), Hcols, List.length_map.
    etransitivity; [apply List.filter_length_le|]. now rewrite slotKeys_length.
Qed.

(** ** Publishing a row and fetching it back *)

Lemma nullIfAbsent_cell (col : string) (row : SupabaseRow) (key : string) :
  cell (nullIfAbsent col row) key = cell row key.
Proof.
  unfold nullIfAbsent, cell, SupabaseRow in *.
  destruct (row !! col) eqn:E; [reflexivity|].
  destruct (decide (key = col)) as [->|Hne].
  - now rewrite lookup_insert_eq, E.
  - now rewrite lookup_insert_ne by congruence.
Qed.

Lemma fill_cells (indexes : list nat) (row : SupabaseRow) (key : string) :
  cell (fold_left
          (fun (rowData : SupabaseRow) i =>
             let mCol := Js.toUpperCase (buildColumn M i) in
             let tCol := Js.toUpperCase (buildColumn T i) in
             nullIfAbsent tCol (nullIfAbsent mCol rowData))
          indexes row) key
  = cell row key.
Proof.
  revert row. induction indexes as [|i rest IH]; intros row; [reflexivity|].
  cbn [fold_left]. rewrite IH. cbv zeta. now rewrite !nullIfAbsent_cell.
Qed.

Lemma stored_unique (steps : list BubbleData.t) (b b' : BubbleData.t) :
  NoDup (List.map storedColumn steps) -> b ∈ steps -> b' ∈ steps ->
  storedColumn b = storedColumn b' -> b = b'.
Proof.
  intros Hnd Hb Hb' E.
  apply list_elem_of_lookup in Hb as [i Hi]. apply list_elem_of_lookup in Hb' as [j Hj].
  assert (i = j) as ->; [|congruence].
  apply (NoDup_lookup _ i j (storedColumn b) Hnd).
  - now rewrite list_lookup_fmap, Hi.
  - now rewrite list_lookup_fmap, Hj, E.
Qed.

Lemma find_stored (steps : list BubbleData.t) (key : string) (b : BubbleData.t) :
  List.find (fun b => bool_decide (storedColumn b = Some key)) steps = Some b ->
  b ∈ steps /\ storedColumn b = Some key.
Proof.
  intros H. apply List.find_some in H as [Hin H].
  split; [now apply list_elem_of_In|now apply bool_decide_eq_true_1 in H].
Qed.

Lemma find_stored_of (steps : list BubbleData.t) (key : string) (b : BubbleData.t) :
  NoDup (List.map storedColumn steps) -> b ∈ steps -> storedColumn b = Some key ->
  List.find (fun b => bool_decide (storedColumn b = Some key)) steps = Some b.
Proof.
  intros Hnd Hin Hc.
  destruct (List.find _ steps) as [b'|] eqn:E.
  - apply find_stored in E as [Hin' Hc'].
    f_equal. apply (stored_unique steps); auto. congruence.
  - exfalso. apply list_elem_of_In in Hin.
    pose proof (List.find_none _ _ E b Hin) as H. cbv beta in H.
    now rewrite (bool_decide_eq_true_2 _ Hc) in H.
Qed.

(** The cells the steps write: each step's payload under its column. *)
Lemma step_cells (availableFlows : list FlowRef) (steps : list BubbleData.t)
    (row0 : SupabaseRow) (key : string) :
  Forall storesOwnSlot steps -> NoDup (List.map storedColumn steps) ->
  cell (fold_left
          (fun (rowData : SupabaseRow) bubble =>
             match NodeData.supabaseColumn (BubbleData.data bubble) with
             | Some col =>
                 <[ Js.toUpperCase col :=
                      Some (buildSupabaseValueForBubble availableFlows bubble) ]>
                   rowData
             | None => rowData
             end)
          steps row0) key
  = match List.find (fun b => bool_decide (storedColumn b = Some key)) steps with
    | Some b => Some (buildSupabaseValueForBubble availableFlows b)
    | None => cell row0 key
    end.
Proof.
  revert row0. induction steps as [|b bs IH]; intros row0 Hs Hnd; [reflexivity|].
  apply Forall_cons in Hs as [(i & Hi & Hc) Hs].
  cbn [List.map] in Hnd. apply NoDup_cons in Hnd as [Hb Hnd].
  cbn [fold_left List.find]. rewrite (IH _ Hs Hnd).
  pose proof Hc as Hc0. unfold storedColumn in Hc0.
  rewrite Hc0, upper_buildColumn, Hc. rewrite Hc in Hb.
  set (col := buildColumn (getColumnKindForBubble (BubbleData.type b)) i) in *.
  unfold SupabaseRow in *.
  destruct (decide (Some col = Some key)) as [E|E].
  - rewrite (bool_decide_eq_true_2 _ E).
    destruct (List.find _ bs) as [b'|] eqn:Ef.
    + exfalso. apply find_stored in Ef as [Hin Hc']. apply Hb.
      apply list_elem_of_fmap. exists b'. split; [congruence|exact Hin].
    + unfold cell, SupabaseRow. assert (col = key) as -> by congruence.
      now rewrite lookup_insert_eq.
  - rewrite (bool_decide_eq_false_2 _ E).
    destruct (List.find _ bs); [reflexivity|].
    unfold cell, SupabaseRow. rewrite lookup_insert_ne by congruence. reflexivity.
Qed.

Lemma own_slot_reads (b : BubbleData.t) :
  storesOwnSlot b ->
  currentNormalized b = storedColumn b
  /\ exists col, Js.truthy (storedColumn b) = Some col /\ is_Some (parseColumn col).
Proof.
  intros (i & Hi & Hc). unfold storedColumn in *.
  destruct (current_of_stored b _ i Hc Hi) as [Hs Hcur]. split; [congruence|].
  rewrite Hc. eexists. split; [reflexivity|].
  rewrite (parseColumn_buildColumn _ i Hi). eauto.
Qed.

Lemma own_slots_no_duplicates (steps : list BubbleData.t) :
  Forall storesOwnSlot steps -> NoDup (List.map storedColumn steps) ->
  detectDuplicateColumns steps = [].
Proof.
  intros Hs Hnd. apply no_duplicates_iff.
  apply (NoDup_fmap_1 Some).
  replace (Some <$> omap currentNormalized steps) with (List.map storedColumn steps);
    [exact Hnd|].
  clear Hnd. induction Hs as [|b bs Hb _ IH]; [reflexivity|].
  destruct (own_slot_reads b Hb) as [Hc (col & Ht & _)].
  cbn [List.map omap list_omap]. rewrite Hc.
  destruct (storedColumn b) as [c|]; [|discriminate].
  cbn [fmap list_fmap]. f_equal. exact IH.
Qed.

Lemma slot_key_cases (key : string) :
  key ∈ slotKeys ->
  exists k i, 1 <= i <= COLUMN_LIMIT /\ key = buildColumn k i.
Proof.
  unfold slotKeys. intros H. apply elem_of_app in H as [H|H];
    apply list_elem_of_In, List.in_map_iff in H as (i & <- & Hi);
    apply List.in_seq in Hi; eexists _, i; (split; [lia|reflexivity]).
Qed.

(** The row of a publishable flow, cell by cell. *)
Lemma published_row (availableFlows : list FlowRef)
    (grupo fluxo updatedAtIso posicaoStr : string) (blkStr : option string)
    (nodes : list FlowNode.t) :
  let steps := getAllBubblesFromFlowNodes nodes in
  steps <> [] -> Forall storesOwnSlot steps ->
  NoDup (List.map storedColumn steps) ->
  exists row,
    publishRow availableFlows grupo fluxo updatedAtIso posicaoStr blkStr nodes
    = inr row
    /\ (forall k i,
          cell row (buildColumn k i)
          = option_map (buildSupabaseValueForBubble availableFlows)
              (List.find (fun b => bool_decide (storedColumn b = Some (buildColumn k i)))
                         steps))
    /\ cell row "POSICAO" = Js.truthy (Some posicaoStr)
    /\ cell row "BLK" = blkStr
    /\ cell row "GRUPO" = Some grupo
    /\ cell row "FLUXO" = Some fluxo.
Proof.
  intros steps Hne Hs Hnd. unfold publishRow, SupabaseRow in *. fold steps.
  destruct steps as [|b0 bs] eqn:Est; [contradiction|]. cbn [List.length Nat.eqb].
  rewrite <- Est in *. clear Est b0 bs Hne.
  rewrite (own_slots_no_duplicates steps Hs Hnd).
  assert (Hg : forallb
                 (fun b =>
                    match Js.truthy (NodeData.supabaseColumn (BubbleData.data b)) with
                    | Some col => bool_decide (is_Some (parseColumn col))
                    | None => false
                    end) steps = true).
  { apply forallb_forall. intros b Hb. apply list_elem_of_In in Hb.
    rewrite Forall_forall in Hs.
    destruct (own_slot_reads b (Hs b Hb)) as [_ (col & Ht & Hp)].
    unfold storedColumn in Ht. rewrite Ht. now apply bool_decide_eq_true_2. }
  rewrite Hg. eexists. split; [reflexivity|].
  assert (Hother : forall key,
             (forall b, b ∈ steps -> storedColumn b <> Some key) ->
             List.find (fun b => bool_decide (storedColumn b = Some key)) steps = None).
  { intros key Hk. destruct (List.find _ steps) as [b|] eqn:E; [|reflexivity].
    apply find_stored in E as [Hin Hc]. now destruct (Hk b Hin). }
  assert (Hfixed : forall key, (forall k i, key <> buildColumn k i) ->
             List.find (fun b => bool_decide (storedColumn b = Some key)) steps = None).
  { intros key Hk. apply Hother. intros b Hb Hc.
    rewrite Forall_forall in Hs. destruct (Hs b Hb) as (i & _ & Hc').
    rewrite Hc' in Hc. apply (inj Some) in Hc. exact (Hk _ i (eq_sym Hc)). }
  split; [|repeat split].
  - intros k i. rewrite fill_cells, (step_cells availableFlows steps _ _ Hs Hnd).
    destruct (List.find _ steps); [reflexivity|].
    unfold cell, SupabaseRow. rewrite !lookup_insert_ne by (destruct k; discriminate).
    now rewrite lookup_empty.
  - rewrite fill_cells, (step_cells availableFlows steps _ _ Hs Hnd).
    rewrite Hfixed by (intros [] i; discriminate).
    unfold cell, SupabaseRow. rewrite lookup_insert_ne by discriminate.
    rewrite lookup_insert_eq. now destruct (Js.truthy (Some posicaoStr)).
  - rewrite fill_cells, (step_cells availableFlows steps _ _ Hs Hnd).
    rewrite Hfixed by (intros [] i; discriminate).
    unfold cell, SupabaseRow. rewrite lookup_insert_eq. now destruct blkStr.
  - rewrite fill_cells, (step_cells availableFlows steps _ _ Hs Hnd).
    rewrite Hfixed by (intros [] i; discriminate).
    unfold cell, SupabaseRow. rewrite !lookup_insert_ne by discriminate.
    now rewrite lookup_insert_eq.
  - rewrite fill_cells, (step_cells availableFlows steps _ _ Hs Hnd).
    rewrite Hfixed by (intros [] i; discriminate).
    unfold cell, SupabaseRow. rewrite !lookup_insert_ne by discriminate.
    now rewrite lookup_insert_eq.
Qed.

(** The codec on one cell: what the encoder writes for a well-formed
    step decodes to the step. *)
Lemma codec_cell (availableFlows : list FlowRef) (uuid : nat -> string)
    (columnName : string) (n : nat) (b : BubbleData.t) :
  wellFormedPayload availableFlows b = true ->
  decodesTo
    (fst (parseColumnValue uuid
            (Some (buildSupabaseValueForBubble availableFlows b)) columnName n))
    b columnName.
Proof.
  intros Hwf.
  destruct (BubbleData.type b) eqn:Hk;
    try (exfalso; unfold wellFormedPayload in Hwf; rewrite Hk in Hwf;
         discriminate Hwf).
  - now apply message_symmetry.
  - now apply utm_symmetry.
  - now apply message_time_symmetry.
  - apply media_symmetry; auto.
  - apply captioned_symmetry; auto.
  - apply media_time_symmetry; auto.
  - apply media_symmetry; auto.
  - apply captioned_symmetry; auto.
  - apply media_time_symmetry; auto.
  - apply media_symmetry; auto.
  - now apply time_symmetry.
  - apply tag_symmetry; auto.
  - now apply hook_symmetry.
  - apply tag_symmetry; auto.
  - now apply reminder_symmetry.
Qed.

Lemma decoded_cell_truthy (uuid : nat -> string) (v key : string) (n : nat)
    (b : BubbleData.t) :
  decodesTo (fst (parseColumnValue uuid (Some v) key n)) b key
  \/ decodesTo (fst (parseTColumn uuid (Some v) key n)) b key ->
  Js.truthy (Some v) = Some v.
Proof.
  destruct v; [|reflexivity].
  intros [(b' & H & _)|(b' & H & _)]; discriminate H.
Qed.

Lemma timer_of_kind (ty : NodeType) : getColumnKindForBubble ty = T -> ty = Ntime.
Proof.
  unfold getColumnKindForBubble, isTimeBubble.
  destruct (bool_decide (ty = Ntime)) eqn:E; [|discriminate].
  intros _. now apply bool_decide_eq_true_1 in E.
Qed.

Lemma decodesTo_sameStep (ob : option BubbleData.t) (b : BubbleData.t) (k : ColumnKind)
    (i : nat) :
  storedColumn b = Some (buildColumn k i) ->
  decodesTo ob b (buildColumn k i) ->
  exists b', ob = Some b' /\ sameStep b' b.
Proof.
  intros Hc (b' & -> & Hty & Hp & Hcol). exists b'. split; [reflexivity|].
  unfold sameStep, storedColumn in *. rewrite Hcol, upper_buildColumn, Hc. auto.
Qed.

(** Fetching a row whose slot cells hold the encoded steps. *)
Lemma fetched_of_published (availableFlows : list FlowRef) (uuid : nat -> string)
    (row : SupabaseRow) (steps : list BubbleData.t) (n : nat) :
  Forall storesOwnSlot steps ->
  Forall (fun b => wellFormedPayload availableFlows b = true) steps ->
  (forall k i,
     cell row (buildColumn k i)
     = option_map (buildSupabaseValueForBubble availableFlows)
         (List.find (fun b => bool_decide (storedColumn b = Some (buildColumn k i)))
                    steps)) ->
  Forall2 sameStep (pf_bubbles (fst (parseSupabaseRow uuid row n))) (bySlot steps).
Proof.
  intros Hs Hwf Hcell. rewrite Forall_forall in Hs, Hwf.
  unfold parseSupabaseRow, gbind.
  destruct (readCells_spec (parseColumnValue uuid) "M" row sameStep
              (fun key => List.find (fun b => bool_decide (storedColumn b = Some key))
                                    steps)
              (seq 1 50)) with (bubbles := @nil BubbleData.t) (n := n)
    as (ms & Hms & HM).
  { intros i _. change ("M" ++ Js.natToString i)%string with (buildColumn M i).
    rewrite (Hcell M i).
    destruct (List.find _ steps) as [b|] eqn:Ef; [|now left].
    apply find_stored in Ef as [Hin Hc]. cbn [option_map].
    pose proof (fun m => codec_cell availableFlows uuid (buildColumn M i) m b
                           (Hwf b Hin)) as Hd.
    exists (buildSupabaseValueForBubble availableFlows b). split.
    - apply (decoded_cell_truthy uuid _ (buildColumn M i) 0 b). left. apply Hd.
    - intros m. exact (decodesTo_sameStep _ b M i Hc (Hd m)). }
  destruct (readCells _ "M" row _ _ n) as [ms0 n1]. cbn [fst app] in Hms. subst ms0.
  destruct (readCells_spec (parseTColumn uuid) "T" row sameStep
              (fun key => List.find (fun b => bool_decide (storedColumn b = Some key))
                                    steps)
              (seq 1 50)) with (bubbles := ms) (n := n1)
    as (ts & Hts & HT).
  { intros i _. change ("T" ++ Js.natToString i)%string with (buildColumn T i).
    rewrite (Hcell T i).
    destruct (List.find _ steps) as [b|] eqn:Ef; [|now left].
    apply find_stored in Ef as [Hin Hc]. cbn [option_map].
    assert (Hty : BubbleData.type b = Ntime).
    { destruct (Hs b Hin) as (j & _ & Hc'). rewrite Hc' in Hc.
      apply (inj Some), buildColumn_inj in Hc as [Hk _]. now apply timer_of_kind. }
    pose proof (fun m => proj2 (time_symmetry availableFlows uuid (buildColumn T i) m b
                                  Hty (Hwf b Hin))) as Hd.
    exists (buildSupabaseValueForBubble availableFlows b). split.
    - apply (decoded_cell_truthy uuid _ (buildColumn T i) 0 b). right. apply Hd.
    - intros m. exact (decodesTo_sameStep _ b T i Hc (Hd m)). }
  destruct (readCells _ "T" row _ _ n1) as [ts0 n2]. cbn [fst] in Hts. subst ts0.
  unfold gret. cbn [fst pf_bubbles]. unfold bySlot, slotKeys.
  rewrite omap_app. apply Forall2_app; [exact HM|exact HT].
Qed.

Lemma fetched_header (uuid : nat -> string) (row : SupabaseRow) (n : nat) :
  let flow := fst (parseSupabaseRow uuid row n) in
  pf_posicao flow = cell row "POSICAO" /\ pf_blk flow = cell row "BLK"
  /\ pf_grupo flow = match Js.truthy (cell row "GRUPO") with
                     | Some s => s | None => "Sem Grupo"%string end
  /\ pf_fluxo flow = match Js.truthy (cell row "FLUXO") with
                     | Some s => s | None => "Sem Nome"%string end.
Proof.
  unfold parseSupabaseRow, gbind.
  destruct (readCells _ "M" row _ _ n) as [ms n1].
  destruct (readCells _ "T" row _ _ n1) as [ts n2].
  unfold gret. cbn [fst pf_posicao pf_blk pf_grupo pf_fluxo]. auto.
Qed.

Lemma slot_key_in (k : ColumnKind) (i : nat) :
  1 <= i <= COLUMN_LIMIT -> buildColumn k i ∈ slotKeys.
Proof.
  intros Hi. unfold slotKeys. apply elem_of_app.
  destruct k; [left|right]; apply list_elem_of_In, List.in_map, List.in_seq; lia.
Qed.

(** Ordering the steps by column loses none of them. *)
Lemma bySlot_perm (steps : list BubbleData.t) :
  Forall storesOwnSlot steps -> NoDup (List.map storedColumn steps) ->
  bySlot steps ≡ₚ steps.
Proof.
  intros Hs Hnd. rewrite Forall_forall in Hs. apply NoDup_Permutation.
  - unfold bySlot. apply NoDup_omap_positions. intros i j x y s Hi Hj Hx Hy.
    apply find_stored in Hx as [_ Hx]. apply find_stored in Hy as [_ Hy].
    apply (NoDup_lookup slotKeys i j x slotKeys_NoDup Hi). congruence.
  - now apply (NoDup_fmap_1 storedColumn).
  - intros b. unfold bySlot. rewrite list_elem_of_omap. split.
    + intros (key & _ & Hf). now apply find_stored in Hf.
    + intros Hin. destruct (Hs b Hin) as (i & Hi & Hc).
      exists (buildColumn (getColumnKindForBubble (BubbleData.type b)) i).
      split; [now apply slot_key_in|]. now apply find_stored_of.
Qed.

(** X12 — Publishing then fetching gives the steps back.  For a flow
    with at least one step, in which every step stores a slot of its own
    kind under its [buildColumn] name, no two steps store the same
    column and every payload is well formed, [handlePublish] builds a
    row, and fetching that row yields, in the order M1..M50 then
    T1..T50, one step for each step of the flow, of the same kind, with
    the same payload, under the same column; the snapshot and notes
    cells and the two names are read back as written. *)
Theorem publish_then_fetch (availableFlows : list FlowRef) (uuid : nat -> string)
    (grupo fluxo updatedAtIso posicaoStr : string) (blkStr : option string)
    (nodes : list FlowNode.t) (n : nat) :
  let steps := getAllBubblesFromFlowNodes nodes in
  steps <> [] -> Forall storesOwnSlot steps ->
  NoDup (List.map storedColumn steps) ->
  Forall (fun b => wellFormedPayload availableFlows b = true) steps ->
  exists row,
    publishRow availableFlows grupo fluxo updatedAtIso posicaoStr blkStr nodes
    = inr row
    /\ let flow := fst (parseSupabaseRow uuid row n) in
       Forall2 sameStep (pf_bubbles flow) (bySlot steps)
       /\ bySlot steps ≡ₚ steps
       /\ pf_posicao flow = Js.truthy (Some posicaoStr)
       /\ pf_blk flow = blkStr
       /\ pf_grupo flow = Js.orElse grupo "Sem Grupo"
       /\ pf_fluxo flow = Js.orElse fluxo "Sem Nome".
Proof.
  intros steps Hne Hs Hnd Hwf.
  destruct (published_row availableFlows grupo fluxo updatedAtIso posicaoStr blkStr
              nodes Hne Hs Hnd) as (row & Hrow & Hcell & Hp & Hb & Hg & Hf).
  exists row. split; [exact Hrow|]. cbv zeta.
  destruct (fetched_header uuid row n) as (Ep & Eb & Eg & Ef).
  split; [now apply (fetched_of_published availableFlows)|].
  split; [now apply bySlot_perm|].
  rewrite Ep, Eb, Eg, Ef, Hp, Hb, Hg, Hf.
  repeat split; unfold Js.orElse; cbn [Js.truthy];
    match goal with |- context [Js.isEmpty ?s] => now destruct (Js.isEmpty s) end.
Qed.

Lemma publish_then_fetch_witness :
  getAllBubblesFromFlowNodes published <> []
  /\ Forall storesOwnSlot (getAllBubblesFromFlowNodes published)
  /\ NoDup (List.map storedColumn (getAllBubblesFromFlowNodes published))
  /\ Forall (fun b => wellFormedPayload [] b = true)
            (getAllBubblesFromFlowNodes published)
  /\ exists row,
       publishRow [] "Vendas" "Boas vindas" "2024-01-01T00:00:00.000Z" "" None
                  published = inr row
       /\ Forall2 sameStep
            (pf_bubbles (fst (parseSupabaseRow Js.natToString row 0)))
            (bySlot (getAllBubblesFromFlowNodes published)).
Proof.
  assert (Hne : getAllBubblesFromFlowNodes published <> []) by discriminate.
  assert (Hs : Forall storesOwnSlot (getAllBubblesFromFlowNodes published)).
  { repeat apply List.Forall_cons; try apply List.Forall_nil;
      [exists 1|exists 1|exists 2]; (split; [unfold COLUMN_LIMIT; lia|reflexivity]). }
  assert (Hnd : NoDup (List.map storedColumn (getAllBubblesFromFlowNodes published)))
    by (apply (bool_decide_eq_true_1 (NoDup _)); vm_compute; reflexivity).
  assert (Hwf : Forall (fun b => wellFormedPayload [] b = true)
                       (getAllBubblesFromFlowNodes published))
    by (repeat apply List.Forall_cons; try apply List.Forall_nil; reflexivity).
  split; [exact Hne|]. split; [exact Hs|]. split; [exact Hnd|]. split; [exact Hwf|].
  destruct (publish_then_fetch [] Js.natToString "Vendas" "Boas vindas"
              "2024-01-01T00:00:00.000Z" "" None published 0 Hne Hs Hnd Hwf)
    as (row & Hrow & Hf & _).
  exists row. split; [exact Hrow|exact Hf].
Defined.

(** ** Publishing a flow and importing it back *)

(** The groups an import rebuilds from the snapshot of a flow, when the
    fetched steps carry the column names of the flow. *)
Lemma import_groups (nodes : list FlowNode.t) (edges0 : list FlowEdge.t)
    (viewport0 : option (Q * Q * Q)) (now : nat) (bubbles : list BubbleData.t)
    (doc : PosicaoV2) :
  NoDup (List.map FlowNode.id (List.filter isGroup nodes)) ->
  encodePosicaoV2 nodes edges0 viewport0 = Some doc ->
  (forall c, c ∈ columnNames bubbles
             <-> c ∈ columnNames (getAllBubblesFromFlowNodes nodes)) ->
  distributeBubblesByPosicaoV2 now bubbles (parsePosicaoV2 doc)
  = List.map
      (fun n =>
         mkDistributedGroup (FlowNode.id n)
           (inject_Z (mathRound (Position.x (FlowNode.position n))))
           (inject_Z (mathRound (Position.y (FlowNode.position n))))
           (Js.orElse (FlowNode.label n) "Group")
           (foundBubbles (bubbleByColumn bubbles)
                         (columnNames (FlowNode.bubblesOrEmpty n))))
      (List.filter isGroup nodes).
Proof.
  intros Hnd Henc Hcols.
  unfold encodePosicaoV2 in Henc.
  destruct (List.filter isGroup nodes) as [|n0 ns] eqn:Eg; [discriminate|].
  rewrite <- Eg in *.
  pose proof (encode_groups_fold (List.filter isGroup nodes) [] ∅) as Hfold.
  cbv zeta in Hfold. cbv zeta in Henc.
  destruct (fold_left _ (List.filter isGroup nodes) ([], ∅)) as [go1 g1].
  simpl in Hfold. destruct Hfold as (Hgo & Hg & _).
  injection Henc as <-.
  unfold parsePosicaoV2, distributeBubblesByPosicaoV2. simpl.
  rewrite Hgo, (parse_groups g1 _ (Hg Hnd)).
  set (byColumn := bubbleByColumn bubbles).
  set (pgs := List.map _ (List.filter isGroup nodes)).
  pose proof (distribute_fold byColumn pgs [] ∅) as Hd. cbv zeta in Hd.
  destruct (fold_left _ pgs ([], ∅)) as [result assigned].
  simpl in Hd. destruct Hd as [-> Hasg].
  assert (Hfound : forall c, c ∈ columnNames (getAllBubblesFromFlowNodes nodes) ->
                             is_Some (byColumn !! c)).
  { intros c Hc. apply (bubbleByColumn_spec bubbles c). now apply Hcols. }
  rewrite filter_none.
  - unfold pgs. rewrite List.map_map. reflexivity.
  - intros b Hb. fold (colName b). destruct (colName b) as [c|] eqn:Ec; [|reflexivity].
    apply negb_false_iff, bool_decide_eq_true. apply Hasg. right.
    assert (Hc : c ∈ columnNames (getAllBubblesFromFlowNodes nodes)).
    { apply Hcols. apply columnNames_elem. eauto. }
    pose proof (Hfound c Hc) as Hs.
    apply columnNames_of_flow in Hc as (n & Hn & Hc).
    exists (mkParsedGroupV2 (FlowNode.id n)
              (inject_Z (mathRound (Position.x (FlowNode.position n))))
              (inject_Z (mathRound (Position.y (FlowNode.position n))))
              (Js.orElse (FlowNode.label n) "Group")
              (columnNames (FlowNode.bubblesOrEmpty n))).
    split; [|split; [exact Hc|exact Hs]].
    unfold pgs. apply list_elem_of_In, in_map_iff. exists n.
    split; [reflexivity|now apply list_elem_of_In].
Qed.

Lemma colName_own (b : BubbleData.t) (k : ColumnKind) (i : nat) :
  storedColumn b = Some (buildColumn k i) -> colName b = Some (buildColumn k i).
Proof.
  unfold storedColumn, colName. intros ->. cbn [option_map].
  now rewrite upper_buildColumn.
Qed.

Lemma Forall2_members {A B} (P : A -> B -> Prop) (l : list A) (k : list B) (a : A) :
  Forall2 P l k -> a ∈ l -> exists b, b ∈ k /\ P a b.
Proof.
  intros H Hin. apply list_elem_of_lookup in Hin as [i Hi].
  destruct (Forall2_lookup_l _ _ _ _ _ H Hi) as (b & Hb & HP).
  exists b. split; [now apply list_elem_of_lookup_2 in Hb|exact HP].
Qed.

Lemma Forall2_members_r {A B} (P : A -> B -> Prop) (l : list A) (k : list B) (b : B) :
  Forall2 P l k -> b ∈ k -> exists a, a ∈ l /\ P a b.
Proof.
  intros H Hin. apply list_elem_of_lookup in Hin as [i Hi].
  destruct (Forall2_lookup_r _ _ _ _ _ H Hi) as (a & Ha & HP).
  exists a. split; [now apply list_elem_of_lookup_2 in Ha|exact HP].
Qed.

Lemma Forall2_map_eq {A B C} (f : A -> C) (g : B -> C) (l : list A) (k : list B) :
  Forall2 (fun a b => f a = g b) l k -> List.map f l = List.map g k.
Proof. induction 1; [reflexivity|]. cbn [List.map]. now f_equal. Qed.

(** The steps found under the columns of a group are the steps of the
    group again. *)
Lemma found_same (steps fetched bs : list BubbleData.t) :
  Forall storesOwnSlot steps -> NoDup (List.map storedColumn steps) ->
  (forall f, f ∈ fetched -> exists b, b ∈ steps /\ sameStep f b) ->
  (forall b, b ∈ steps -> exists f, f ∈ fetched /\ sameStep f b) ->
  (forall b, b ∈ bs -> b ∈ steps) ->
  Forall2 sameStep
    (foundBubbles (bubbleByColumn fetched) (columnNames bs)) bs.
Proof.
  intros Hs Hnd Hf Hb. rewrite Forall_forall in Hs.
  induction bs as [|b bs IH]; intros Hin; [constructor|].
  assert (Hbs : b ∈ steps) by (apply Hin; left).
  destruct (Hs b Hbs) as (i & Hi & Hc).
  set (c := buildColumn (getColumnKindForBubble (BubbleData.type b)) i) in *.
  rewrite columnNames_omap. cbn [omap list_omap].
  rewrite (colName_own b _ i Hc). fold c. rewrite <- columnNames_omap.
  unfold foundBubbles. cbn [omap list_omap]. fold (foundBubbles (bubbleByColumn fetched)).
  destruct (Hb b Hbs) as (f & Hfin & Hsame).
  assert (Hfc : colName f = Some c).
  { apply colName_own. destruct Hsame as (_ & _ & ->). exact Hc. }
  destruct (proj2 (bubbleByColumn_spec fetched c)) as [f' Hf'].
  { apply columnNames_elem. eauto. }
  rewrite Hf'. constructor; [|apply IH; intros b' Hb'; apply Hin; now right].
  destruct (byColumn_lookup fetched c f' Hf') as [Hin' Hc'].
  destruct (Hf f' Hin') as (b' & Hb' & Hsame').
  assert (b' = b) as <-; [|exact Hsame'].
  apply (stored_unique steps); auto.
  destruct Hsame' as (_ & _ & E). rewrite <- E, Hc.
  destruct (Hs b' Hb') as (j & _ & Hcj). rewrite <- E in Hcj.
  rewrite (colName_own f' _ j Hcj) in Hc'. unfold storedColumn in *. congruence.
Qed.

(** X13 — Publishing then importing gives the flow back.  For a flow
    with distinct group ids in which every step stores a slot of its own
    kind under its [buildColumn] name, no two steps store the same
    column and every payload is well formed: the row [handlePublish]
    builds, fetched and handed out over the snapshot of the flow, gives
    the groups of the flow in array order, each with its id, its
    position rounded to integers, its title (an empty one as "Group"),
    and for each of its steps, in order, a step of the same kind, with
    the same payload, under the same column. *)
Theorem publish_then_import (availableFlows : list FlowRef) (uuid : nat -> string)
    (grupo fluxo updatedAtIso posicaoStr : string) (blkStr : option string)
    (nodes : list FlowNode.t) (edges0 : list FlowEdge.t)
    (viewport0 : option (Q * Q * Q)) (doc : PosicaoV2) (n now : nat) :
  let steps := getAllBubblesFromFlowNodes nodes in
  NoDup (List.map FlowNode.id (List.filter isGroup nodes)) ->
  encodePosicaoV2 nodes edges0 viewport0 = Some doc ->
  steps <> [] -> Forall storesOwnSlot steps ->
  NoDup (List.map storedColumn steps) ->
  Forall (fun b => wellFormedPayload availableFlows b = true) steps ->
  exists row,
    publishRow availableFlows grupo fluxo updatedAtIso posicaoStr blkStr nodes
    = inr row
    /\ Forall2
         (fun grp node =>
            dg_groupId grp = FlowNode.id node
            /\ dg_x grp = inject_Z (mathRound (Position.x (FlowNode.position node)))
            /\ dg_y grp = inject_Z (mathRound (Position.y (FlowNode.position node)))
            /\ dg_title grp = Js.orElse (FlowNode.label node) "Group"
            /\ Forall2 sameStep (dg_bubbles grp) (FlowNode.bubblesOrEmpty node))
         (distributeBubblesByPosicaoV2 now
            (pf_bubbles (fst (parseSupabaseRow uuid row n)))
            (parsePosicaoV2 doc))
         (List.filter isGroup nodes).
Proof.
  intros steps Hgroups Henc Hne Hs Hnd Hwf.
  destruct (published_row availableFlows grupo fluxo updatedAtIso posicaoStr blkStr
              nodes Hne Hs Hnd) as (row & Hrow & Hcell & _).
  exists row. split; [exact Hrow|].
  pose proof (fetched_of_published availableFlows uuid row steps n Hs Hwf Hcell)
    as Hsame.
  pose proof (bySlot_perm steps Hs Hnd) as Hperm.
  set (fetched := pf_bubbles (fst (parseSupabaseRow uuid row n))) in *.
  assert (Hf : forall f, f ∈ fetched -> exists b, b ∈ steps /\ sameStep f b).
  { intros f Hin. destruct (Forall2_members _ _ _ f Hsame Hin) as (b & Hb & H).
    exists b. split; [now rewrite <- Hperm|exact H]. }
  assert (Hb : forall b, b ∈ steps -> exists f, f ∈ fetched /\ sameStep f b).
  { intros b Hin. rewrite <- Hperm in Hin.
    exact (Forall2_members_r _ _ _ b Hsame Hin). }
  assert (Hcols : forall c, c ∈ columnNames fetched
                            <-> c ∈ columnNames (getAllBubblesFromFlowNodes nodes)).
  { fold steps. pose proof Hs as Hs'. rewrite Forall_forall in Hs'.
    intros c. rewrite !columnNames_elem. split.
    - intros (f & Hin & Hc). destruct (Hf f Hin) as (b & Hbin & Hsm).
      exists b. split; [exact Hbin|].
      destruct (Hs' b Hbin) as (i & _ & Hcb). destruct Hsm as (_ & _ & E).
      rewrite <- E in Hcb. rewrite (colName_own f _ i Hcb) in Hc.
      rewrite E in Hcb. now rewrite (colName_own b _ i Hcb).
    - intros (b & Hin & Hc). destruct (Hb b Hin) as (f & Hfin & Hsm).
      exists f. split; [exact Hfin|].
      destruct (Hs' b Hin) as (i & _ & Hcb). destruct Hsm as (_ & _ & E).
      rewrite (colName_own b _ i Hcb) in Hc.
      rewrite <- E in Hcb. now rewrite (colName_own f _ i Hcb). }
  rewrite (import_groups nodes edges0 viewport0 now fetched doc Hgroups Henc Hcols).
  apply Forall2_fmap_l, Forall_Forall2_diag, Forall_forall.
  intros node Hnode. cbn [dg_groupId dg_x dg_y dg_title dg_bubbles].
  repeat split.
  apply (found_same steps); auto.
  intros b Hbin. unfold steps, getAllBubblesFromFlowNodes.
  apply list_elem_of_In, List.in_flat_map. exists node.
  apply list_elem_of_In, List.filter_In in Hnode as [Hnode Hg].
  split; [exact Hnode|]. apply bool_decide_eq_true_1 in Hg.
  rewrite decide_True by exact Hg. now apply list_elem_of_In.
Qed.

Lemma publish_then_import_witness :
  NoDup (List.map FlowNode.id (List.filter isGroup published))
  /\ encodePosicaoV2 published publishedEdges None = Some publishedDoc
  /\ getAllBubblesFromFlowNodes published <> []
  /\ Forall storesOwnSlot (getAllBubblesFromFlowNodes published)
  /\ NoDup (List.map storedColumn (getAllBubblesFromFlowNodes published))
  /\ Forall (fun b => wellFormedPayload [] b = true)
            (getAllBubblesFromFlowNodes published)
  /\ exists row,
       publishRow [] "Vendas" "Boas vindas" "2024-01-01T00:00:00.000Z" "" None
                  published = inr row
       /\ List.map dg_groupId
            (distributeBubblesByPosicaoV2 0
               (pf_bubbles (fst (parseSupabaseRow Js.natToString row 0)))
               (parsePosicaoV2 publishedDoc))
          = List.map FlowNode.id (List.filter isGroup published).
Proof.
  assert (Hg : NoDup (List.map FlowNode.id (List.filter isGroup published)))
    by (apply (bool_decide_eq_true_1 (NoDup _)); vm_compute; reflexivity).
  assert (He : encodePosicaoV2 published publishedEdges None = Some publishedDoc)
    by (vm_compute; reflexivity).
  assert (Hne : getAllBubblesFromFlowNodes published <> []) by discriminate.
  assert (Hs : Forall storesOwnSlot (getAllBubblesFromFlowNodes published)).
  { repeat apply List.Forall_cons; try apply List.Forall_nil;
      [exists 1|exists 1|exists 2]; (split; [unfold COLUMN_LIMIT; lia|reflexivity]). }
  assert (Hnd : NoDup (List.map storedColumn (getAllBubblesFromFlowNodes published)))
    by (apply (bool_decide_eq_true_1 (NoDup _)); vm_compute; reflexivity).
  assert (Hwf : Forall (fun b => wellFormedPayload [] b = true)
                       (getAllBubblesFromFlowNodes published))
    by (repeat apply List.Forall_cons; try apply List.Forall_nil; reflexivity).
  split; [exact Hg|]. split; [exact He|]. split; [exact Hne|]. split; [exact Hs|].
  split; [exact Hnd|]. split; [exact Hwf|].
  destruct (publish_then_import [] Js.natToString "Vendas" "Boas vindas"
              "2024-01-01T00:00:00.000Z" "" None published publishedEdges None
              publishedDoc 0 0 Hg He Hne Hs Hnd Hwf)
    as (row & Hrow & Hf).
  exists row. split; [exact Hrow|].
  apply Forall2_map_eq. eapply Forall2_impl; [exact Hf|].
  intros grp node [Hid _]. exact Hid.
Defined.

(** ** Manual slot assignment keeps the slots distinct *)

Lemma updateBubble_bubbles (nodes : list FlowNode.t) (g x : string) (d : NodeData.t) :
  Forall (onlyIn g x) nodes ->
  getAllBubblesFromFlowNodes (updateBubble nodes g x d None)
  = List.map
      (fun b => if bool_decide (BubbleData.id b = x)
                then BubbleData.mk (BubbleData.id b) (BubbleData.type b) d else b)
      (getAllBubblesFromFlowNodes nodes).
Proof.
  intros H. unfold getAllBubblesFromFlowNodes, updateBubble.
  induction H as [|n nodes Hn _ IH]; [reflexivity|].
  cbn [List.map flat_map]. rewrite List.map_app, IH. f_equal.
  unfold isGroup. destruct (decide (FlowNode.type n = group)) as [Hg|Hg].
  - rewrite (bool_decide_eq_true_2 _ Hg), andb_true_r.
    destruct (bool_decide (FlowNode.id n = g)) eqn:Eg.
    + change (FlowNode.type (FlowNode.withBubbles n ?bs)) with (FlowNode.type n).
      rewrite decide_True by exact Hg. reflexivity.
    + rewrite decide_True by exact Hg. apply bool_decide_eq_false_1 in Eg.
      symmetry. rewrite <- (List.map_id (FlowNode.bubblesOrEmpty n)) at 2.
      apply List.map_ext_in. intros b Hb. apply list_elem_of_In in Hb.
      now rewrite (bool_decide_eq_false_2 _ (Hn Eg Hg b Hb)).
  - rewrite (bool_decide_eq_false_2 _ Hg), andb_false_r.
    rewrite decide_False by exact Hg. reflexivity.
Qed.

Lemma omap_update_elem {A} (f : A -> option string) (upd : A -> A) (p : A -> bool)
    (c : string) (l : list A) (y : string) :
  (forall a, p a = false -> upd a = a) ->
  (forall a, p a = true -> f (upd a) = Some c) ->
  y ∈ omap f (List.map upd l) -> y = c \/ y ∈ omap f l.
Proof.
  intros Hid Hc Hy. apply list_elem_of_omap in Hy as (a' & Ha' & Hf).
  apply list_elem_of_In, List.in_map_iff in Ha' as (a & <- & Ha).
  destruct (p a) eqn:Ep.
  - left. rewrite (Hc a Ep) in Hf. congruence.
  - right. rewrite (Hid a Ep) in Hf. apply list_elem_of_omap.
    exists a. split; [now apply list_elem_of_In|exact Hf].
Qed.

(** Rewriting the one marked element of a list to a key no other
    element has keeps the keys distinct. *)
Lemma NoDup_omap_update {A} (f : A -> option string) (upd : A -> A) (p : A -> bool)
    (c : string) (l : list A) :
  NoDup (omap f l) ->
  (forall i j a b, l !! i = Some a -> l !! j = Some b ->
                   p a = true -> p b = true -> i = j) ->
  (forall a, p a = false -> upd a = a) ->
  (forall a, p a = true -> f (upd a) = Some c) ->
  (forall a, a ∈ l -> p a = false -> f a <> Some c) ->
  NoDup (omap f (List.map upd l)).
Proof.
  intros Hnd Hone Hid Hc Hfree. induction l as [|a l IH]; [constructor|].
  assert (Hnd' : NoDup (omap f l)).
  { cbn [omap list_omap] in Hnd. destruct (f a); [|exact Hnd].
    now apply NoDup_cons in Hnd as [_ Hnd]. }
  assert (Hone' : forall i j a b, l !! i = Some a -> l !! j = Some b ->
                                  p a = true -> p b = true -> i = j).
  { intros i j x y Hi Hj Hx Hy.
    specialize (Hone (S i) (S j) x y Hi Hj Hx Hy). lia. }
  assert (Hfree' : forall a, a ∈ l -> p a = false -> f a <> Some c)
    by (intros x Hx; apply Hfree; now right).
  specialize (IH Hnd' Hone' Hfree').
  cbn [List.map omap list_omap]. destruct (p a) eqn:Ep.
  - rewrite (Hc a Ep).
    assert (Hrest : List.map upd l = l).
    { rewrite <- (List.map_id l) at 2. apply List.map_ext_in. intros x Hx.
      apply Hid. destruct (p x) eqn:Ex; [|reflexivity].
      apply list_elem_of_In, list_elem_of_lookup in Hx as [j Hj].
      specialize (Hone 0 (S j) a x eq_refl Hj Ep Ex). discriminate. }
    rewrite Hrest in *. apply NoDup_cons. split; [|exact Hnd'].
    intros Hin. apply list_elem_of_omap in Hin as (x & Hx & Hfx).
    apply (Hfree' x Hx); [|exact Hfx].
    destruct (p x) eqn:Ex; [|reflexivity].
    apply list_elem_of_lookup in Hx as [j Hj].
    specialize (Hone 0 (S j) a x eq_refl Hj Ep Ex). discriminate.
  - rewrite (Hid a Ep). destruct (f a) as [s|] eqn:Ef; [|exact IH].
    apply NoDup_cons. split; [|exact IH].
    intros Hin. apply (omap_update_elem f upd p c l s Hid Hc) in Hin as [->|Hin].
    + apply (Hfree a); [now left|exact Ep|exact Ef].
    + cbn [omap list_omap] in Hnd. rewrite Ef in Hnd.
      now apply NoDup_cons in Hnd as [Hs _].
Qed.

Lemma currentNormalized_as_read (b : BubbleData.t) :
  currentNormalized b
  = normalizedColumn (NodeData.supabaseColumn (BubbleData.data b)).
Proof.
  rewrite currentNormalized_storedSlot. unfold storedSlot, normalizedColumn.
  destruct (Js.truthy _) as [c|]; [|reflexivity].
  now destruct (parseColumn c) as [[k i]|].
Qed.

(** X14 — A manual assignment never creates a duplicate column: in a
    flow with distinct step ids in which no two steps store the same
    slot, after [handleChangeBubbleColumn] - whatever the request and
    its outcome - still no two steps store the same slot. *)
Theorem manual_assignment_keeps_slots_distinct (nodes : list FlowNode.t)
    (nodeId bubbleId column : string) :
  uniqueBubbleIds nodes ->
  detectDuplicateColumns (getAllBubblesFromFlowNodes nodes) = [] ->
  detectDuplicateColumns
    (getAllBubblesFromFlowNodes
       (snd (handleChangeBubbleColumn nodes nodeId bubbleId column))) = [].
Proof.
  intros Hb Hd. unfold handleChangeBubbleColumn.
  destruct (parseColumn column) as [[kind index]|] eqn:Hp; [|exact Hd]. cbv zeta.
  pose proof (duplicates_spec nodes bubbleId (buildColumn kind index)) as Hdup.
  destruct (List.existsb _ _); [exact Hd|].
  assert (Ht : ~ slotTaken nodes bubbleId (buildColumn kind index))
    by (intros H; apply Hdup in H; discriminate).
  destruct (targetBubble nodes nodeId bubbleId) as [b|] eqn:Etb; [|exact Hd].
  cbn [snd].
  rewrite updateBubble_bubbles by (now apply (unique_step_onlyIn nodes _ _ b)).
  apply no_duplicates_iff. apply no_duplicates_iff in Hd.
  apply (NoDup_omap_update currentNormalized _
           (fun b => bool_decide (BubbleData.id b = bubbleId))
           (buildColumn kind index)).
  - exact Hd.
  - intros i j x y Hi Hj Hx Hy.
    apply bool_decide_eq_true_1 in Hx. apply bool_decide_eq_true_1 in Hy.
    apply (NoDup_lookup _ i j bubbleId Hb).
    + now rewrite list_lookup_fmap, Hi, <- Hx.
    + now rewrite list_lookup_fmap, Hj, <- Hy.
  - intros a Ha. now rewrite Ha.
  - intros a Ha. rewrite Ha.
    apply (currentNormalized_withColumn_in_range
             (BubbleData.mk (BubbleData.id a) (BubbleData.type a) (BubbleData.data b))).
    exact (parseColumn_range column kind index Hp).
  - intros a Hin Ha Hc. apply Ht. exists a. split; [exact Hin|].
    split; [now apply bool_decide_eq_false_1 in Ha|].
    now rewrite <- currentNormalized_as_read.
Qed.

Lemma manual_assignment_keeps_slots_distinct_witness :
  uniqueBubbleIds sequenced
  /\ detectDuplicateColumns (getAllBubblesFromFlowNodes sequenced) = []
  /\ detectDuplicateColumns
       (getAllBubblesFromFlowNodes
          (snd (handleChangeBubbleColumn sequenced "g" "a" " m3"))) = [].
Proof.
  assert (Hb : uniqueBubbleIds sequenced)
    by (apply (bool_decide_eq_true_1 (NoDup _)); vm_compute; reflexivity).
  assert (Hd : detectDuplicateColumns (getAllBubblesFromFlowNodes sequenced) = [])
    by (vm_compute; reflexivity).
  split; [exact Hb|]. split; [exact Hd|].
  exact (manual_assignment_keeps_slots_distinct sequenced "g" "a" " m3" Hb Hd).
Defined.

(** ** Deleting a step *)

Lemma absent_in_group (nodes : list FlowNode.t) (g x : string) :
  uniqueNodeIds nodes -> targetBubble nodes g x = None ->
  Forall (fun n => FlowNode.id n = g -> isGroup n = true ->
                   List.find (fun b => bool_decide (BubbleData.id b = x))
                             (FlowNode.bubblesOrEmpty n) = None)
         nodes.
Proof.
  unfold uniqueNodeIds, targetBubble.
  induction nodes as [|n l IH]; intros Hnd Ht; [constructor|].
  cbn [List.map] in Hnd. apply NoDup_cons in Hnd as [Hn Hl].
  cbn [List.find] in Ht. destruct (bool_decide (FlowNode.id n = g)) eqn:Eg.
  - apply bool_decide_eq_true_1 in Eg. constructor.
    + intros _ Hg. now rewrite Hg in Ht.
    + apply Forall_forall. intros n' Hin E. exfalso. apply Hn.
      rewrite Eg, <- E. apply list_elem_of_fmap. now exists n'.
  - apply bool_decide_eq_false_1 in Eg. constructor; [intros E; contradiction|].
    now apply IH.
Qed.

Lemma filter_keeps_all {A} (p : A -> bool) (l : list A) :
  (forall a, a ∈ l -> p a = true) -> List.filter p l = l.
Proof.
  induction l as [|a l IH]; intros H; [reflexivity|]. cbn [List.filter].
  rewrite (H a) by apply list_elem_of_here. f_equal.
  apply IH. intros a' Ha'. apply H. now apply list_elem_of_further.
Qed.

(** Looking for a step the group does not hold removes nothing and
    captures no column. *)
Lemma remove_missing (nodes : list FlowNode.t) (g x : string) :
  Forall (fun n => FlowNode.id n = g -> isGroup n = true ->
                   List.find (fun b => bool_decide (BubbleData.id b = x))
                             (FlowNode.bubblesOrEmpty n) = None)
         nodes ->
  snd (removeBubble nodes g x) = None
  /\ getAllBubblesFromFlowNodes (List.map (dropNode g x) nodes)
     = getAllBubblesFromFlowNodes nodes.
Proof.
  intros H. split.
  - unfold removeBubble.
    match goal with |- snd (fold_left ?F _ _) = _ => set (f := F) end.
    generalize (@nil FlowNode.t).
    induction H as [|n l Hn _ IH]; intros acc; [reflexivity|].
    cbn [fold_left]. unfold f at 2.
    destruct (negb (bool_decide (FlowNode.id n = g)) || negb (isGroup n))%bool eqn:E;
      [apply IH|].
    apply orb_false_iff in E as [E1 E2].
    apply negb_false_iff in E1, E2. apply bool_decide_eq_true_1 in E1.
    cbv zeta. rewrite (Hn E1 E2). apply IH.
  - unfold getAllBubblesFromFlowNodes.
    induction H as [|n l Hn _ IH]; [reflexivity|].
    cbn [List.map flat_map]. rewrite IH. f_equal.
    unfold dropNode.
    destruct (negb (bool_decide (FlowNode.id n = g)) || negb (isGroup n))%bool eqn:E;
      [reflexivity|].
    apply orb_false_iff in E as [E1 E2].
    apply negb_false_iff in E1, E2. apply bool_decide_eq_true_1 in E1.
    change (FlowNode.type (FlowNode.withBubbles n ?bs)) with (FlowNode.type n).
    destruct (decide (FlowNode.type n = group)); [|reflexivity].
    change (FlowNode.bubblesOrEmpty (FlowNode.withBubbles n ?bs)) with bs.
    apply filter_keeps_all. intros b Hb. apply negb_true_iff.
    destruct (bool_decide (BubbleData.id b = x)) eqn:Eb; [|reflexivity].
    apply list_elem_of_In in Hb.
    pose proof (List.find_none _ _ (Hn E1 E2) b Hb) as Hf. cbv beta in Hf. congruence.
Qed.

(** Whatever [deleteBubble] shifts, the steps left are those of the flow
    without the group's step. *)
Lemma deleteBubble_steps (nodes : list FlowNode.t) (g x : string) :
  List.map eraseColumn (getAllBubblesFromFlowNodes (deleteBubble nodes g x))
  = List.map eraseColumn
      (getAllBubblesFromFlowNodes (List.map (dropNode g x) nodes)).
Proof.
  unfold deleteBubble. pose proof (removeBubble_fst nodes g x) as Hf.
  destruct (removeBubble nodes g x) as [updated dc]. cbn [fst] in Hf. subst updated.
  destruct (Js.truthy dc) as [c|]; [|reflexivity].
  destruct (reorganizeColumnsAfterDeletion _ c) as [u|]; [|reflexivity].
  rewrite getAllBubbles_updates, List.map_map.
  apply List.map_ext. intros b. apply eraseColumn_update.
Qed.

(** X15 — Deleting a step removes that step and nothing else.  In a flow
    with distinct node ids and distinct step ids: when the group holds
    the step, the steps left are the other steps of the flow, in order,
    with their kinds and payloads (only stored columns may be shifted);
    when it does not, the steps are left exactly as they were. *)
Theorem delete_removes_only_the_step (nodes : list FlowNode.t) (g x : string) :
  uniqueNodeIds nodes -> uniqueBubbleIds nodes ->
  let steps' := getAllBubblesFromFlowNodes (deleteBubble nodes g x) in
  match targetBubble nodes g x with
  | Some b =>
      List.map eraseColumn steps'
      = List.map eraseColumn
          (List.filter (fun y => negb (bool_decide (BubbleData.id y = x)))
                       (getAllBubblesFromFlowNodes nodes))
      /\ eraseColumn b :: List.map eraseColumn steps'
         ≡ₚ List.map eraseColumn (getAllBubblesFromFlowNodes nodes)
  | None => steps' = getAllBubblesFromFlowNodes nodes
  end.
Proof.
  intros Hn Hb steps'. destruct (targetBubble nodes g x) as [b|] eqn:Et.
  - assert (E : List.map eraseColumn steps'
                = List.map eraseColumn
                    (List.filter (fun y => negb (bool_decide (BubbleData.id y = x)))
                                 (getAllBubblesFromFlowNodes nodes))).
    { unfold steps'. rewrite deleteBubble_steps.
      now rewrite (getAllBubbles_drop g x nodes (unique_step_onlyIn nodes g x b Hb Et)). }
    split; [exact E|]. rewrite E.
    destruct (targetBubble_spec nodes g x b Et) as (ng & Hng & _ & Hg & Hbx & <-).
    change (eraseColumn b :: List.map eraseColumn ?l)
      with (List.map eraseColumn (b :: l)).
    apply fmap_Permutation, filter_out_one; [exact Hb|].
    now apply (bubble_of_group nodes ng b).
  - destruct (remove_missing nodes g x (absent_in_group nodes g x Hn Et)) as [Hs Hd].
    unfold steps', deleteBubble. pose proof (removeBubble_fst nodes g x) as Hf.
    destruct (removeBubble nodes g x) as [updated dc]. cbn [fst snd] in Hf, Hs.
    subst updated dc. cbn [Js.truthy]. exact Hd.
Qed.

Lemma delete_removes_only_the_step_witness :
  uniqueNodeIds annotated /\ uniqueBubbleIds annotated
  /\ List.map eraseColumn (getAllBubblesFromFlowNodes (deleteBubble annotated "g" "n"))
     = List.map eraseColumn
         (List.filter (fun y => negb (bool_decide (BubbleData.id y = "n")))
                      (getAllBubblesFromFlowNodes annotated)).
Proof.
  assert (Hn : uniqueNodeIds annotated)
    by (apply (bool_decide_eq_true_1 (NoDup _)); vm_compute; reflexivity).
  assert (Hb : uniqueBubbleIds annotated)
    by (apply (bool_decide_eq_true_1 (NoDup _)); vm_compute; reflexivity).
  split; [exact Hn|]. split; [exact Hb|].
  exact (proj1 (delete_removes_only_the_step annotated "g" "n" Hn Hb)).
Defined.

(** ** The time-rule editor: sanitized captions *)

Lemma replaceAll_removes (from to : ascii) (s : string) :
  from <> to -> noChar from (Js.replaceAll from to s) = true.
Proof.
  intros Hne. induction s as [|c s IH]; [reflexivity|].
  cbn [Js.replaceAll noChar]. rewrite IH, andb_true_r. apply negb_true_iff.
  destruct (Ascii.eqb c from) eqn:E; apply Ascii.eqb_neq; [congruence|].
  now apply Ascii.eqb_neq in E.
Qed.

Lemma replaceAll_keeps (c from to : ascii) (s : string) :
  c <> to -> noChar c s = true -> noChar c (Js.replaceAll from to s) = true.
Proof.
  intros Hne. induction s as [|a s IH]; [reflexivity|].
  cbn [Js.replaceAll noChar]. intros H. apply andb_true_iff in H as [Ha Hs].
  rewrite (IH Hs), andb_true_r.
  destruct (Ascii.eqb a from); [|exact Ha].
  apply negb_true_iff, Ascii.eqb_neq. congruence.
Qed.

Lemma replaceAll_clean (from to : ascii) (s : string) :
  noChar from s = true -> Js.replaceAll from to s = s.
Proof.
  induction s as [|a s IH]; [reflexivity|].
  cbn [Js.replaceAll noChar]. intros H. apply andb_true_iff in H as [Ha Hs].
  apply negb_true_iff in Ha. now rewrite Ha, (IH Hs).
Qed.

Lemma replaceLineBreaks_keeps (c : ascii) (inRun : bool) (s : string) :
  c <> " "%char -> noChar c s = true -> noChar c (replaceLineBreaks inRun s) = true.
Proof.
  intros Hne. revert inRun. induction s as [|a s IH]; intros inRun; [reflexivity|].
  cbn [replaceLineBreaks noChar]. intros H. apply andb_true_iff in H as [Ha Hs].
  destruct (Nat.eqb (nat_of_ascii a) 13 || Nat.eqb (nat_of_ascii a) 10)%bool.
  - destruct inRun; [now apply IH|].
    cbn [noChar]. rewrite (IH true Hs), andb_true_r.
    apply negb_true_iff, Ascii.eqb_neq. congruence.
  - cbn [noChar]. now rewrite Ha, (IH false Hs).
Qed.

Lemma replaceLineBreaks_removes (inRun : bool) (s : string) :
  noLineBreak (replaceLineBreaks inRun s) = true.
Proof.
  revert inRun. induction s as [|a s IH]; intros inRun; [reflexivity|].
  cbn [replaceLineBreaks].
  destruct (Nat.eqb (nat_of_ascii a) 13 || Nat.eqb (nat_of_ascii a) 10)%bool eqn:E.
  - destruct inRun; [apply IH|]. cbn [noLineBreak]. now rewrite IH.
  - cbn [noLineBreak]. unfold isLineBreak. now rewrite E, IH.
Qed.

Lemma replaceLineBreaks_clean (inRun : bool) (s : string) :
  noLineBreak s = true -> replaceLineBreaks inRun s = s.
Proof.
  revert inRun. induction s as [|a s IH]; intros inRun; [reflexivity|].
  cbn [replaceLineBreaks noLineBreak]. unfold isLineBreak. intros H.
  apply andb_true_iff in H as [Ha Hs]. apply negb_true_iff in Ha.
  now rewrite Ha, (IH false Hs).
Qed.

(** X16 — A sanitized caption holds none of the characters that break
    the rule grammar - no [;], no [|], no line break - and a caption
    that holds none of them is left as it is; so sanitizing twice is
    sanitizing once. *)
Theorem sanitized_caption_is_safe (caption : string) :
  noChar ";" (sanitizeCaption caption) = true
  /\ noChar "|" (sanitizeCaption caption) = true
  /\ noLineBreak (sanitizeCaption caption) = true
  /\ (noChar ";" caption = true -> noChar "|" caption = true ->
      noLineBreak caption = true -> sanitizeCaption caption = caption)
  /\ sanitizeCaption (sanitizeCaption caption) = sanitizeCaption caption.
Proof.
  assert (H1 : noChar ";" (sanitizeCaption caption) = true).
  { unfold sanitizeCaption. apply replaceLineBreaks_keeps; [discriminate|].
    apply replaceAll_keeps; [discriminate|]. apply replaceAll_removes. discriminate. }
  assert (H2 : noChar "|" (sanitizeCaption caption) = true).
  { unfold sanitizeCaption. apply replaceLineBreaks_keeps; [discriminate|].
    apply replaceAll_removes. discriminate. }
  assert (H3 : noLineBreak (sanitizeCaption caption) = true)
    by apply replaceLineBreaks_removes.
  assert (H4 : forall s, noChar ";" s = true -> noChar "|" s = true ->
                         noLineBreak s = true -> sanitizeCaption s = s).
  { intros s Ha Hb Hc. unfold sanitizeCaption.
    rewrite (replaceAll_clean ";" "," s Ha), (replaceAll_clean "|" "-" s Hb).
    now apply replaceLineBreaks_clean. }
  repeat split; auto.
Qed.

(** ** The time-rule editor: times of day *)

Lemma times_of_day :
  forallb
    (fun hh =>
       forallb
         (fun mm =>
            isValidTime (twoDigits hh ++ ":" ++ twoDigits mm)%string
            && bool_decide
                 (timeToMinutes (twoDigits hh ++ ":" ++ twoDigits mm)%string
                  = Some (minutesOfDay hh mm)))%bool
         (seq 0 60))
    (seq 0 24) = true.
Proof. vm_compute. reflexivity. Qed.

Lemma digit_of_nat (c : ascii) :
  Js.isDigit c = true ->
  exists d, d < 10 /\ c = ascii_of_nat (48 + d) /\ nat_of_ascii c = 48 + d.
Proof.
  unfold Js.isDigit. intros H. apply andb_true_iff in H as [H1 H2].
  apply Nat.leb_le in H1, H2. exists (nat_of_ascii c - 48).
  split; [lia|]. replace (48 + (nat_of_ascii c - 48)) with (nat_of_ascii c) by lia.
  split; [now rewrite ascii_nat_embedding|reflexivity].
Qed.

Lemma two_digits_of (d1 d2 : nat) :
  d1 < 10 -> d2 < 10 ->
  String (ascii_of_nat (48 + d1)) (String (ascii_of_nat (48 + d2)) "")
  = twoDigits (10 * d1 + d2).
Proof.
  intros H1 H2. unfold twoDigits.
  replace ((10 * d1 + d2) / 10) with d1
    by (apply (Nat.div_unique _ 10 d1 d2); lia).
  replace ((10 * d1 + d2) mod 10) with d2
    by (apply (Nat.mod_unique _ 10 d1 d2); lia).
  reflexivity.
Qed.

(** The strings the pattern accepts are the times of day. *)
Lemma isValidTime_spec (time : string) :
  isValidTime time = true <->
  exists hh mm, hh < 24 /\ mm < 60
                /\ time = (twoDigits hh ++ ":" ++ twoDigits mm)%string.
Proof.
  split.
  - unfold isValidTime.
    destruct time as [|h1 [|h2 [|c [|m1 [|m2 [|x r]]]]]]; try discriminate.
    intros H. apply andb_true_iff in H as [H Hm2].
    apply andb_true_iff in H as [H Hm1]. apply andb_true_iff in H as [Hh Hc].
    apply Ascii.eqb_eq in Hc. subst c.
    destruct (digit_of_nat m2 Hm2) as (e2 & He2 & -> & _).
    assert (Hm1' : Js.isDigit m1 = true).
    { unfold Js.isDigit. apply andb_true_iff in Hm1 as [A B].
      apply Nat.leb_le in A, B. apply andb_true_iff.
      split; apply Nat.leb_le; lia. }
    destruct (digit_of_nat m1 Hm1') as (e1 & He1 & Em1 & Nm1).
    assert (He1' : e1 < 6).
    { apply andb_true_iff in Hm1 as [_ B]. apply Nat.leb_le in B. lia. }
    subst m1.
    assert (Hhh : exists d1 d2, d1 < 10 /\ d2 < 10 /\ 10 * d1 + d2 < 24
                                /\ h1 = ascii_of_nat (48 + d1)
                                /\ h2 = ascii_of_nat (48 + d2)).
    { apply orb_true_iff in Hh as [Hh|Hh]; apply andb_true_iff in Hh as [Ha Hb].
      - destruct (digit_of_nat h2 Hb) as (d2 & Hd2 & -> & _).
        apply orb_true_iff in Ha as [Ha|Ha]; apply Ascii.eqb_eq in Ha; subst h1.
        + exists 0, d2. repeat split; try lia; reflexivity.
        + exists 1, d2. repeat split; try lia; reflexivity.
      - apply Ascii.eqb_eq in Ha. subst h1.
        assert (Hb' : Js.isDigit h2 = true).
        { unfold Js.isDigit. apply andb_true_iff in Hb as [A B].
          apply Nat.leb_le in A, B. apply andb_true_iff.
          split; apply Nat.leb_le; lia. }
        destruct (digit_of_nat h2 Hb') as (d2 & Hd2 & E2 & N2).
        apply andb_true_iff in Hb as [_ B]. apply Nat.leb_le in B.
        exists 2, d2. split; [lia|]. split; [lia|]. split; [lia|].
        split; [reflexivity|exact E2]. }
    destruct Hhh as (d1 & d2 & Hd1 & Hd2 & Hlt & -> & ->).
    exists (10 * d1 + d2), (10 * e1 + e2). split; [exact Hlt|]. split; [lia|].
    rewrite <- (two_digits_of d1 d2 Hd1 Hd2), <- (two_digits_of e1 e2) by lia.
    reflexivity.
  - intros (hh & mm & Hh & Hm & ->).
    pose proof times_of_day as H. rewrite forallb_forall in H.
    specialize (H hh ltac:(apply in_seq; lia)). rewrite forallb_forall in H.
    specialize (H mm ltac:(apply in_seq; lia)).
    now apply andb_true_iff in H as [H _].
Qed.

(** X17 — The times the editor accepts are the times of day 00:00 to
    23:59 written with two digits each; such a time counts 60 h + m
    minutes, between 0 and 1439, and any other string counts -1. *)
Theorem valid_times_are_times_of_day (time : string) :
  (isValidTime time = true <->
   exists hh mm, hh < 24 /\ mm < 60
                 /\ time = (twoDigits hh ++ ":" ++ twoDigits mm)%string)
  /\ (forall hh mm, hh < 24 -> mm < 60 ->
        timeToMinutes (twoDigits hh ++ ":" ++ twoDigits mm)%string
        = Some (minutesOfDay hh mm)
        /\ (0 <= minutesOfDay hh mm <= 1439)%Z)
  /\ (isValidTime time = false -> timeToMinutes time = Some (-1)%Z).
Proof.
  split; [apply isValidTime_spec|]. split.
  - intros hh mm Hh Hm.
    pose proof times_of_day as H. rewrite forallb_forall in H.
    specialize (H hh ltac:(apply in_seq; lia)). rewrite forallb_forall in H.
    specialize (H mm ltac:(apply in_seq; lia)).
    apply andb_true_iff in H as [_ H]. apply bool_decide_eq_true_1 in H.
    split; [exact H|]. unfold minutesOfDay. lia.
  - intros H. unfold timeToMinutes. now rewrite H.
Qed.

(** ** The time-rule editor: the verdict on a list of rules *)

Lemma valid_minutes (time : string) :
  isValidTime time = true -> is_Some (timeToMinutes time).
Proof.
  intros H. apply isValidTime_spec in H as (hh & mm & Hh & Hm & ->).
  pose proof times_of_day as H. rewrite forallb_forall in H.
  specialize (H hh ltac:(apply in_seq; lia)). rewrite forallb_forall in H.
  specialize (H mm ltac:(apply in_seq; lia)).
  apply andb_true_iff in H as [_ H]. apply bool_decide_eq_true_1 in H.
  rewrite H. eauto.
Qed.

Lemma numGe_numLt (a b : option Z) :
  is_Some a -> is_Some b -> numGe a b = negb (numLt a b).
Proof. intros [x ->] [y ->]. cbn [numGe numLt]. apply Z.leb_antisym. Qed.

Lemma overlapWarnings_only (timeSlots : list TimeSlot) :
  Forall (fun t => t = RangesOverlap) (overlapWarnings timeSlots).
Proof.
  induction timeSlots as [|a l IH]; [constructor|].
  cbn [overlapWarnings]. apply Forall_app. split; [|exact IH].
  apply Forall_forall. intros t Ht.
  apply list_elem_of_In, List.in_flat_map in Ht as (b & _ & Ht).
  destruct (_ && _)%bool; [|contradiction]. now destruct Ht as [<-|[]].
Qed.

(** The loop over the rules: the flag falls at the first rule at fault,
    and each rule at fault adds one error toast. *)
Lemma validate_loop (rules : list TimeMediaRule.t) (isValid0 : bool)
    (timeSlots0 : list TimeSlot) (toasts0 : list RuleToast) :
  let '(isValid, _, toasts) :=
    fold_left
      (fun '(isValid, timeSlots, toasts) rule =>
         if Js.isEmpty (Js.trim (TimeMediaRule.mediaUrl rule)) then
           (false, timeSlots, toasts ++ [EmptyMediaUrl])
         else if (negb (isValidTime (TimeMediaRule.startTime rule))
                  || negb (isValidTime (TimeMediaRule.endTime rule)))%bool then
           (false, timeSlots, toasts ++ [InvalidTimeFormat])
         else
           let startMinutes := timeToMinutes (TimeMediaRule.startTime rule) in
           let endMinutes := timeToMinutes (TimeMediaRule.endTime rule) in
           if numGe startMinutes endMinutes then
             (false, timeSlots,
              toasts ++ [StartNotBeforeEnd (TimeMediaRule.startTime rule)
                                           (TimeMediaRule.endTime rule)])
           else
             (isValid,
              timeSlots ++ [mkTimeSlot startMinutes endMinutes
                                       (TimeMediaRule.id rule)],
              toasts))
      rules (isValid0, timeSlots0, toasts0) in
  isValid = (isValid0 && forallb acceptableRule rules)%bool
  /\ exists errors,
       toasts = toasts0 ++ errors /\ (RangesOverlap ∉ errors)
       /\ List.length errors
          = List.length (List.filter (fun r => negb (acceptableRule r)) rules).
Proof.
  match goal with |- context [fold_left ?f _ _] => set (F := f) end.
  revert isValid0 timeSlots0 toasts0.
  induction rules as [|r rules IH]; intros isValid0 timeSlots0 toasts0.
  - cbn [fold_left forallb]. split; [now rewrite andb_true_r|].
    exists []. split; [now rewrite app_nil_r|]. split; [apply not_elem_of_nil|reflexivity].
  - cbn [fold_left forallb List.filter]. unfold acceptableRule at 1 3.
    unfold F at 2.
    assert (Hstep : forall t slots,
              RangesOverlap <> t ->
              let '(isValid, _, toasts) :=
                fold_left F rules (false, slots, toasts0 ++ [t]) in
              isValid = false
              /\ exists errors,
                   toasts = toasts0 ++ errors /\ (RangesOverlap ∉ errors)
                   /\ List.length errors
                      = S (List.length
                             (List.filter (fun r => negb (acceptableRule r)) rules))).
    { intros t slots Ht. specialize (IH false slots (toasts0 ++ [t])).
      destruct (fold_left _ rules _) as [[v s] ts].
      destruct IH as [-> (errors & -> & Hno & Hlen)]. split; [reflexivity|].
      exists (t :: errors). split; [now rewrite <- app_assoc|].
      split; [|cbn [List.length]; now rewrite Hlen].
      intros Hin. apply elem_of_cons in Hin as [Hin|Hin]; [now apply Ht|now apply Hno]. }
    destruct (Js.isEmpty (Js.trim (TimeMediaRule.mediaUrl r))) eqn:Eu.
    { cbn [negb andb]. specialize (Hstep EmptyMediaUrl timeSlots0 ltac:(discriminate)).
      destruct (fold_left _ rules _) as [[v s] ts]. destruct Hstep as [-> He].
      split; [now rewrite andb_false_r|exact He]. }
    destruct (isValidTime (TimeMediaRule.startTime r)) eqn:Es.
    2:{ cbn [negb andb orb].
        specialize (Hstep InvalidTimeFormat timeSlots0 ltac:(discriminate)).
        destruct (fold_left _ rules _) as [[v s] ts]. destruct Hstep as [-> He].
        split; [now rewrite andb_false_r|exact He]. }
    destruct (isValidTime (TimeMediaRule.endTime r)) eqn:Ee.
    2:{ cbn [negb andb orb].
        specialize (Hstep InvalidTimeFormat timeSlots0 ltac:(discriminate)).
        destruct (fold_left _ rules _) as [[v s] ts]. destruct Hstep as [-> He].
        split; [now rewrite andb_false_r|exact He]. }
    cbn [negb andb orb]. cbv zeta.
    rewrite (numGe_numLt _ _ (valid_minutes _ Es) (valid_minutes _ Ee)).
    destruct (numLt _ _) eqn:El; cbn [negb].
    + specialize (IH isValid0
                     (timeSlots0
                      ++ [mkTimeSlot (timeToMinutes (TimeMediaRule.startTime r))
                                     (timeToMinutes (TimeMediaRule.endTime r))
                                     (TimeMediaRule.id r)])
                     toasts0).
      destruct (fold_left _ rules _) as [[v s] ts]. exact IH.
    + specialize (Hstep (StartNotBeforeEnd (TimeMediaRule.startTime r)
                                           (TimeMediaRule.endTime r))
                        timeSlots0 ltac:(discriminate)).
      destruct (fold_left _ rules _) as [[v s] ts]. destruct Hstep as [-> He].
      split; [now rewrite andb_false_r|exact He].
Qed.

Lemma valid_time_format (time : string) :
  isValidTime time = true -> validTime time = true.
Proof.
  intros H. apply isValidTime_spec in H as (hh & mm & Hh & Hm & ->).
  assert (Hall : forallb
                   (fun hh =>
                      forallb
                        (fun mm => validTime (twoDigits hh ++ ":" ++ twoDigits mm)%string)
                        (seq 0 60))
                   (seq 0 24) = true) by (vm_compute; reflexivity).
  rewrite forallb_forall in Hall.
  specialize (Hall hh ltac:(apply in_seq; lia)). rewrite forallb_forall in Hall.
  apply Hall. apply in_seq. lia.
Qed.

(** X18 — [validateTimeMediaRules] accepts a list of rules exactly when
    every rule has a media URL that is not blank, a start and an end
    that are times of day, and the start before the end; the empty list
    is accepted, and overlapping ranges are: an accepted list raises
    overlap warnings only.  A refused list raises one error for each
    rule at fault and no warning.  The times of an accepted rule have
    the format the payload codec carries. *)
Theorem validation_accepts_the_sound_rules (rules : list TimeMediaRule.t) :
  fst (validateTimeMediaRules rules) = forallb acceptableRule rules
  /\ (fst (validateTimeMediaRules rules) = true ->
      Forall (fun t => t = RangesOverlap) (snd (validateTimeMediaRules rules)))
  /\ (fst (validateTimeMediaRules rules) = false ->
      (RangesOverlap ∉ snd (validateTimeMediaRules rules))
      /\ List.length (snd (validateTimeMediaRules rules))
         = List.length (List.filter (fun r => negb (acceptableRule r)) rules))
  /\ (forall r, acceptableRule r = true ->
        validTime (TimeMediaRule.startTime r) = true
        /\ validTime (TimeMediaRule.endTime r) = true).
Proof.
  unfold validateTimeMediaRules.
  pose proof (validate_loop rules true [] []) as H.
  destruct (fold_left _ rules _) as [[isValid timeSlots] toasts].
  destruct H as [Hv (errors & Ht & Hno & Hlen)]. cbn [andb app] in Hv, Ht.
  subst toasts. rewrite Hv.
  destruct (forallb acceptableRule rules) eqn:Ea; cbn [negb fst snd].
  - split; [reflexivity|]. split; [|split; [discriminate|]].
    + intros _. apply Forall_app. split; [|apply overlapWarnings_only].
      assert (Hnone : List.filter (fun r => negb (acceptableRule r)) rules = []).
      { apply filter_none. intros r Hr. apply negb_false_iff.
        rewrite forallb_forall in Ea. apply Ea. now apply list_elem_of_In. }
      rewrite Hnone in Hlen. destruct errors; [constructor|discriminate].
    + intros r Hr. unfold acceptableRule in Hr.
      apply andb_true_iff in Hr as [Hr _]. apply andb_true_iff in Hr as [Hr He].
      apply andb_true_iff in Hr as [_ Hs].
      split; now apply valid_time_format.
  - split; [reflexivity|]. split; [discriminate|]. split; [intros _; now split|].
    intros r Hr. unfold acceptableRule in Hr.
    apply andb_true_iff in Hr as [Hr _]. apply andb_true_iff in Hr as [Hr He].
    apply andb_true_iff in Hr as [_ Hs].
    split; now apply valid_time_format.
Qed.
